(* ===== verification/_CoqProject ===== *)
-Q . S2P
Prelude.v
CommitQueue.v
Packet.v
Astikit.v
PacketCodec.v
Codec.v
Demuxer.v
PacketSpec.v
DvbTime.v
Descriptor.v
DescriptorParse.v
DescriptorWrite.v
Pmt.v
Crc32.v
Tables.v
Psi.v
SampleAes.v
PesHandler.v
PesQueue.v
Audio.v
Frames.v
Aac.v
Ac3.v
Eac3.v
Ebsp.v
Avc.v
AvcNal.v
AvcParse.v
AvcStream.v
AvcReceiver.v
PesCollector.v
Packetizer.v
PacketizerSpec.v
Output.v
OutputSpec.v
PsiCollector.v
PmtTransformer.v
MediaStream.v
Remuxer.v
Sample.v
Effects.v
RemuxerSpec.v
Safety.v
EncryptSpec.v
PsiSpec.v
Halts.v
StreamHalts.v
Termination.v
DvbSpec.v
DescriptorSpec.v
DeliverySpec.v
DescriptorRoundTrip.v
SectionSpec.v
PsiPacket.v
PmtSpec.v
PesData.v
PesDataSpec.v
PacketPool.v
DataDemuxer.v
Muxer.v
MuxerSpec.v
PoolSpec.v
DemuxSpec.v
MuxDemux.v
MuxTables.v
