(* ===== verification/Prelude.v ===== *)
(** * Verification of mpegenc

    mpegenc encrypts MPEG transport streams with SAMPLE-AES.  This library models
    the Go program under src/ as functions in a state-and-error monad and proves
    what makes each part correct.

    ** The program

    [Encrypt] (ts/encrypt.go) reads packets of 188 bytes and gives them to the
    remuxer (ts/remuxer.go).  The remuxer reserves a slot of the output assembler
    for every packet and routes it by PID: the PAT and unknown PIDs go to their
    slot unchanged; the PMT goes to the PMT transformer; the packets of a media
    stream go through a pipeline - PES collector, codec transformer, aligner with
    a TS packetizer - which sends back the slots it completes.  A transformer
    signals a patch for the PMT once it knows its codec setup; the PMT is held
    until no patch is missing.  The assembler (a commit queue) writes completed
    slots in input order.  Below lies internal/go-astits: packets, descriptors,
    PSI sections, PES packets, with a muxer and a demuxer of their own.

    ** The files, and the sources they model

    - Prelude (this file): outcomes, the monad [M], loops with fuel, fixed-width
      integers, bytes, generic lemmas and tactics.
    - CommitQueue: internal/utils/commit_queue.go; with its refinement of an
      abstract queue ([view]) and its histories.
    - Packet, PacketCodec, PacketSpec: internal/go-astits/packet.go and
      clock_reference.go; data, codec, wire format and round trip.  Astikit holds
      the interfaces of the go-astikit library (byte iterator, bits writer) as
      classes with their laws, and reference instances.  Codec is the calculus
      [writes]/[reads] of all round trips.
    - DvbTime, Descriptor, DescriptorParse, DescriptorWrite: dvb.go and
      descriptor.go.  DvbSpec, DescriptorSpec, DeliverySpec, DescriptorRoundTrip:
      wire formats and round trips.
    - Pmt, Tables, Psi, Crc32: data_{pat,pmt,nit,sdt,tot,eit,psi}.go, crc32.go and
      crc32_table.go.  SectionSpec, PsiPacket: sections round trip and replace
      the payload of a packet.
    - SampleAes: sampleaes/.  CBC is modelled, the AES block function is a
      parameter.
    - PesHandler: the interfaces packets.PESHandler and pmtsignal.Signal, and the
      logic [emits] of calls that act on them.  PesQueue, Audio, Frames: what the
      codec packages share.  Aac, Ac3, Eac3: ts/codecs/{aac,ac3,eac3}.  Ebsp, Avc,
      AvcNal, AvcParse, AvcStream, AvcReceiver: ts/codecs/avc.
    - PesCollector: ts/packets/pes.go.  Packetizer, PacketizerSpec:
      ts/internal/mux/ts_packetizer.go.  Output, OutputSpec: ts/output.go.
    - PsiCollector, PsiSpec: ts/internal/packets/{psi,pat,pmt}.go.
      PmtTransformer, PmtSpec: ts/pmt_transformer.go.  MediaStream:
      ts/media_stream.go and ts/internal/transformer/factory.go.
    - Demuxer: packetBuffer.next and Demuxer.NextPacket as [Encrypt] uses them.
      Remuxer: ts/remuxer.go and ts/encrypt.go.  Sample: a stream to run it on.
      Effects, RemuxerSpec, EncryptSpec: order of the output and pass-through.
      Safety: parsers neither panic nor loop.  Halts, StreamHalts, Termination:
      [Encrypt] ends.
    - PesData, PesDataSpec: data_pes.go.  PacketPool, PoolSpec: program_map.go,
      packet_pool.go and data.go.  DataDemuxer, DemuxSpec: demuxer.go and
      packet_buffer.go whole.  Muxer, MuxerSpec: muxer.go, wrapping_counter.go.
      MuxDemux, MuxTables: the demuxer reads what the muxer writes.

    A Go struct is a record, a method a function in [M] over the state it can
    change ([on_fst], [on_snd] and their like lift calls on parts of it), an
    interface a class.  Maps are [gmap]; Go's unspecified order of visits is a
    parameter ([order], [visit]).  Error values keep their constant text and their
    cause, not formatted arguments.

    ** What is shown

    - The program: every input packet gets one slot, written in input order
      (RemuxerSpec); streams without a PAT come out byte for byte (EncryptSpec);
      [Encrypt] ends on every finite input, cancelled or failing (Termination).
    - The codecs: whole streams, however cut into calls, become the reference
      stream with the same packets, and an independent receiver decrypts them.
    - The plumbing: collector, packetizer, aligner, commit queue, PSI collectors
      and PMT transformer refine or satisfy specifications stated apart from them.
    - The formats: packets, sections, descriptors, times and PES packets round
      trip; parsers are safe on arbitrary bytes; the CRC is polynomial division.
    - The library: what the muxer writes, data and tables, the demuxer gives back;
      the packet pool keeps packets in order, each unit with consecutive counters.

    ** Panics, fuel and bounds

    A run-time panic is the outcome [Fail Panic].  [index], [subslice] and [must]
    panic out of range; they are used where the checks are at stake: the PSI
    collectors, the PMT, the aligner, the byte iterator, queues and maps.
    [byte_at] and [slice] are total, and render reads that follow a check of the
    length in the same function.  A Go loop without a structural bound is [iter]
    with fuel computed from the state, as the comment at each says; running out is
    [Fail OutOfFuel], which is shown impossible: Halts and StreamHalts for every
    loop under [Encrypt], PsiSpec and Safety for the parsers, PoolSpec, MuxDemux and
    MuxTables for the demuxer and the muxer.  [Encrypt] itself takes the number of
    packets as fuel; any number above the reads that the input can answer gives the
    same result.  Integers wrap at their width ([u8], [u16], [u64], ...) where the code
    can reach it.

    ** What is not modelled

    pools.go (scratch slices, written whole before they are read), the generator of
    the CRC table, the logger, the check of the assembler for a nil writer (it
    always has one), locks (each object is used by one goroutine).  The standard
    library and go-astikit appear as their documented behaviour. *)

From Stdlib Require Export ZArith Lia.
From stdpp Require Export base numbers list strings gmap option tactics.
From stdpp Require Export list_basics list_relations list_monad list.

(** ** Go errors and outcomes *)

(** An [error] value: [fmt.Errorf] with a constant message, or with a message
    and a wrapped cause ([%w]).  Formatted arguments are not kept. *)
Inductive goerror :=
  | Errorf (msg : string)
  | Wrapf (msg : string) (cause : goerror).

#[export] Instance goerror_eq_dec : EqDecision goerror.
Proof. solve_decision. Defined.

(** How a call may fail to return normally: with a non-nil error, by a run-time
    panic, or because the fuel of a modelled loop was exhausted (proved
    impossible for each loop). *)
Inductive failure :=
  | Err (e : goerror)
  | Panic
  | OutOfFuel.

Inductive outcome (A : Type) :=
  | Ok (a : A)
  | Fail (f : failure).
Arguments Ok {A} a.
Arguments Fail {A} f.

#[export] Instance failure_eq_dec : EqDecision failure.
Proof. solve_decision. Defined.

#[export] Instance outcome_eq_dec `{EqDecision A} : EqDecision (outcome A).
Proof. solve_decision. Defined.

Definition is_ok {A} (o : outcome A) : bool :=
  match o with Ok _ => true | Fail _ => false end.

(** ** The state-and-error monad

    State is kept when a call fails: Go returns an error value and leaves every
    mutation made so far in place. *)
Definition M (S A : Type) : Type := S -> outcome A * S.

#[export] Instance M_ret {S} : MRet (M S) := fun A a s => (Ok a, s).
#[export] Instance M_bind {S} : MBind (M S) := fun A B k m s =>
  match m s with
  | (Ok a, s') => k a s'
  | (Fail f, s') => (Fail f, s')
  end.

Section Operations.
Context {S : Type}.

Definition fail {A} (f : failure) : M S A := fun s => (Fail f, s).
Definition fail_with {A} (e : goerror) : M S A := fail (Err e).
Definition errorf {A} (msg : string) : M S A := fail_with (Errorf msg).
Definition panic {A} : M S A := fail Panic.

(** [if b { return fmt.Errorf(msg) }] *)
Definition fail_if (b : bool) (msg : string) : M S unit :=
  if b then errorf msg else mret tt.

(** [if b { m }] *)
Definition when (b : bool) (m : M S unit) : M S unit :=
  if b then m else mret tt.

Definition get : M S S := fun s => (Ok s, s).
Definition gets {A} (f : S -> A) : M S A := fun s => (Ok (f s), s).
Definition modify (f : S -> S) : M S unit := fun s => (Ok tt, f s).

(** A value that indexing would read: Go panics when it is absent. *)
Definition must {A} (o : option A) : M S A :=
  match o with Some a => mret a | None => panic end.

(** [if err := m; err != nil { return fmt.Errorf("msg: %w", err) }] *)
Definition wrap_err {A} (msg : string) (m : M S A) : M S A := fun s =>
  match m s with
  | (Fail (Err e), s') => (Fail (Err (Wrapf msg e)), s')
  | r => r
  end.

(** [if err := m; err != nil { cleanup; return err }] *)
Definition on_err {A} (cleanup : S -> S) (m : M S A) : M S A := fun s =>
  match m s with
  | (Fail (Err e), s') => (Fail (Err e), cleanup s')
  | r => r
  end.

(** A [for] loop over local variables [a]: each round either continues with
  new locals or returns. *)
Fixpoint iter {A B} (fuel : nat) (step : A -> M S (A + B)) (a : A) : M S B :=
  match fuel with
  | O => fail OutOfFuel
  | Datatypes.S n => r ← step a;
      match r with
      | inl a' => iter n step a'
      | inr b => mret b
      end
  end.

(** [for _, x := range xs { f x }] *)
Fixpoint for_each {A} (f : A -> M S unit) (xs : list A) : M S unit :=
  match xs with
  | [] => mret tt
  | x :: xs => f x;; for_each f xs
  end.
End Operations.

(** Running a method of a component inside a larger state. *)
Definition on_fst {S W A} (m : M S A) : M (S * W) A := fun '(s, w) =>
  let '(r, s') := m s in (r, (s', w)).
Definition on_snd {S W A} (m : M W A) : M (S * W) A := fun '(s, w) =>
  let '(r, w') := m w in (r, (s, w')).

(** Pure fallible computations. *)
#[export] Instance outcome_ret : MRet outcome := @Ok.
#[export] Instance outcome_bind : MBind outcome := fun A B k o =>
  match o with Ok a => k a | Fail f => Fail f end.

Lemma outcome_assoc {A B C} (o : outcome A) (k : A -> outcome B) (h : B -> outcome C) :
  (o ≫= k) ≫= h = o ≫= (fun a => k a ≫= h).
Proof. by destruct o. Qed.

Lemma outcome_ext {A B} (o : outcome A) (k k' : A -> outcome B) :
  (forall a, k a = k' a) -> o ≫= k = o ≫= k'.
Proof. destruct o; [|done]. intros Hk. apply Hk. Qed.

Definition lift {S A} (o : outcome A) : M S A := fun s => (o, s).

(** [if b { x = m }] for a pointer or slice field that stays nil otherwise. *)
Definition optionally {S A} (b : bool) (m : M S A) : M S (option A) :=
  if b then a ← m; mret (Some a) else mret None.

(** ** Rewriting with the equations of the monad *)
Section Equations.
Context {S : Type}.

Lemma bind_unfold {A B} (m : M S A) (k : A -> M S B) s :
  (m ≫= k) s = match m s with
               | (Ok a, s') => k a s'
               | (Fail f, s') => (Fail f, s')
               end.
Proof. done. Qed.

Lemma bind_ok {A B} (m : M S A) (k : A -> M S B) s a s1 :
  m s = (Ok a, s1) -> (m ≫= k) s = k a s1.
Proof. intros H. by rewrite bind_unfold, H. Qed.

Lemma bind_fail {A B} (m : M S A) (k : A -> M S B) s f s1 :
  m s = (Fail f, s1) -> (m ≫= k) s = (Fail f, s1).
Proof. intros H. by rewrite bind_unfold, H. Qed.

Lemma bind_Ok_inv {A B} (m : M S A) (k : A -> M S B) s b s' :
  (m ≫= k) s = (Ok b, s') ->
  exists a s1, m s = (Ok a, s1) /\ k a s1 = (Ok b, s').
Proof.
  rewrite bind_unfold. destruct (m s) as [[a|f] s1]; [eauto|done].
Qed.

Lemma bind_assoc {A B C} (m : M S A) (k : A -> M S B) (h : B -> M S C) s :
  ((m ≫= k) ≫= h) s = (m ≫= (fun a => k a ≫= h)) s.
Proof. rewrite !bind_unfold. by destruct (m s) as [[a|f] s1]. Qed.

Lemma bind_ext {A B} (m : M S A) (k k' : A -> M S B) s :
  (forall a s', k a s' = k' a s') -> (m ≫= k) s = (m ≫= k') s.
Proof. intros H. rewrite !bind_unfold. by destruct (m s) as [[a|f] s1]. Qed.

Lemma bind_ret {A B} (a : A) (k : A -> M S B) s : (mret a ≫= k) s = k a s.
Proof. done. Qed.

Lemma bind_fail_with {A B} (e : goerror) (k : A -> M S B) s :
  (fail_with e ≫= k) s = fail_with e s.
Proof. done. Qed.

Lemma wrap_err_ok {A} msg (m : M S A) s a s' :
  wrap_err msg m s = (Ok a, s') <-> m s = (Ok a, s').
Proof. unfold wrap_err. destruct (m s) as [[?|[]] ?]; naive_solver. Qed.

Lemma fail_if_Ok b msg (s s' : S) u :
  fail_if b msg s = (Ok u, s') <-> b = false /\ s' = s.
Proof.
  unfold fail_if, errorf, fail_with, fail. destruct u, b; cbn.
  - split; [discriminate | intros [? _]; discriminate].
  - split; [by intros [= ->] | by intros [_ ->]].
Qed.

Lemma iter_S {A B} n (step : A -> M S (A + B)) a s :
  iter (Datatypes.S n) step a s =
  match step a s with
  | (Ok (inl a'), s') => iter n step a' s'
  | (Ok (inr b), s') => (Ok b, s')
  | (Fail f, s') => (Fail f, s')
  end.
Proof.
  cbn [iter]. rewrite bind_unfold. by destruct (step a s) as [[[]|] ?].
Qed.

Lemma for_each_app {A} (f : A -> M S unit) xs ys s :
  for_each f (xs ++ ys) s = (for_each f xs;; for_each f ys) s.
Proof.
  revert s. induction xs as [|x xs IH]; intros s; [done|]. cbn [for_each app].
  rewrite bind_assoc, !bind_unfold. destruct (f x s) as [[]]; [|done].
  apply IH.
Qed.
End Equations.

(** Total correctness of a loop: an invariant and a variant bounded by the
    fuel.  The postcondition speaks of every outcome, so a loop that satisfies
    a postcondition excluding [OutOfFuel] terminates. *)
Lemma iter_rule {S A B} (I : A -> S -> Prop) (var : A -> S -> nat)
    (Q : outcome B -> S -> Prop) (step : A -> M S (A + B)) :
  (forall a s, I a s ->
    match step a s with
    | (Ok (inl a'), s') => I a' s' /\ var a' s' < var a s
    | (Ok (inr b), s') => Q (Ok b) s'
    | (Fail f, s') => Q (Fail f) s'
    end) ->
  forall n a s, I a s -> var a s < n ->
    let '(r, s') := iter n step a s in Q r s'.
Proof.
  intros Hstep n. induction n as [|n IH]; intros a s HI Hn; [lia|].
  rewrite iter_S. specialize (Hstep a s HI).
  destruct (step a s) as [[[a'|b]|f] s']; [|done..].
  destruct Hstep as [HI' Hv]. apply (IH a' s' HI'). lia.
Qed.

Lemma iter_ext {S A B} (step step' : A -> M S (A + B)) n a s :
  (forall a s, step a s = step' a s) -> iter n step a s = iter n step' a s.
Proof.
  intros Hs. revert a s. induction n as [|n IH]; intros a s; [done|].
  rewrite !iter_S, Hs. by destruct (step' a s) as [[[]|] ?].
Qed.

(** More fuel does not change a loop that has not run out of it. *)
Lemma iter_fuel_mono {S A B} (step : A -> M S (A + B)) n m a s r s' :
  iter n step a s = (r, s') -> r <> Fail OutOfFuel -> n <= m ->
  iter m step a s = (r, s').
Proof.
  revert m a s. induction n as [|n IH]; intros m a s H Hr Hle.
  - by injection H as <- <-.
  - destruct m as [|m]; [lia|]. rewrite iter_S in H |- *.
    destruct (step a s) as [[[a'|b]|f] s1]; [|done..].
    apply IH; [done..|lia].
Qed.

(** ** Fixed-width integers *)
Definition u8 (x : Z) : Z := (x `mod` 2 ^ 8)%Z.
Definition u16 (x : Z) : Z := (x `mod` 2 ^ 16)%Z.
Definition u32 (x : Z) : Z := (x `mod` 2 ^ 32)%Z.
Definition u64 (x : Z) : Z := (x `mod` 2 ^ 64)%Z.

Lemma u8_small x : (0 <= x < 256 -> u8 x = x)%Z.
Proof. apply Z.mod_small. Qed.
Lemma u16_small x : (0 <= x < 65536 -> u16 x = x)%Z.
Proof. apply Z.mod_small. Qed.
Lemma u32_small x : (0 <= x < 2 ^ 32 -> u32 x = x)%Z.
Proof. apply Z.mod_small. Qed.
Lemma u64_small x : (0 <= x < 2 ^ 64 -> u64 x = x)%Z.
Proof. apply Z.mod_small. Qed.
Lemma u8_range x : (0 <= u8 x < 256)%Z.
Proof. by apply Z.mod_pos_bound. Qed.

(** ** Bytes *)
Definition is_byte (b : Z) : Prop := (0 <= b < 256)%Z.

#[export] Instance is_byte_dec b : Decision (is_byte b).
Proof. unfold is_byte. apply _. Defined.

Definition bytes_ok : list Z -> Prop := Forall is_byte.

(** Reading a byte of a slice whose bounds the code has checked. *)
Definition byte_at (l : list Z) (i : nat) : Z := default 0%Z (l !! i).

Lemma byte_at_app (l more : list Z) i : i < length l -> byte_at (l ++ more) i = byte_at l i.
Proof. intros. unfold byte_at. by rewrite lookup_app_l. Qed.

(** Testing a mask: [b & mask > 0] *)
Definition masked (b mask : Z) : bool := (0 <? Z.land b mask)%Z.

Definition slice {A} (l : list A) (i j : nat) : list A := take (j - i) (drop i l).

Lemma length_slice {A} (l : list A) i j :
  i <= j <= length l -> length (slice l i j) = j - i.
Proof. intros. unfold slice. rewrite length_take, length_drop. lia. Qed.

(** [l[i]] and [l[i:j]] where the code's own checks are what keeps them in range:
    they panic outside the slice.  (Go lets [l[i:j]] reach into the capacity of
    [l], so the panic of [subslice] comes no later than the one of Go.) *)
Definition index {S} (l : list Z) (i : nat) : M S Z := must (l !! i).
Definition subslice {S A} (l : list A) (i j : nat) : M S (list A) :=
  if (i <=? j) && (j <=? length l) then mret (slice l i j) else panic.

Lemma index_in {S} (l : list Z) i (s : S) : i < length l -> index l i s = (Ok (byte_at l i), s).
Proof. intros [x E]%lookup_lt_is_Some_2. unfold index, byte_at. by rewrite E. Qed.

Lemma subslice_in {S A} (l : list A) i j (s : S) : i <= j -> j <= length l ->
  subslice l i j s = (Ok (slice l i j), s).
Proof. intros Hi Hj. unfold subslice. by rewrite !(proj2 (Nat.leb_le _ _)). Qed.

Lemma index_Ok {S} (l : list Z) i (s s' : S) b : index l i s = (Ok b, s') -> l !! i = Some b /\ s' = s.
Proof. unfold index. destruct (l !! i); [by intros [= <- <-]|done]. Qed.

Lemma subslice_Ok {S A} (l l' : list A) i j (s s' : S) : subslice l i j s = (Ok l', s') -> l' = slice l i j /\ s' = s.
Proof. unfold subslice. destruct (_ && _); [by intros [= <- <-]|done]. Qed.

Lemma slice_end {A} (l : list A) i : slice l i (length l) = drop i l.
Proof. unfold slice. apply take_ge. by rewrite length_drop. Qed.

Lemma slice_start {A} (l : list A) j : slice l 0 j = take j l.
Proof. unfold slice. by rewrite Nat.sub_0_r. Qed.

(** [copy(dst[i:], src)]: overwrites at most [length dst - i] elements. *)
Definition copy_at {A} (dst : list A) (i : nat) (src : list A) : list A :=
  take i dst ++ take (length dst - i) src
    ++ drop (i + length (take (length dst - i) src)) dst.

Lemma length_copy_at {A} (dst src : list A) i :
  i <= length dst -> length (copy_at dst i src) = length dst.
Proof.
  intros. unfold copy_at. rewrite !length_app, !length_take, length_drop. lia.
Qed.

Lemma take_copy_at {A} (dst src : list A) i n :
  i <= length dst -> n = i + min (length dst - i) (length src) ->
  take n (copy_at dst i src) = take i dst ++ take (length dst - i) src.
Proof.
  intros Hi ->. unfold copy_at. rewrite app_assoc, take_app_le.
  - rewrite take_ge; [done|]. rewrite length_app, !length_take. lia.
  - rewrite length_app, !length_take. lia.
Qed.

Create Rewrite HintDb lens.
#[export] Hint Rewrite @length_app @length_take @length_drop @length_nil
  @length_cons @length_replicate @length_insert : lens.

(** Decides goals on list lengths. *)
Ltac llia := autorewrite with lens in *; lia.

(** ** Tactics *)

(** A closed decidable proposition, by evaluating its decision. *)
Ltac by_decide := apply (bool_decide_unpack _); vm_compute; exact Logic.I.

(** Destructs the result of the monadic call at the head of the goal. *)
Ltac case_call :=
  match goal with
  | |- context [match ?m with (_, _) => _ end] =>
      let E := fresh "E" in destruct m as [[?|?] ?] eqn:E
  end.

(** Splits a hypothesis about a successful sequence of calls. *)
Ltac inv_ok H :=
  repeat match type of H with
  | (_ ≫= _) _ = (Ok _, _) =>
      let a := fresh "a" in let s := fresh "s" in let E := fresh "E" in
      apply bind_Ok_inv in H as (a & s & E & H)
  end.

(** Splits the boolean comparisons of naturals that decide a definition. *)
Ltac case_nat :=
  match goal with
  | |- context [if ?a <? ?b then _ else _] => destruct (Nat.ltb_spec a b)
  | H : context [if ?a <? ?b then _ else _] |- _ => destruct (Nat.ltb_spec a b)
  end.

Lemma mod_div_mul n k : k <> 0 -> n / k * k mod k = 0.
Proof. intros. by apply Nat.Div0.mod_mul. Qed.

Lemma div_mul_le n k : n / k * k <= n.
Proof. rewrite Nat.mul_comm. apply Nat.Div0.mul_div_le. Qed.
