(* ===== verification/CommitQueue.v ===== *)
(** * internal/utils/commit_queue.go: the ordered commit queue

    [CommitQueue] hands out tokens in order, accepts values for them in any
    order and drains them in token order.  The file models every method, the
    compaction of the slot array included, states the abstract queue it
    implements (a first token and the slots from there on) and proves the
    refinement and the global order of what is written. *)

From S2P Require Import Prelude.

Section Queue.
Context {T : Type} (zero : T).

(** ** Data *)
Record commitSlot := CommitSlot { value : T; ready : bool }.

(** [head], a Go int that indexes [slots], is a [nat]; tokens are uint64. *)
Record CommitQueue := Queue {
  slots : list commitSlot;
  head : nat;
  first : Z;
  next : Z;
  }.

(** The zero value [CommitQueue[T]{}]. *)
Definition empty_queue : CommitQueue :=
  {| slots := []; head := 0; first := 0; next := 0 |}.

(** ** Operations *)
Definition push (s : commitSlot) : M CommitQueue Z :=
  token ← gets next;
  modify (fun q => {| slots := slots q ++ [s]; head := head q;
                      first := first q; next := u64 (next q + 1) |});;
  mret token.

Definition Reserve : M CommitQueue Z := push {| value := zero; ready := false |}.

Definition ReserveWith (v : T) : M CommitQueue Z :=
  push {| value := v; ready := false |}.

Definition set_slot (i : nat) (s : commitSlot) (q : CommitQueue) : CommitQueue :=
  {| slots := <[i := s]> (slots q); head := head q; first := first q; next := next q |}.

Definition PushReady (v : T) : M CommitQueue Z :=
  token ← Reserve;
  modify (fun q => set_slot (length (slots q) - 1) {| value := v; ready := true |} q);;
  mret token.

(** The slot of a pending token: the checks [Peek] and [Commit] share. *)
Definition pending_slot (token : Z) : M CommitQueue (nat * commitSlot) :=
  q ← get;
  fail_if ((token <? first q)%Z || (next q <=? token)%Z)
    "commit queue: token is not pending";;
  let i := head q + Z.to_nat (token - first q) in
  slot ← must (slots q !! i);
  fail_if (ready slot) "commit queue: token is already committed";;
  mret (i, slot).

Definition Peek (token : Z) : M CommitQueue T :=
  s ← pending_slot token; mret (value s.2).

Definition Commit (token : Z) (v : T) : M CommitQueue unit :=
  s ← pending_slot token;
  modify (set_slot s.1 {| value := v; ready := true |}).

Definition Len (q : CommitQueue) : nat := length (slots q) - head q.

Definition compact (q : CommitQueue) : CommitQueue :=
  if decide (head q = 0) then q
  else if decide (head q = length (slots q)) then
    {| slots := []; head := 0; first := first q; next := next q |}
  else if decide (head q * 2 < length (slots q)) then q
  else
    let src := drop (head q) (slots q) in
    let pending := min (length (slots q)) (length src) in
    {| slots := take pending (copy_at (slots q) 0 src); head := 0;
       first := first q; next := next q |}.

(** Whether the slot at [head] exists and is ready. *)
Definition head_ready (q : CommitQueue) : bool :=
  match slots q !! head q with Some s => ready s | None => false end.

(** [slot.value = zero; q.head++; q.first++] *)
Definition advance (q : CommitQueue) : CommitQueue :=
  let slot := default {| value := zero; ready := false |} (slots q !! head q) in
  {| slots := <[head q := {| value := zero; ready := ready slot |}]> (slots q);
     head := head q + 1; first := u64 (first q + 1); next := next q |}.

(** One round of the loop of [Drain]; the callback acts on a state [W]. *)
Definition Drain_step {W} (write : T -> M W unit) (_ : unit) :
    M (CommitQueue * W) (unit + unit) :=
  q ← on_fst get;
  if head_ready q then
    slot ← on_fst (must (slots q !! head q));
    on_err (fun '(q, w) => (compact q, w)) (on_snd (write (value slot)));;
    on_fst (modify advance);; mret (inl tt)
  else
    on_fst (modify compact);; mret (inr tt).

(** The fuel: every round moves [head] past one slot. *)
Definition Drain {W} (write : T -> M W unit) : M (CommitQueue * W) unit := fun s =>
  iter (Len s.1 + 1) (Drain_step write) tt s.

(** ** The abstract queue *)

(** What a client sees: the first undrained token and the slots from it on. *)
Record spec := Spec { sfirst : Z; spending : list commitSlot }.

Definition view (q : CommitQueue) : spec :=
  {| sfirst := first q; spending := drop (head q) (slots q) |}.

Definition spec_next (a : spec) : Z := (sfirst a + Z.of_nat (length (spending a)))%Z.

Definition wf (q : CommitQueue) : Prop :=
  head q <= length (slots q) /\ (0 <= first q)%Z
  /\ next q = spec_next (view q) /\ (next q < 2 ^ 64)%Z.

Definition spec_push (s : commitSlot) (a : spec) : spec :=
  {| sfirst := sfirst a; spending := spending a ++ [s] |}.

Definition spec_lookup (t : Z) (a : spec) : option commitSlot :=
  if decide (sfirst a <= t)%Z then spending a !! Z.to_nat (t - sfirst a) else None.

Definition spec_commit (t : Z) (v : T) (a : spec) : spec :=
  {| sfirst := sfirst a;
     spending := <[Z.to_nat (t - sfirst a) := {| value := v; ready := true |}]>
                   (spending a) |}.

(** The longest ready prefix, and what remains once it is written. *)
Fixpoint ready_prefix (l : list commitSlot) : list T :=
  match l with
  | s :: l => if ready s then value s :: ready_prefix l else []
  | [] => []
  end.

Definition spec_drop (n : nat) (a : spec) : spec :=
  {| sfirst := (sfirst a + Z.of_nat n)%Z; spending := drop n (spending a) |}.

(** ** Lemmas *)
Lemma wf_empty : wf empty_queue.
Proof. by repeat split. Qed.

Lemma view_compact q : head q <= length (slots q) -> view (compact q) = view q.
Proof.
  intros Hh. unfold compact, view. repeat case_decide; cbn [slots head first]; try done.
  - by rewrite drop_nil, drop_ge by lia.
  - f_equal. rewrite drop_0, length_drop, Nat.min_r by lia. unfold copy_at.
    rewrite take_0, app_nil_l, Nat.sub_0_r, (take_ge (drop (head q) (slots q)) (length (slots q))) by llia.
    rewrite take_app_le by llia. apply take_ge. llia.
Qed.

Lemma wf_compact q : wf q -> wf (compact q).
Proof.
  intros (Hh & Hf & Hn & Hb).
  assert (first (compact q) = first q /\ next (compact q) = next q) as [Ef En].
  { unfold compact. by repeat case_decide. }
  unfold wf. rewrite view_compact, Ef, En by done. repeat split; try done.
  unfold compact. repeat case_decide; cbn; lia.
Qed.

Lemma Len_view q : Len q = length (spending (view q)).
Proof. unfold Len. cbn. by rewrite length_drop. Qed.

Lemma spending_lookup q i : spending (view q) !! i = slots q !! (head q + i).
Proof. apply lookup_drop. Qed.

Lemma push_refines s q : wf q -> (next q + 1 < 2 ^ 64)%Z ->
  exists q', push s q = (Ok (next q), q') /\ wf q'
    /\ view q' = spec_push s (view q).
Proof.
  intros (Hh & Hf & Hn & Hb) Hlt. eexists. split; [done|].
  assert (Hv : drop (head q) (slots q ++ [s]) = drop (head q) (slots q) ++ [s])
    by (by apply drop_app_le).
  unfold wf, spec_next, view, spec_push in *. cbn in *. rewrite Hv.
  rewrite u64_small by lia. repeat split; llia.
Qed.

Lemma wf_next q : wf q -> next q = (first q + Z.of_nat (length (slots q) - head q))%Z.
Proof.
  intros (_ & _ & Hn & _). rewrite Hn. unfold spec_next. cbn. by rewrite length_drop.
Qed.

Lemma pending_slot_spec t q : wf q ->
  pending_slot t q =
    match spec_lookup t (view q) with
    | None => (Fail (Err (Errorf "commit queue: token is not pending")), q)
    | Some s => if ready s
        then (Fail (Err (Errorf "commit queue: token is already committed")), q)
        else (Ok (head q + Z.to_nat (t - first q), s), q)
    end.
Proof.
  intros Hwf. pose proof (wf_next q Hwf) as Hn. destruct Hwf as (Hh & Hf & _ & _).
  unfold pending_slot, spec_lookup. cbn [sfirst view].
  rewrite bind_unfold. cbn [get]. rewrite bind_unfold. unfold fail_if.
  case_decide as Ht.
  - rewrite (proj2 (Z.ltb_ge _ _)) by lia. cbn [orb].
    destruct (Z.leb_spec (next q) t).
    + rewrite spending_lookup, lookup_ge_None_2 by lia.
      done.
    + cbn [mret M_ret].
      rewrite <- spending_lookup.
      destruct (spending (view q) !! Z.to_nat (t - first q)) as [s|] eqn:E.
      * rewrite bind_unfold. cbn. by destruct (ready s).
      * apply lookup_ge_None_1 in E. cbn in E. rewrite length_drop in E. lia.
  - rewrite (proj2 (Z.ltb_lt _ _)) by lia. done.
Qed.

Lemma head_ready_view q :
  head_ready q = match spending (view q) with s :: _ => ready s | [] => false end.
Proof.
  unfold head_ready, view. cbn [spending].
  rewrite <- (Nat.add_0_r (head q)) at 1. rewrite <- lookup_drop.
  by destruct (drop (head q) (slots q)).
Qed.

Lemma advance_refines q s l : wf q -> spending (view q) = s :: l ->
  wf (advance q) /\ view (advance q) = spec_drop 1 (view q).
Proof.
  intros Hwf Hs. pose proof (wf_next q Hwf) as Hn.
  destruct Hwf as (Hh & Hf & _ & Hb).
  assert (Hl : length (slots q) - head q = Datatypes.S (length l)).
  { rewrite <- length_drop. cbn in Hs. by rewrite Hs. }
  assert (Hv : view (advance q) = spec_drop 1 (view q)).
  { unfold view, spec_drop, advance. cbn.
    rewrite drop_insert_lt, drop_drop by lia. rewrite u64_small; [done|lia]. }
  split; [|done]. unfold wf, spec_next. rewrite Hv. cbn.
  rewrite drop_drop, u64_small by lia. repeat split; llia.
Qed.

Lemma on_fst_unfold {S W A} (m : M S A) (s : S) (w : W) :
  on_fst m (s, w) = ((m s).1, ((m s).2, w)).
Proof. unfold on_fst. by destruct (m s). Qed.

Lemma Drain_step_unfold {W} (write : T -> M W unit) q w :
  Drain_step write tt (q, w) =
    match spending (view q) with
    | s :: _ =>
        if ready s then
          match write (value s) w with
          | (Ok _, w') => (Ok (inl tt), (advance q, w'))
          | (Fail (Err e), w') => (Fail (Err e), (compact q, w'))
          | (Fail f, w') => (Fail f, (q, w'))
          end
        else (Ok (inr tt), (compact q, w))
    | [] => (Ok (inr tt), (compact q, w))
    end.
Proof.
  unfold Drain_step. rewrite bind_unfold. cbn [on_fst get].
  rewrite head_ready_view. destruct (spending (view q)) as [|s l] eqn:Hs; [done|].
  destruct (ready s) eqn:Hr; [|done].
  assert (slots q !! head q = Some s) as ->.
  { rewrite <- (Nat.add_0_r (head q)), <- spending_lookup. by rewrite Hs. }
  rewrite bind_unfold. cbn [must on_fst mret M_ret]. rewrite bind_unfold.
  unfold on_err, on_snd. by destruct (write (value s) w) as [[?|[]] w'].
Qed.

(** Whatever the callback does: [Drain] writes the ready prefix in order, up
  to the first failing write, and drops exactly what it wrote. *)
Lemma Drain_iter {W} (write : T -> M W unit) n q w :
  wf q -> Len q < n ->
  let p := ready_prefix (spending (view q)) in
  let '(r, (q', w')) := iter n (Drain_step write) tt (q, w) in
  exists k w0, for_each write (take k p) w = (Ok tt, w0) /\ wf q'
    /\ view q' = spec_drop k (view q)
    /\ ((r = Ok tt /\ k = length p /\ w' = w0)
        \/ (exists v f, p !! k = Some v /\ write v w0 = (Fail f, w') /\ r = Fail f)).
Proof.
  revert q w. induction n as [|n IH]; intros q w Hwf Hn; [lia|].
  rewrite Len_view in Hn. cbn zeta. rewrite iter_S, Drain_step_unfold.
  assert (H0 : view (compact q) = spec_drop 0 (view q)).
  { rewrite view_compact by apply Hwf. unfold spec_drop. cbn.
    by rewrite Z.add_0_r, drop_0. }
  destruct (spending (view q)) as [|s l] eqn:Hs.
  { exists 0, w. repeat split; try apply wf_compact; auto. }
  cbn [ready_prefix]. destruct (ready s) eqn:Hr; last first.
  { exists 0, w. repeat split; try apply wf_compact; auto. }
  destruct (write (value s) w) as [[[]|f] w'] eqn:Hw.
  - destruct (advance_refines q s l Hwf Hs) as [Hwf' Hv].
    assert (Hs' : spending (view (advance q)) = l)
      by (by rewrite Hv; cbn in *; rewrite Hs).
    specialize (IH (advance q) w' Hwf'). rewrite Len_view, Hs' in IH.
    cbn [length] in Hn. specialize (IH ltac:(lia)). cbn zeta in IH.
    destruct (iter n _ _ _) as [r [q' w'']].
    destruct IH as (k & w0 & He & Hwf'' & Hv'' & Hr').
    exists (Datatypes.S k), w0. cbn [take for_each]. split_and!; auto.
    + by rewrite bind_unfold, Hw.
    + rewrite Hv'', Hv. unfold spec_drop. cbn. rewrite drop_drop. f_equal. lia.
    + destruct Hr' as [(-> & -> & ->)|?]; [by left|by right].
  - destruct f; exists 0, w; split_and!; auto using wf_compact;
      try (by rewrite <- H0, view_compact by apply Hwf); right; eauto 6.
Qed.

Lemma spec_lookup_pending t q s : spec_lookup t (view q) = Some s ->
  (first q <= t)%Z /\ slots q !! (head q + Z.to_nat (t - first q)) = Some s
  /\ spending (view q) !! Z.to_nat (t - first q) = Some s.
Proof.
  unfold spec_lookup. cbn [sfirst view]. case_decide; [|done].
  rewrite <- spending_lookup. done.
Qed.

Lemma set_slot_refines t v q s : wf q -> spec_lookup t (view q) = Some s ->
  let q' := set_slot (head q + Z.to_nat (t - first q)) {| value := v; ready := true |} q in
  wf q' /\ view q' = spec_commit t v (view q).
Proof.
  intros Hwf Hs. pose proof (wf_next q Hwf) as Hn.
  apply spec_lookup_pending in Hs as (Ht & Hs & _).
  apply lookup_lt_Some in Hs. destruct Hwf as (Hh & Hf & _ & Hb). cbn zeta.
  assert (Hv : view (set_slot (head q + Z.to_nat (t - first q))
                {| value := v; ready := true |} q) = spec_commit t v (view q)).
  { unfold view, spec_commit, set_slot. cbn. rewrite drop_insert_ge by lia.
    do 2 f_equal. lia. }
  split; [|done]. unfold wf, spec_next. rewrite Hv. cbn. repeat split; llia.
Qed.

Lemma Commit_cases t v q : wf q ->
  match spec_lookup t (view q) with
  | None => Commit t v q = (Fail (Err (Errorf "commit queue: token is not pending")), q)
  | Some s => if ready s
      then Commit t v q =
        (Fail (Err (Errorf "commit queue: token is already committed")), q)
      else exists q', Commit t v q = (Ok tt, q') /\ wf q'
        /\ view q' = spec_commit t v (view q)
  end.
Proof.
  intros Hwf. unfold Commit. pose proof (pending_slot_spec t q Hwf) as Hp.
  destruct (spec_lookup t (view q)) as [s|] eqn:Hs; [|by apply bind_fail].
  destruct (ready s); [by apply bind_fail|].
  eexists. split; [by rewrite (bind_ok _ _ _ _ _ Hp)|].
  by eapply set_slot_refines.
Qed.

Lemma Drain_cases {W} (write : T -> M W unit) q w : wf q ->
  let p := ready_prefix (spending (view q)) in
  let '(r, (q', w')) := Drain write (q, w) in
  exists k w0, for_each write (take k p) w = (Ok tt, w0) /\ wf q'
    /\ view q' = spec_drop k (view q)
    /\ ((r = Ok tt /\ k = length p /\ w' = w0)
        \/ (exists v f, p !! k = Some v /\ write v w0 = (Fail f, w') /\ r = Fail f)).
Proof. intros Hwf. apply Drain_iter; [done|cbn; lia]. Qed.

(** ** Runs of operations *)

(** One call on the queue, the written values being appended to a log. *)
Inductive op :=
| OReserve
| OReserveWith (v : T)
| OPushReady (v : T)
| OPeek (t : Z)
| OCommit (t : Z) (v : T)
| ODrain.

Definition log_write (v : T) : M (list T) unit := modify (fun l => l ++ [v]).

Definition run_op (o : op) (st : CommitQueue * list T) : CommitQueue * list T :=
  match o with
  | OReserve => (on_fst Reserve st).2
  | OReserveWith v => (on_fst (ReserveWith v) st).2
  | OPushReady v => (on_fst (PushReady v) st).2
  | OPeek t => (on_fst (Peek t) st).2
  | OCommit t v => (on_fst (Commit t v) st).2
  | ODrain => (Drain log_write st).2
  end.

(** The values accepted so far, by token: a [PushReady] accepts its value for
  the token it reserves, a successful [Commit] for the token it names. *)
Definition accept (o : op) (q : CommitQueue) (h : gmap Z T) : gmap Z T :=
  match o with
  | OPushReady v => <[next q := v]> h
  | OCommit t v => if is_ok (Commit t v q).1 then <[t := v]> h else h
  | _ => h
  end.

Fixpoint run (os : list op) (st : CommitQueue * list T) (h : gmap Z T) :
    CommitQueue * list T * gmap Z T :=
  match os with
  | [] => (st, h)
  | o :: os => run os (run_op o st) (accept o st.1 h)
  end.

(** The log holds the accepted values of the drained tokens, and the pending
  ready slots hold the others. *)
Record history (q : CommitQueue) (log : list T) (h : gmap Z T) : Prop := History {
  hist_wf : wf q;
  hist_first : first q = Z.of_nat (length log);
  hist_log : forall i, log !! i = h !! Z.of_nat i \/ length log <= i;
  hist_slot : forall i s, spending (view q) !! i = Some s ->
    h !! (first q + Z.of_nat i)%Z = if ready s then Some (value s) else None;
  hist_out : forall t, (t < 0 \/ next q <= t)%Z -> h !! t = None;
  }.

Lemma ready_prefix_lookup l i v : ready_prefix l !! i = Some v ->
  exists s, l !! i = Some s /\ ready s = true /\ value s = v.
Proof.
  revert i. induction l as [|s l IH]; intros i; [done|]. cbn.
  destruct (ready s) eqn:Hr; [|done]. destruct i; cbn.
  - intros [= <-]. by exists s.
  - apply IH.
Qed.

Lemma for_each_log l log : for_each log_write l log = (Ok tt, log ++ l).
Proof.
  revert log. induction l as [|v l IH]; intros log; cbn [for_each].
  - by rewrite app_nil_r.
  - rewrite bind_unfold. cbn [log_write modify]. by rewrite IH, <- app_assoc.
Qed.

Lemma history_push q log h s q' :
  history q log h -> wf q' -> view q' = spec_push s (view q) ->
  history q' log (if ready s then <[next q := value s]> h else h).
Proof.
  intros [Hwf Hf Hl Hs Ho] Hwf' Hv. pose proof (wf_next q Hwf) as Hn.
  assert (first q' = first q) as Hf' by (by injection Hv).
  assert (spending (view q') = spending (view q) ++ [s]) as Hp by (by rewrite Hv).
  assert (Hn' : next q' = (next q + 1)%Z).
  { pose proof (Len_view q'). rewrite (wf_next q' Hwf'), Hf', Hn.
    fold (Len q'). fold (Len q). rewrite !Len_view, Hp. llia. }
  pose proof (Len_view q) as HL. unfold Len in HL.
  split; [done|congruence| | |].
  - intros i. destruct (Hl i) as [E|]; [|by right].
    destruct (decide (length log <= i)); [by right|]. left. rewrite E.
    destruct (ready s); [|done]. by rewrite lookup_insert_ne by lia.
  - intros i s'. rewrite Hp, Hf'. intros Hi.
    apply lookup_app_Some in Hi as [Hi|[Hi1 Hi2]].
    + pose proof (lookup_lt_Some _ _ _ Hi). rewrite <- (Hs _ _ Hi).
      destruct (ready s); [|done]. rewrite lookup_insert_ne; [done|lia].
    + apply list_lookup_singleton_Some in Hi2 as [Hi2 <-].
      replace (first q + Z.of_nat i)%Z with (next q) by lia.
      destruct (ready s); [by rewrite lookup_insert_eq|]. apply Ho. lia.
  - intros t Ht. destruct (ready s); [rewrite lookup_insert_ne by lia|];
      apply Ho; lia.
Qed.

Lemma history_drop q log h k q' :
  history q log h -> wf q' -> view q' = spec_drop k (view q) ->
  k <= length (ready_prefix (spending (view q))) ->
  history q' (log ++ take k (ready_prefix (spending (view q)))) h.
Proof.
  intros [Hwf Hf Hl Hs Ho] Hwf' Hv Hk. pose proof (wf_next q Hwf) as Hn.
  assert (first q' = (first q + Z.of_nat k)%Z) as Hf' by (by injection Hv).
  assert (spending (view q') = drop k (spending (view q))) as Hp by (by rewrite Hv).
  assert (Hlen : length (ready_prefix (spending (view q))) <= Len q).
  { rewrite Len_view. clear. induction (spending (view q)) as [|s l IH]; cbn; [lia|].
    destruct (ready s); cbn; lia. }
  assert (Hn' : next q' = next q).
  { rewrite (wf_next q' Hwf'), Hf', Hn.
    fold (Len q') (Len q). rewrite (Len_view q'), Hp, length_drop, <- Len_view. lia. }
  split; [done|llia| | |].
  - intros i. destruct (decide (i < length log)) as [Hi|Hi].
    + rewrite lookup_app_l by done. left. destruct (Hl i); [done|lia].
    + destruct (decide (length (log ++ take k (ready_prefix (spending (view q)))) <= i))
        as [|Hi']; [by right|left].
      rewrite lookup_app_r by lia.
      destruct (take k (ready_prefix (spending (view q))) !! (i - length log))
        as [v|] eqn:E; [|apply lookup_ge_None_1 in E; llia].
      apply lookup_take_Some in E as [E _].
      apply ready_prefix_lookup in E as (s & E & Hr & <-).
      apply Hs in E. rewrite Hr in E. rewrite <- E. f_equal. lia.
  - intros i s. rewrite Hp, Hf', lookup_drop. intros Hi. apply Hs in Hi.
    rewrite <- Hi. f_equal. lia.
  - intros t. rewrite Hn'. apply Ho.
Qed.

Lemma history_commit q log h t v q' s :
  history q log h -> wf q' -> spec_lookup t (view q) = Some s ->
  view q' = spec_commit t v (view q) ->
  history q' log (<[t := v]> h).
Proof.
  intros [Hwf Hf Hl Hs Ho] Hwf' Hsl Hv. pose proof (wf_next q Hwf) as Hn.
  apply spec_lookup_pending in Hsl as (Ht & _ & Hsl).
  pose proof (lookup_lt_Some _ _ _ Hsl) as Hlt. rewrite <- Len_view in Hlt.
  assert (first q' = first q) as Hf' by (by injection Hv).
  assert (spending (view q') = <[Z.to_nat (t - first q) := CommitSlot v true]>
            (spending (view q))) as Hp by (by rewrite Hv).
  assert (Hn' : next q' = next q).
  { rewrite (wf_next q' Hwf'), Hf', Hn.
    fold (Len q') (Len q). by rewrite (Len_view q'), Hp, length_insert, <- Len_view. }
  unfold Len in Hlt. split; [done|congruence| | |].
  - intros i. destruct (Hl i) as [E|]; [|by right].
    destruct (decide (length log <= i)); [by right|]. left.
    by rewrite lookup_insert_ne by lia.
  - intros i s'. rewrite Hp, Hf'. intros Hi.
    destruct (decide (i = Z.to_nat (t - first q))) as [->|Hne].
    + rewrite list_lookup_insert_eq in Hi by (rewrite <- Len_view; unfold Len; lia).
      injection Hi as <-. cbn.
      replace (first q + Z.of_nat (Z.to_nat (t - first q)))%Z with t by lia.
      by rewrite lookup_insert_eq.
    + rewrite list_lookup_insert_ne in Hi by done.
      rewrite lookup_insert_ne by lia. by apply Hs.
  - intros t' Ht'. rewrite lookup_insert_ne by lia. apply Ho. lia.
Qed.

Lemma PushReady_refines v q : wf q -> (next q + 1 < 2 ^ 64)%Z ->
  exists q', PushReady v q = (Ok (next q), q') /\ wf q'
    /\ view q' = spec_push {| value := v; ready := true |} (view q).
Proof.
  intros Hwf Hlt.
  destruct (push_refines {| value := v; ready := true |} q Hwf Hlt)
    as (q' & [= <-] & Hwf' & Hv').
  eexists. split; [reflexivity|]. revert Hwf' Hv'.
  unfold set_slot. cbn [slots head first next].
  rewrite length_app. cbn [length].
  replace (length (slots q) + 1 - 1) with (length (slots q) + 0) by lia.
  by rewrite insert_app_r.
Qed.

Lemma run_op_history o q log h :
  history q log h -> (next q + 1 < 2 ^ 64)%Z ->
  let st := run_op o (q, log) in
  history st.1 st.2 (accept o q h) /\ (next st.1 <= next q + 1)%Z.
Proof.
  intros Hh Hlt. pose proof (hist_wf _ _ _ Hh) as Hwf.
  assert (Hpush : forall s q', wf q' -> view q' = spec_push s (view q) ->
            next q' = (next q + 1)%Z).
  { intros s q' Hwf' Hv'. destruct Hwf as (_ & _ & -> & _).
    destruct Hwf' as (_ & _ & -> & _). rewrite Hv'. unfold spec_next. cbn. llia. }
  assert (Hnext : forall q', wf q' -> spec_next (view q') = spec_next (view q) ->
            next q' = next q).
  { intros q' (_ & _ & -> & _) ->. by destruct Hwf as (_ & _ & -> & _). }
  destruct o as [|v|v|t|t v|]; cbn [run_op accept].
  - destruct (push_refines {| value := zero; ready := false |} q Hwf Hlt)
      as (q' & Hq & Hwf' & Hv'). unfold Reserve. rewrite on_fst_unfold, Hq. cbn.
    split; [apply (history_push q log h _ q' Hh Hwf' Hv')|].
    rewrite (Hpush _ _ Hwf' Hv'). lia.
  - destruct (push_refines {| value := v; ready := false |} q Hwf Hlt)
      as (q' & Hq & Hwf' & Hv'). unfold ReserveWith. rewrite on_fst_unfold, Hq. cbn.
    split; [apply (history_push q log h _ q' Hh Hwf' Hv')|].
    rewrite (Hpush _ _ Hwf' Hv'). lia.
  - destruct (PushReady_refines v q Hwf Hlt) as (q' & Hq & Hwf' & Hv').
    rewrite on_fst_unfold, Hq. cbn.
    split; [apply (history_push q log h _ q' Hh Hwf' Hv')|].
    rewrite (Hpush _ _ Hwf' Hv'). lia.
  - rewrite on_fst_unfold. cbn. unfold Peek. rewrite bind_unfold.
    rewrite pending_slot_spec by done.
    destruct (spec_lookup t (view q)) as [s|]; [destruct (ready s)|]; cbn; auto with lia.
  - rewrite on_fst_unfold. cbn. pose proof (Commit_cases t v q Hwf) as Hc.
    destruct (spec_lookup t (view q)) as [s|] eqn:Hs;
      [destruct (ready s)|]; [rewrite Hc; cbn; auto with lia| |rewrite Hc; cbn; auto with lia].
    destruct Hc as (q' & -> & Hwf' & Hv'). cbn.
    split; [by eapply history_commit|]. rewrite (Hnext _ Hwf'); [lia|].
    rewrite Hv'. unfold spec_next. cbn. by rewrite length_insert.
  - pose proof (Drain_cases log_write q log Hwf) as Hd. cbn zeta in Hd.
    destruct (Drain log_write (q, log)) as [r [q' log']].
    destruct Hd as (k & w0 & He & Hwf' & Hv' & Hr). rewrite for_each_log in He.
    injection He as <-.
    destruct Hr as [(-> & -> & ->)|(v & f & _ & [=] & _)]. cbn.
    split; [by apply (history_drop q)|]. rewrite (Hnext _ Hwf'); [lia|].
    rewrite Hv'. unfold spec_next. cbn.
    assert (length (ready_prefix (drop (head q) (slots q)))
      <= length (drop (head q) (slots q))); [|llia].
    clear. induction (drop (head q) (slots q)) as [|s l IH]; cbn; [lia|].
    destruct (ready s); cbn; lia.
Qed.

(** ** Properties *)

(** C4: Refinement of [Drain], for any callback: it passes to the callback the
  values of the longest ready prefix of the pending slots, in token order,
  until one write fails; it removes exactly the slots that were written,
  keeps the well-formedness, reports the failure of the write, and returns
  (never exhausting its fuel) otherwise. *)
Theorem Drain_refines {W} (write : T -> M W unit) q w : wf q ->
  let p := ready_prefix (spending (view q)) in
  let '(r, (q', w')) := Drain write (q, w) in
  exists k w0, for_each write (take k p) w = (Ok tt, w0) /\ wf q'
    /\ view q' = spec_drop k (view q)
    /\ ((r = Ok tt /\ k = length p /\ w' = w0)
        \/ (exists v f, p !! k = Some v /\ write v w0 = (Fail f, w') /\ r = Fail f)).
Proof. apply Drain_cases. Qed.

(** C5: Refinement of [Commit] on every branch: a token that is not pending or
  is already committed is refused and changes nothing; otherwise exactly the
  slot of the token becomes ready with the value. *)
Theorem Commit_refines t v q : wf q ->
  match spec_lookup t (view q) with
  | None => Commit t v q = (Fail (Err (Errorf "commit queue: token is not pending")), q)
  | Some s => if ready s
      then Commit t v q =
        (Fail (Err (Errorf "commit queue: token is already committed")), q)
      else exists q', Commit t v q = (Ok tt, q') /\ wf q'
        /\ view q' = spec_commit t v (view q)
  end.
Proof. apply Commit_cases. Qed.

(** C6: Global order: whatever sequence of fewer than 2^64 - 1 calls is made
  on a new queue, the values written are the values accepted for the tokens
  0, 1, 2, ... in that order, one each, and what is accepted and not yet
  written is waiting in the slot of its token. *)
Theorem run_history os :
  (Z.of_nat (length os) < 2 ^ 64 - 1)%Z ->
  let '(q, log, h) := run os (empty_queue, []) ∅ in history q log h.
Proof.
  intros Hlen.
  assert (Hgen : forall os q log h, history q log h ->
    (next q + Z.of_nat (length os) < 2 ^ 64)%Z ->
    let '(q', log', h') := run os (q, log) h in history q' log' h').
  { clear os Hlen. intros os. induction os as [|o os IH]; intros q log h Hh Hlt; [done|].
    cbn [run length] in *.
    destruct (run_op_history o q log h Hh) as [Hh' Hn']; [lia|].
    destruct (run_op o (q, log)) as [q' log']. apply IH; [done|]. cbn in Hn'. lia. }
  apply Hgen; [|cbn; lia]. split; [apply wf_empty|done|..]; try done.
  intros i. right. cbn. lia.
Qed.
End Queue.

(** Two ready slots, a pending one, and another ready one behind it. *)
Definition waiting_queue : CommitQueue :=
  (run 0 [OReserve; OReserve; OReserve; OReserve; OCommit 0 10; OCommit 1 11; OCommit 3 13]
     (empty_queue, []) ∅).1.1.

Lemma waiting_queue_wf : wf waiting_queue.
Proof. repeat split; vm_compute; done || lia. Defined.

(** A writer that refuses [bad]. *)
Definition refusing_write (bad v : nat) : M (list nat) unit :=
  if Nat.eqb v bad then errorf "refused" else log_write v.

(** Everything that is ready in front is written, and the first refusal stops. *)
Lemma Drain_refines_witness :
  (let '(r, (q', w')) := Drain 0 log_write (waiting_queue, []) in
   r = Ok tt /\ w' = [10; 11] /\ wf q'
   /\ view q' = {| sfirst := 2; spending := [CommitSlot 0 false; CommitSlot 13 true] |})
  /\ (let '(r, (q', w')) := Drain 0 (refusing_write 11) (waiting_queue, []) in
      r = Fail (Err (Errorf "refused")) /\ w' = [10] /\ wf q'
      /\ view q' = {| sfirst := 1; spending := [CommitSlot 11 true; CommitSlot 0 false; CommitSlot 13 true] |}).
Proof.
  split.
  - pose proof (Drain_refines 0 log_write waiting_queue [] waiting_queue_wf) as H. cbn zeta in H.
    destruct (Drain 0 log_write (waiting_queue, [])) as [r [q' w']].
    destruct H as (k & w0 & Hw & Hwf & Hv & [(Hr & Hk & Hw')|(v & f & Hp & Hf & _)]).
    + subst k w'. injection Hw as <-. by split_and!.
    + exfalso. destruct k as [|[|k]]; [done|done|discriminate Hp].
  - pose proof (Drain_refines 0 (refusing_write 11) waiting_queue [] waiting_queue_wf) as H. cbn zeta in H.
    destruct (Drain 0 (refusing_write 11) (waiting_queue, [])) as [r [q' w']].
    destruct H as (k & w0 & Hw & Hwf & Hv & [(Hr & Hk & _)|(v & f & Hp & Hf & Hr)]).
    + exfalso. subst k. discriminate Hw.
    + destruct k as [|[|k]]; [|injection Hw as <-|discriminate Hp]; injection Hp as <-.
      * discriminate Hf.
      * injection Hf as <- <-. by split_and!.
Defined.

Definition sample_queue : CommitQueue :=
  (run 0 [OReserve; OReserve; OReserve; OCommit 1 11; OCommit 0 10; ODrain;
          OReserve; OPeek 2; OCommit 0 99]
     (empty_queue, []) ∅).1.1.

Lemma sample_queue_wf : wf sample_queue.
Proof. repeat split; vm_compute; done || lia. Defined.

Lemma Commit_refines_witness :
  exists q', Commit 3 7 sample_queue = (Ok tt, q') /\ wf q'
    /\ view q' = spec_commit 3 7 (view sample_queue).
Proof. exact (Commit_refines 3 7 sample_queue sample_queue_wf). Defined.

Lemma run_history_witness :
  let '(q, log, h) := run 0 [OReserve; OReserve; OCommit 1 11; OCommit 0 10; ODrain]
                        (empty_queue, []) ∅ in
  history q log h /\ log = [10; 11].
Proof.
  pose proof (run_history 0 [OReserve; OReserve; OCommit 1 11; OCommit 0 10; ODrain]
                ltac:(done)) as H.
  split; [exact H|vm_compute; reflexivity].
Defined.
