(* ===== verification/Packet.v ===== *)
(** * internal/go-astits/packet.go: packets and adaptation fields

    The packet data, the cloning and sizing of adaptation fields, and the
    stuffing fields.  Pointers that may be nil are options; a dereference of a
    nil extension field is a panic ([Fail Panic]).  Go structures that the code
    deep-copies are values here, so a clone only differs by the fields that the
    code resets.  Parsing and writing are in PacketCodec.v. *)

From S2P Require Import Prelude.
Local Open Scope Z_scope.

(** ** clock_reference.go *)
Record ClockReference := MkClock { Base : Z; Extension : Z }.

Definition newClockReference (base extension : Z) : ClockReference :=
  {| Base := base; Extension := extension |}.

(** ** Data *)
Definition MpegTsPacketSize : Z := 188.
Definition mpegTsPacketHeaderSize : Z := 3.
Definition pcrBytesSize : Z := 6.
Definition ptsOrDTSByteLength : Z := 5.

Record PacketHeader := MkHeader {
  ContinuityCounter : Z;
  HasAdaptationField : bool;
  HasPayload : bool;
  PayloadUnitStartIndicator : bool;
  PID : Z;
  TransportErrorIndicator : bool;
  TransportPriority : bool;
  TransportScramblingControl : Z;
}.

Record PacketAdaptationExtensionField := MkExt {
  DTSNextAccessUnit : option ClockReference;
  HasLegalTimeWindow : bool;
  HasPiecewiseRate : bool;
  HasSeamlessSplice : bool;
  LegalTimeWindowIsValid : bool;
  LegalTimeWindowOffset : Z;
  ext_Length : Z;
  PiecewiseRate : Z;
  SpliceType : Z;
}.

Record PacketAdaptationField := MkAF {
  AdaptationExtensionField : option PacketAdaptationExtensionField;
  OPCR : option ClockReference;
  PCR : option ClockReference;
  TransportPrivateData : list Z;
  TransportPrivateDataLength : Z;
  af_Length : Z;
  StuffingLength : Z;
  SpliceCountdown : Z;
  IsOneByteStuffing : bool;
  RandomAccessIndicator : bool;
  DiscontinuityIndicator : bool;
  ElementaryStreamPriorityIndicator : bool;
  HasAdaptationExtensionField : bool;
  HasOPCR : bool;
  HasPCR : bool;
  HasTransportPrivateData : bool;
  HasSplicingCountdown : bool;
}.

Record Packet := MkPacket {
  AdaptationField : option PacketAdaptationField;
  Header : PacketHeader;
  Payload : list Z;
}.

#[export] Instance ClockReference_eq_dec : EqDecision ClockReference.
Proof. solve_decision. Defined.
#[export] Instance PacketHeader_eq_dec : EqDecision PacketHeader.
Proof. solve_decision. Defined.
#[export] Instance PacketAdaptationExtensionField_eq_dec :
  EqDecision PacketAdaptationExtensionField.
Proof. solve_decision. Defined.
#[export] Instance PacketAdaptationField_eq_dec : EqDecision PacketAdaptationField.
Proof. solve_decision. Defined.
#[export] Instance Packet_eq_dec : EqDecision Packet.
Proof. solve_decision. Defined.

(** The zero values [PacketAdaptationField{}] and
    [PacketAdaptationExtensionField{}]. *)
Definition zero_ext : PacketAdaptationExtensionField :=
  {| DTSNextAccessUnit := None; HasLegalTimeWindow := false; HasPiecewiseRate := false;
     HasSeamlessSplice := false; LegalTimeWindowIsValid := false;
     LegalTimeWindowOffset := 0; ext_Length := 0; PiecewiseRate := 0; SpliceType := 0 |}.

Definition zero_af : PacketAdaptationField :=
  {| AdaptationExtensionField := None; OPCR := None; PCR := None;
     TransportPrivateData := []; TransportPrivateDataLength := 0; af_Length := 0;
     StuffingLength := 0; SpliceCountdown := 0; IsOneByteStuffing := false;
     RandomAccessIndicator := false; DiscontinuityIndicator := false;
     ElementaryStreamPriorityIndicator := false; HasAdaptationExtensionField := false;
     HasOPCR := false; HasPCR := false; HasTransportPrivateData := false;
     HasSplicingCountdown := false |}.

(** ** Setters *)
Definition with_ext_length (n : Z) (e : PacketAdaptationExtensionField) :
    PacketAdaptationExtensionField :=
  {| DTSNextAccessUnit := DTSNextAccessUnit e; HasLegalTimeWindow := HasLegalTimeWindow e;
     HasPiecewiseRate := HasPiecewiseRate e; HasSeamlessSplice := HasSeamlessSplice e;
     LegalTimeWindowIsValid := LegalTimeWindowIsValid e;
     LegalTimeWindowOffset := LegalTimeWindowOffset e; ext_Length := n;
     PiecewiseRate := PiecewiseRate e; SpliceType := SpliceType e |}.

(** Replaces the fields that describe the wire layout, keeping the metadata. *)
Definition with_layout (ext : option PacketAdaptationExtensionField)
    (privLen len stuffing : Z) (oneByte : bool) (f : PacketAdaptationField) :
    PacketAdaptationField :=
  {| AdaptationExtensionField := ext; OPCR := OPCR f; PCR := PCR f;
     TransportPrivateData := TransportPrivateData f;
     TransportPrivateDataLength := privLen; af_Length := len;
     StuffingLength := stuffing; SpliceCountdown := SpliceCountdown f;
     IsOneByteStuffing := oneByte;
     RandomAccessIndicator := RandomAccessIndicator f;
     DiscontinuityIndicator := DiscontinuityIndicator f;
     ElementaryStreamPriorityIndicator := ElementaryStreamPriorityIndicator f;
     HasAdaptationExtensionField := HasAdaptationExtensionField f;
     HasOPCR := HasOPCR f; HasPCR := HasPCR f;
     HasTransportPrivateData := HasTransportPrivateData f;
     HasSplicingCountdown := HasSplicingCountdown f |}.

Definition with_stuffing (n : Z) (f : PacketAdaptationField) : PacketAdaptationField :=
  with_layout (AdaptationExtensionField f) (TransportPrivateDataLength f) (af_Length f)
    n (IsOneByteStuffing f) f.

Definition with_payload (l : list Z) (p : Packet) : Packet :=
  {| AdaptationField := AdaptationField p; Header := Header p; Payload := l |}.

Definition with_adaptation (a : option PacketAdaptationField) (p : Packet) : Packet :=
  {| AdaptationField := a; Header := Header p; Payload := Payload p |}.

(** ** Adaptation field metadata *)

Definition maxPacketAdaptationFieldSize : Z := MpegTsPacketSize - 4.

Definition HasAdaptationFieldData (field : option PacketAdaptationField) : bool :=
  match field with
  | None => false
  | Some f => DiscontinuityIndicator f || RandomAccessIndicator f
      || ElementaryStreamPriorityIndicator f || HasPCR f || HasOPCR f
      || HasSplicingCountdown f || HasTransportPrivateData f
      || HasAdaptationExtensionField f
  end.

(** The non-nil branch of [CloneAdaptationFieldWithoutStuffing]. *)
Definition clone_without_stuffing (f : PacketAdaptationField) : PacketAdaptationField :=
  with_layout (with_ext_length 0 <$> AdaptationExtensionField f)
    (Z.of_nat (length (TransportPrivateData f))) 0 0 false f.

Definition CloneAdaptationFieldWithoutStuffing
    (field : option PacketAdaptationField) : option PacketAdaptationField :=
  clone_without_stuffing <$> field.

Definition ClonePacket (packet : Packet) : Packet :=
  match AdaptationField packet with
  | None => packet
  | Some f =>
      let cloned := clone_without_stuffing f in
      let ext := match AdaptationExtensionField f with
                 | None => AdaptationExtensionField cloned
                 | Some e => with_ext_length (ext_Length e)
                               <$> AdaptationExtensionField cloned
                 end in
      with_adaptation
        (Some (with_layout ext (TransportPrivateDataLength f) (af_Length f)
                 (StuffingLength f) (IsOneByteStuffing f) cloned)) packet
  end.

(** ** Sizes: all arithmetic is on uint8 *)
Definition calcPacketAdaptationFieldExtensionLength
    (afe : PacketAdaptationExtensionField) : Z :=
  let length := u8 (0 + 1) in
  let length := if HasLegalTimeWindow afe then u8 (length + 2) else length in
  let length := if HasPiecewiseRate afe then u8 (length + 3) else length in
  if HasSeamlessSplice afe then u8 (length + ptsOrDTSByteLength) else length.

Definition calcPacketAdaptationFieldLength (af : PacketAdaptationField) : outcome Z :=
  let length := u8 (0 + 1) in
  let length := if HasPCR af then u8 (length + pcrBytesSize) else length in
  let length := if HasOPCR af then u8 (length + pcrBytesSize) else length in
  let length := if HasSplicingCountdown af then u8 (length + 1) else length in
  let length := if HasTransportPrivateData af
    then u8 (length + u8 (1 + u8 (Z.of_nat (List.length (TransportPrivateData af)))))
    else length in
  length ← (if HasAdaptationExtensionField af then
              match AdaptationExtensionField af with
              | None => Fail Panic
              | Some e => Ok (u8 (length
                            + u8 (1 + calcPacketAdaptationFieldExtensionLength e)))
              end
            else Ok length);
  Ok (u8 (length + u8 (StuffingLength af))).

Definition AdaptationFieldSizeWithoutStuffing
    (field : option PacketAdaptationField) : outcome Z :=
  match field with
  | None => Ok 0
  | Some f =>
      n ← calcPacketAdaptationFieldLength (clone_without_stuffing f);
      Ok (1 + n)
  end.

Definition NewStuffingAdaptationField (totalSize : Z) : outcome PacketAdaptationField :=
  if (totalSize <? 1) || (maxPacketAdaptationFieldSize <? totalSize) then
    Fail (Err (Errorf "astits: stuffing adaptation field size is outside [1,184]"))
  else if totalSize =? 1 then
    Ok (with_layout None 0 0 0 true zero_af)
  else Ok (with_stuffing (totalSize - 2) zero_af).

Definition AdaptationFieldWithSize (field : option PacketAdaptationField)
    (totalSize : Z) : outcome PacketAdaptationField :=
  match field with
  | None => NewStuffingAdaptationField totalSize
  | Some f =>
      let cloned := clone_without_stuffing f in
      minimum ← AdaptationFieldSizeWithoutStuffing (Some cloned);
      if totalSize <? minimum then
        Fail (Err (Errorf "astits: adaptation field does not fit the target size"))
      else if maxPacketAdaptationFieldSize <? totalSize then
        Fail (Err (Errorf "astits: adaptation field target size exceeds maximum"))
      else Ok (with_stuffing (totalSize - minimum) cloned)
  end.

(** The muxer's own stuffing field, without the size check. *)
Definition newStuffingAdaptationField (bytesToStuff : Z) : PacketAdaptationField :=
  if bytesToStuff =? 1 then with_layout None 0 0 0 true zero_af
  else with_stuffing (bytesToStuff - 2) zero_af.

Lemma ClonePacket_same p : ClonePacket p = p.
Proof. destruct p as [[a|] h l]; [|done]. by destruct a as [[[]|]]. Qed.

(** ** Sizes of adaptation fields *)

(** The length computed, without the stuffing. *)
Definition base_length (f : PacketAdaptationField) : outcome Z :=
  calcPacketAdaptationFieldLength (with_stuffing 0 f).

Lemma u8_u8 x : u8 (u8 x) = u8 x.
Proof. apply u8_small, u8_range. Qed.

Lemma calc_stuffing f : calcPacketAdaptationFieldLength f =
  n ← base_length f; Ok (u8 (n + u8 (StuffingLength f))).
Proof.
  unfold base_length, calcPacketAdaptationFieldLength. cbn [with_stuffing with_layout HasPCR HasOPCR
    HasSplicingCountdown HasTransportPrivateData TransportPrivateData HasAdaptationExtensionField
    AdaptationExtensionField StuffingLength].
  match goal with |- (?o ≫= _) = _ => set (len := o) end.
  assert (Hr : forall n, len = Ok n -> u8 (n + u8 0) = n).
  { intros n. subst len. assert (Hu : forall x, u8 (u8 x + u8 0) = u8 x).
    { intros x. change (u8 0) with 0. by rewrite Z.add_0_r, u8_u8. }
    destruct (HasAdaptationExtensionField f), (HasTransportPrivateData f), (HasSplicingCountdown f),
      (HasOPCR f), (HasPCR f), (AdaptationExtensionField f); intros [= <-]; apply Hu. }
  destruct len as [n|]; [|done]. cbn [mbind outcome_bind]. by rewrite (Hr n).
Qed.

Lemma base_range f n : base_length f = Ok n -> 0 <= n < 256.
Proof.
  unfold base_length, calcPacketAdaptationFieldLength. intros Hn.
  match type of Hn with (?o ≫= _) = _ => destruct o; [|done] end.
  cbn [mbind outcome_bind] in Hn. injection Hn as <-. apply u8_range.
Qed.

Lemma base_with_stuffing k f : base_length (with_stuffing k f) = base_length f.
Proof. done. Qed.

Lemma clone_clone f : clone_without_stuffing (clone_without_stuffing f) = clone_without_stuffing f.
Proof. destruct f as [[e|]]; done. Qed.

Lemma clone_with_stuffing k f : clone_without_stuffing (with_stuffing k f) = clone_without_stuffing f.
Proof. done. Qed.

Lemma has_data_clone f : HasAdaptationFieldData (Some (clone_without_stuffing f)) = HasAdaptationFieldData (Some f).
Proof. done. Qed.

(** The size on the wire, the length byte included. *)
Definition wire_size (f : PacketAdaptationField) : outcome Z :=
  if IsOneByteStuffing f then Ok 1
  else n ← calcPacketAdaptationFieldLength f; Ok (1 + n).

Lemma size_of_field f : AdaptationFieldSizeWithoutStuffing (Some f) =
  n ← base_length (clone_without_stuffing f); Ok (1 + n).
Proof. done. Qed.

(** A field built for a size has it, keeps the metadata and is only refused when
    it does not fit. *)
Lemma with_size_spec f n total : base_length (clone_without_stuffing f) = Ok n -> total <= 184 ->
  if 1 + n <=? total then
    exists a, AdaptationFieldWithSize (Some f) total = Ok a /\ wire_size a = Ok total
      /\ clone_without_stuffing a = clone_without_stuffing f
  else AdaptationFieldWithSize (Some f) total
       = Fail (Err (Errorf "astits: adaptation field does not fit the target size")).
Proof.
  intros Hn Ht. pose proof (base_range _ _ Hn) as Hr. unfold AdaptationFieldWithSize.
  rewrite size_of_field, clone_clone, Hn. cbn [mbind outcome_bind].
  destruct (Z.leb_spec (1 + n) total) as [Hle|Hgt].
  - rewrite (proj2 (Z.ltb_ge _ _)) by done. unfold maxPacketAdaptationFieldSize, MpegTsPacketSize.
    rewrite (proj2 (Z.ltb_ge _ _)) by lia. eexists. split_and!; [done| |].
    + unfold wire_size. cbn [with_stuffing with_layout clone_without_stuffing IsOneByteStuffing].
      rewrite calc_stuffing, base_with_stuffing, Hn. cbn [mbind outcome_bind].
      cbn [with_stuffing with_layout StuffingLength]. f_equal. unfold u8.
      rewrite (Z.mod_small (total - (1 + n))) by lia. rewrite Z.mod_small by lia. lia.
    + by rewrite clone_with_stuffing, clone_clone.
  - by rewrite (proj2 (Z.ltb_lt _ _)).
Qed.

Lemma new_stuffing_spec n : 1 <= n <= 184 ->
  exists a, NewStuffingAdaptationField n = Ok a /\ wire_size a = Ok n
    /\ HasAdaptationFieldData (Some a) = false.
Proof.
  intros Hn. unfold NewStuffingAdaptationField, maxPacketAdaptationFieldSize, MpegTsPacketSize.
  rewrite (proj2 (Z.ltb_ge _ _)), (proj2 (Z.ltb_ge _ _)) by lia. cbn [orb].
  destruct (Z.eqb_spec n 1) as [->|]; [by eexists|]. eexists. split_and!; [done| |done].
  unfold wire_size. cbn [with_stuffing with_layout zero_af IsOneByteStuffing].
  rewrite calc_stuffing. cbn [mbind outcome_bind base_length with_stuffing with_layout StuffingLength].
  change (base_length _) with (Ok 1). cbn [mbind outcome_bind]. f_equal. unfold u8.
  rewrite (Z.mod_small (n - 2)) by lia. rewrite Z.mod_small by lia. lia.
Qed.
