(* ===== verification/Astikit.v ===== *)
(** * Interfaces to the go-astikit library

    The parsers read through an [astikit.BytesIterator] and the writers go
    through an [astikit.BitsWriter] and its batches.  The library is not part of
    the repository, so it appears as two type classes of operations, with the
    documented behaviour the code relies on as classes of laws.  The reference
    instances at the end are only used to instantiate theorems on concrete
    inputs. *)

From S2P Require Import Prelude.
Local Open Scope Z_scope.

(** ** BytesIterator: a byte slice and a read offset *)
Class BytesIterator (I : Type) := {
  NewBytesIterator : list Z -> I;
  NextByte : M I Z;
  NextBytes : Z -> M I (list Z);
  NextBytesNoCopy : Z -> M I (list Z);
  Seek : Z -> M I unit;
  Skip : Z -> M I unit;
  Offset : I -> Z;
  Len : I -> Z;
  HasBytesLeft : I -> bool;
  Dump : M I (list Z);
}.

(** [at_offset i bs o]: the iterator [i] is over the slice [bs], at offset [o]. *)
Class BytesIteratorLaws (I : Type) `{BytesIterator I} := {
  at_offset : I -> list Z -> Z -> Prop;
  at_new bs : at_offset (NewBytesIterator bs) bs 0;
  at_observe i bs o : at_offset i bs o ->
    Offset i = o /\ Len i = Z.of_nat (length bs)
    /\ HasBytesLeft i = (o <? Z.of_nat (length bs));
  at_next_byte i bs o : at_offset i bs o -> 0 <= o ->
    match bs !! Z.to_nat o with
    | Some b => exists i', NextByte i = (Ok b, i') /\ at_offset i' bs (o + 1)
    | None => exists e i', NextByte i = (Fail (Err e), i')
    end;
  at_next_bytes i bs o n : at_offset i bs o -> 0 <= o -> 0 <= n ->
    if decide (o + n <= Z.of_nat (length bs)) then
      exists i', NextBytes n i = (Ok (slice bs (Z.to_nat o) (Z.to_nat (o + n))), i')
        /\ at_offset i' bs (o + n)
    else exists e i', NextBytes n i = (Fail (Err e), i');
  at_next_bytes_no_copy i bs o n : at_offset i bs o -> 0 <= o -> 0 <= n ->
    if decide (o + n <= Z.of_nat (length bs)) then
      exists i', NextBytesNoCopy n i = (Ok (slice bs (Z.to_nat o) (Z.to_nat (o + n))), i')
        /\ at_offset i' bs (o + n)
    else exists e i', NextBytesNoCopy n i = (Fail (Err e), i');
  at_seek i bs o n : at_offset i bs o ->
    exists i', Seek n i = (Ok tt, i') /\ at_offset i' bs n;
  at_skip i bs o n : at_offset i bs o ->
    exists i', Skip n i = (Ok tt, i') /\ at_offset i' bs (o + n);
  at_dump i bs o : at_offset i bs o -> 0 <= o ->
    exists i', Dump i = (Ok (drop (Z.to_nat o) bs), i')
      /\ at_offset i' bs (Z.max o (Z.of_nat (length bs)));
}.

(** ** BitsWriter: bits, most significant first, gathered into bytes *)

(** The dynamic types that [Write] is called with. *)
Inductive wvalue :=
  | WBool (b : bool)
  | WUint8 (x : Z)
  | WUint16 (x : Z)
  | WUint32 (x : Z)
  | WBytes (l : list Z).

(** The [n] low bits of [x], most significant first. *)
Fixpoint bits_of (n : nat) (x : Z) : list bool :=
  match n with
  | O => []
  | S n => Z.testbit x (Z.of_nat n) :: bits_of n x
  end.

Definition value_bits (v : wvalue) : list bool :=
  match v with
  | WBool b => [b]
  | WUint8 x => bits_of 8 x
  | WUint16 x => bits_of 16 x
  | WUint32 x => bits_of 32 x
  | WBytes l => l ≫= bits_of 8
  end.

Fixpoint byte_of_bits (l : list bool) : Z :=
  match l with
  | [] => 0
  | b :: l => Z.b2z b * 2 ^ Z.of_nat (length l) + byte_of_bits l
  end.

(** The complete bytes of a list of bits. *)
Fixpoint bytes_of_bits (l : list bool) : list Z :=
  match l with
  | b0 :: b1 :: b2 :: b3 :: b4 :: b5 :: b6 :: b7 :: l =>
      byte_of_bits [b0; b1; b2; b3; b4; b5; b6; b7] :: bytes_of_bits l
  | _ => []
  end.

(** [n] bytes of [bs], padded. *)
Definition sized_bytes (bs : list Z) (n : nat) (pad : Z) : list Z :=
  take n bs ++ replicate (n - length bs) pad.

(** A [BitsWriter] over some [io.Writer], and a batch, which remembers the first
    error of its writes until [Err] is called.  [SetWriteCallback true] registers
    a callback and [SetWriteCallback false] removes it; [CallbackCalls] are the
    arguments of the calls of the callback registered last. *)
Class BitsWriter (W : Type) := {
  Batch : Type;
  NewBitsWriterBatch : Batch;
  Write : wvalue -> M W unit;
  BWrite : wvalue -> M (Batch * W) unit;
  BWriteN : Z -> Z -> M (Batch * W) unit;
  BWriteBytesN : list Z -> nat -> Z -> M (Batch * W) unit;
  BErr : Batch -> option goerror;
  SetWriteCallback : bool -> M W unit;
  CallbackCalls : W -> list (list Z);
}.

(** A writer whose underlying [io.Writer] accepts everything, as a
    [bytes.Buffer] does: [written w l c] says that the bits [l] have been given
    to it so far, and that a callback was registered after [p] of them when [c]
    is [Some p]. *)
Class ReliableWriter (W : Type) `{BitsWriter W} := {
  written : W -> list bool -> option nat -> Prop;
  batch_ok : Batch -> Prop;
  batch_new : batch_ok NewBitsWriterBatch;
  batch_err b : batch_ok b -> BErr b = None;
  written_write v w l c : written w l c ->
    exists w', Write v w = (Ok tt, w') /\ written w' (l ++ value_bits v) c;
  written_bwrite v b w l c : batch_ok b -> written w l c ->
    exists b' w', BWrite v (b, w) = (Ok tt, (b', w')) /\ batch_ok b'
      /\ written w' (l ++ value_bits v) c;
  written_bwriten x n b w l c : batch_ok b -> written w l c ->
    exists b' w', BWriteN x n (b, w) = (Ok tt, (b', w')) /\ batch_ok b'
      /\ written w' (l ++ bits_of (Z.to_nat n) x) c;
  written_bwritebytesn bs n pad b w l c : batch_ok b -> written w l c ->
    exists b' w', BWriteBytesN bs n pad (b, w) = (Ok tt, (b', w')) /\ batch_ok b'
      /\ written w' (l ++ value_bits (WBytes (sized_bytes bs n pad))) c;
  written_callback (on : bool) w l c : written w l c ->
    exists w', SetWriteCallback on w = (Ok tt, w')
      /\ written w' l (if on then Some (length l) else None);
  written_calls w l p : written w l (Some p) -> (p mod 8 = 0)%nat -> (length l mod 8 = 0)%nat ->
    concat (CallbackCalls w) = bytes_of_bits (drop p l);
}.

(** A writer to a [bytes.Buffer], and the bytes of the buffer. *)
Class BufferWriter (W : Type) `{BitsWriter W} := {
  NewBufferWriter : W;
  BufferBytes : W -> list Z;
}.

Class BufferWriterLaws (W : Type) `{BufferWriter W} `{!ReliableWriter W} := {
  buffer_new : written NewBufferWriter [] None;
  buffer_bytes w l c : written w l c -> (length l mod 8 = 0)%nat ->
    BufferBytes w = bytes_of_bits l;
}.

(** [b := NewBitsWriterBatch(w); ...] *)
Definition with_batch {W A} `{BitsWriter W} (m : M (Batch * W) A) : M W A := fun w =>
  let '(r, (_, w')) := m (NewBitsWriterBatch, w) in (r, w').

(** [return x, b.Err()] *)
Definition batch_result {W A} `{BitsWriter W} (x : A) : M (Batch * W) A :=
  b ← gets fst;
  match BErr b with
  | None => mret x
  | Some e => fail_with e
  end.

(** ** Reading with the errors of the parsers *)
Section Fetch.
Context {I : Type} `{BytesIterator I}.

Definition next_byte : M I Z := wrap_err "astits: fetching next byte failed" NextByte.
Definition next_bytes (n : Z) : M I (list Z) :=
  wrap_err "astits: fetching next bytes failed" (NextBytes n).
Definition next_bytes_no_copy (n : Z) : M I (list Z) :=
  wrap_err "astits: fetching next bytes failed" (NextBytesNoCopy n).

(** [for i.Offset() < offsetEnd { x := item; xs = append(xs, x) }].  The fuel: an
    item that succeeds takes a byte at least. *)
Definition items_until {A} (offsetEnd : Z) (item : M I A) : M I (list A) := fun i =>
  iter (Z.to_nat (offsetEnd - Offset i) + 1) (fun xs =>
    o ← gets Offset;
    if o <? offsetEnd then x ← item; mret (inl (xs ++ [x]))
    else mret (inr xs)) [] i.

(** [if i.Offset() < offsetEnd { i.NextBytes(offsetEnd - i.Offset()) }] *)
Definition bytes_until (offsetEnd : Z) : M I (list Z) :=
  o ← gets Offset;
  if o <? offsetEnd then next_bytes (offsetEnd - o) else mret [].
End Fetch.

(** Big-endian integers of the bytes of a slice. *)
Definition be16 (bs : list Z) (i : nat) : Z :=
  Z.lor (Z.shiftl (byte_at bs i) 8) (byte_at bs (i + 1)).
Definition be32 (bs : list Z) : Z :=
  Z.lor (Z.shiftl (byte_at bs 0) 24) (Z.lor (Z.shiftl (byte_at bs 1) 16)
    (Z.lor (Z.shiftl (byte_at bs 2) 8) (byte_at bs 3))).

(** ** Bits and bytes *)
Lemma length_bits_of n x : length (bits_of n x) = n.
Proof. induction n; cbn; auto. Qed.

Lemma bytes_of_bits_app l1 l2 n : length l1 = (8 * n)%nat ->
  bytes_of_bits (l1 ++ l2) = bytes_of_bits l1 ++ bytes_of_bits l2.
Proof.
  revert l1. induction n as [|n IH]; intros l1 Hl.
  - by destruct l1.
  - do 8 (destruct l1 as [|? l1]; [cbn in Hl; lia|]).
    cbn in *. rewrite IH by lia. done.
Qed.

Lemma byte_of_bits_of n x : byte_of_bits (bits_of n x) = x mod 2 ^ Z.of_nat n.
Proof.
  induction n as [|n IH]; [by rewrite Z.mod_1_r|].
  cbn [bits_of byte_of_bits]. rewrite length_bits_of, IH.
  rewrite Nat2Z.inj_succ, Z.pow_succ_r by lia.
  rewrite Z.testbit_spec' by lia.
  rewrite (Z.mul_comm 2), Z.rem_mul_r by lia. lia.
Qed.

Lemma bytes_of_bits_byte x : is_byte x -> bytes_of_bits (bits_of 8 x) = [x].
Proof.
  intros Hx. change (bytes_of_bits (bits_of 8 x)) with [byte_of_bits (bits_of 8 x)].
  rewrite byte_of_bits_of. change (2 ^ Z.of_nat 8) with 256. by rewrite Z.mod_small.
Qed.

Lemma bits_of_app n m x : bits_of (n + m) x = bits_of n (Z.shiftr x (Z.of_nat m)) ++ bits_of m x.
Proof.
  induction n as [|n IH]; [done|]. cbn [bits_of Nat.add app]. rewrite IH, Z.shiftr_spec by lia.
  by rewrite Nat2Z.inj_add.
Qed.

Lemma bytes_of_bits_8 x : bytes_of_bits (bits_of 8 x) = [u8 x].
Proof.
  change (bytes_of_bits (bits_of 8 x)) with [byte_of_bits (bits_of 8 x)].
  by rewrite byte_of_bits_of.
Qed.

(** The top byte of a number of [8 * (1 + k)] bits. *)
Lemma bytes_of_bits_of k x : bytes_of_bits (bits_of (8 + 8 * k) x) =
  u8 (Z.shiftr x (8 * Z.of_nat k)) :: bytes_of_bits (bits_of (8 * k) x).
Proof.
  rewrite bits_of_app, (bytes_of_bits_app _ _ 1) by apply length_bits_of.
  by rewrite bytes_of_bits_8, Nat2Z.inj_mul.
Qed.

Lemma length_bytes_bits (l : list Z) : length (l ≫= bits_of 8) = (8 * length l)%nat.
Proof.
  induction l as [|x l IH]; [done|]. rewrite bind_cons, length_app, IH, length_bits_of.
  cbn. lia.
Qed.

Lemma bytes_of_bits_bytes l : bytes_ok l -> bytes_of_bits (l ≫= bits_of 8) = l.
Proof.
  induction 1 as [|x l Hx _ IH]; [done|]. rewrite bind_cons.
  rewrite (bytes_of_bits_app _ _ 1) by apply length_bits_of.
  by rewrite bytes_of_bits_byte, IH.
Qed.

(** ** Reference instances *)
Module Reference.
(** Iterator: the slice and the offset. *)
Definition iterator : Type := list Z * Z.

Definition next_bytes (n : Z) : M iterator (list Z) := fun '(bs, o) =>
  if decide (o + n <= Z.of_nat (length bs))
  then (Ok (slice bs (Z.to_nat o) (Z.to_nat (o + n))), (bs, o + n))
  else (Fail (Err (Errorf "bytes iterator: out of range")), (bs, o)).

#[export] Instance bytes_iterator : BytesIterator iterator := {
  NewBytesIterator bs := (bs, 0);
  NextByte := fun '(bs, o) =>
    match bs !! Z.to_nat o with
    | Some b => (Ok b, (bs, o + 1))
    | None => (Fail (Err (Errorf "bytes iterator: out of range")), (bs, o))
    end;
  NextBytes := next_bytes;
  NextBytesNoCopy := next_bytes;
  Seek n := modify (fun '(bs, _) => (bs, n));
  Skip n := modify (fun '(bs, o) => (bs, o + n));
  Offset := snd;
  Len i := Z.of_nat (length i.1);
  HasBytesLeft i := i.2 <? Z.of_nat (length i.1);
  Dump := fun '(bs, o) =>
    (Ok (drop (Z.to_nat o) bs), (bs, Z.max o (Z.of_nat (length bs))));
  }.

#[export] Instance bytes_iterator_laws : BytesIteratorLaws iterator.
Proof.
  refine {| at_offset i bs o := i = (bs, o) |}; try done.
  - by intros i bs o ->.
  - intros i bs o -> _. cbn. destruct (bs !! Z.to_nat o); eauto.
  - intros i bs o n -> _ _. cbn. case_decide; eauto.
  - intros i bs o n -> _ _. cbn. case_decide; eauto.
  - intros i bs o n ->. cbn. eauto.
  - intros i bs o n ->. cbn. eauto.
  - intros i bs o -> _. cbn. eauto.
Defined.

(** Writer: the bits accepted so far and the start of the callback; nothing
    ever fails. *)
Definition bits : Type := list bool * option nat.

Definition accept (more : list bool) : M bits unit := modify (fun '(l, c) => (l ++ more, c)).

#[export] Instance bits_writer : BitsWriter bits := {
  Batch := unit;
  NewBitsWriterBatch := tt;
  Write v := accept (value_bits v);
  BWrite v := on_snd (accept (value_bits v));
  BWriteN x n := on_snd (accept (bits_of (Z.to_nat n) x));
  BWriteBytesN bs n pad := on_snd (accept (value_bits (WBytes (sized_bytes bs n pad))));
  BErr _ := None;
  SetWriteCallback on := modify (fun '(l, _) => (l, if on then Some (length l) else None));
  CallbackCalls := fun '(l, c) => [bytes_of_bits (drop (default O c) l)];
  }.

#[export] Instance reliable_writer : ReliableWriter bits.
Proof.
  refine {| written w l c := w = (l, c); batch_ok _ := True |}; try done; cbn.
  - intros v w l c ->. eauto.
  - intros v b w l c _ ->. eauto.
  - intros x n b w l c _ ->. eauto.
  - intros bs n pad b w l c _ ->. eauto.
  - intros on w l c ->. eauto.
  - intros w l p -> _ _. cbn. by rewrite app_nil_r.
Defined.

#[export] Instance buffer_writer : BufferWriter bits := {
  NewBufferWriter := ([], None);
  BufferBytes w := bytes_of_bits w.1;
}.

#[export] Instance buffer_writer_laws : BufferWriterLaws bits.
Proof. split; [done|]. by intros w l c ->. Defined.
End Reference.
