(* ===== verification/PacketCodec.v ===== *)
(** * internal/go-astits/packet.go: parsing and writing packets

    [parsePacket] and [writePacket] with everything they call, over the
    iterator and writer interfaces of Astikit.v (the PTS/DTS codec of
    data_pes.go, which the adaptation extension uses, included).  The Go parsers
    fill a structure field by field and abandon it on an error; here the record
    is built once all its parts have been read. *)

From S2P Require Import Prelude Packet Astikit.
Local Open Scope Z_scope.

Definition syncByte : Z := 0x47.

Definition ErrPacketMustStartWithASyncByte : goerror :=
  Errorf "astits: packet must start with a sync byte".
Definition errSkippedPacket : goerror := Errorf "astits: skipped packet".

(** ** Parsing *)
Section Parse.
Context {I : Type} `{BytesIterator I}.

Definition header_of_bytes (bs : list Z) : PacketHeader :=
  let b0 := byte_at bs 0 in let b1 := byte_at bs 1 in let b2 := byte_at bs 2 in
  {| ContinuityCounter := Z.land b2 0xf;
     HasAdaptationField := masked b2 0x20;
     HasPayload := masked b2 0x10;
     PayloadUnitStartIndicator := masked b0 0x40;
     PID := Z.lor (Z.shiftl (Z.land b0 0x1f) 8) b1;
     TransportErrorIndicator := masked b0 0x80;
     TransportPriority := masked b0 0x20;
     TransportScramblingControl := Z.land (Z.shiftr b2 6) 0x3 |}.

Definition parsePacketHeader : M I PacketHeader :=
  bs ← next_bytes_no_copy 3;
  mret (header_of_bytes bs).

Definition parsePCR : M I ClockReference :=
  bs ← next_bytes_no_copy 6;
  let pcr := Z.lor (Z.shiftl (byte_at bs 0) 40) (Z.lor (Z.shiftl (byte_at bs 1) 32)
    (Z.lor (Z.shiftl (byte_at bs 2) 24) (Z.lor (Z.shiftl (byte_at bs 3) 16)
    (Z.lor (Z.shiftl (byte_at bs 4) 8) (byte_at bs 5))))) in
  mret (newClockReference (Z.shiftr pcr 15) (Z.land pcr 0x1ff)).

Definition parsePTSOrDTS : M I ClockReference :=
  bs ← next_bytes_no_copy 5;
  let base := Z.lor (Z.shiftl (Z.land (Z.shiftr (byte_at bs 0) 1) 0x7) 30)
    (Z.lor (Z.shiftl (byte_at bs 1) 22)
    (Z.lor (Z.shiftl (Z.land (Z.shiftr (byte_at bs 2) 1) 0x7f) 15)
    (Z.lor (Z.shiftl (byte_at bs 3) 7)
           (Z.land (Z.shiftr (byte_at bs 4) 1) 0x7f)))) in
  mret (newClockReference base 0).

(** The adaptation extension, from its length byte. *)
Definition parse_extension : M I PacketAdaptationExtensionField :=
  len ← next_byte;
  if 0 <? len then
    b ← next_byte;
    ltw ← optionally (masked b 0x80) (next_bytes_no_copy 2);
    piecewise ← optionally (masked b 0x40) (next_bytes_no_copy 3);
    splice ← optionally (masked b 0x20) (
      t ← next_byte;
      Skip (-1);;
      dts ← wrap_err "astits: parsing DTS failed" parsePTSOrDTS;
      mret (Z.shiftr (Z.land t 0xf0) 4, dts));
    mret {| DTSNextAccessUnit := snd <$> splice;
            HasLegalTimeWindow := masked b 0x80;
            HasPiecewiseRate := masked b 0x40;
            HasSeamlessSplice := masked b 0x20;
            LegalTimeWindowIsValid :=
              match ltw with Some bs => masked (byte_at bs 0) 0x80 | None => false end;
            LegalTimeWindowOffset :=
              match ltw with
              | Some bs => Z.lor (Z.shiftl (Z.land (byte_at bs 0) 0x7f) 8) (byte_at bs 1)
              | None => 0
              end;
            ext_Length := len;
            PiecewiseRate :=
              match piecewise with
              | Some bs => Z.lor (Z.shiftl (Z.land (byte_at bs 0) 0x3f) 16)
                             (Z.lor (Z.shiftl (byte_at bs 1) 8) (byte_at bs 2))
              | None => 0
              end;
            SpliceType := default 0 (fst <$> splice) |}
  else mret (with_ext_length len zero_ext).

(** The part of an adaptation field after a non-zero length byte. *)
Definition parse_af_body (len : Z) : M I PacketAdaptationField :=
  b ← next_byte;
  pcr ← optionally (masked b 0x10) (wrap_err "astits: parsing PCR failed" parsePCR);
  opcr ← optionally (masked b 0x08) (wrap_err "astits: parsing PCR failed" parsePCR);
  splice ← optionally (masked b 0x04) next_byte;
  priv ← optionally (masked b 0x02) (
    n ← next_byte;
    data ← optionally (0 <? n) (next_bytes n);
    mret (n, default [] data));
  ext ← optionally (masked b 0x01) parse_extension;
  mret {| AdaptationExtensionField := ext;
          OPCR := opcr;
          PCR := pcr;
          TransportPrivateData := default [] (snd <$> priv);
          TransportPrivateDataLength := default 0 (fst <$> priv);
          af_Length := len;
          StuffingLength := 0;
          SpliceCountdown := default 0 splice;
          IsOneByteStuffing := false;
          RandomAccessIndicator := masked b 0x40;
          DiscontinuityIndicator := masked b 0x80;
          ElementaryStreamPriorityIndicator := masked b 0x20;
          HasAdaptationExtensionField := masked b 0x01;
          HasOPCR := masked b 0x08;
          HasPCR := masked b 0x10;
          HasTransportPrivateData := masked b 0x02;
          HasSplicingCountdown := masked b 0x04 |}.

Definition parsePacketAdaptationField : M I PacketAdaptationField :=
  len ← next_byte;
  start ← gets Offset;
  a ← (if 0 <? len then parse_af_body len
       else mret (with_layout None 0 len 0 true zero_af));
  stop ← gets Offset;
  mret (with_stuffing (len - (stop - start)) a).

Definition payloadOffset (offsetStart : Z) (h : PacketHeader)
    (a : option PacketAdaptationField) : outcome Z :=
  let offset := offsetStart + 3 in
  if HasAdaptationField h then
    match a with Some a => Ok (offset + 1 + af_Length a) | None => Fail Panic end
  else Ok offset.

Definition parsePacket (s : option (Packet -> bool)) : M I Packet :=
  b ← wrap_err "astits: getting next byte failed" NextByte;
  if b =? syncByte then
    n ← gets Len;
    Seek (n - MpegTsPacketSize + 1);;
    offsetStart ← gets Offset;
    h ← wrap_err "astits: parsing packet header failed" parsePacketHeader;
    a ← optionally (HasAdaptationField h)
          (wrap_err "astits: parsing packet adaptation field failed"
             parsePacketAdaptationField);
    let p := {| AdaptationField := a; Header := h; Payload := [] |} in
    if match s with Some s => s p | None => false end then fail_with errSkippedPacket
    else if HasPayload h then
      o ← lift (payloadOffset offsetStart h a);
      Seek o;;
      payload ← Dump;
      mret (with_payload payload p)
    else mret p
  else fail_with ErrPacketMustStartWithASyncByte.
End Parse.

(** ** Writing *)
Section Write.
Context {W : Type} `{BitsWriter W}.

Definition writePacketHeader (h : PacketHeader) : M W Z :=
  with_batch (
    BWrite (WBool (TransportErrorIndicator h));;
    BWrite (WBool (PayloadUnitStartIndicator h));;
    BWrite (WBool (TransportPriority h));;
    BWriteN (PID h) 13;;
    BWriteN (TransportScramblingControl h) 2;;
    BWrite (WBool (HasAdaptationField h));;
    BWrite (WBool (HasPayload h));;
    BWriteN (ContinuityCounter h) 4;;
    batch_result mpegTsPacketHeaderSize).

Definition writePCR (cr : option ClockReference) : M W Z :=
  cr ← must cr;
  with_batch (
    BWriteN (Base cr) 33;;
    BWriteN 0xff 6;;
    BWriteN (Extension cr) 9;;
    batch_result pcrBytesSize).

Definition writePTSOrDTS (flag : Z) (cr : option ClockReference) : M W Z :=
  with_batch (
    BWriteN flag 4;;
    cr ← must cr;
    BWriteN (Z.shiftr (Base cr) 30) 3;;
    BWrite (WBool true);;
    BWriteN (Z.shiftr (Base cr) 15) 15;;
    BWrite (WBool true);;
    BWriteN (Base cr) 15;;
    BWrite (WBool true);;
    batch_result ptsOrDTSByteLength).

(** [if b { n, err := m; if err != nil { return 0, err }; written += n }] *)
Definition count_if {S} (b : bool) (m : M S Z) : M S Z :=
  if b then m else mret 0.

Definition writePacketAdaptationFieldExtension
    (afe : option PacketAdaptationExtensionField) : M W Z :=
  afe ← must afe;
  with_batch (
    BWrite (WUint8 (calcPacketAdaptationFieldExtensionLength afe));;
    BWrite (WBool (HasLegalTimeWindow afe));;
    BWrite (WBool (HasPiecewiseRate afe));;
    BWrite (WBool (HasSeamlessSplice afe));;
    BWriteN 0xff 5;;
    n1 ← count_if (HasLegalTimeWindow afe) (
      BWrite (WBool (LegalTimeWindowIsValid afe));;
      BWriteN (LegalTimeWindowOffset afe) 15;;
      mret 2);
    n2 ← count_if (HasPiecewiseRate afe) (
      BWriteN 0xff 2;;
      BWriteN (PiecewiseRate afe) 22;;
      mret 3);
    n3 ← count_if (HasSeamlessSplice afe)
      (on_snd (writePTSOrDTS (SpliceType afe) (DTSNextAccessUnit afe)));
    batch_result (1 + 1 + n1 + n2 + n3)).

Definition writePacketAdaptationField (af : option PacketAdaptationField) : M W Z :=
  af ← must af;
  with_batch (
    if IsOneByteStuffing af then BWrite (WUint8 0);; mret 1
    else
      length ← lift (calcPacketAdaptationFieldLength af);
      BWrite (WUint8 length);;
      BWrite (WBool (DiscontinuityIndicator af));;
      BWrite (WBool (RandomAccessIndicator af));;
      BWrite (WBool (ElementaryStreamPriorityIndicator af));;
      BWrite (WBool (HasPCR af));;
      BWrite (WBool (HasOPCR af));;
      BWrite (WBool (HasSplicingCountdown af));;
      BWrite (WBool (HasTransportPrivateData af));;
      BWrite (WBool (HasAdaptationExtensionField af));;
      n1 ← count_if (HasPCR af) (on_snd (writePCR (PCR af)));
      n2 ← count_if (HasOPCR af) (on_snd (writePCR (OPCR af)));
      n3 ← count_if (HasSplicingCountdown af)
             (BWrite (WUint8 (SpliceCountdown af));; mret 1);
      n4 ← count_if (HasTransportPrivateData af) (
        BWrite (WUint8 (TransportPrivateDataLength af));;
        when (0 <? TransportPrivateDataLength af)
          (BWrite (WBytes (TransportPrivateData af)));;
        mret (1 + Z.of_nat (List.length (TransportPrivateData af))));
      n5 ← count_if (HasAdaptationExtensionField af)
        (on_snd (writePacketAdaptationFieldExtension (AdaptationExtensionField af)));
      for_each (fun _ => BWrite (WUint8 0xff))
        (seq 0 (Z.to_nat (StuffingLength af)));;
      batch_result (1 + 1 + n1 + n2 + n3 + n4 + n5 + Z.max 0 (StuffingLength af))).

(** [for written < targetPacketSize { w.Write(uint8(0xff)); written++ }] *)
Definition write_padding (written target : Z) : M W Z :=
  iter (Z.to_nat (target - written) + 1) (fun written =>
    if written <? target then
      Write (WUint8 0xff);; mret (inl (written + 1))
    else mret (inr written)) written.

Definition writePacket (p : Packet) (targetPacketSize : Z) : M W Z :=
  Write (WUint8 syncByte);;
  n ← writePacketHeader (Header p);
  let written := 1 + n in
  n ← count_if (HasAdaptationField (Header p))
        (writePacketAdaptationField (AdaptationField p));
  let written := written + n in
  fail_if (targetPacketSize - written <? Z.of_nat (length (Payload p)))
    "writePacket: can't write the payload: not enough bytes available";;
  n ← count_if (HasPayload (Header p))
        (Write (WBytes (Payload p));; mret (Z.of_nat (length (Payload p))));
  let written := written + n in
  write_padding written targetPacketSize.
End Write.
