(* ===== verification/Codec.v ===== *)
(** * What writers write and what readers read

    Relations between a call on a writer and the bits it appends, and between a
    call on an iterator and the bytes it consumes, with one rule per construct of
    the Go code, and the numbers that groups of bits make.  The round trips of the
    packet, descriptor and section codecs are proved with them. *)

From S2P Require Import Prelude Astikit.
Local Open Scope Z_scope.

(** ** Bits as numbers *)
Lemma byte_of_bits_app l1 l2 :
  byte_of_bits (l1 ++ l2) = byte_of_bits l1 * 2 ^ Z.of_nat (length l2) + byte_of_bits l2.
Proof.
  induction l1 as [|b l1 IH]; [done|]. cbn [app byte_of_bits].
  rewrite IH, length_app, Nat2Z.inj_add, Z.pow_add_r by lia. lia.
Qed.

Lemma byte_of_bits_range l : 0 <= byte_of_bits l < 2 ^ Z.of_nat (length l).
Proof.
  induction l as [|b l IH]; [done|]. cbn [byte_of_bits length].
  rewrite Nat2Z.inj_succ, Z.pow_succ_r by lia. destruct b; cbn [Z.b2z]; lia.
Qed.

(** The [k] low bytes of a number, most significant first. *)
Fixpoint word_bytes (k : nat) (n : Z) : list Z :=
  match k with
  | O => []
  | S k => u8 (n / 2 ^ (8 * Z.of_nat k)) :: word_bytes k n
  end.

Lemma length_word_bytes k n : length (word_bytes k n) = k.
Proof. induction k; cbn; auto. Qed.

Lemma word_bytes_ok k n : bytes_ok (word_bytes k n).
Proof. induction k; constructor; [apply u8_range|done]. Qed.

Lemma word_bytes_mod k n : word_bytes k n = word_bytes k (n mod 2 ^ (8 * Z.of_nat k)).
Proof.
  assert (H : forall j, (k <= j)%nat -> word_bytes k n = word_bytes k (n mod 2 ^ (8 * Z.of_nat j))).
  { induction k as [|k IH]; intros j Hj; [done|]. cbn [word_bytes]. rewrite <- (IH j) by lia.
    f_equal. unfold u8. replace (8 * Z.of_nat j) with (8 * Z.of_nat k + 8 + 8 * Z.of_nat (j - S k)) by lia.
    rewrite !Z.pow_add_r, <- Z.mul_assoc, Z.rem_mul_r by lia.
    rewrite (Z.mul_comm (2 ^ (8 * Z.of_nat k))), Z.div_add by lia.
    rewrite <- Zplus_mod_idemp_l.
    set (b := (n / 2 ^ (8 * Z.of_nat k)) mod (2 ^ 8 * 2 ^ (8 * Z.of_nat (j - S k)))).
    rewrite (Z.div_small (n mod _)) by (apply Z.mod_pos_bound; lia).
    rewrite Z.mod_0_l, Z.add_0_l by lia. subst b.
    by rewrite Z.rem_mul_r, (Z.mul_comm (2 ^ 8)), Z.mod_add, Z.mod_mod by lia. }
  by apply H.
Qed.

(** A group of bits of whole bytes is a number. *)
Lemma bytes_of_bits_word l k : length l = (8 * k)%nat ->
  bytes_of_bits l = word_bytes k (byte_of_bits l).
Proof.
  revert l. induction k as [|k IH]; intros l Hl; [by destruct l|].
  rewrite <- (take_drop 8 l) at 1.
  assert (H8 : length (take 8 l) = (8 * 1)%nat) by llia.
  rewrite (bytes_of_bits_app _ _ 1) by done. cbn [word_bytes].
  rewrite <- (take_drop 8 l) at 3 4. rewrite byte_of_bits_app, length_drop, Hl.
  replace (Z.of_nat (8 * S k - 8)) with (8 * Z.of_nat k) by lia.
  pose proof (byte_of_bits_range (drop 8 l)) as Hr. rewrite length_drop, Hl in Hr.
  replace (Z.of_nat (8 * S k - 8)) with (8 * Z.of_nat k) in Hr by lia.
  rewrite Z.div_add_l, (Z.div_small (byte_of_bits (drop 8 l))), Z.add_0_r by lia.
  rewrite (IH (drop 8 l)) by llia. rewrite (word_bytes_mod k (_ + _)), Z.add_comm, Z.mod_add by lia.
  rewrite (Z.mod_small (byte_of_bits (drop 8 l))) by lia.
  pose proof (byte_of_bits_range (take 8 l)) as Hr8. rewrite H8 in Hr8.
  destruct (take 8 l) as [|? [|? [|? [|? [|? [|? [|? [|? [|]]]]]]]]] eqn:E; try done.
  cbn [bytes_of_bits app]. rewrite u8_small; [done|]. exact Hr8.
Qed.

Lemma bytes_of_bits_ok l : bytes_ok (bytes_of_bits l).
Proof.
  remember (length l) as n eqn:Hn. revert l Hn. induction n as [n IH] using lt_wf_ind. intros l ->.
  do 8 (destruct l as [|? l]; [constructor|]). cbn [bytes_of_bits]. constructor.
  - apply (byte_of_bits_range [_; _; _; _; _; _; _; _]).
  - eapply IH; [|done]. cbn. lia.
Qed.

(** Whole bytes, written as bits. *)
Definition byte_bits (bs : list Z) : list bool := bs ≫= bits_of 8.

Lemma byte_bits_app l1 l2 : byte_bits (l1 ++ l2) = byte_bits l1 ++ byte_bits l2.
Proof. apply bind_app. Qed.

Lemma byte_bits_if (b : bool) l1 l2 :
  byte_bits (if b then l1 else l2) = if b then byte_bits l1 else byte_bits l2.
Proof. by destruct b. Qed.

Lemma byte_bits_group l k : length l = (8 * k)%nat -> byte_bits (bytes_of_bits l) = l.
Proof.
  revert l. induction k as [|k IH]; intros l Hl; [by destruct l|].
  destruct l as [|b0 l]; [cbn in Hl; lia|]. destruct l as [|b1 l]; [cbn in Hl; lia|].
  destruct l as [|b2 l]; [cbn in Hl; lia|]. destruct l as [|b3 l]; [cbn in Hl; lia|].
  destruct l as [|b4 l]; [cbn in Hl; lia|]. destruct l as [|b5 l]; [cbn in Hl; lia|].
  destruct l as [|b6 l]; [cbn in Hl; lia|]. destruct l as [|b7 l]; [cbn in Hl; lia|].
  change (bytes_of_bits _) with (byte_of_bits [b0; b1; b2; b3; b4; b5; b6; b7] :: bytes_of_bits l).
  unfold byte_bits. rewrite bind_cons. fold (byte_bits (bytes_of_bits l)). rewrite IH by (cbn in Hl; lia).
  by destruct b0, b1, b2, b3, b4, b5, b6, b7.
Qed.

Lemma length_group l k : length l = (8 * k)%nat -> length (bytes_of_bits l) = k.
Proof. intros Hl. by rewrite (bytes_of_bits_word l k Hl), length_word_bytes. Qed.

(** ** Writers *)
Section Writes.
Context {W : Type} `{ReliableWriter W}.

(** [m] appends the bits [l] and returns [a]. *)
Definition writes {A} (m : M W A) (l : list bool) (a : A) : Prop :=
  forall w pre c, written w pre c ->
    exists w', m w = (Ok a, w') /\ written w' (pre ++ l) c.

Definition bwrites {A} (m : M (Batch * W) A) (l : list bool) (a : A) : Prop :=
  forall b w pre c, batch_ok b -> written w pre c ->
    exists b' w', m (b, w) = (Ok a, (b', w')) /\ batch_ok b' /\ written w' (pre ++ l) c.

Lemma writes_ret {A} (a : A) : writes (mret a) [] a.
Proof. intros w pre c Hw. exists w. by rewrite app_nil_r. Qed.

Lemma writes_bind {A B} (m : M W A) (k : A -> M W B) l1 l2 a b :
  writes m l1 a -> writes (k a) l2 b -> writes (m ≫= k) (l1 ++ l2) b.
Proof.
  intros Hm Hk w pre c Hw. destruct (Hm w pre c Hw) as (w1 & E1 & Hw1).
  destruct (Hk w1 _ c Hw1) as (w2 & E2 & Hw2). exists w2.
  rewrite (bind_ok _ _ _ _ _ E1), app_assoc. done.
Qed.

Lemma writes_write v : writes (Write v) (value_bits v) tt.
Proof. intros w pre c Hw. by apply written_write. Qed.

Lemma writes_must {A} (o : option A) a : o = Some a -> writes (must o) [] a.
Proof. intros ->. apply writes_ret. Qed.

Lemma writes_lift {A} (o : outcome A) a : o = Ok a -> writes (lift o) [] a.
Proof. intros ->. apply writes_ret. Qed.

Lemma writes_fail_if b msg : b = false -> writes (fail_if b msg) [] tt.
Proof. intros ->. apply writes_ret. Qed.

Lemma writes_with_batch {A} (m : M (Batch * W) A) l a : bwrites m l a -> writes (with_batch m) l a.
Proof.
  intros Hm w pre c Hw. destruct (Hm _ w pre c batch_new Hw) as (b' & w' & E & _ & Hw').
  exists w'. unfold with_batch. by rewrite E.
Qed.

Lemma bwrites_ret {A} (a : A) : bwrites (mret a) [] a.
Proof. intros b w pre c Hb Hw. exists b, w. by rewrite app_nil_r. Qed.

Lemma bwrites_bind {A B} (m : M (Batch * W) A) (k : A -> M (Batch * W) B) l1 l2 a b :
  bwrites m l1 a -> bwrites (k a) l2 b -> bwrites (m ≫= k) (l1 ++ l2) b.
Proof.
  intros Hm Hk b0 w pre c Hb Hw. destruct (Hm b0 w pre c Hb Hw) as (b1 & w1 & E1 & Hb1 & Hw1).
  destruct (Hk b1 w1 _ c Hb1 Hw1) as (b2 & w2 & E2 & Hb2 & Hw2). exists b2, w2.
  rewrite (bind_ok _ _ _ _ _ E1), app_assoc. done.
Qed.

Lemma bwrites_bwrite v : bwrites (BWrite v) (value_bits v) tt.
Proof. intros b w pre c Hb Hw. by apply written_bwrite. Qed.

Lemma bwrites_bwriten x n : bwrites (BWriteN x n) (bits_of (Z.to_nat n) x) tt.
Proof. intros b w pre c Hb Hw. by apply written_bwriten. Qed.

(** A field of exactly [n] bytes. *)
Lemma bwrites_bytesn bs n pad : length bs = n -> bwrites (BWriteBytesN bs n pad) (byte_bits bs) tt.
Proof.
  intros Hn b w pre c Hb Hw.
  destruct (written_bwritebytesn bs n pad b w pre c Hb Hw) as (b' & w' & E & Hb' & Hw').
  exists b', w'. split_and!; [done..|]. unfold sized_bytes in Hw'. subst n.
  by rewrite take_ge, Nat.sub_diag, app_nil_r in Hw' by done.
Qed.

Lemma bwrites_on_snd {A} (m : M W A) l a : writes m l a -> bwrites (on_snd m) l a.
Proof.
  intros Hm b w pre c Hb Hw. destruct (Hm w pre c Hw) as (w' & E & Hw').
  exists b, w'. unfold on_snd. by rewrite E.
Qed.

Lemma bwrites_result {A} (a : A) : bwrites (batch_result a) [] a.
Proof.
  intros b w pre c Hb Hw. exists b, w. rewrite app_nil_r. split; [|done].
  unfold batch_result. rewrite (bind_ok _ _ _ b (b, w)) by done. by rewrite batch_err.
Qed.

Lemma bwrites_must {A} (o : option A) a : o = Some a -> bwrites (must o) [] a.
Proof. intros ->. apply bwrites_ret. Qed.

Lemma bwrites_lift {A} (o : outcome A) a : o = Ok a -> bwrites (lift o) [] a.
Proof. intros ->. apply bwrites_ret. Qed.

(** A conditional part: nothing is written when the condition is false. *)
Lemma bwrites_when (b : bool) (m : M (Batch * W) unit) l :
  (b = true -> bwrites m l tt) -> bwrites (when b m) (if b then l else []) tt.
Proof. intros Hm. destruct b; [by apply Hm|apply bwrites_ret]. Qed.

Lemma bwrites_for_each {A} (f : A -> M (Batch * W) unit) (g : A -> list bool) xs :
  Forall (fun x => bwrites (f x) (g x) tt) xs -> bwrites (for_each f xs) (xs ≫= g) tt.
Proof.
  induction 1 as [|x xs Hx _ IH]; [apply bwrites_ret|]. rewrite bind_cons.
  by eapply bwrites_bind.
Qed.

Lemma bwrites_group {A} (m : M (Batch * W) A) l k a : length l = (8 * k)%nat ->
  bwrites m l a -> bwrites m (byte_bits (bytes_of_bits l)) a.
Proof. intros Hl. by rewrite (byte_bits_group l k). Qed.

Lemma writes_group {A} (m : M W A) l k a : length l = (8 * k)%nat ->
  writes m l a -> writes m (byte_bits (bytes_of_bits l)) a.
Proof. intros Hl. by rewrite (byte_bits_group l k). Qed.

(** The bits only matter up to equality. *)
Lemma writes_eq {A} (m : M W A) l l' a a' : writes m l a -> l = l' -> a = a' -> writes m l' a'.
Proof. by intros Hm <- <-. Qed.
Lemma bwrites_eq {A} (m : M (Batch * W) A) l l' a a' :
  bwrites m l a -> l = l' -> a = a' -> bwrites m l' a'.
Proof. by intros Hm <- <-. Qed.
End Writes.

(** Runs the rules on a sequence of calls; the calls that are left need lemmas. *)
Ltac write_call :=
  first
  [ eapply writes_ret | eapply writes_write | eapply writes_with_batch
  | eapply bwrites_ret | eapply bwrites_bwrite | eapply bwrites_bwriten
  | eapply bwrites_bytesn; [assumption] | eapply bwrites_result | eapply bwrites_on_snd ].
Ltac write_rules :=
  repeat first [ eapply bwrites_result | eapply bwrites_bind | eapply writes_bind | write_call ].

(** ** Readers *)
Section Reads.
Context {I : Type} `{BytesIteratorLaws I}.

(** [m], called at offset [o] where the bytes [bs] follow, consumes them and
    returns [a]. *)
Definition reads {A} (o : Z) (m : M I A) (bs : list Z) (a : A) : Prop :=
  forall i pre post, o = Z.of_nat (length pre) -> at_offset i (pre ++ bs ++ post) o ->
    exists i', m i = (Ok a, i') /\ at_offset i' (pre ++ bs ++ post) (o + Z.of_nat (length bs)).

Lemma reads_ret {A} o (a : A) : reads o (mret a) [] a.
Proof. intros i pre post _ Hi. exists i. by rewrite Z.add_0_r. Qed.

Lemma reads_bind {A B} o (m : M I A) (k : A -> M I B) bs1 bs2 a b :
  reads o m bs1 a -> reads (o + Z.of_nat (length bs1)) (k a) bs2 b ->
  reads o (m ≫= k) (bs1 ++ bs2) b.
Proof.
  intros Hm Hk i pre post Ho Hi. rewrite <- app_assoc in Hi.
  destruct (Hm i pre (bs2 ++ post) Ho Hi) as (i1 & E1 & Hi1).
  destruct (Hk i1 (pre ++ bs1) post) as (i2 & E2 & Hi2); [llia|by rewrite <- app_assoc|].
  exists i2. rewrite (bind_ok _ _ _ _ _ E1). split; [done|].
  rewrite <- app_assoc in Hi2 |- *. by rewrite length_app, Nat2Z.inj_add, Z.add_assoc.
Qed.

Lemma reads_wrap {A} o msg (m : M I A) bs a : reads o m bs a -> reads o (wrap_err msg m) bs a.
Proof.
  intros Hm i pre post Ho Hi. destruct (Hm i pre post Ho Hi) as (i' & E & Hi').
  exists i'. unfold wrap_err. by rewrite E.
Qed.

Lemma reads_NextByte o b : reads o NextByte [b] b.
Proof.
  intros i pre post -> Hi. pose proof (at_next_byte _ _ _ Hi ltac:(lia)) as Hn.
  cbn [app] in Hn. rewrite Nat2Z.id, list_lookup_middle in Hn by done. destruct Hn as (i' & E & Hi'). by exists i'.
Qed.

Lemma reads_byte o b : reads o next_byte [b] b.
Proof. apply reads_wrap, reads_NextByte. Qed.

Lemma slice_middle (pre bs post : list Z) n : n = Z.of_nat (length bs) ->
  slice (pre ++ bs ++ post) (Z.to_nat (Z.of_nat (length pre))) (Z.to_nat (Z.of_nat (length pre) + n)) = bs.
Proof.
  intros ->. unfold slice. rewrite Nat2Z.id, drop_app_length.
  replace (Z.to_nat _ - length pre)%nat with (length bs) by lia. apply take_app_length.
Qed.

Lemma reads_bytes o n bs : n = Z.of_nat (length bs) -> reads o (next_bytes n) bs bs.
Proof.
  intros Hn. apply reads_wrap. intros i pre post -> Hi.
  pose proof (at_next_bytes _ _ _ n Hi ltac:(lia) ltac:(lia)) as Hx.
  rewrite decide_True, slice_middle in Hx by llia. destruct Hx as (i' & E & Hi').
  exists i'. by rewrite <- Hn.
Qed.

Lemma reads_NextBytesNoCopy o n bs : n = Z.of_nat (length bs) -> reads o (NextBytesNoCopy n) bs bs.
Proof.
  intros Hn i pre post -> Hi.
  pose proof (at_next_bytes_no_copy _ _ _ n Hi ltac:(lia) ltac:(lia)) as Hx.
  rewrite decide_True, slice_middle in Hx by llia. destruct Hx as (i' & E & Hi').
  exists i'. by rewrite <- Hn.
Qed.

Lemma reads_bytes_no_copy o n bs : n = Z.of_nat (length bs) -> reads o (next_bytes_no_copy n) bs bs.
Proof. intros Hn. by apply reads_wrap, reads_NextBytesNoCopy. Qed.

Lemma reads_offset o : reads o (gets Offset) [] o.
Proof.
  intros i pre post Ho Hi. exists i. rewrite Z.add_0_r. split; [|done].
  unfold gets. by destruct (at_observe _ _ _ Hi) as (-> & _).
Qed.

(** Seeking where the iterator already is. *)
Lemma reads_seek o n : n = o -> reads o (Seek n) [] tt.
Proof.
  intros -> i pre post Ho Hi. destruct (at_seek _ _ _ o Hi) as (i' & E & Hi').
  exists i'. by rewrite Z.add_0_r.
Qed.

Lemma reads_must {A} o (x : option A) a : x = Some a -> reads o (must x) [] a.
Proof. intros ->. apply reads_ret. Qed.

(** A byte looked at before the call that consumes it. *)
Lemma reads_peek {A} o (k : Z -> M I A) b bs a :
  reads o (k b) (b :: bs) a -> reads o (x ← next_byte; Skip (-1);; k x) (b :: bs) a.
Proof.
  intros Hk i pre post Ho Hi.
  destruct (reads_byte o b i pre (bs ++ post) Ho) as (i1 & E1 & Hi1); [done|].
  destruct (at_skip _ _ _ (-1) Hi1) as (i2 & E2 & Hi2). cbn [length] in Hi2.
  replace (o + Z.of_nat 1 + -1) with o in Hi2 by lia.
  destruct (Hk i2 pre post Ho Hi2) as (i3 & E3 & Hi3). exists i3.
  by rewrite (bind_ok _ _ _ _ _ E1), (bind_ok _ _ _ _ _ E2).
Qed.

Lemma reads_until o e bs : e = o + Z.of_nat (length bs) -> reads o (bytes_until e) bs bs.
Proof.
  intros -> i pre post Ho Hi. unfold bytes_until.
  destruct (reads_offset o i pre (bs ++ post) Ho Hi) as (i1 & E1 & Hi1). cbn [length app] in Hi1.
  rewrite (bind_ok _ _ _ _ _ E1). rewrite Z.add_0_r in Hi1.
  destruct bs as [|b bs].
  - cbn [length]. rewrite Z.add_0_r, Z.ltb_irrefl. by exists i1.
  - rewrite (proj2 (Z.ltb_lt _ _)) by (cbn [length]; lia).
    apply reads_bytes; [lia|done..].
Qed.

Lemma reads_optionally {A} o b (m : M I A) bs a :
  (b = true -> reads o m bs a) ->
  reads o (optionally b m) (if b then bs else []) (if b then Some a else None).
Proof.
  intros Hm. destruct b; [|apply reads_ret]. rewrite <- (app_nil_r bs).
  eapply reads_bind; [by apply Hm|apply reads_ret].
Qed.

Lemma reads_eq {A} o (m : M I A) bs bs' a a' :
  reads o m bs a -> bs = bs' -> a = a' -> reads o m bs' a'.
Proof. by intros Hm <- <-. Qed.

(** ** Loops over items *)

(** A round of [items_until]. *)
Definition items_round {A} (e : Z) (item : M I A) (xs : list A) : M I (list A + list A) :=
  o ← gets Offset;
  if o <? e then x ← item; mret (inl (xs ++ [x])) else mret (inr xs).

Lemma items_round_more {A} e (item : M I A) xs i pre post bs a o :
  o = Z.of_nat (length pre) -> at_offset i (pre ++ bs ++ post) o -> o < e -> reads o item bs a ->
  exists i', items_round e item xs i = (Ok (inl (xs ++ [a])), i')
    /\ at_offset i' (pre ++ bs ++ post) (o + Z.of_nat (length bs)).
Proof.
  intros Ho Hi Hlt Hr. destruct (Hr i pre post Ho Hi) as (i' & E & Hi'). exists i'. split; [|done].
  unfold items_round. rewrite bind_unfold. unfold gets. destruct (at_observe _ _ _ Hi) as (-> & _).
  by rewrite (proj2 (Z.ltb_lt _ _) Hlt), (bind_ok _ _ _ _ _ E).
Qed.

Lemma items_round_end {A} e (item : M I A) xs i bs o : at_offset i bs o -> e <= o ->
  items_round e item xs i = (Ok (inr xs), i).
Proof.
  intros Hi Hle. unfold items_round. rewrite bind_unfold. unfold gets.
  destruct (at_observe _ _ _ Hi) as (-> & _). by rewrite (proj2 (Z.ltb_ge _ _) Hle).
Qed.

(** An item that [g] encodes, whatever its place. *)
Definition item_of {A} (item : M I A) (g : A -> list Z) (x : A) : Prop :=
  (0 < length (g x))%nat /\ forall o, reads o item (g x) x.

Lemma items_loop {A} e (item : M I A) g xs : Forall (item_of item g) xs ->
  forall o i pre post acc n, o = Z.of_nat (length pre) -> at_offset i (pre ++ (xs ≫= g) ++ post) o ->
  e = o + Z.of_nat (length (xs ≫= g)) -> (length xs < n)%nat ->
  exists i', iter n (items_round e item) acc i = (Ok (acc ++ xs), i')
    /\ at_offset i' (pre ++ (xs ≫= g) ++ post) e.
Proof.
  induction 1 as [|x xs [Hx Hr] Hxs IH]; intros o i pre post acc n Ho Hi He Hn;
    cbn [length] in Hn; (destruct n as [|n]; [lia|]); rewrite iter_S.
  - cbn in He. rewrite (items_round_end _ _ _ _ _ _ Hi), app_nil_r by lia.
    exists i. by replace e with o by lia.
  - rewrite bind_cons in Hi, He |- *. rewrite length_app, Nat2Z.inj_add in He. rewrite <- app_assoc in Hi.
    destruct (items_round_more e item acc i pre _ (g x) x o Ho Hi ltac:(lia) (Hr o)) as (i1 & -> & Hi1).
    rewrite (app_assoc pre) in Hi1.
    destruct (IH (o + Z.of_nat (length (g x))) i1 (pre ++ g x) post (acc ++ [x]) n)
      as (i2 & -> & Hi2); [llia|done|lia|lia|].
    exists i2. rewrite <- (app_assoc acc). split; [done|]. rewrite <- !app_assoc in *. exact Hi2.
Qed.

Lemma length_items {A} (item : M I A) g xs : Forall (item_of item g) xs ->
  (length xs <= length (xs ≫= g))%nat.
Proof.
  induction 1 as [|x xs [Hx _] _ IH]; [cbn; lia|]. rewrite bind_cons, length_app. cbn [length]. lia.
Qed.

Lemma reads_items {A} o e (item : M I A) (g : A -> list Z) xs :
  Forall (item_of item g) xs -> e = o + Z.of_nat (length (xs ≫= g)) ->
  reads o (items_until e item) (xs ≫= g) xs.
Proof.
  intros Hxs He i pre post Ho Hi. pose proof (length_items _ _ _ Hxs).
  unfold items_until. destruct (at_observe _ _ _ Hi) as (-> & _).
  destruct (items_loop e item g xs Hxs o i pre post [] (Z.to_nat (e - o) + 1)) as (i' & E & Hi');
    [done..|lia|]. exists i'. rewrite <- He. split; [exact E|done].
Qed.
End Reads.

(** Runs the rules on a sequence of calls; the calls that are left need lemmas. *)
Ltac read_call :=
  first
  [ eapply reads_ret | eapply reads_wrap | eapply reads_byte | eapply reads_offset
  | eapply reads_bytes_no_copy | eapply reads_bytes ].

(** ** Fields of numbers

    Masks and shifts by constants as divisions, which [lia] decides. *)
Lemma land_low x k m : 0 <= k -> m = 2 ^ k - 1 -> Z.land x m = x mod 2 ^ k.
Proof. intros Hk ->. rewrite <- Z.land_ones, Z.ones_equiv, <- Z.sub_1_r by done. done. Qed.

Lemma masked_bit x k m : 0 <= k -> m = 2 ^ k -> masked x m = (x / 2 ^ k mod 2 =? 1).
Proof.
  intros Hk ->. unfold masked. replace (Z.land x (2 ^ k)) with (Z.shiftl (Z.b2z (Z.testbit x k)) k).
  - rewrite Z.shiftl_mul_pow2, <- Z.testbit_spec' by done. destruct (Z.testbit x k); cbn; lia.
  - apply Z.bits_inj'. intros n Hn. rewrite Z.land_spec, Z.pow2_bits_eqb, Z.shiftl_spec by done.
    destruct (Z.eqb_spec k n) as [->|Hne].
    + rewrite Z.sub_diag, andb_true_r. by destruct (Z.testbit x n).
    + rewrite andb_false_r. destruct (Z.lt_ge_cases (n - k) 0) as [|]; [by apply Z.testbit_neg_r|].
      destruct (Z.testbit x k); [apply Z.bits_above_log2; cbn; lia|apply Z.bits_0].
Qed.

Lemma lor_add a b k : 0 <= k -> 0 <= b < 2 ^ k -> Z.lor (a * 2 ^ k) b = a * 2 ^ k + b.
Proof.
  intros Hk Hb. rewrite <- Z.shiftl_mul_pow2 by done. symmetry. rewrite Z.add_nocarry_lxor.
  - apply Z.lxor_lor, Z.bits_inj'. intros n Hn. rewrite Z.land_spec, Z.shiftl_spec, Z.bits_0 by done.
    destruct (Z.lt_ge_cases n k); [by rewrite Z.testbit_neg_r by lia|].
    rewrite andb_comm. destruct (decide (b = 0)) as [->|]; [by rewrite Z.bits_0|].
    rewrite Z.bits_above_log2; [done|lia|]. apply Z.log2_lt_pow2; [lia|].
    eapply Z.lt_le_trans; [apply Hb|]. by apply Z.pow_le_mono_r.
  - apply Z.bits_inj'. intros n Hn. rewrite Z.land_spec, Z.shiftl_spec, Z.bits_0 by done.
    destruct (Z.lt_ge_cases n k); [by rewrite Z.testbit_neg_r by lia|].
    rewrite andb_comm. destruct (decide (b = 0)) as [->|]; [by rewrite Z.bits_0|].
    rewrite Z.bits_above_log2; [done|lia|]. apply Z.log2_lt_pow2; [lia|].
    eapply Z.lt_le_trans; [apply Hb|]. by apply Z.pow_le_mono_r.
Qed.

Lemma bit_eq y b : y = Z.b2z b -> (y =? 1) = b.
Proof. intros ->. by destruct b. Qed.

Lemma b2z_range b : 0 <= Z.b2z b <= 1.
Proof. destruct b; cbn; lia. Qed.

Ltac numeral m := lazymatch m with Z0 => idtac | Zpos _ => idtac end.

Ltac arith_masks :=
  repeat match goal with
  | |- context [Z.land ?x ?m] =>
      numeral m;
      let k := eval vm_compute in (Z.log2 (m + 1)) in
      let p := eval vm_compute in (m + 1) in
      rewrite (land_low x k m) by (reflexivity || lia); change (2 ^ k) with p
  | |- context [masked ?x ?m] =>
      numeral m;
      let k := eval vm_compute in (Z.log2 m) in
      rewrite (masked_bit x k m) by (reflexivity || lia); change (2 ^ k) with m
  | |- context [Z.shiftr ?x ?k] =>
      numeral k;
      let p := eval vm_compute in (2 ^ k) in
      rewrite (Z.shiftr_div_pow2 x k) by lia; change (2 ^ k) with p
  | |- context [Z.shiftl ?x ?k] =>
      numeral k;
      let p := eval vm_compute in (2 ^ k) in
      rewrite (Z.shiftl_mul_pow2 x k) by lia; change (2 ^ k) with p
  end;
  unfold u8, u16, u32 in *;
  change (2 ^ 8) with 256 in *; change (2 ^ 16) with 65536 in *; change (2 ^ 32) with 4294967296 in *.

(** The booleans of a group of bits, as bounded numbers. *)
Ltac arith_bool b :=
  let v := fresh "v" in let E := fresh "E" in
  pose proof (b2z_range b); remember (Z.b2z b) as v eqn:E in *; clear E.
Ltac arith_bools :=
  try apply bit_eq;
  repeat match goal with
  | |- context [Z.b2z ?b] => arith_bool b
  | H : context [Z.b2z ?b] |- _ => arith_bool b
  end.

Ltac arith_lor :=
  repeat match goal with
  | |- context [Z.lor (?a * ?p) ?b] =>
      numeral p;
      lazymatch b with context [Z.lor _ _] => fail | _ => idtac end;
      let k := eval vm_compute in (Z.log2 p) in
      change (a * p) with (a * 2 ^ k);
      rewrite (lor_add a b k) by (change (2 ^ k) with p; first [lia | Z.to_euclidean_division_equations; lia]);
      change (2 ^ k) with p
  end.

(** The bytes read, by their definition. *)
Ltac arith_bytes :=
  repeat match goal with
  | |- context [u8 ?x] =>
      let y := fresh "y" in let E := fresh "E" in
      remember (u8 x) as y eqn:E; assert (0 <= y < 256) by (rewrite E; apply u8_range)
  end.

(** The bytes of a group, at constant indices. *)
Ltac simpl_bytes :=
  unfold byte_at; cbn [word_bytes lookup list_lookup default from_option id take drop];
  repeat match goal with |- context [2 ^ (8 * Z.of_nat ?k)] =>
    let p := eval vm_compute in (2 ^ (8 * Z.of_nat k)) in change (2 ^ (8 * Z.of_nat k)) with p
  end.

Ltac field_arith :=
  arith_bytes; arith_masks; arith_bools; arith_lor; Z.to_euclidean_division_equations; lia.

(** The number of a group of fields, named [n]. *)
Ltac group_number n E :=
  match goal with |- context [word_bytes _ (byte_of_bits ?l)] =>
    remember (byte_of_bits l) as n eqn:E;
    rewrite ?byte_of_bits_app, ?byte_of_bits_of in E; cbn [byte_of_bits length app] in E;
    rewrite ?length_app, ?length_bits_of, ?byte_of_bits_of in E;
    repeat (progress (cbn [length Nat.add Z.b2z] in E; rewrite ?length_app, ?length_bits_of in E));
    repeat match type of E with context [2 ^ Z.of_nat ?k] =>
      let p := eval vm_compute in (2 ^ Z.of_nat k) in change (2 ^ Z.of_nat k) with p in E
    end
  end.

Lemma be16_word_bytes v : 0 <= v < 2 ^ 16 -> be16 (word_bytes 2 v) 0 = v.
Proof. intros Hv. change (2 ^ 16) with 65536 in Hv. unfold be16. cbn [Nat.add]. simpl_bytes. field_arith. Qed.
