(* ===== verification/Demuxer.v ===== *)
(** * internal/go-astits: reading packets from a stream

    [packetBuffer.next] (packet_buffer.go) with a packet size given beforehand, as
    this program does, and [Demuxer.NextPacket] (demuxer.go).  The reader and the
    context are supplied by the caller: a class of their operations, with the
    instance of a [bytes.Reader] and a context that is never cancelled. *)

From S2P Require Import Prelude Packet Astikit PacketCodec.

Definition EOF : goerror := Errorf "EOF".
Definition ErrUnexpectedEOF : goerror := Errorf "unexpected EOF".
Definition ErrNoMorePackets : goerror := Errorf "astits: no more packets".

(** [io.ReadFull] on the reader, and [ctx.Err]. *)
Class Input (R : Type) := {
  ReadFull : nat -> M R (list Z);
  ctx_Err : M R (option goerror);
}.

Section Demux.
Context (I : Type) `{BytesIterator I} {R : Type} `{Input R}.

(** Parsing from a new iterator. *)
Definition parse_buffer (s : option (Packet -> bool)) (bs : list Z) : outcome Packet :=
  (parsePacket s (NewBytesIterator (I := I) bs)).1.

(** [packetBuffer.next]; [fuel] bounds the packets that a skipper drops. *)
Definition next_packet (fuel packetSize : nat) (s : option (Packet -> bool)) : M R Packet :=
  iter fuel (fun _ : unit => fun r =>
    match ReadFull packetSize r with
    | (Ok bs, r') =>
        match parse_buffer s bs with
        | Ok p => (Ok (inr p), r')
        | Fail (Err e) =>
            if decide (e = errSkippedPacket) then (Ok (inl tt), r')
            else (Fail (Err (Wrapf "astits: building packet failed" e)), r')
        | Fail f => (Fail f, r')
        end
    | (Fail (Err e), r') =>
        if decide (e = EOF \/ e = ErrUnexpectedEOF) then (Fail (Err ErrNoMorePackets), r')
        else (Fail (Err (Wrapf "astits: reading bytes failed" e)), r')
    | (Fail f, r') => (Fail f, r')
    end) tt.

(** [Demuxer.NextPacket] with a packet size and no skipper: without one, the
    first packet read is returned or refused, so one round is enough. *)
Definition NextPacket (packetSize : nat) : M R Packet :=
  e ← ctx_Err;
  match e with
  | Some e => fail_with e
  | None => fun r =>
      match next_packet 1 packetSize None r with
      | (Fail (Err e), r') =>
          if decide (e = ErrNoMorePackets) then (Fail (Err e), r')
          else (Fail (Err (Wrapf "astits: fetching next packet from buffer failed" e)), r')
      | x => x
      end
  end.
End Demux.

(** ** A reader over bytes *)
Definition bytes_reader : Type := list Z.

(** What [io.ReadFull] does on a [bytes.Reader]. *)
#[export] Instance bytes_input : Input bytes_reader := {
  ReadFull n := fun bs =>
    if decide (n <= length bs) then (Ok (take n bs), drop n bs)
    else (Fail (Err (if decide (bs = []) then EOF else ErrUnexpectedEOF)), []);
  ctx_Err := mret None;
}.
