(* ===== verification/PacketSpec.v ===== *)
(** * The wire format of packets, and the round trip

    The bytes of each part of a packet, that [writePacket] writes them and
    [parsePacket] reads them back.  [wire_packet] says which packets have a wire
    format: fields in range, flags that agree with the options, and parts that
    fill 188 bytes. *)

From S2P Require Import Prelude Packet Astikit PacketCodec Codec Demuxer.
Local Open Scope Z_scope.

(** ** The parts, as groups of bits *)
Definition header_bits (h : PacketHeader) : list bool :=
  [TransportErrorIndicator h; PayloadUnitStartIndicator h; TransportPriority h]
  ++ bits_of 13 (PID h) ++ bits_of 2 (TransportScramblingControl h)
  ++ [HasAdaptationField h; HasPayload h] ++ bits_of 4 (ContinuityCounter h).

Definition pcr_bits (c : ClockReference) : list bool :=
  bits_of 33 (Base c) ++ bits_of 6 0xff ++ bits_of 9 (Extension c).

Definition pts_bits (flag : Z) (c : ClockReference) : list bool :=
  bits_of 4 flag ++ bits_of 3 (Z.shiftr (Base c) 30) ++ [true]
  ++ bits_of 15 (Z.shiftr (Base c) 15) ++ [true] ++ bits_of 15 (Base c) ++ [true].

Definition header_bytes (h : PacketHeader) : list Z := bytes_of_bits (header_bits h).
Definition pcr_bytes (c : ClockReference) : list Z := bytes_of_bits (pcr_bits c).
Definition pts_bytes (flag : Z) (c : ClockReference) : list Z := bytes_of_bits (pts_bits flag c).

(** ** Well-formed values *)
Definition wire_header (h : PacketHeader) : Prop :=
  0 <= PID h < 2 ^ 13 /\ 0 <= ContinuityCounter h < 2 ^ 4
  /\ 0 <= TransportScramblingControl h < 2 ^ 2.

Definition wire_pcr (c : ClockReference) : Prop := 0 <= Base c < 2 ^ 33 /\ 0 <= Extension c < 2 ^ 9.
Definition wire_pts (c : ClockReference) : Prop := 0 <= Base c < 2 ^ 33 /\ Extension c = 0.

Definition zero_clock : ClockReference := newClockReference 0 0.

Definition wire_opt {A} (P : A -> Prop) (o : option A) : Prop :=
  match o with Some a => P a | None => False end.

(** The adaptation extension. *)
Definition ext_flags (e : PacketAdaptationExtensionField) : list bool :=
  [HasLegalTimeWindow e; HasPiecewiseRate e; HasSeamlessSplice e] ++ bits_of 5 0xff.
Definition ltw_bits (e : PacketAdaptationExtensionField) : list bool :=
  LegalTimeWindowIsValid e :: bits_of 15 (LegalTimeWindowOffset e).
Definition rate_bits (e : PacketAdaptationExtensionField) : list bool :=
  bits_of 2 0xff ++ bits_of 22 (PiecewiseRate e).
Definition ext_bytes (e : PacketAdaptationExtensionField) : list Z :=
  [ext_Length e] ++ bytes_of_bits (ext_flags e)
  ++ (if HasLegalTimeWindow e then bytes_of_bits (ltw_bits e) else [])
  ++ (if HasPiecewiseRate e then bytes_of_bits (rate_bits e) else [])
  ++ (if HasSeamlessSplice e
      then pts_bytes (SpliceType e) (default zero_clock (DTSNextAccessUnit e)) else []).

Definition wire_ext (e : PacketAdaptationExtensionField) : Prop :=
  ext_Length e = calcPacketAdaptationFieldExtensionLength e
  /\ (if HasLegalTimeWindow e then 0 <= LegalTimeWindowOffset e < 2 ^ 15
      else LegalTimeWindowIsValid e = false /\ LegalTimeWindowOffset e = 0)
  /\ (if HasPiecewiseRate e then 0 <= PiecewiseRate e < 2 ^ 22 else PiecewiseRate e = 0)
  /\ (if HasSeamlessSplice e then wire_opt wire_pts (DTSNextAccessUnit e) /\ 0 <= SpliceType e < 2 ^ 4
      else DTSNextAccessUnit e = None /\ SpliceType e = 0).

Lemma ext_length_range e : 0 < calcPacketAdaptationFieldExtensionLength e < 256.
Proof.
  unfold calcPacketAdaptationFieldExtensionLength.
  by destruct (HasLegalTimeWindow e), (HasPiecewiseRate e), (HasSeamlessSplice e).
Qed.

(** The adaptation field, and the part of it before the stuffing. *)
Definition af_flags (a : PacketAdaptationField) : list bool :=
  [DiscontinuityIndicator a; RandomAccessIndicator a; ElementaryStreamPriorityIndicator a; HasPCR a;
   HasOPCR a; HasSplicingCountdown a; HasTransportPrivateData a; HasAdaptationExtensionField a].
Definition af_parts (a : PacketAdaptationField) : list Z :=
  bytes_of_bits (af_flags a)
  ++ (if HasPCR a then pcr_bytes (default zero_clock (PCR a)) else [])
  ++ (if HasOPCR a then pcr_bytes (default zero_clock (OPCR a)) else [])
  ++ (if HasSplicingCountdown a then [SpliceCountdown a] else [])
  ++ (if HasTransportPrivateData a
      then TransportPrivateDataLength a :: TransportPrivateData a else [])
  ++ (if HasAdaptationExtensionField a
      then ext_bytes (default zero_ext (AdaptationExtensionField a)) else []).
Definition af_core (a : PacketAdaptationField) : list Z :=
  if IsOneByteStuffing a then [0] else af_Length a :: af_parts a.
Definition af_stuffing (a : PacketAdaptationField) : list Z :=
  replicate (Z.to_nat (StuffingLength a)) 0xff.
Definition af_bytes (a : PacketAdaptationField) : list Z := af_core a ++ af_stuffing a.

Definition one_byte_af : PacketAdaptationField := with_layout None 0 0 0 true zero_af.

Definition wire_af (a : PacketAdaptationField) : Prop :=
  if IsOneByteStuffing a then a = one_byte_af
  else
    0 <= StuffingLength a /\ af_Length a = Z.of_nat (length (af_parts a)) + StuffingLength a
    /\ af_Length a < 256
    /\ (if HasPCR a then wire_opt wire_pcr (PCR a) else PCR a = None)
    /\ (if HasOPCR a then wire_opt wire_pcr (OPCR a) else OPCR a = None)
    /\ (if HasSplicingCountdown a then is_byte (SpliceCountdown a) else SpliceCountdown a = 0)
    /\ TransportPrivateDataLength a = Z.of_nat (length (TransportPrivateData a))
    /\ (if HasTransportPrivateData a then bytes_ok (TransportPrivateData a)
        else TransportPrivateData a = [])
    /\ (if HasAdaptationExtensionField a then wire_opt wire_ext (AdaptationExtensionField a)
        else AdaptationExtensionField a = None).

Lemma wire_opt_default {A} (P : A -> Prop) o d : wire_opt P o -> o = Some (default d o) /\ P (default d o).
Proof. by destruct o. Qed.

Lemma wire_opt_value {A} (P : A -> Prop) o d : wire_opt P o -> P (default d o).
Proof. by destruct o. Qed.

Lemma length_ext_bytes e : wire_ext e ->
  Z.of_nat (length (ext_bytes e)) = 1 + calcPacketAdaptationFieldExtensionLength e.
Proof.
  intros _. unfold ext_bytes, calcPacketAdaptationFieldExtensionLength.
  by destruct (HasLegalTimeWindow e), (HasPiecewiseRate e), (HasSeamlessSplice e).
Qed.

(** The length computed is the length of the parts, when it fits a byte. *)
Lemma calc_af_length a : wire_af a -> IsOneByteStuffing a = false ->
  calcPacketAdaptationFieldLength a = Ok (af_Length a).
Proof.
  unfold wire_af. intros Ha E. rewrite E in Ha. destruct Ha as (Hs & Hl & Hb & Hp & Ho & Hc & Hn & Hd & He).
  rewrite Hl in Hb |- *. unfold calcPacketAdaptationFieldLength, af_parts in *.
  rewrite !length_app in *.
  assert (HE : forall n, (if HasAdaptationExtensionField a then
      match AdaptationExtensionField a with
      | Some e => Ok (u8 (n + u8 (1 + calcPacketAdaptationFieldExtensionLength e)))
      | None => Fail Panic end else Ok n)
    = Ok (if HasAdaptationExtensionField a
          then u8 (n + u8 (Z.of_nat (length (ext_bytes (default zero_ext (AdaptationExtensionField a)))))) else n)).
  { intros n. destruct (HasAdaptationExtensionField a); [|done].
    destruct (AdaptationExtensionField a) as [e|]; [|done]. cbn [default from_option id].
    by rewrite (length_ext_bytes e He). }
  rewrite HE. cbn [mbind outcome_bind]. f_equal. clear HE Hp Ho Hc He Hl Hn.
  change (length (bytes_of_bits (af_flags a))) with 1%nat in *.
  unfold u8, pcrBytesSize in *. change (2 ^ 8) with 256.
  destruct (HasPCR a), (HasOPCR a), (HasSplicingCountdown a), (HasTransportPrivateData a),
    (HasAdaptationExtensionField a); cbn [length] in *;
    change (length (pcr_bytes _)) with 6%nat in *; Z.to_euclidean_division_equations; lia.
Qed.

(** ** Packets *)
Definition packet_af (p : Packet) : list Z :=
  match AdaptationField p with Some a => af_bytes a | None => [] end.
Definition packet_bytes (p : Packet) : list Z :=
  [syncByte] ++ header_bytes (Header p) ++ packet_af p ++ Payload p
  ++ replicate (184 - length (packet_af p) - length (Payload p)) 0xff.

(** A packet that fits: only one without payload may leave room, which is padded. *)
Definition wire_packet (p : Packet) : Prop :=
  wire_header (Header p)
  /\ HasAdaptationField (Header p) = bool_decide (is_Some (AdaptationField p))
  /\ match AdaptationField p with Some a => wire_af a | None => True end
  /\ bytes_ok (Payload p)
  /\ if HasPayload (Header p)
     then (length (packet_af p) + length (Payload p) = 184)%nat
     else Payload p = [] /\ (length (packet_af p) <= 184)%nat.

Lemma length_packet_bytes p : wire_packet p -> length (packet_bytes p) = 188%nat.
Proof.
  intros (_ & _ & _ & _ & Hl). unfold packet_bytes. rewrite !length_app, length_replicate.
  change (length (header_bytes _)) with 3%nat. cbn [length].
  destruct (HasPayload (Header p)); [lia|]. destruct Hl as [-> Hl]. cbn [length]. lia.
Qed.

Lemma if_bytes_ok (b : bool) l : (b = true -> bytes_ok l) -> bytes_ok (if b then l else []).
Proof. destruct b; [auto|constructor]. Qed.

Lemma ext_bytes_ok e : wire_ext e -> bytes_ok (ext_bytes e).
Proof.
  intros [He _]. pose proof (ext_length_range e). unfold ext_bytes.
  repeat (apply Forall_app; split); try apply if_bytes_ok; intros; try apply bytes_of_bits_ok.
  constructor; [unfold is_byte; lia|constructor].
Qed.

Lemma af_bytes_ok a : wire_af a -> bytes_ok (af_bytes a).
Proof.
  intros Ha. unfold af_bytes. apply Forall_app. split; [|apply Forall_replicate; unfold is_byte; lia].
  unfold af_core. unfold wire_af in Ha. destruct (IsOneByteStuffing a); [repeat constructor; unfold is_byte; lia|].
  destruct Ha as (Hs & Hl & Hb & _ & _ & Hc & Hn & Hd & He).
  constructor; [unfold is_byte; lia|]. rewrite Hl in Hb. unfold af_parts in *. rewrite !length_app in Hb.
  repeat (apply Forall_app; split); try apply if_bytes_ok; try intros E; try apply bytes_of_bits_ok; rewrite E in *.
  - constructor; [done|constructor].
  - cbn [length] in Hb. constructor; [unfold is_byte; lia|done].
  - by apply ext_bytes_ok, wire_opt_value.
Qed.

Lemma packet_bytes_ok p : wire_packet p -> bytes_ok (packet_bytes p).
Proof.
  intros (_ & _ & Ha & Hp & _). unfold packet_bytes, packet_af.
  repeat (apply Forall_app; split); [..|by apply Forall_replicate].
  - constructor; [done|constructor].
  - apply bytes_of_bits_ok.
  - destruct (AdaptationField p); [by apply af_bytes_ok|constructor].
  - done.
Qed.

Section Codec.
Context {W : Type} `{ReliableWriter W} {I : Type} `{BytesIteratorLaws I}.

Lemma writes_header h :
  writes (writePacketHeader h) (byte_bits (header_bytes h)) mpegTsPacketHeaderSize.
Proof.
  apply (writes_group _ _ 3); [done|]. eapply writes_eq.
  - unfold writePacketHeader. write_rules.
  - by rewrite app_nil_r.
  - done.
Qed.

Lemma reads_header h o : wire_header h -> reads o parsePacketHeader (header_bytes h) h.
Proof.
  intros (Hp & Hc & Ht). unfold header_bytes. rewrite (bytes_of_bits_word _ 3) by done.
  unfold header_bits. group_number n En. rewrite !Z.mod_small in En by (done || lia).
  rewrite <- (app_nil_r (word_bytes _ _)).
  eapply reads_bind; [by apply reads_bytes_no_copy|]. eapply reads_eq; [apply reads_ret|done|].
  unfold header_of_bytes. simpl_bytes.
  destruct h; cbn in *. f_equal; field_arith.
Qed.

Lemma writes_pcr c : writes (writePCR (Some c)) (byte_bits (pcr_bytes c)) pcrBytesSize.
Proof.
  apply (writes_group _ _ 6); [done|]. eapply writes_eq.
  - unfold writePCR. eapply writes_bind; [by apply writes_must|]. write_rules.
  - by rewrite !app_nil_r.
  - done.
Qed.

Lemma reads_pcr c o : wire_pcr c -> reads o parsePCR (pcr_bytes c) c.
Proof.
  intros (Hb & He). unfold pcr_bytes. rewrite (bytes_of_bits_word _ 6) by done.
  unfold pcr_bits. group_number n En.
  rewrite <- (app_nil_r (word_bytes _ _)).
  eapply reads_bind; [by apply reads_bytes_no_copy|]. eapply reads_eq; [apply reads_ret|done|].
  simpl_bytes. destruct c; cbn in *. unfold newClockReference. f_equal; field_arith.
Qed.

Lemma writes_pts flag c :
  writes (writePTSOrDTS flag (Some c)) (byte_bits (pts_bytes flag c)) ptsOrDTSByteLength.
Proof.
  apply (writes_group _ _ 5); [done|]. eapply writes_eq.
  - unfold writePTSOrDTS. apply writes_with_batch. eapply bwrites_bind; [apply bwrites_bwriten|].
    eapply bwrites_bind; [by apply bwrites_must|]. write_rules.
  - by rewrite !app_nil_r.
  - done.
Qed.

Lemma reads_pts flag c o : wire_pts c -> reads o parsePTSOrDTS (pts_bytes flag c) c.
Proof.
  intros (Hb & He). unfold pts_bytes. rewrite (bytes_of_bits_word _ 5) by done.
  unfold pts_bits. group_number n En. rewrite !Z.shiftr_div_pow2 in En by lia.
  rewrite <- (app_nil_r (word_bytes _ _)).
  eapply reads_bind; [by apply reads_bytes_no_copy|]. eapply reads_eq; [apply reads_ret|done|].
  simpl_bytes. destruct c as [b e]; cbn in *. subst e.
  unfold newClockReference. f_equal; field_arith.
Qed.

Lemma bwrites_count_if b (m : M (Batch * W) Z) l n :
  (b = true -> bwrites m l n) -> bwrites (count_if b m) (if b then l else []) (if b then n else 0).
Proof. intros Hm. destruct b; [by apply Hm|apply bwrites_ret]. Qed.

Lemma writes_ext e : wire_ext e ->
  writes (writePacketAdaptationFieldExtension (Some e)) (byte_bits (ext_bytes e))
    (Z.of_nat (length (ext_bytes e))).
Proof.
  intros (Hl & Ht & Hr & Hd). eapply writes_eq.
  - unfold writePacketAdaptationFieldExtension. eapply writes_bind; [by apply writes_must|].
    apply writes_with_batch. do 5 (eapply bwrites_bind; [write_call|]).
    do 2 (eapply bwrites_bind; [apply bwrites_count_if; intros _; write_rules|]).
    eapply bwrites_bind; [apply bwrites_count_if; intros Hs|write_rules].
    rewrite Hs in Hd. destruct (wire_opt_default _ _ zero_clock (proj1 Hd)) as [-> _].
    apply bwrites_on_snd, writes_pts.
  - unfold ext_bytes. rewrite Hl.
    by destruct (HasLegalTimeWindow e) eqn:E1, (HasPiecewiseRate e) eqn:E2, (HasSeamlessSplice e) eqn:E3;
    rewrite !byte_bits_app, ?(byte_bits_group _ 1), ?(byte_bits_group _ 2), ?(byte_bits_group _ 3)
     by done; unfold ext_flags; rewrite E1, E2, E3.
  - unfold ext_bytes.
    by destruct (HasLegalTimeWindow e) eqn:E1, (HasPiecewiseRate e) eqn:E2, (HasSeamlessSplice e) eqn:E3.
Qed.

Lemma ltw_fields e : 0 <= LegalTimeWindowOffset e < 2 ^ 15 ->
  masked (byte_at (bytes_of_bits (ltw_bits e)) 0) 0x80 = LegalTimeWindowIsValid e
  /\ Z.lor (Z.shiftl (Z.land (byte_at (bytes_of_bits (ltw_bits e)) 0) 0x7f) 8)
       (byte_at (bytes_of_bits (ltw_bits e)) 1) = LegalTimeWindowOffset e.
Proof.
  intros He. rewrite (bytes_of_bits_word _ 2) by done. unfold ltw_bits. group_number n En.
  rewrite Z.mod_small in En by done. simpl_bytes.
  split; field_arith.
Qed.

Lemma rate_field e : 0 <= PiecewiseRate e < 2 ^ 22 ->
  Z.lor (Z.shiftl (Z.land (byte_at (bytes_of_bits (rate_bits e)) 0) 0x3f) 16)
    (Z.lor (Z.shiftl (byte_at (bytes_of_bits (rate_bits e)) 1) 8)
           (byte_at (bytes_of_bits (rate_bits e)) 2)) = PiecewiseRate e.
Proof.
  intros He. rewrite (bytes_of_bits_word _ 3) by done. unfold rate_bits. group_number n En.
  rewrite (Z.mod_small (PiecewiseRate e)) in En by done. simpl_bytes.
  field_arith.
Qed.

(** The first byte has the splice type. *)
Lemma pts_first flag c : 0 <= flag < 2 ^ 4 ->
  exists b bs, pts_bytes flag c = b :: bs /\ Z.shiftr (Z.land b 0xf0) 4 = flag.
Proof.
  intros Hf. unfold pts_bytes. rewrite (bytes_of_bits_word _ 5) by done.
  unfold pts_bits. group_number n En. rewrite (Z.mod_small flag) in En by done.
  simpl_bytes. do 2 eexists. split; [done|].
  rewrite Z.shiftr_land. change (Z.shiftr 0xf0 4) with 15. field_arith.
Qed.

Lemma reads_ext e o : wire_ext e -> reads o parse_extension (ext_bytes e) e.
Proof.
  intros (Hl & Ht & Hr & Hd). unfold parse_extension, ext_bytes.
  pose proof (ext_length_range e) as Hlen.
  eapply reads_bind; [apply reads_byte|]. rewrite Hl, (proj2 (Z.ltb_lt _ _)) by lia.
  change (bytes_of_bits (ext_flags e)) with [byte_of_bits (ext_flags e)].
  assert (Hm : masked (byte_of_bits (ext_flags e)) 0x80 = HasLegalTimeWindow e
    /\ masked (byte_of_bits (ext_flags e)) 0x40 = HasPiecewiseRate e
    /\ masked (byte_of_bits (ext_flags e)) 0x20 = HasSeamlessSplice e).
  { unfold ext_flags. by destruct (HasLegalTimeWindow e), (HasPiecewiseRate e), (HasSeamlessSplice e). }
  destruct Hm as (E1 & E2 & E3).
  eapply reads_bind; [apply reads_byte|]. rewrite E1, E2, E3.
  eapply reads_bind; [apply reads_optionally; intros _; by apply reads_bytes_no_copy|].
  eapply reads_bind; [apply reads_optionally; intros _; by apply reads_bytes_no_copy|].
  rewrite <- (app_nil_r (if HasSeamlessSplice e then _ else _)).
  eapply (reads_bind _ _ _ _ _ (if HasSeamlessSplice e then Some (SpliceType e, default zero_clock (DTSNextAccessUnit e)) else None)).
  - apply reads_optionally. intros Hs. rewrite Hs in Hd. destruct Hd as [Hd Hf].
    destruct (wire_opt_default _ _ zero_clock Hd) as [_ Hw].
    destruct (pts_first (SpliceType e) (default zero_clock (DTSNextAccessUnit e)) Hf) as (b & bs & E & Eb).
    rewrite E. apply reads_peek. rewrite <- E, <- (app_nil_r (pts_bytes _ _)).
    eapply reads_bind; [by apply reads_wrap, reads_pts|]. rewrite Eb. apply reads_ret.
  - eapply reads_eq; [apply reads_ret|done|]. rewrite <- Hl. clear Hlen Hl E1 E2 E3.
    destruct (HasLegalTimeWindow e) eqn:F1; [destruct (ltw_fields e Ht) as [-> ->]|destruct Ht];
    (destruct (HasPiecewiseRate e) eqn:F2; [rewrite (rate_field e Hr)|]);
    (destruct (HasSeamlessSplice e) eqn:F3; [destruct Hd as [Hd _], (wire_opt_default _ _ zero_clock Hd) as [Hc _]|destruct Hd]);
    destruct e; cbn in *; congruence.
Qed.

Lemma bwrites_stuffing n :
  bwrites (for_each (fun _ => BWrite (WUint8 0xff)) (seq 0 n)) (byte_bits (replicate n 0xff)) tt.
Proof.
  replace (byte_bits (replicate n 0xff)) with (seq 0 n ≫= (fun _ => bits_of 8 0xff)).
  - apply bwrites_for_each, Forall_true. intros _. apply bwrites_bwrite.
  - assert (H3 : forall k, seq k n ≫= (fun _ => bits_of 8 0xff) = byte_bits (replicate n 0xff)); [|apply H3].
    induction n as [|n IH]; intros k; [done|]. cbn [seq replicate].
    unfold byte_bits in *. by rewrite !bind_cons, IH.
Qed.

Lemma writes_af a : wire_af a ->
  writes (writePacketAdaptationField (Some a)) (byte_bits (af_bytes a)) (Z.of_nat (length (af_bytes a))).
Proof.
  intros Ha. pose proof (calc_af_length a Ha) as Hcalc. unfold wire_af in Ha.
  unfold writePacketAdaptationField, af_bytes, af_core.
  rewrite <- (app_nil_l (byte_bits _)). eapply writes_bind; [by apply writes_must|].
  apply writes_with_batch. destruct (IsOneByteStuffing a) eqn:E1.
  { subst a. change (byte_bits _) with (value_bits (WUint8 0) ++ []). write_rules. }
  specialize (Hcalc eq_refl). destruct Ha as (Hs & Hl & Hb & Hp & Ho & Hc & Hn & Hd & He).
  eapply bwrites_eq.
  - eapply bwrites_bind; [by apply bwrites_lift|].
    do 9 (eapply bwrites_bind; [write_call|]).
    eapply bwrites_bind; [apply bwrites_count_if; intros F; rewrite F in Hp|].
    { destruct (wire_opt_default _ _ zero_clock Hp) as [-> _]. apply bwrites_on_snd, writes_pcr. }
    eapply bwrites_bind; [apply bwrites_count_if; intros F; rewrite F in Ho|].
    { destruct (wire_opt_default _ _ zero_clock Ho) as [-> _]. apply bwrites_on_snd, writes_pcr. }
    eapply bwrites_bind; [apply bwrites_count_if; intros F; write_rules|].
    eapply bwrites_bind; [apply bwrites_count_if; intros F|].
    { eapply bwrites_bind; [write_call|]. eapply bwrites_bind; [|write_rules].
      apply bwrites_when. intros _. write_call. }
    eapply bwrites_bind; [apply bwrites_count_if; intros F; rewrite F in He|].
    { destruct (wire_opt_default _ _ zero_ext He) as [-> Hw]. by apply bwrites_on_snd, writes_ext. }
    eapply bwrites_bind; [apply bwrites_stuffing|]. apply bwrites_result.
  - replace (if 0 <? _ then _ else []) with (byte_bits (TransportPrivateData a)).
    2: { rewrite Hn. by destruct (TransportPrivateData a). }
    change (af_Length a :: af_parts a) with ([af_Length a] ++ af_parts a). unfold af_parts, af_stuffing.
    rewrite !byte_bits_app, !byte_bits_if, (byte_bits_group _ 1), <- !app_assoc, !app_nil_r by done.
    done.
  - rewrite !length_app. unfold af_stuffing, af_parts. rewrite length_cons, !length_app, length_replicate.
    rewrite Z.max_r, !Nat2Z.inj_add, Nat2Z.inj_succ, !Nat2Z.inj_add, Z2Nat.id by done.
    destruct (HasPCR a), (HasOPCR a), (HasSplicingCountdown a), (HasTransportPrivateData a),
      (HasAdaptationExtensionField a); cbn [length]; change (length (pcr_bytes _)) with 6%nat;
      change (length (bytes_of_bits (af_flags a))) with 1%nat; unfold pcrBytesSize; lia.
Qed.

Lemma af_flags_bits a :
  let b := byte_of_bits (af_flags a) in
  masked b 0x80 = DiscontinuityIndicator a /\ masked b 0x40 = RandomAccessIndicator a
  /\ masked b 0x20 = ElementaryStreamPriorityIndicator a /\ masked b 0x10 = HasPCR a
  /\ masked b 0x08 = HasOPCR a /\ masked b 0x04 = HasSplicingCountdown a
  /\ masked b 0x02 = HasTransportPrivateData a /\ masked b 0x01 = HasAdaptationExtensionField a.
Proof.
  unfold af_flags. generalize (DiscontinuityIndicator a), (RandomAccessIndicator a),
    (ElementaryStreamPriorityIndicator a), (HasPCR a), (HasOPCR a), (HasSplicingCountdown a),
    (HasTransportPrivateData a), (HasAdaptationExtensionField a).
  by intros [] [] [] [] [] [] [] [].
Qed.

Lemma reads_private (n : Z) (data : list Z) o : n = Z.of_nat (length data) ->
  reads o (n ← next_byte; data ← optionally (0 <? n) (next_bytes n); mret (n, default [] data))
    (n :: data) (n, data).
Proof.
  intros Hn. change (n :: data) with ([n] ++ data). eapply reads_bind; [apply reads_byte|].
  destruct data as [|b data].
  - subst n. cbn [length Z.of_nat Z.ltb Z.compare]. rewrite <- (app_nil_l []).
    eapply reads_bind; [by apply (reads_optionally _ false (next_bytes 0) [] [])|]. apply reads_ret.
  - rewrite (proj2 (Z.ltb_lt _ _)) by (cbn [length] in Hn; lia).
    rewrite <- (app_nil_r (b :: data)) at 1.
    apply (reads_bind _ _ _ _ _ (Some (b :: data))); [|apply reads_ret].
    apply (reads_optionally _ true). intros _. by apply reads_bytes.
Qed.

Lemma reads_af_body a o : wire_af a -> IsOneByteStuffing a = false ->
  reads o (parse_af_body (af_Length a)) (af_parts a) (with_stuffing 0 a).
Proof.
  unfold wire_af. intros Ha E1. rewrite E1 in Ha.
  destruct Ha as (Hs & Hl & Hb & Hp & Ho & Hc & Hn & Hd & He). unfold parse_af_body, af_parts.
  change (bytes_of_bits (af_flags a)) with [byte_of_bits (af_flags a)].
  destruct (af_flags_bits a) as (F1 & F2 & F3 & F4 & F5 & F6 & F7 & F8).
  eapply reads_bind; [apply reads_byte|]. rewrite F1, F2, F3, F4, F5, F6, F7, F8.
  eapply reads_bind; [apply reads_optionally; intros F; rewrite F in Hp|].
  { by apply reads_wrap, reads_pcr, wire_opt_value. }
  eapply reads_bind; [apply reads_optionally; intros F; rewrite F in Ho|].
  { by apply reads_wrap, reads_pcr, wire_opt_value. }
  eapply reads_bind; [apply reads_optionally; intros _; apply reads_byte|].
  eapply reads_bind; [apply reads_optionally; intros _; by apply reads_private|].
  rewrite <- (app_nil_r (if HasAdaptationExtensionField a then _ else _)).
  eapply reads_bind; [apply reads_optionally; intros F; rewrite F in He|].
  { by apply reads_ext, wire_opt_value. }
  eapply reads_eq; [apply reads_ret|done|]. clear Hl Hb F1 F2 F3 F4 F5 F6 F7 F8.
  assert (Ep : (if HasPCR a then Some (default zero_clock (PCR a)) else None) = PCR a).
  { destruct (HasPCR a); [by rewrite <- (proj1 (wire_opt_default _ _ zero_clock Hp))|done]. }
  assert (Eo : (if HasOPCR a then Some (default zero_clock (OPCR a)) else None) = OPCR a).
  { destruct (HasOPCR a); [by rewrite <- (proj1 (wire_opt_default _ _ zero_clock Ho))|done]. }
  assert (Ee : (if HasAdaptationExtensionField a
                then Some (default zero_ext (AdaptationExtensionField a)) else None)
               = AdaptationExtensionField a).
  { destruct (HasAdaptationExtensionField a); [by rewrite <- (proj1 (wire_opt_default _ _ zero_ext He))|done]. }
  rewrite Ep, Eo, Ee. clear Ep Eo Ee Hp Ho He.
  destruct a as [? ? ? data n ? ? sc ob ? ? ? ? ? ? hp hs]. cbn in *. unfold with_stuffing, with_layout. cbn.
  by destruct hp, hs; cbn; subst.
Qed.

Lemma reads_af a o : wire_af a -> reads o parsePacketAdaptationField (af_core a) a.
Proof.
  intros Ha. pose proof (reads_af_body a) as Hbody. unfold af_core, parsePacketAdaptationField.
  destruct (IsOneByteStuffing a) eqn:E1.
  { unfold wire_af in Ha. rewrite E1 in Ha. subst a.
    change [0] with ([0] ++ [] ++ [] ++ [] ++ [] : list Z). eapply reads_bind; [apply reads_byte|].
    eapply reads_bind; [apply reads_offset|]. eapply reads_bind; [apply reads_ret|].
    eapply reads_bind; [apply reads_offset|]. eapply reads_eq; [apply reads_ret|done|].
    cbn [length app]. rewrite !Z.add_0_r, Z.sub_diag. done. }
  assert (Hl : 0 < af_Length a /\ af_Length a = Z.of_nat (length (af_parts a)) + StuffingLength a).
  { unfold wire_af in Ha. rewrite E1 in Ha. destruct Ha as (Hs & Hl & _). split; [|done].
    rewrite Hl. unfold af_parts. rewrite length_app.
    change (length (bytes_of_bits (af_flags a))) with 1%nat. lia. }
  destruct Hl as [Hpos Hl].
  change (af_Length a :: af_parts a) with ([af_Length a] ++ af_parts a).
  eapply reads_bind; [apply reads_byte|]. rewrite <- (app_nil_l (af_parts a)).
  eapply reads_bind; [apply reads_offset|]. rewrite (proj2 (Z.ltb_lt _ _)) by done.
  rewrite <- (app_nil_r (af_parts a)). eapply reads_bind; [by apply Hbody|].
  rewrite <- (app_nil_l []). eapply reads_bind; [apply reads_offset|].
  eapply reads_eq; [apply reads_ret|done|]. cbn [length app].
  replace (af_Length a - _) with (StuffingLength a) by lia.
  by destruct a.
Qed.

Lemma writes_padding n target : 0 <= n <= target ->
  writes (write_padding n target) (byte_bits (replicate (Z.to_nat (target - n)) 0xff)) target.
Proof.
  intros Hn w pre c Hw. unfold write_padding. remember (Z.to_nat (target - n)) as k eqn:Ek.
  revert n w pre Hn Ek Hw. induction k as [|k IH]; intros n w pre Hn Ek Hw; rewrite Nat.add_1_r, iter_S.
  - rewrite (proj2 (Z.ltb_ge _ _)) by lia. exists w. replace n with target by lia.
    by rewrite app_nil_r.
  - rewrite (proj2 (Z.ltb_lt _ _)) by lia.
    destruct (written_write (WUint8 0xff) w pre c Hw) as (w1 & E1 & Hw1).
    rewrite (bind_ok _ _ _ _ _ E1). cbn [mret M_ret].
    destruct (IH (n + 1) w1 _ ltac:(lia) ltac:(lia) Hw1) as (w2 & E2 & Hw2).
    rewrite Nat.add_1_r in E2. exists w2. split; [done|].
    by rewrite <- app_assoc in Hw2.
Qed.

(** A packet that fits is written with its padding, with or without payload. *)
Lemma writes_fitting p : HasAdaptationField (Header p) = bool_decide (is_Some (AdaptationField p)) ->
  match AdaptationField p with Some a => wire_af a | None => True end ->
  (HasPayload (Header p) = false -> Payload p = []) ->
  (length (packet_af p) + length (Payload p) <= 184)%nat ->
  writes (writePacket p MpegTsPacketSize) (byte_bits (packet_bytes p)) MpegTsPacketSize.
Proof.
  intros Hf Ha Hp Hn. unfold writePacket, packet_bytes. rewrite !byte_bits_app.
  eapply writes_bind; [apply writes_write|]. eapply writes_bind; [apply writes_header|].
  eapply (writes_bind _ _ _ _ (Z.of_nat (length (packet_af p)))).
  { rewrite Hf. unfold packet_af. destruct (AdaptationField p); [by apply writes_af|apply writes_ret]. }
  rewrite <- (app_nil_l (byte_bits (Payload p) ++ _)).
  unfold MpegTsPacketSize, mpegTsPacketHeaderSize.
  eapply writes_bind; [apply writes_fail_if, Z.ltb_ge; lia|].
  eapply (writes_bind _ _ _ _ (Z.of_nat (length (Payload p)))).
  { destruct (HasPayload (Header p)).
    - rewrite <- (app_nil_r (byte_bits _)). eapply writes_bind; [apply writes_write|apply writes_ret].
    - rewrite (Hp eq_refl). apply writes_ret. }
  eapply writes_eq; [apply writes_padding; lia| |done]. do 2 f_equal. lia.
Qed.

Lemma writes_packet p : wire_packet p ->
  writes (writePacket p MpegTsPacketSize) (byte_bits (packet_bytes p)) MpegTsPacketSize.
Proof.
  intros (Hh & Hf & Ha & Hb & Hl). destruct (HasPayload (Header p)) eqn:E.
  - apply writes_fitting; try done; [congruence|lia].
  - destruct Hl as [Hl Hn]. apply writes_fitting; try done. rewrite Hl. cbn [length]. lia.
Qed.

(** The packet read back: the header and the adaptation field first. *)
Lemma reads_front p o : wire_packet p ->
  reads o (h ← wrap_err "astits: parsing packet header failed" parsePacketHeader;
           a ← optionally (HasAdaptationField h)
                 (wrap_err "astits: parsing packet adaptation field failed" parsePacketAdaptationField);
           mret (h, a))
    (header_bytes (Header p) ++ match AdaptationField p with Some a => af_core a | None => [] end)
    (Header p, AdaptationField p).
Proof.
  intros (Hh & Hf & Ha & _). eapply reads_bind; [by apply reads_wrap, reads_header|].
  rewrite Hf, <- (app_nil_r (match AdaptationField p with Some a => af_core a | None => [] end)).
  apply (reads_bind _ _ _ _ _ (AdaptationField p)); [|apply reads_ret].
  destruct (AdaptationField p) as [a|].
  - rewrite bool_decide_eq_true_2 by eauto.
    apply (reads_optionally _ true _ _ a). intros _. by apply reads_wrap, reads_af.
  - rewrite bool_decide_eq_false_2 by (by intros []).
    by apply (reads_optionally _ false _ [] one_byte_af).
Qed.

Lemma wire_af_length a : wire_af a -> Z.of_nat (length (af_bytes a)) = 1 + af_Length a.
Proof.
  unfold wire_af, af_bytes, af_core, af_stuffing. intros Ha. destruct (IsOneByteStuffing a).
  - by subst a.
  - destruct Ha as (Hs & Hl & _). rewrite length_app, length_cons, length_replicate. lia.
Qed.

(** The offset of the payload, after the stuffing. *)
Lemma payload_offset p : wire_packet p ->
  payloadOffset 1 (Header p) (AdaptationField p) = Ok (4 + Z.of_nat (length (packet_af p))).
Proof.
  intros (_ & Hf & Ha & _). unfold payloadOffset, packet_af. rewrite Hf.
  destruct (AdaptationField p) as [a|]; [|done].
  rewrite bool_decide_eq_true_2 by eauto. f_equal. rewrite (wire_af_length a Ha). lia.
Qed.

Lemma parse_packet_bytes p : wire_packet p ->
  parse_buffer I None (packet_bytes p) = Ok p.
Proof.
  intros Hw. unfold parse_buffer, parsePacket. pose proof (length_packet_bytes p Hw) as Hlen.
  pose proof (at_new (packet_bytes p)) as Hi0. set (i0 := NewBytesIterator _) in *.
  pose proof (at_next_byte _ _ _ Hi0 ltac:(lia)) as Hn. change (packet_bytes p !! Z.to_nat 0) with (Some syncByte) in Hn. destruct Hn as (i1 & E1 & Hi1).
  rewrite (bind_ok _ _ i0 syncByte i1) by (by apply wrap_err_ok).
  rewrite Z.eqb_refl, bind_unfold. unfold gets at 1.
  destruct (at_observe _ _ _ Hi1) as (_ & -> & _). rewrite Hlen.
  destruct (at_seek _ _ _ (Z.of_nat 188 - MpegTsPacketSize + 1) Hi1) as (i2 & E2 & Hi2).
  rewrite (bind_ok _ _ _ _ _ E2), bind_unfold. unfold gets at 1.
  destruct (at_observe _ _ _ Hi2) as (-> & _). change (Z.of_nat 188 - _ + 1) with 1 in *.
  set (core := match AdaptationField p with Some a => af_core a | None => [] end).
  set (tl := replicate (184 - length (packet_af p) - length (Payload p)) 0xff).
  set (stuff := match AdaptationField p with Some a => af_stuffing a | None => [] end).
  assert (Hb : packet_bytes p = [syncByte] ++ (header_bytes (Header p) ++ core) ++ stuff ++ Payload p ++ tl).
  { unfold packet_bytes. fold tl.
    assert (packet_af p = core ++ stuff) as -> by (unfold packet_af, core, stuff; by destruct (AdaptationField p)).
    by rewrite <- !app_assoc. }
  rewrite Hb in Hi2. destruct (reads_front p 1 Hw i2 [syncByte] _ eq_refl Hi2) as (i3 & E3 & Hi3).
  fold core in E3, Hi3. rewrite <- Hb in Hi3. clear Hi1 Hi2 E1 E2 Hi0.
  apply bind_Ok_inv in E3 as (h & i4 & Eh & E3). apply bind_Ok_inv in E3 as (a & i5 & Ea & E3).
  injection E3 as Hh' Ha' Hi'. subst h a i5. rewrite (bind_ok _ _ _ _ _ Eh), (bind_ok _ _ _ _ _ Ea). clear Eh Ea.
  pose proof Hw as (_ & _ & _ & _ & Hl).
  destruct (HasPayload (Header p)); [|destruct Hl as [Hl _]; by destruct p; cbn in *; subst].
  rewrite (payload_offset p Hw). cbn beta.
  destruct (at_seek _ _ _ (4 + Z.of_nat (length (packet_af p))) Hi3) as (i6 & E6 & Hi6).
  rewrite bind_unfold. cbn [lift]. rewrite (bind_ok _ _ _ _ _ E6).
  destruct (at_dump _ _ _ Hi6 ltac:(lia)) as (i7 & E7 & _). rewrite (bind_ok _ _ _ _ _ E7).
  replace (drop _ (packet_bytes p)) with (Payload p); [by destruct p|].
  unfold packet_bytes. replace (184 - _ - _)%nat with 0%nat by lia. rewrite app_nil_r, !app_assoc.
  symmetry. apply drop_app_length'. rewrite !length_app.
  change (length (header_bytes _)) with 3%nat. cbn [length]. lia.
Qed.

(** C24: a packet that has a wire format is written as the 188 bytes of it, and
    reading those bytes gives the packet back, every field included. *)
Theorem packet_round_trip p w pre c : wire_packet p -> written w pre c ->
  exists w', writePacket p MpegTsPacketSize w = (Ok MpegTsPacketSize, w')
    /\ written w' (pre ++ byte_bits (packet_bytes p)) c
    /\ length (packet_bytes p) = Z.to_nat MpegTsPacketSize
    /\ parse_buffer I None (packet_bytes p) = Ok p.
Proof.
  intros Hp Hw. destruct (writes_packet p Hp w pre c Hw) as (w' & E & Hw'). exists w'.
  split_and!; [done|done|by apply length_packet_bytes|by apply parse_packet_bytes].
Qed.
End Codec.

(** ** A packet with every part *)
Module PacketExample.
Definition ext : PacketAdaptationExtensionField :=
  {| DTSNextAccessUnit := Some {| Base := 5000000000; Extension := 0 |}; HasLegalTimeWindow := true;
     HasPiecewiseRate := true; HasSeamlessSplice := true; LegalTimeWindowIsValid := true;
     LegalTimeWindowOffset := 0x1234; ext_Length := 11; PiecewiseRate := 0x20FF01; SpliceType := 9 |}.

Definition field : PacketAdaptationField :=
  {| AdaptationExtensionField := Some ext; OPCR := Some {| Base := 1; Extension := 299 |};
     PCR := Some {| Base := 8589934591; Extension := 17 |}; TransportPrivateData := [1; 2; 3];
     TransportPrivateDataLength := 3; af_Length := 40; StuffingLength := 10; SpliceCountdown := 7;
     IsOneByteStuffing := false; RandomAccessIndicator := true; DiscontinuityIndicator := false;
     ElementaryStreamPriorityIndicator := true; HasAdaptationExtensionField := true; HasOPCR := true;
     HasPCR := true; HasTransportPrivateData := true; HasSplicingCountdown := true |}.

Definition packet : Packet :=
  {| AdaptationField := Some field;
     Header := {| ContinuityCounter := 13; HasAdaptationField := true; HasPayload := true;
       PayloadUnitStartIndicator := true; PID := 0x1ABC; TransportErrorIndicator := false;
       TransportPriority := true; TransportScramblingControl := 2 |};
     Payload := replicate 143 0xA5 |}.

Lemma wire : wire_packet packet.
Proof.
  unfold wire_packet, wire_header, wire_af, wire_ext, wire_pts, wire_pcr, is_byte; cbn; unfold wire_pts; cbn.
  split_and!; try lia; try done; repeat (constructor; [unfold is_byte; lia|]); constructor.
Qed.
End PacketExample.

Import Reference.

Lemma packet_round_trip_witness : wire_packet PacketExample.packet
  /\ exists w', writePacket PacketExample.packet MpegTsPacketSize ([], None)
       = (Ok MpegTsPacketSize, w')
     /\ parse_buffer iterator None (packet_bytes PacketExample.packet) = Ok PacketExample.packet.
Proof.
  split; [exact PacketExample.wire|].
  destruct (@packet_round_trip bits _ reliable_writer iterator _ bytes_iterator_laws
    PacketExample.packet ([], None) [] None PacketExample.wire eq_refl) as (w' & E & _ & _ & P).
  exists w'. split; assumption.
Defined.
