(* ===== verification/DvbTime.v ===== *)
(** * internal/go-astits/dvb.go: DVB dates and durations

    A [time.Duration] is a number of nanoseconds; a [time.Time] in UTC is a number
    of nanoseconds from the epoch of the Modified Julian Date.  [time.Date] and
    the calendar methods of the time package are modelled by the proleptic
    Gregorian calendar.  The floating-point formulas of the source have operands
    whose exact value is never within rounding of an integer unless it is one, so
    that truncating the exact quotient ([Z.quot]) gives the same integers. *)

From S2P Require Import Prelude Astikit.
Local Open Scope Z_scope.

(** ** The calendar of the time package *)
Definition Second : Z := 1000000000.
Definition Minute : Z := 60 * Second.
Definition Hour : Z := 60 * Minute.
Definition day_ns : Z := 24 * Hour.

(** The Modified Julian Date of a civil date; days may exceed their month. *)
Definition mjd_of_civil (y m d : Z) : Z :=
  let y := if m <=? 2 then y - 1 else y in
  let yoe := y mod 400 in
  let doy := (153 * (if 2 <? m then m - 3 else m + 9) + 2) / 5 + d - 1 in
  y / 400 * 146097 + (yoe * 365 + yoe / 4 - yoe / 100 + doy) - 678881.

(** The civil date of a Modified Julian Date: year, month, day. *)
Definition civil_of_mjd (z : Z) : Z * Z * Z :=
  let z := z + 678881 in
  let doe := z mod 146097 in
  let yoe := (doe - doe / 1460 + doe / 36524 - doe / 146096) / 365 in
  let doy := doe - (365 * yoe + yoe / 4 - yoe / 100) in
  let mp := (5 * doy + 2) / 153 in
  let m := if mp <? 10 then mp + 3 else mp - 9 in
  (yoe + z / 146097 * 400 + (if m <=? 2 then 1 else 0), m, doy - (153 * mp + 2) / 5 + 1).

(** [time.Date(y, m, d, 0, 0, 0, 0, time.UTC)]: months are normalised first. *)
Definition Date (y m d : Z) : Z :=
  mjd_of_civil (y + (m - 1) / 12) ((m - 1) mod 12 + 1) d * day_ns.

(** ** Parsing *)
Definition parseDVBDurationByte (i : Z) : Z := u8 (u8 (Z.shiftr i 4 * 10) + Z.land i 0xf).

(** The date arithmetic of [parseDVBTime]. *)
Definition dvb_date (mjd : Z) : Z :=
  let yt := Z.quot (100 * mjd - 1507820) 36525 in
  let days := Z.quot (yt * 36525) 100 in
  let mt := Z.quot (10000 * mjd - 149561000 - 10000 * days) 306001 in
  let d := mjd - 14956 - days - Z.quot (mt * 306001) 10000 in
  let k := if (mt =? 14) || (mt =? 15) then 1 else 0 in
  Date (1900 + yt + k) (mt - 1 - k * 12) d.

Section Parse.
Context {I : Type} `{BytesIterator I}.

Definition parseDVBDurationMinutes : M I Z :=
  bs ← next_bytes_no_copy 2;
  mret (parseDVBDurationByte (byte_at bs 0) * Hour + parseDVBDurationByte (byte_at bs 1) * Minute).

Definition parseDVBDurationSeconds : M I Z :=
  bs ← next_bytes_no_copy 3;
  mret (parseDVBDurationByte (byte_at bs 0) * Hour + parseDVBDurationByte (byte_at bs 1) * Minute
        + parseDVBDurationByte (byte_at bs 2) * Second).

Definition parseDVBTime : M I Z :=
  bs ← next_bytes_no_copy 2;
  let t := dvb_date (be16 bs 0) in
  s ← wrap_err "astits: parsing DVB duration seconds failed" parseDVBDurationSeconds;
  mret (t + s).
End Parse.

(** ** Writing *)
Definition dvbDurationByteRepresentation (n : Z) : Z := u8 (Z.lor (u8 (Z.shiftl (n / 10) 4)) (n mod 10)).

(** [uint8(d.Hours())], [uint8(int(d.Minutes()) % 60)], [uint8(int(d.Seconds()) % 60)] *)
Definition hours_of (d : Z) : Z := u8 (Z.quot d Hour).
Definition minutes_of (d : Z) : Z := u8 (Z.rem (Z.quot d Minute) 60).
Definition seconds_of (d : Z) : Z := u8 (Z.rem (Z.quot d Second) 60).

(** The Modified Julian Date that [writeDVBTime] computes. *)
Definition dvb_mjd (t : Z) : Z :=
  let '(y, month, day) := civil_of_mjd (t / day_ns) in
  let year := y - 1900 in
  let l := if month <=? 2 then 1 else 0 in
  14956 + day + Z.quot ((year - l) * 36525) 100 + Z.quot ((month + 1 + l * 12) * 306001) 10000.

Section Write.
Context {W : Type} `{BitsWriter W}.

Definition writeDVBDurationMinutes (d : Z) : M W Z :=
  with_batch (
    BWrite (WUint8 (dvbDurationByteRepresentation (hours_of d)));;
    BWrite (WUint8 (dvbDurationByteRepresentation (minutes_of d)));;
    batch_result 2).

Definition writeDVBDurationSeconds (d : Z) : M W Z :=
  with_batch (
    BWrite (WUint8 (dvbDurationByteRepresentation (hours_of d)));;
    BWrite (WUint8 (dvbDurationByteRepresentation (minutes_of d)));;
    BWrite (WUint8 (dvbDurationByteRepresentation (seconds_of d)));;
    batch_result 3).

(** [t.Sub(t.Truncate(24 * time.Hour))] is the time of the day. *)
Definition writeDVBTime (t : Z) : M W Z :=
  with_batch (
    BWrite (WUint16 (u16 (dvb_mjd t)));;
    n ← on_snd (writeDVBDurationSeconds (t mod day_ns));
    batch_result (n + 2)).
End Write.


(** The example of the DVB specification: 1993-10-13 12:45:00. *)
Example dvb_date_1993 : dvb_date 0xC079 = Date 1993 10 13 /\ dvb_mjd (Date 1993 10 13) = 0xC079.
Proof. done. Qed.
