(* ===== verification/Descriptor.v ===== *)
(** * internal/go-astits/descriptor.go: descriptors, data

    A [Descriptor] is a tag, a declared length and at most one body; the Go
    structure has one pointer per kind of body, of which the tag selects one, so
    the body is a tagged union here.  Field names that several structures share
    carry the name of their structure.  Durations and times are counted in
    nanoseconds, times from the Modified Julian Date epoch (see DvbTime.v). *)

From S2P Require Import Prelude.
Local Open Scope Z_scope.

(** ** Tags *)
Definition DescriptorTagAC3 : Z := 0x6a.
Definition DescriptorTagAVCVideo : Z := 0x28.
Definition DescriptorTagComponent : Z := 0x50.
Definition DescriptorTagContent : Z := 0x54.
Definition DescriptorTagDataStreamAlignment : Z := 0x6.
Definition DescriptorTagEnhancedAC3 : Z := 0x7a.
Definition DescriptorTagExtendedEvent : Z := 0x4e.
Definition DescriptorTagExtension : Z := 0x7f.
Definition DescriptorTagISO639LanguageAndAudioType : Z := 0xa.
Definition DescriptorTagLocalTimeOffset : Z := 0x58.
Definition DescriptorTagMaximumBitrate : Z := 0xe.
Definition DescriptorTagNetworkName : Z := 0x40.
Definition DescriptorTagParentalRating : Z := 0x55.
Definition DescriptorTagPrivateDataIndicator : Z := 0xf.
Definition DescriptorTagPrivateDataSpecifier : Z := 0x5f.
Definition DescriptorTagRegistration : Z := 0x5.
Definition DescriptorTagService : Z := 0x48.
Definition DescriptorTagShortEvent : Z := 0x4d.
Definition DescriptorTagStreamIdentifier : Z := 0x52.
Definition DescriptorTagSubtitling : Z := 0x59.
Definition DescriptorTagTeletext : Z := 0x56.
Definition DescriptorTagSatelliteDeliverySystem : Z := 0x43.
Definition DescriptorTagCableDeliverySystem : Z := 0x44.
Definition DescriptorTagVBIData : Z := 0x45.
Definition DescriptorTagVBITeletext : Z := 0x46.
Definition DescriptorTagTerrestrialDeliverySystem : Z := 0x5A.

Definition DescriptorTagExtensionT2DeliverySystem : Z := 0x04.
Definition DescriptorTagExtensionSupplementaryAudio : Z := 0x6.

Definition VBIDataServiceIDClosedCaptioning : Z := 0x6.
Definition VBIDataServiceIDEBUTeletext : Z := 0x1.
Definition VBIDataServiceIDInvertedTeletext : Z := 0x2.
Definition VBIDataServiceIDMonochrome442Samples : Z := 0x7.
Definition VBIDataServiceIDVPS : Z := 0x4.
Definition VBIDataServiceIDWSS : Z := 0x5.

(** ** Bodies *)
Record DescriptorAC3 := MkAC3 {
  ac3_AdditionalInfo : list Z;
  ac3_ASVC : Z;
  ac3_BSID : Z;
  ac3_ComponentType : Z;
  ac3_HasASVC : bool;
  ac3_HasBSID : bool;
  ac3_HasComponentType : bool;
  ac3_HasMainID : bool;
  ac3_MainID : Z;
}.

Record DescriptorAVCVideo := MkAVCVideo {
  AVC24HourPictureFlag : bool;
  AVCStillPresent : bool;
  CompatibleFlags : Z;
  ConstraintSet0Flag : bool;
  ConstraintSet1Flag : bool;
  ConstraintSet2Flag : bool;
  LevelIDC : Z;
  ProfileIDC : Z;
}.

Record DescriptorComponent := MkComponent {
  comp_ComponentTag : Z;
  comp_ComponentType : Z;
  comp_ISO639LanguageCode : list Z;
  StreamContent : Z;
  StreamContentExt : Z;
  comp_Text : list Z;
}.

Record DescriptorContentItem := MkContentItem {
  ContentNibbleLevel1 : Z;
  ContentNibbleLevel2 : Z;
  UserByte : Z;
}.
Record DescriptorContent := MkContent { content_Items : list DescriptorContentItem }.

Record DescriptorDataStreamAlignment := MkDataStreamAlignment { alignment_Type : Z }.

Record DescriptorEnhancedAC3 := MkEnhancedAC3 {
  eac3_AdditionalInfo : list Z;
  eac3_ASVC : Z;
  eac3_BSID : Z;
  eac3_ComponentType : Z;
  eac3_HasASVC : bool;
  eac3_HasBSID : bool;
  eac3_HasComponentType : bool;
  eac3_HasMainID : bool;
  HasSubStream1 : bool;
  HasSubStream2 : bool;
  HasSubStream3 : bool;
  eac3_MainID : Z;
  MixInfoExists : bool;
  SubStream1 : Z;
  SubStream2 : Z;
  SubStream3 : Z;
}.

Record DescriptorExtendedEventItem := MkExtendedEventItem {
  item_Content : list Z;
  item_Description : list Z;
}.
Record DescriptorExtendedEvent := MkExtendedEvent {
  ext_ISO639LanguageCode : list Z;
  ext_Items : list DescriptorExtendedEventItem;
  LastDescriptorNumber : Z;
  Number : Z;
  ext_Text : list Z;
}.

Record DescriptorExtensionSupplementaryAudio := MkSupplementaryAudio {
  EditorialClassification : Z;
  HasLanguageCode : bool;
  LanguageCode : list Z;
  MixType : bool;
  sup_PrivateData : list Z;
}.

Record T2Cell := MkT2Cell { CellID : Z; CentreFrequencies : list Z }.
Record DescriptorExtensionT2DeliverySystem := MkT2DeliverySystem {
  PLPID : Z;
  T2SystemID : Z;
  HasExtendedInfo : bool;
  SISOorMISO : Z;
  t2_Bandwidth : Z;
  t2_GuardInterval : Z;
  t2_TransmissionMode : Z;
  t2_OtherFrequencyFlag : bool;
  TFSFlag : bool;
  Cells : list T2Cell;
}.

(** [SupplementaryAudio], [T2DeliverySystem] and [Unknown] are pointers. *)
Record DescriptorExtension := MkExtension {
  SupplementaryAudio : option DescriptorExtensionSupplementaryAudio;
  T2DeliverySystem : option DescriptorExtensionT2DeliverySystem;
  extension_Tag : Z;
  extension_Unknown : option (list Z);
}.

Record DescriptorISO639LanguageAndAudioType := MkISO639 { Language : list Z; iso_Type : Z }.

Record DescriptorLocalTimeOffsetItem := MkLocalTimeOffsetItem {
  lto_CountryCode : list Z;
  CountryRegionID : Z;
  item_LocalTimeOffset : Z;
  LocalTimeOffsetPolarity : bool;
  NextTimeOffset : Z;
  TimeOfChange : Z;
}.
Record DescriptorLocalTimeOffset := MkLocalTimeOffset {
  lto_Items : list DescriptorLocalTimeOffsetItem;
}.

Record DescriptorMaximumBitrate := MkMaximumBitrate { Bitrate : Z }.
Record DescriptorNetworkName := MkNetworkName { network_Name : list Z }.

Record DescriptorParentalRatingItem := MkParentalRatingItem {
  rating_CountryCode : list Z;
  Rating : Z;
}.
Record DescriptorParentalRating := MkParentalRating {
  rating_Items : list DescriptorParentalRatingItem;
}.

Record DescriptorPrivateDataIndicator := MkPrivateDataIndicator { Indicator : Z }.
Record DescriptorPrivateDataSpecifier := MkPrivateDataSpecifier { Specifier : Z }.

Record DescriptorRegistration := MkRegistration {
  FormatIdentifier : Z;
  AdditionalIdentificationInfo : list Z;
}.

Record DescriptorService := MkService {
  service_Name : list Z;
  Provider : list Z;
  service_Type : Z;
}.

Record DescriptorShortEvent := MkShortEvent {
  EventName : list Z;
  short_Language : list Z;
  short_Text : list Z;
}.

Record DescriptorStreamIdentifier := MkStreamIdentifier { ComponentTag : Z }.

Record DescriptorSubtitlingItem := MkSubtitlingItem {
  AncillaryPageID : Z;
  CompositionPageID : Z;
  sub_Language : list Z;
  sub_Type : Z;
}.
Record DescriptorSubtitling := MkSubtitling { sub_Items : list DescriptorSubtitlingItem }.

Record DescriptorTeletextItem := MkTeletextItem {
  tele_Language : list Z;
  Magazine : Z;
  Page : Z;
  tele_Type : Z;
}.
Record DescriptorTeletext := MkTeletext { tele_Items : list DescriptorTeletextItem }.

Record DescriptorUnknown := MkUnknown { unknown_Content : list Z; unknown_Tag : Z }.

Record DescriptorVBIDataDescriptor := MkVBIDataDescriptor { FieldParity : bool; LineOffset : Z }.
Record DescriptorVBIDataService := MkVBIDataService {
  DataServiceID : Z;
  Descriptors : list DescriptorVBIDataDescriptor;
}.
Record DescriptorVBIData := MkVBIData { Services : list DescriptorVBIDataService }.

Record DescriptorSatelliteDeliverySystem := MkSatellite {
  sat_Frequency : Z;
  OrbitalPosition : Z;
  WestEastFlag : bool;
  Polarization : Z;
  RollOff : Z;
  ModulationSystem : bool;
  ModulationType : Z;
  sat_SymbolRate : Z;
  sat_FECInner : Z;
}.

Record DescriptorTerrestrialDeliverySystem := MkTerrestrial {
  ter_Frequency : Z;
  ter_Bandwidth : Z;
  Priority : bool;
  TimeSlicingIndicator : bool;
  MPEFECIndicator : bool;
  Constellation : Z;
  HierarchyInformation : Z;
  CodeRateHPStream : Z;
  CodeRateLPStream : Z;
  ter_GuardInterval : Z;
  ter_TransmissionMode : Z;
  ter_OtherFrequencyFlag : bool;
}.

Record DescriptorCableDeliverySystem := MkCable {
  cable_Frequency : Z;
  FECOuter : Z;
  Modulation : Z;
  cable_SymbolRate : Z;
  cable_FECInner : Z;
}.

(** ** Descriptors *)
Inductive descriptor_body :=
  | NoBody
  | UserDefined (data : list Z)
  | AC3 (d : DescriptorAC3)
  | AVCVideo (d : DescriptorAVCVideo)
  | CableDeliverySystem (d : DescriptorCableDeliverySystem)
  | Component (d : DescriptorComponent)
  | Content (d : DescriptorContent)
  | DataStreamAlignment (d : DescriptorDataStreamAlignment)
  | EnhancedAC3 (d : DescriptorEnhancedAC3)
  | ExtendedEvent (d : DescriptorExtendedEvent)
  | Extension (d : DescriptorExtension)
  | ISO639LanguageAndAudioType (d : DescriptorISO639LanguageAndAudioType)
  | LocalTimeOffset (d : DescriptorLocalTimeOffset)
  | MaximumBitrate (d : DescriptorMaximumBitrate)
  | NetworkName (d : DescriptorNetworkName)
  | ParentalRating (d : DescriptorParentalRating)
  | PrivateDataIndicator (d : DescriptorPrivateDataIndicator)
  | PrivateDataSpecifier (d : DescriptorPrivateDataSpecifier)
  | Registration (d : DescriptorRegistration)
  | SatelliteDeliverySystem (d : DescriptorSatelliteDeliverySystem)
  | Service (d : DescriptorService)
  | ShortEvent (d : DescriptorShortEvent)
  | StreamIdentifier (d : DescriptorStreamIdentifier)
  | Subtitling (d : DescriptorSubtitling)
  | Teletext (d : DescriptorTeletext)
  | TerrestrialDeliverySystem (d : DescriptorTerrestrialDeliverySystem)
  | Unknown (d : DescriptorUnknown)
  | VBIData (d : DescriptorVBIData)
  | VBITeletext (d : DescriptorTeletext).

Record Descriptor := MkDescriptor {
  Tag : Z;
  desc_Length : Z;
  body : descriptor_body;
}.

(** ** Decidable equality *)
#[export] Instance DescriptorAC3_eq_dec : EqDecision DescriptorAC3.
Proof. solve_decision. Defined.
#[export] Instance DescriptorAVCVideo_eq_dec : EqDecision DescriptorAVCVideo.
Proof. solve_decision. Defined.
#[export] Instance DescriptorComponent_eq_dec : EqDecision DescriptorComponent.
Proof. solve_decision. Defined.
#[export] Instance DescriptorContentItem_eq_dec : EqDecision DescriptorContentItem.
Proof. solve_decision. Defined.
#[export] Instance DescriptorContent_eq_dec : EqDecision DescriptorContent.
Proof. solve_decision. Defined.
#[export] Instance DescriptorDataStreamAlignment_eq_dec : EqDecision DescriptorDataStreamAlignment.
Proof. solve_decision. Defined.
#[export] Instance DescriptorEnhancedAC3_eq_dec : EqDecision DescriptorEnhancedAC3.
Proof. solve_decision. Defined.
#[export] Instance DescriptorExtendedEventItem_eq_dec : EqDecision DescriptorExtendedEventItem.
Proof. solve_decision. Defined.
#[export] Instance DescriptorExtendedEvent_eq_dec : EqDecision DescriptorExtendedEvent.
Proof. solve_decision. Defined.
#[export] Instance DescriptorExtensionSupplementaryAudio_eq_dec : EqDecision DescriptorExtensionSupplementaryAudio.
Proof. solve_decision. Defined.
#[export] Instance T2Cell_eq_dec : EqDecision T2Cell.
Proof. solve_decision. Defined.
#[export] Instance DescriptorExtensionT2DeliverySystem_eq_dec : EqDecision DescriptorExtensionT2DeliverySystem.
Proof. solve_decision. Defined.
#[export] Instance DescriptorExtension_eq_dec : EqDecision DescriptorExtension.
Proof. solve_decision. Defined.
#[export] Instance DescriptorISO639LanguageAndAudioType_eq_dec : EqDecision DescriptorISO639LanguageAndAudioType.
Proof. solve_decision. Defined.
#[export] Instance DescriptorLocalTimeOffsetItem_eq_dec : EqDecision DescriptorLocalTimeOffsetItem.
Proof. solve_decision. Defined.
#[export] Instance DescriptorLocalTimeOffset_eq_dec : EqDecision DescriptorLocalTimeOffset.
Proof. solve_decision. Defined.
#[export] Instance DescriptorMaximumBitrate_eq_dec : EqDecision DescriptorMaximumBitrate.
Proof. solve_decision. Defined.
#[export] Instance DescriptorNetworkName_eq_dec : EqDecision DescriptorNetworkName.
Proof. solve_decision. Defined.
#[export] Instance DescriptorParentalRatingItem_eq_dec : EqDecision DescriptorParentalRatingItem.
Proof. solve_decision. Defined.
#[export] Instance DescriptorParentalRating_eq_dec : EqDecision DescriptorParentalRating.
Proof. solve_decision. Defined.
#[export] Instance DescriptorPrivateDataIndicator_eq_dec : EqDecision DescriptorPrivateDataIndicator.
Proof. solve_decision. Defined.
#[export] Instance DescriptorPrivateDataSpecifier_eq_dec : EqDecision DescriptorPrivateDataSpecifier.
Proof. solve_decision. Defined.
#[export] Instance DescriptorRegistration_eq_dec : EqDecision DescriptorRegistration.
Proof. solve_decision. Defined.
#[export] Instance DescriptorService_eq_dec : EqDecision DescriptorService.
Proof. solve_decision. Defined.
#[export] Instance DescriptorShortEvent_eq_dec : EqDecision DescriptorShortEvent.
Proof. solve_decision. Defined.
#[export] Instance DescriptorStreamIdentifier_eq_dec : EqDecision DescriptorStreamIdentifier.
Proof. solve_decision. Defined.
#[export] Instance DescriptorSubtitlingItem_eq_dec : EqDecision DescriptorSubtitlingItem.
Proof. solve_decision. Defined.
#[export] Instance DescriptorSubtitling_eq_dec : EqDecision DescriptorSubtitling.
Proof. solve_decision. Defined.
#[export] Instance DescriptorTeletextItem_eq_dec : EqDecision DescriptorTeletextItem.
Proof. solve_decision. Defined.
#[export] Instance DescriptorTeletext_eq_dec : EqDecision DescriptorTeletext.
Proof. solve_decision. Defined.
#[export] Instance DescriptorUnknown_eq_dec : EqDecision DescriptorUnknown.
Proof. solve_decision. Defined.
#[export] Instance DescriptorVBIDataDescriptor_eq_dec : EqDecision DescriptorVBIDataDescriptor.
Proof. solve_decision. Defined.
#[export] Instance DescriptorVBIDataService_eq_dec : EqDecision DescriptorVBIDataService.
Proof. solve_decision. Defined.
#[export] Instance DescriptorVBIData_eq_dec : EqDecision DescriptorVBIData.
Proof. solve_decision. Defined.
#[export] Instance DescriptorSatelliteDeliverySystem_eq_dec : EqDecision DescriptorSatelliteDeliverySystem.
Proof. solve_decision. Defined.
#[export] Instance DescriptorTerrestrialDeliverySystem_eq_dec : EqDecision DescriptorTerrestrialDeliverySystem.
Proof. solve_decision. Defined.
#[export] Instance DescriptorCableDeliverySystem_eq_dec : EqDecision DescriptorCableDeliverySystem.
Proof. solve_decision. Defined.
#[export] Instance descriptor_body_eq_dec : EqDecision descriptor_body.
Proof. solve_decision. Defined.
#[export] Instance Descriptor_eq_dec : EqDecision Descriptor.
Proof. solve_decision. Defined.
