(* ===== verification/DescriptorParse.v ===== *)
(** * internal/go-astits/descriptor.go: parsing descriptors

    One reader for each kind of body, then [parseDescriptors].  A Go reader fills
    a structure field by field and abandons it on an error; here the record is
    built once its parts have been read. *)

From S2P Require Import Prelude Astikit Descriptor DvbTime.
Local Open Scope Z_scope.

(** [decodeBCD], in 64-bit arithmetic. *)
Definition decodeBCD (data : list Z) : Z :=
  foldl (fun result b =>
    u64 (result * 100 + Z.land (Z.shiftr b 4) 0x0F * 10 + Z.land b 0x0F)) 0 data.

(** The services whose data units are described one by one. *)
Definition described_service (id : Z) : bool :=
  (id =? VBIDataServiceIDClosedCaptioning) || (id =? VBIDataServiceIDEBUTeletext)
  || (id =? VBIDataServiceIDInvertedTeletext) || (id =? VBIDataServiceIDMonochrome442Samples)
  || (id =? VBIDataServiceIDVPS) || (id =? VBIDataServiceIDWSS).

(** [if b { x, err = i.NextByte() }] for a field that is zero otherwise. *)
Definition byte_if {I : Type} `{BytesIterator I} (b : bool) : M I Z :=
  if b then next_byte else mret 0.

Section Bodies.
Context {I : Type} `{BytesIterator I}.

Definition newDescriptorAC3 (offsetEnd : Z) : M I DescriptorAC3 :=
  b ← next_byte;
  ct ← byte_if (masked b 0x80);
  bsid ← byte_if (masked b 0x40);
  mid ← byte_if (masked b 0x20);
  asvc ← byte_if (masked b 0x10);
  info ← bytes_until offsetEnd;
  mret {| ac3_AdditionalInfo := info; ac3_ASVC := asvc; ac3_BSID := bsid; ac3_ComponentType := ct;
          ac3_HasASVC := masked b 0x10; ac3_HasBSID := masked b 0x40;
          ac3_HasComponentType := masked b 0x80; ac3_HasMainID := masked b 0x20;
          ac3_MainID := mid |}.

Definition newDescriptorAVCVideo : M I DescriptorAVCVideo :=
  profile ← next_byte;
  b ← next_byte;
  level ← next_byte;
  b2 ← next_byte;
  mret {| AVC24HourPictureFlag := masked b2 0x40; AVCStillPresent := masked b2 0x80;
          CompatibleFlags := Z.land b 0x1f; ConstraintSet0Flag := masked b 0x80;
          ConstraintSet1Flag := masked b 0x40; ConstraintSet2Flag := masked b 0x20;
          LevelIDC := level; ProfileIDC := profile |}.

Definition newDescriptorComponent (offsetEnd : Z) : M I DescriptorComponent :=
  b ← next_byte;
  ctype ← next_byte;
  tag ← next_byte;
  code ← next_bytes 3;
  text ← bytes_until offsetEnd;
  mret {| comp_ComponentTag := tag; comp_ComponentType := ctype; comp_ISO639LanguageCode := code;
          StreamContent := Z.land b 0xf; StreamContentExt := Z.shiftr b 4; comp_Text := text |}.

Definition newDescriptorContent (offsetEnd : Z) : M I DescriptorContent :=
  items ← items_until offsetEnd (
    bs ← next_bytes_no_copy 2;
    mret {| ContentNibbleLevel1 := Z.shiftr (byte_at bs 0) 4;
            ContentNibbleLevel2 := Z.land (byte_at bs 0) 0xf; UserByte := byte_at bs 1 |});
  mret {| content_Items := items |}.

Definition newDescriptorDataStreamAlignment : M I DescriptorDataStreamAlignment :=
  b ← next_byte;
  mret {| alignment_Type := b |}.

Definition newDescriptorEnhancedAC3 (offsetEnd : Z) : M I DescriptorEnhancedAC3 :=
  b ← next_byte;
  ct ← byte_if (masked b 0x80);
  bsid ← byte_if (masked b 0x40);
  mid ← byte_if (masked b 0x20);
  asvc ← byte_if (masked b 0x10);
  s1 ← byte_if (masked b 0x4);
  s2 ← byte_if (masked b 0x2);
  s3 ← byte_if (masked b 0x1);
  info ← bytes_until offsetEnd;
  mret {| eac3_AdditionalInfo := info; eac3_ASVC := asvc; eac3_BSID := bsid;
          eac3_ComponentType := ct; eac3_HasASVC := masked b 0x10; eac3_HasBSID := masked b 0x40;
          eac3_HasComponentType := masked b 0x80; eac3_HasMainID := masked b 0x20;
          HasSubStream1 := masked b 0x4; HasSubStream2 := masked b 0x2;
          HasSubStream3 := masked b 0x1; eac3_MainID := mid; MixInfoExists := masked b 0x8;
          SubStream1 := s1; SubStream2 := s2; SubStream3 := s3 |}.

Definition newDescriptorExtendedEventItem : M I DescriptorExtendedEventItem :=
  n ← next_byte;
  description ← next_bytes n;
  n ← next_byte;
  content ← next_bytes n;
  mret {| item_Content := content; item_Description := description |}.

Definition newDescriptorExtendedEvent : M I DescriptorExtendedEvent :=
  b ← next_byte;
  code ← next_bytes 3;
  itemsLength ← next_byte;
  o ← gets Offset;
  items ← items_until (o + itemsLength)
    (wrap_err "astits: creating extended event item failed" newDescriptorExtendedEventItem);
  textLength ← next_byte;
  text ← next_bytes textLength;
  mret {| ext_ISO639LanguageCode := code; ext_Items := items; LastDescriptorNumber := Z.land b 0xf;
          Number := Z.shiftr b 4; ext_Text := text |}.

Definition newDescriptorExtensionSupplementaryAudio (offsetEnd : Z) :
    M I DescriptorExtensionSupplementaryAudio :=
  b ← next_byte;
  code ← (if masked b 0x1 then next_bytes 3 else mret []);
  data ← bytes_until offsetEnd;
  mret {| EditorialClassification := Z.land (Z.shiftr b 2) 0x1f; HasLanguageCode := masked b 0x1;
          LanguageCode := code; MixType := masked b 0x80; sup_PrivateData := data |}.

Definition newT2Cell : M I T2Cell :=
  bs ← next_bytes_no_copy 2;
  freqLoopLength ← next_byte;
  o ← gets Offset;
  freqs ← items_until (o + freqLoopLength) (bs ← next_bytes_no_copy 4; mret (be32 bs));
  mret {| CellID := be16 bs 0; CentreFrequencies := freqs |}.

Definition newDescriptorExtensionT2DeliverySystem (offsetEnd : Z) :
    M I DescriptorExtensionT2DeliverySystem :=
  plp ← next_byte;
  bs ← next_bytes_no_copy 2;
  o ← gets Offset;
  if o <? offsetEnd then
    b3 ← next_byte;
    b4 ← next_byte;
    cells ← items_until offsetEnd newT2Cell;
    mret {| PLPID := plp; T2SystemID := be16 bs 0; HasExtendedInfo := true;
            SISOorMISO := Z.land (Z.shiftr b3 6) 0x3; t2_Bandwidth := Z.land (Z.shiftr b3 2) 0x0F;
            t2_GuardInterval := Z.land (Z.shiftr b4 5) 0x7;
            t2_TransmissionMode := Z.land (Z.shiftr b4 2) 0x7;
            t2_OtherFrequencyFlag := masked b4 0x02; TFSFlag := masked b4 0x01; Cells := cells |}
  else
    mret {| PLPID := plp; T2SystemID := be16 bs 0; HasExtendedInfo := false; SISOorMISO := 0;
            t2_Bandwidth := 0; t2_GuardInterval := 0; t2_TransmissionMode := 0;
            t2_OtherFrequencyFlag := false; TFSFlag := false; Cells := [] |}.

Definition newDescriptorExtension (offsetEnd : Z) : M I DescriptorExtension :=
  tag ← next_byte;
  if tag =? DescriptorTagExtensionT2DeliverySystem then
    d ← wrap_err "astits: parsing T2 Delivery System extension descriptor failed"
      (newDescriptorExtensionT2DeliverySystem offsetEnd);
    mret {| SupplementaryAudio := None; T2DeliverySystem := Some d; extension_Tag := tag;
            extension_Unknown := None |}
  else if tag =? DescriptorTagExtensionSupplementaryAudio then
    d ← wrap_err "astits: parsing extension supplementary audio descriptor failed"
      (newDescriptorExtensionSupplementaryAudio offsetEnd);
    mret {| SupplementaryAudio := Some d; T2DeliverySystem := None; extension_Tag := tag;
            extension_Unknown := None |}
  else
    o ← gets Offset;
    b ← next_bytes (offsetEnd - o);
    mret {| SupplementaryAudio := None; T2DeliverySystem := None; extension_Tag := tag;
            extension_Unknown := Some b |}.

Definition newDescriptorISO639LanguageAndAudioType (offsetEnd : Z) :
    M I DescriptorISO639LanguageAndAudioType :=
  o ← gets Offset;
  bs ← next_bytes (offsetEnd - o);
  t ← must (list.last bs);
  mret {| Language := take (length bs - 1) bs; iso_Type := t |}.

Definition newDescriptorLocalTimeOffsetItem : M I DescriptorLocalTimeOffsetItem :=
  code ← next_bytes 3;
  b ← next_byte;
  offset ← wrap_err "astits: parsing DVB durationminutes failed" parseDVBDurationMinutes;
  time ← wrap_err "astits: parsing DVB time failed" parseDVBTime;
  next ← wrap_err "astits: parsing DVB duration minutes failed" parseDVBDurationMinutes;
  mret {| lto_CountryCode := code; CountryRegionID := Z.shiftr b 2; item_LocalTimeOffset := offset;
          LocalTimeOffsetPolarity := masked b 0x1; NextTimeOffset := next; TimeOfChange := time |}.

Definition newDescriptorLocalTimeOffset (offsetEnd : Z) : M I DescriptorLocalTimeOffset :=
  items ← items_until offsetEnd newDescriptorLocalTimeOffsetItem;
  mret {| lto_Items := items |}.

Definition newDescriptorMaximumBitrate : M I DescriptorMaximumBitrate :=
  bs ← next_bytes_no_copy 3;
  mret {| Bitrate := u32 (Z.lor (Z.shiftl (Z.land (byte_at bs 0) 0x3f) 16) (be16 bs 1) * 50) |}.

Definition newDescriptorNetworkName (offsetEnd : Z) : M I DescriptorNetworkName :=
  o ← gets Offset;
  name ← next_bytes (offsetEnd - o);
  mret {| network_Name := name |}.

Definition newDescriptorParentalRating (offsetEnd : Z) : M I DescriptorParentalRating :=
  items ← items_until offsetEnd (
    bs ← next_bytes 4;
    mret {| rating_CountryCode := take 3 bs; Rating := byte_at bs 3 |});
  mret {| rating_Items := items |}.

Definition newDescriptorPrivateDataIndicator : M I DescriptorPrivateDataIndicator :=
  bs ← next_bytes_no_copy 4;
  mret {| Indicator := be32 bs |}.

Definition newDescriptorPrivateDataSpecifier : M I DescriptorPrivateDataSpecifier :=
  bs ← next_bytes_no_copy 4;
  mret {| Specifier := be32 bs |}.

Definition newDescriptorRegistration (offsetEnd : Z) : M I DescriptorRegistration :=
  bs ← next_bytes_no_copy 4;
  info ← bytes_until offsetEnd;
  mret {| FormatIdentifier := be32 bs; AdditionalIdentificationInfo := info |}.

Definition newDescriptorService : M I DescriptorService :=
  t ← next_byte;
  n ← next_byte;
  provider ← next_bytes n;
  n ← next_byte;
  name ← next_bytes n;
  mret {| service_Name := name; Provider := provider; service_Type := t |}.

Definition newDescriptorShortEvent : M I DescriptorShortEvent :=
  language ← next_bytes 3;
  n ← next_byte;
  name ← next_bytes n;
  n ← next_byte;
  text ← next_bytes n;
  mret {| EventName := name; short_Language := language; short_Text := text |}.

Definition newDescriptorStreamIdentifier : M I DescriptorStreamIdentifier :=
  b ← next_byte;
  mret {| ComponentTag := b |}.

Definition newDescriptorSubtitling (offsetEnd : Z) : M I DescriptorSubtitling :=
  items ← items_until offsetEnd (
    language ← next_bytes 3;
    b ← next_byte;
    composition ← next_bytes_no_copy 2;
    ancillary ← next_bytes_no_copy 2;
    mret {| AncillaryPageID := be16 ancillary 0; CompositionPageID := be16 composition 0;
            sub_Language := language; sub_Type := b |});
  mret {| sub_Items := items |}.

Definition newDescriptorTeletext (offsetEnd : Z) : M I DescriptorTeletext :=
  items ← items_until offsetEnd (
    language ← next_bytes 3;
    b ← next_byte;
    page ← next_byte;
    mret {| tele_Language := language; Magazine := Z.land b 0x7;
            Page := u8 (u8 (Z.shiftr page 4 * 10) + Z.land page 0xf);
            tele_Type := Z.shiftr b 3 |});
  mret {| tele_Items := items |}.

Definition newDescriptorUnknown (tag len : Z) : M I DescriptorUnknown :=
  content ← next_bytes len;
  mret {| unknown_Content := content; unknown_Tag := tag |}.

Definition newVBIDataService : M I DescriptorVBIDataService :=
  id ← next_byte;
  n ← next_byte;
  o ← gets Offset;
  ds ← items_until (o + n) (
    b ← next_byte;
    mret {| FieldParity := masked b 0x20; LineOffset := Z.land b 0x1f |});
  mret {| DataServiceID := id; Descriptors := if described_service id then ds else [] |}.

Definition newDescriptorVBIData (offsetEnd : Z) : M I DescriptorVBIData :=
  services ← items_until offsetEnd newVBIDataService;
  mret {| Services := services |}.

(** The symbol rate: six BCD digits and a seventh in the high nibble. *)
Definition symbol_rate (bs : list Z) : Z :=
  u32 (u32 (u32 (decodeBCD (take 3 bs)) * 10) + Z.land (Z.shiftr (byte_at bs 3) 4) 0x0F).

Definition newDescriptorSatelliteDeliverySystem : M I DescriptorSatelliteDeliverySystem :=
  freq ← next_bytes_no_copy 4;
  position ← next_bytes_no_copy 2;
  b ← next_byte;
  bs ← next_bytes_no_copy 4;
  mret {| sat_Frequency := u32 (decodeBCD freq); OrbitalPosition := be16 position 0;
          WestEastFlag := masked b 0x80; Polarization := Z.land (Z.shiftr b 5) 0x3;
          RollOff := Z.land (Z.shiftr b 3) 0x3; ModulationSystem := masked b 0x04;
          ModulationType := Z.land b 0x3; sat_SymbolRate := symbol_rate bs;
          sat_FECInner := Z.land (byte_at bs 3) 0x0F |}.

Definition newDescriptorTerrestrialDeliverySystem : M I DescriptorTerrestrialDeliverySystem :=
  freq ← next_bytes_no_copy 4;
  b4 ← next_byte;
  b5 ← next_byte;
  b6 ← next_byte;
  next_bytes 4;;
  mret {| ter_Frequency := be32 freq; ter_Bandwidth := Z.land (Z.shiftr b4 5) 0x7;
          Priority := masked b4 0x10; TimeSlicingIndicator := masked b4 0x08;
          MPEFECIndicator := masked b4 0x04; Constellation := Z.land (Z.shiftr b5 6) 0x3;
          HierarchyInformation := Z.land (Z.shiftr b5 3) 0x7; CodeRateHPStream := Z.land b5 0x7;
          CodeRateLPStream := Z.land (Z.shiftr b6 5) 0x7;
          ter_GuardInterval := Z.land (Z.shiftr b6 3) 0x3;
          ter_TransmissionMode := Z.land (Z.shiftr b6 1) 0x3;
          ter_OtherFrequencyFlag := masked b6 0x1 |}.

Definition newDescriptorCableDeliverySystem : M I DescriptorCableDeliverySystem :=
  freq ← next_bytes_no_copy 4;
  outer ← next_bytes_no_copy 2;
  modulation ← next_byte;
  bs ← next_bytes_no_copy 4;
  mret {| cable_Frequency := u32 (decodeBCD freq); FECOuter := Z.land (byte_at outer 1) 0x0F;
          Modulation := modulation; cable_SymbolRate := symbol_rate bs;
          cable_FECInner := Z.land (byte_at bs 3) 0x0F |}.

(** ** Dispatch *)

(** The tags of user-defined descriptors. *)
Definition user_tag (tag : Z) : bool := (0x80 <=? tag) && (tag <=? 0xfe).

(** The body of a descriptor of [len] bytes that ends at [e]. *)
Definition parse_body (tag len e : Z) : M I descriptor_body :=
  if user_tag tag then d ← next_bytes len; mret (UserDefined d)
  else if tag =? DescriptorTagAC3 then
    d ← wrap_err "astits: parsing AC3 descriptor failed" (newDescriptorAC3 e); mret (AC3 d)
  else if tag =? DescriptorTagAVCVideo then
    d ← wrap_err "astits: parsing AVC Video descriptor failed" newDescriptorAVCVideo; mret (AVCVideo d)
  else if tag =? DescriptorTagComponent then
    d ← wrap_err "astits: parsing Component descriptor failed" (newDescriptorComponent e); mret (Component d)
  else if tag =? DescriptorTagContent then
    d ← wrap_err "astits: parsing Content descriptor failed" (newDescriptorContent e); mret (Content d)
  else if tag =? DescriptorTagDataStreamAlignment then
    d ← wrap_err "astits: parsing Data Stream Alignment descriptor failed" newDescriptorDataStreamAlignment; mret (DataStreamAlignment d)
  else if tag =? DescriptorTagEnhancedAC3 then
    d ← wrap_err "astits: parsing Enhanced AC3 descriptor failed" (newDescriptorEnhancedAC3 e); mret (EnhancedAC3 d)
  else if tag =? DescriptorTagExtendedEvent then
    d ← wrap_err "astits: parsing Extended event descriptor failed" newDescriptorExtendedEvent; mret (ExtendedEvent d)
  else if tag =? DescriptorTagExtension then
    d ← wrap_err "astits: parsing Extension descriptor failed" (newDescriptorExtension e); mret (Extension d)
  else if tag =? DescriptorTagISO639LanguageAndAudioType then
    d ← wrap_err "astits: parsing ISO639 Language and Audio Type descriptor failed" (newDescriptorISO639LanguageAndAudioType e); mret (ISO639LanguageAndAudioType d)
  else if tag =? DescriptorTagLocalTimeOffset then
    d ← wrap_err "astits: parsing Local Time Offset descriptor failed" (newDescriptorLocalTimeOffset e); mret (LocalTimeOffset d)
  else if tag =? DescriptorTagMaximumBitrate then
    d ← wrap_err "astits: parsing Maximum Bitrate descriptor failed" newDescriptorMaximumBitrate; mret (MaximumBitrate d)
  else if tag =? DescriptorTagNetworkName then
    d ← wrap_err "astits: parsing Network Name descriptor failed" (newDescriptorNetworkName e); mret (NetworkName d)
  else if tag =? DescriptorTagParentalRating then
    d ← wrap_err "astits: parsing Parental Rating descriptor failed" (newDescriptorParentalRating e); mret (ParentalRating d)
  else if tag =? DescriptorTagPrivateDataIndicator then
    d ← wrap_err "astits: parsing Private Data Indicator descriptor failed" newDescriptorPrivateDataIndicator; mret (PrivateDataIndicator d)
  else if tag =? DescriptorTagPrivateDataSpecifier then
    d ← wrap_err "astits: parsing Private Data Specifier descriptor failed" newDescriptorPrivateDataSpecifier; mret (PrivateDataSpecifier d)
  else if tag =? DescriptorTagRegistration then
    d ← wrap_err "astits: parsing Registration descriptor failed" (newDescriptorRegistration e); mret (Registration d)
  else if tag =? DescriptorTagSatelliteDeliverySystem then
    d ← wrap_err "astits: parsing Satellite Delivery System descriptor failed" newDescriptorSatelliteDeliverySystem; mret (SatelliteDeliverySystem d)
  else if tag =? DescriptorTagTerrestrialDeliverySystem then
    d ← wrap_err "astits: parsing Terrestrial Delivery System descriptor failed" newDescriptorTerrestrialDeliverySystem; mret (TerrestrialDeliverySystem d)
  else if tag =? DescriptorTagCableDeliverySystem then
    d ← wrap_err "astits: parsing Cable Delivery System descriptor failed" newDescriptorCableDeliverySystem; mret (CableDeliverySystem d)
  else if tag =? DescriptorTagService then
    d ← wrap_err "astits: parsing Service descriptor failed" newDescriptorService; mret (Service d)
  else if tag =? DescriptorTagShortEvent then
    d ← wrap_err "astits: parsing Short Event descriptor failed" newDescriptorShortEvent; mret (ShortEvent d)
  else if tag =? DescriptorTagStreamIdentifier then
    d ← wrap_err "astits: parsing Stream Identifier descriptor failed" newDescriptorStreamIdentifier; mret (StreamIdentifier d)
  else if tag =? DescriptorTagSubtitling then
    d ← wrap_err "astits: parsing Subtitling descriptor failed" (newDescriptorSubtitling e); mret (Subtitling d)
  else if tag =? DescriptorTagTeletext then
    d ← wrap_err "astits: parsing Teletext descriptor failed" (newDescriptorTeletext e); mret (Teletext d)
  else if tag =? DescriptorTagVBIData then
    d ← wrap_err "astits: parsing VBI Date descriptor failed" (newDescriptorVBIData e); mret (VBIData d)
  else if tag =? DescriptorTagVBITeletext then
    d ← wrap_err "astits: parsing VBI Teletext descriptor failed" (newDescriptorTeletext e); mret (VBITeletext d)
  else
    d ← wrap_err "astits: parsing unknown descriptor failed" (newDescriptorUnknown tag len);
    mret (Unknown d).

Definition parseDescriptor : M I Descriptor :=
  bs ← next_bytes_no_copy 2;
  let tag := byte_at bs 0 in let len := byte_at bs 1 in
  if 0 <? len then
    o ← gets Offset;
    d ← parse_body tag len (o + len);
    Seek (o + len);;
    mret {| Tag := tag; desc_Length := len; body := d |}
  else mret {| Tag := tag; desc_Length := len; body := NoBody |}.

Definition parseDescriptors : M I (list Descriptor) :=
  bs ← next_bytes_no_copy 2;
  let length := Z.lor (Z.shiftl (Z.land (byte_at bs 0) 0xf) 8) (byte_at bs 1) in
  if 0 <? length then
    o ← gets Offset;
    items_until (o + length) parseDescriptor
  else mret [].
End Bodies.
