(* ===== verification/DescriptorWrite.v ===== *)
(** * internal/go-astits/descriptor.go: lengths and writing of descriptors

    A body that the tag does not select is a nil pointer in Go: its length is
    zero and writing it panics. *)

From S2P Require Import Prelude Astikit Descriptor DvbTime DescriptorParse.
Local Open Scope Z_scope.

Definition len (l : list Z) : Z := Z.of_nat (length l).
Definition count (b : bool) : Z := if b then 1 else 0.

(** ** Lengths, in uint8 *)
Definition calcDescriptorUserDefinedLength (d : list Z) : Z := u8 (len d).

Definition calcDescriptorAC3Length (d : DescriptorAC3) : Z :=
  u8 (1 + count (ac3_HasComponentType d) + count (ac3_HasBSID d) + count (ac3_HasMainID d)
      + count (ac3_HasASVC d) + len (ac3_AdditionalInfo d)).

Definition calcDescriptorAVCVideoLength (d : DescriptorAVCVideo) : Z := 4.
Definition calcDescriptorComponentLength (d : DescriptorComponent) : Z := u8 (6 + len (comp_Text d)).
Definition calcDescriptorContentLength (d : DescriptorContent) : Z :=
  u8 (2 * Z.of_nat (length (content_Items d))).
Definition calcDescriptorDataStreamAlignmentLength (d : DescriptorDataStreamAlignment) : Z := 1.

Definition calcDescriptorEnhancedAC3Length (d : DescriptorEnhancedAC3) : Z :=
  u8 (1 + count (eac3_HasComponentType d) + count (eac3_HasBSID d) + count (eac3_HasMainID d)
      + count (eac3_HasASVC d) + count (HasSubStream1 d) + count (HasSubStream2 d)
      + count (HasSubStream3 d) + len (eac3_AdditionalInfo d)).

Definition items_length (items : list DescriptorExtendedEventItem) : Z :=
  foldr (fun i n => 1 + len (item_Description i) + (1 + len (item_Content i)) + n) 0 items.

(** The length of the descriptor and the length of its items. *)
Definition calcDescriptorExtendedEventLength (d : DescriptorExtendedEvent) : Z * Z :=
  (u8 (1 + 3 + 1 + items_length (ext_Items d) + (1 + len (ext_Text d))), u8 (items_length (ext_Items d))).

Definition calcDescriptorExtensionSupplementaryAudioLength
    (d : DescriptorExtensionSupplementaryAudio) : Z :=
  1 + (if HasLanguageCode d then 3 else 0) + len (sup_PrivateData d).

Definition calcDescriptorExtensionT2DeliverySystemLength
    (d : DescriptorExtensionT2DeliverySystem) : Z :=
  3 + (if HasExtendedInfo d then
         2 + foldr (fun c n => 3 + 4 * len (CentreFrequencies c) + n) 0 (Cells d)
       else 0).

Definition calcDescriptorExtensionLength (d : DescriptorExtension) : Z :=
  u8 (1 + (if extension_Tag d =? DescriptorTagExtensionT2DeliverySystem then
             match T2DeliverySystem d with
             | Some t => calcDescriptorExtensionT2DeliverySystemLength t | None => 0
             end
           else if extension_Tag d =? DescriptorTagExtensionSupplementaryAudio then
             match SupplementaryAudio d with
             | Some t => calcDescriptorExtensionSupplementaryAudioLength t | None => 0
             end
           else match extension_Unknown d with Some b => len b | None => 0 end)).

Definition calcDescriptorISO639LanguageAndAudioTypeLength
    (d : DescriptorISO639LanguageAndAudioType) : Z := 3 + 1.
Definition calcDescriptorLocalTimeOffsetLength (d : DescriptorLocalTimeOffset) : Z :=
  u8 (13 * Z.of_nat (length (lto_Items d))).
Definition calcDescriptorMaximumBitrateLength (d : DescriptorMaximumBitrate) : Z := 3.
Definition calcDescriptorNetworkNameLength (d : DescriptorNetworkName) : Z := u8 (len (network_Name d)).
Definition calcDescriptorParentalRatingLength (d : DescriptorParentalRating) : Z :=
  u8 (4 * Z.of_nat (length (rating_Items d))).
Definition calcDescriptorPrivateDataIndicatorLength (d : DescriptorPrivateDataIndicator) : Z := 4.
Definition calcDescriptorPrivateDataSpecifierLength (d : DescriptorPrivateDataSpecifier) : Z := 4.
Definition calcDescriptorRegistrationLength (d : DescriptorRegistration) : Z :=
  u8 (4 + len (AdditionalIdentificationInfo d)).
Definition calcDescriptorServiceLength (d : DescriptorService) : Z :=
  u8 (3 + len (service_Name d) + len (Provider d)).
Definition calcDescriptorShortEventLength (d : DescriptorShortEvent) : Z :=
  u8 (3 + 1 + 1 + len (EventName d) + len (short_Text d)).
Definition calcDescriptorStreamIdentifierLength (d : DescriptorStreamIdentifier) : Z := 1.
Definition calcDescriptorSubtitlingLength (d : DescriptorSubtitling) : Z :=
  u8 (8 * Z.of_nat (length (sub_Items d))).
Definition calcDescriptorTeletextLength (d : DescriptorTeletext) : Z :=
  u8 (5 * Z.of_nat (length (tele_Items d))).
Definition calcDescriptorVBIDataLength (d : DescriptorVBIData) : Z :=
  u8 (3 * Z.of_nat (length (Services d))).
Definition calcDescriptorUnknownLength (d : DescriptorUnknown) : Z := u8 (len (unknown_Content d)).
Definition calcDescriptorSatelliteDeliverySystemLength (d : DescriptorSatelliteDeliverySystem) : Z := 11.
Definition calcDescriptorTerrestrialDeliverySystemLength
    (d : DescriptorTerrestrialDeliverySystem) : Z := 11.
Definition calcDescriptorCableDeliverySystemLength (d : DescriptorCableDeliverySystem) : Z := 11.

(** ** Writing bodies *)

(** [encodeBCD]: two decimal digits in each byte. *)
Fixpoint encodeBCD (val : Z) (numBytes : nat) : list Z :=
  match numBytes with
  | O => []
  | S n => encodeBCD (val / 10 / 10) n ++ [u8 (Z.lor (Z.shiftl (val / 10 mod 10) 4) (val mod 10))]
  end.

Definition bit (b : bool) (mask : Z) : Z := if b then mask else 0.

Section Bodies.
Context {W : Type} `{BitsWriter W}.

Definition done_batch : M (Batch * W) unit := batch_result tt.

Definition writeDescriptorUserDefined (d : list Z) : M W unit :=
  with_batch (BWrite (WBytes d);; done_batch).

Definition writeDescriptorAC3 (d : DescriptorAC3) : M W unit := with_batch (
  BWrite (WBool (ac3_HasComponentType d));;
  BWrite (WBool (ac3_HasBSID d));;
  BWrite (WBool (ac3_HasMainID d));;
  BWrite (WBool (ac3_HasASVC d));;
  BWriteN 0xff 4;;
  when (ac3_HasComponentType d) (BWrite (WUint8 (ac3_ComponentType d)));;
  when (ac3_HasBSID d) (BWrite (WUint8 (ac3_BSID d)));;
  when (ac3_HasMainID d) (BWrite (WUint8 (ac3_MainID d)));;
  when (ac3_HasASVC d) (BWrite (WUint8 (ac3_ASVC d)));;
  BWrite (WBytes (ac3_AdditionalInfo d));;
  done_batch).

Definition writeDescriptorAVCVideo (d : DescriptorAVCVideo) : M W unit := with_batch (
  BWrite (WUint8 (ProfileIDC d));;
  BWrite (WBool (ConstraintSet0Flag d));;
  BWrite (WBool (ConstraintSet1Flag d));;
  BWrite (WBool (ConstraintSet2Flag d));;
  BWriteN (CompatibleFlags d) 5;;
  BWrite (WUint8 (LevelIDC d));;
  BWrite (WBool (AVCStillPresent d));;
  BWrite (WBool (AVC24HourPictureFlag d));;
  BWriteN 0xff 6;;
  done_batch).

Definition writeDescriptorComponent (d : DescriptorComponent) : M W unit := with_batch (
  BWriteN (StreamContentExt d) 4;;
  BWriteN (StreamContent d) 4;;
  BWrite (WUint8 (comp_ComponentType d));;
  BWrite (WUint8 (comp_ComponentTag d));;
  BWriteBytesN (comp_ISO639LanguageCode d) 3 0;;
  BWrite (WBytes (comp_Text d));;
  done_batch).

Definition writeDescriptorContent (d : DescriptorContent) : M W unit := with_batch (
  for_each (fun item =>
    BWriteN (ContentNibbleLevel1 item) 4;;
    BWriteN (ContentNibbleLevel2 item) 4;;
    BWrite (WUint8 (UserByte item))) (content_Items d);;
  done_batch).

Definition writeDescriptorDataStreamAlignment (d : DescriptorDataStreamAlignment) : M W unit :=
  with_batch (BWrite (WUint8 (alignment_Type d));; done_batch).

Definition writeDescriptorEnhancedAC3 (d : DescriptorEnhancedAC3) : M W unit := with_batch (
  BWrite (WBool (eac3_HasComponentType d));;
  BWrite (WBool (eac3_HasBSID d));;
  BWrite (WBool (eac3_HasMainID d));;
  BWrite (WBool (eac3_HasASVC d));;
  BWrite (WBool (MixInfoExists d));;
  BWrite (WBool (HasSubStream1 d));;
  BWrite (WBool (HasSubStream2 d));;
  BWrite (WBool (HasSubStream3 d));;
  when (eac3_HasComponentType d) (BWrite (WUint8 (eac3_ComponentType d)));;
  when (eac3_HasBSID d) (BWrite (WUint8 (eac3_BSID d)));;
  when (eac3_HasMainID d) (BWrite (WUint8 (eac3_MainID d)));;
  when (eac3_HasASVC d) (BWrite (WUint8 (eac3_ASVC d)));;
  when (HasSubStream1 d) (BWrite (WUint8 (SubStream1 d)));;
  when (HasSubStream2 d) (BWrite (WUint8 (SubStream2 d)));;
  when (HasSubStream3 d) (BWrite (WUint8 (SubStream3 d)));;
  BWrite (WBytes (eac3_AdditionalInfo d));;
  done_batch).

(** A length byte and the bytes. *)
Definition write_sized (l : list Z) : M (Batch * W) unit :=
  BWrite (WUint8 (u8 (len l)));; BWrite (WBytes l).

Definition writeDescriptorExtendedEvent (d : DescriptorExtendedEvent) : M W unit := with_batch (
  BWriteN (Number d) 4;;
  BWriteN (LastDescriptorNumber d) 4;;
  BWriteBytesN (ext_ISO639LanguageCode d) 3 0;;
  BWrite (WUint8 (calcDescriptorExtendedEventLength d).2);;
  for_each (fun item =>
    write_sized (item_Description item);; write_sized (item_Content item)) (ext_Items d);;
  write_sized (ext_Text d);;
  done_batch).

Definition writeDescriptorExtensionSupplementaryAudio
    (d : DescriptorExtensionSupplementaryAudio) : M W unit := with_batch (
  BWrite (WBool (MixType d));;
  BWriteN (EditorialClassification d) 5;;
  BWrite (WBool true);;
  BWrite (WBool (HasLanguageCode d));;
  when (HasLanguageCode d) (BWriteBytesN (LanguageCode d) 3 0);;
  BWrite (WBytes (sup_PrivateData d));;
  done_batch).

Definition writeT2Cell (cell : T2Cell) : M (Batch * W) unit :=
  BWrite (WUint8 (u8 (Z.shiftr (CellID cell) 8)));;
  BWrite (WUint8 (u8 (Z.land (CellID cell) 0xFF)));;
  BWrite (WUint8 (u8 (len (CentreFrequencies cell) * 4)));;
  for_each (fun freq => BWrite (WUint32 freq)) (CentreFrequencies cell).

Definition writeDescriptorExtensionT2DeliverySystem
    (d : DescriptorExtensionT2DeliverySystem) : M W unit := with_batch (
  BWrite (WUint8 (PLPID d));;
  BWrite (WUint8 (u8 (Z.shiftr (T2SystemID d) 8)));;
  BWrite (WUint8 (u8 (Z.land (T2SystemID d) 0xFF)));;
  when (HasExtendedInfo d) (
    BWrite (WUint8 (Z.lor (Z.shiftl (Z.land (SISOorMISO d) 0x3) 6)
                          (Z.shiftl (Z.land (t2_Bandwidth d) 0x0F) 2)));;
    BWrite (WUint8 (Z.lor (Z.lor (Z.lor (Z.shiftl (Z.land (t2_GuardInterval d) 0x7) 5)
                                        (Z.shiftl (Z.land (t2_TransmissionMode d) 0x7) 2))
                                 (bit (t2_OtherFrequencyFlag d) 0x02)) (bit (TFSFlag d) 0x01)));;
    for_each writeT2Cell (Cells d));;
  done_batch).

Definition writeDescriptorExtension (d : DescriptorExtension) : M W unit := with_batch (
  BWrite (WUint8 (extension_Tag d));;
  (if extension_Tag d =? DescriptorTagExtensionT2DeliverySystem then
     t ← must (T2DeliverySystem d);
     on_snd (writeDescriptorExtensionT2DeliverySystem t)
   else if extension_Tag d =? DescriptorTagExtensionSupplementaryAudio then
     t ← must (SupplementaryAudio d);
     on_snd (writeDescriptorExtensionSupplementaryAudio t)
   else match extension_Unknown d with Some b => BWrite (WBytes b) | None => mret tt end);;
  done_batch).

Definition writeDescriptorISO639LanguageAndAudioType
    (d : DescriptorISO639LanguageAndAudioType) : M W unit := with_batch (
  BWriteBytesN (Language d) 3 0;;
  BWrite (WUint8 (iso_Type d));;
  done_batch).

Definition writeDescriptorLocalTimeOffset (d : DescriptorLocalTimeOffset) : M W unit := with_batch (
  for_each (fun item =>
    BWriteBytesN (lto_CountryCode item) 3 0;;
    BWriteN (CountryRegionID item) 6;;
    BWriteN 0xff 1;;
    BWrite (WBool (LocalTimeOffsetPolarity item));;
    on_snd (writeDVBDurationMinutes (item_LocalTimeOffset item));;
    on_snd (writeDVBTime (TimeOfChange item));;
    on_snd (writeDVBDurationMinutes (NextTimeOffset item));;
    mret tt) (lto_Items d);;
  done_batch).

Definition writeDescriptorMaximumBitrate (d : DescriptorMaximumBitrate) : M W unit := with_batch (
  BWriteN 0xff 2;;
  BWriteN (Bitrate d / 50) 22;;
  done_batch).

Definition writeDescriptorNetworkName (d : DescriptorNetworkName) : M W unit :=
  with_batch (BWrite (WBytes (network_Name d));; done_batch).

Definition writeDescriptorParentalRating (d : DescriptorParentalRating) : M W unit := with_batch (
  for_each (fun item =>
    BWriteBytesN (rating_CountryCode item) 3 0;;
    BWrite (WUint8 (Rating item))) (rating_Items d);;
  done_batch).

Definition writeDescriptorPrivateDataIndicator (d : DescriptorPrivateDataIndicator) : M W unit :=
  with_batch (BWrite (WUint32 (Indicator d));; done_batch).

Definition writeDescriptorPrivateDataSpecifier (d : DescriptorPrivateDataSpecifier) : M W unit :=
  with_batch (BWrite (WUint32 (Specifier d));; done_batch).

Definition writeDescriptorRegistration (d : DescriptorRegistration) : M W unit := with_batch (
  BWrite (WUint32 (FormatIdentifier d));;
  BWrite (WBytes (AdditionalIdentificationInfo d));;
  done_batch).

Definition writeDescriptorService (d : DescriptorService) : M W unit := with_batch (
  BWrite (WUint8 (service_Type d));;
  write_sized (Provider d);;
  write_sized (service_Name d);;
  done_batch).

Definition writeDescriptorShortEvent (d : DescriptorShortEvent) : M W unit := with_batch (
  BWriteBytesN (short_Language d) 3 0;;
  write_sized (EventName d);;
  write_sized (short_Text d);;
  done_batch).

Definition writeDescriptorStreamIdentifier (d : DescriptorStreamIdentifier) : M W unit :=
  with_batch (BWrite (WUint8 (ComponentTag d));; done_batch).

Definition writeDescriptorSubtitling (d : DescriptorSubtitling) : M W unit := with_batch (
  for_each (fun item =>
    BWriteBytesN (sub_Language item) 3 0;;
    BWrite (WUint8 (sub_Type item));;
    BWrite (WUint16 (CompositionPageID item));;
    BWrite (WUint16 (AncillaryPageID item))) (sub_Items d);;
  done_batch).

Definition writeDescriptorTeletext (d : DescriptorTeletext) : M W unit := with_batch (
  for_each (fun item =>
    BWriteBytesN (tele_Language item) 3 0;;
    BWriteN (tele_Type item) 5;;
    BWriteN (Magazine item) 3;;
    BWriteN (Page item / 10) 4;;
    BWriteN (Page item mod 10) 4) (tele_Items d);;
  done_batch).

Definition writeDescriptorVBIData (d : DescriptorVBIData) : M W unit := with_batch (
  for_each (fun item =>
    BWrite (WUint8 (DataServiceID item));;
    if described_service (DataServiceID item) then
      BWrite (WUint8 (u8 (Z.of_nat (length (Descriptors item)))));;
      for_each (fun desc =>
        BWriteN 0xff 2;;
        BWrite (WBool (FieldParity desc));;
        BWriteN (LineOffset desc) 5) (Descriptors item)
    else
      BWrite (WUint8 1);;
      BWrite (WUint8 0xff)) (Services d);;
  done_batch).

Definition writeDescriptorUnknown (d : DescriptorUnknown) : M W unit :=
  with_batch (BWrite (WBytes (unknown_Content d));; done_batch).

(** The symbol rate and the inner code. *)
Definition write_symbol_rate (rate fec : Z) : M (Batch * W) unit :=
  BWrite (WBytes (encodeBCD (rate / 10) 3));;
  BWrite (WUint8 (Z.lor (Z.shiftl (rate mod 10) 4) (Z.land fec 0x0F))).

Definition writeDescriptorSatelliteDeliverySystem
    (d : DescriptorSatelliteDeliverySystem) : M W unit := with_batch (
  BWrite (WBytes (encodeBCD (sat_Frequency d) 4));;
  BWrite (WUint8 (u8 (Z.shiftr (OrbitalPosition d) 8)));;
  BWrite (WUint8 (u8 (Z.land (OrbitalPosition d) 0xFF)));;
  BWrite (WUint8 (Z.lor (Z.lor (Z.lor (Z.lor (bit (WestEastFlag d) 0x80)
    (Z.shiftl (Z.land (Polarization d) 0x3) 5)) (Z.shiftl (Z.land (RollOff d) 0x3) 3))
    (bit (ModulationSystem d) 0x04)) (Z.land (ModulationType d) 0x3)));;
  write_symbol_rate (sat_SymbolRate d) (sat_FECInner d);;
  done_batch).

Definition writeDescriptorTerrestrialDeliverySystem
    (d : DescriptorTerrestrialDeliverySystem) : M W unit := with_batch (
  BWrite (WUint32 (ter_Frequency d));;
  BWrite (WUint8 (Z.lor (Z.lor (Z.lor (Z.shiftl (Z.land (ter_Bandwidth d) 0x7) 5)
    (bit (Priority d) 0x10)) (bit (TimeSlicingIndicator d) 0x08)) (bit (MPEFECIndicator d) 0x04)));;
  BWrite (WUint8 (Z.lor (Z.lor (Z.shiftl (Z.land (Constellation d) 0x3) 6)
    (Z.shiftl (Z.land (HierarchyInformation d) 0x7) 3)) (Z.land (CodeRateHPStream d) 0x7)));;
  BWrite (WUint8 (Z.lor (Z.lor (Z.lor (Z.shiftl (Z.land (CodeRateLPStream d) 0x7) 5)
    (Z.shiftl (Z.land (ter_GuardInterval d) 0x3) 3))
    (Z.shiftl (Z.land (ter_TransmissionMode d) 0x3) 1)) (bit (ter_OtherFrequencyFlag d) 0x01)));;
  BWrite (WUint32 0xFFFFFFFF);;
  done_batch).

Definition writeDescriptorCableDeliverySystem (d : DescriptorCableDeliverySystem) : M W unit :=
  with_batch (
  BWrite (WBytes (encodeBCD (cable_Frequency d) 4));;
  BWrite (WUint8 0xFF);;
  BWrite (WUint8 (Z.lor 0xF0 (Z.land (FECOuter d) 0x0F)));;
  BWrite (WUint8 (Modulation d));;
  write_symbol_rate (cable_SymbolRate d) (cable_FECInner d);;
  done_batch).

(** ** Dispatch *)
Definition write_body (x : Descriptor) : M W unit :=
  if user_tag (Tag x) then
    writeDescriptorUserDefined match body x with UserDefined d => d | _ => [] end
  else if Tag x =? DescriptorTagAC3 then
    match body x with AC3 d => writeDescriptorAC3 d | _ => panic end
  else if Tag x =? DescriptorTagAVCVideo then
    match body x with AVCVideo d => writeDescriptorAVCVideo d | _ => panic end
  else if Tag x =? DescriptorTagSatelliteDeliverySystem then
    match body x with SatelliteDeliverySystem d => writeDescriptorSatelliteDeliverySystem d | _ => panic end
  else if Tag x =? DescriptorTagCableDeliverySystem then
    match body x with CableDeliverySystem d => writeDescriptorCableDeliverySystem d | _ => panic end
  else if Tag x =? DescriptorTagTerrestrialDeliverySystem then
    match body x with TerrestrialDeliverySystem d => writeDescriptorTerrestrialDeliverySystem d | _ => panic end
  else if Tag x =? DescriptorTagComponent then
    match body x with Component d => writeDescriptorComponent d | _ => panic end
  else if Tag x =? DescriptorTagContent then
    match body x with Content d => writeDescriptorContent d | _ => panic end
  else if Tag x =? DescriptorTagDataStreamAlignment then
    match body x with DataStreamAlignment d => writeDescriptorDataStreamAlignment d | _ => panic end
  else if Tag x =? DescriptorTagEnhancedAC3 then
    match body x with EnhancedAC3 d => writeDescriptorEnhancedAC3 d | _ => panic end
  else if Tag x =? DescriptorTagExtendedEvent then
    match body x with ExtendedEvent d => writeDescriptorExtendedEvent d | _ => panic end
  else if Tag x =? DescriptorTagExtension then
    match body x with Extension d => writeDescriptorExtension d | _ => panic end
  else if Tag x =? DescriptorTagISO639LanguageAndAudioType then
    match body x with ISO639LanguageAndAudioType d => writeDescriptorISO639LanguageAndAudioType d | _ => panic end
  else if Tag x =? DescriptorTagLocalTimeOffset then
    match body x with LocalTimeOffset d => writeDescriptorLocalTimeOffset d | _ => panic end
  else if Tag x =? DescriptorTagMaximumBitrate then
    match body x with MaximumBitrate d => writeDescriptorMaximumBitrate d | _ => panic end
  else if Tag x =? DescriptorTagNetworkName then
    match body x with NetworkName d => writeDescriptorNetworkName d | _ => panic end
  else if Tag x =? DescriptorTagParentalRating then
    match body x with ParentalRating d => writeDescriptorParentalRating d | _ => panic end
  else if Tag x =? DescriptorTagPrivateDataIndicator then
    match body x with PrivateDataIndicator d => writeDescriptorPrivateDataIndicator d | _ => panic end
  else if Tag x =? DescriptorTagPrivateDataSpecifier then
    match body x with PrivateDataSpecifier d => writeDescriptorPrivateDataSpecifier d | _ => panic end
  else if Tag x =? DescriptorTagRegistration then
    match body x with Registration d => writeDescriptorRegistration d | _ => panic end
  else if Tag x =? DescriptorTagService then
    match body x with Service d => writeDescriptorService d | _ => panic end
  else if Tag x =? DescriptorTagShortEvent then
    match body x with ShortEvent d => writeDescriptorShortEvent d | _ => panic end
  else if Tag x =? DescriptorTagStreamIdentifier then
    match body x with StreamIdentifier d => writeDescriptorStreamIdentifier d | _ => panic end
  else if Tag x =? DescriptorTagSubtitling then
    match body x with Subtitling d => writeDescriptorSubtitling d | _ => panic end
  else if Tag x =? DescriptorTagTeletext then
    match body x with Teletext d => writeDescriptorTeletext d | _ => panic end
  else if Tag x =? DescriptorTagVBIData then
    match body x with VBIData d => writeDescriptorVBIData d | _ => panic end
  else if Tag x =? DescriptorTagVBITeletext then
    match body x with VBITeletext d => writeDescriptorTeletext d | _ => panic end
  else match body x with Unknown d => writeDescriptorUnknown d | _ => panic end.
End Bodies.

Definition calcDescriptorLength (x : Descriptor) : Z :=
  if user_tag (Tag x) then
    match body x with UserDefined d => calcDescriptorUserDefinedLength d | _ => 0 end
  else if Tag x =? DescriptorTagAC3 then
    match body x with AC3 d => calcDescriptorAC3Length d | _ => 0 end
  else if Tag x =? DescriptorTagAVCVideo then
    match body x with AVCVideo d => calcDescriptorAVCVideoLength d | _ => 0 end
  else if Tag x =? DescriptorTagSatelliteDeliverySystem then
    match body x with SatelliteDeliverySystem d => calcDescriptorSatelliteDeliverySystemLength d | _ => 0 end
  else if Tag x =? DescriptorTagCableDeliverySystem then
    match body x with CableDeliverySystem d => calcDescriptorCableDeliverySystemLength d | _ => 0 end
  else if Tag x =? DescriptorTagTerrestrialDeliverySystem then
    match body x with TerrestrialDeliverySystem d => calcDescriptorTerrestrialDeliverySystemLength d | _ => 0 end
  else if Tag x =? DescriptorTagComponent then
    match body x with Component d => calcDescriptorComponentLength d | _ => 0 end
  else if Tag x =? DescriptorTagContent then
    match body x with Content d => calcDescriptorContentLength d | _ => 0 end
  else if Tag x =? DescriptorTagDataStreamAlignment then
    match body x with DataStreamAlignment d => calcDescriptorDataStreamAlignmentLength d | _ => 0 end
  else if Tag x =? DescriptorTagEnhancedAC3 then
    match body x with EnhancedAC3 d => calcDescriptorEnhancedAC3Length d | _ => 0 end
  else if Tag x =? DescriptorTagExtendedEvent then
    match body x with ExtendedEvent d => (calcDescriptorExtendedEventLength d).1 | _ => 0 end
  else if Tag x =? DescriptorTagExtension then
    match body x with Extension d => calcDescriptorExtensionLength d | _ => 0 end
  else if Tag x =? DescriptorTagISO639LanguageAndAudioType then
    match body x with ISO639LanguageAndAudioType d => calcDescriptorISO639LanguageAndAudioTypeLength d | _ => 0 end
  else if Tag x =? DescriptorTagLocalTimeOffset then
    match body x with LocalTimeOffset d => calcDescriptorLocalTimeOffsetLength d | _ => 0 end
  else if Tag x =? DescriptorTagMaximumBitrate then
    match body x with MaximumBitrate d => calcDescriptorMaximumBitrateLength d | _ => 0 end
  else if Tag x =? DescriptorTagNetworkName then
    match body x with NetworkName d => calcDescriptorNetworkNameLength d | _ => 0 end
  else if Tag x =? DescriptorTagParentalRating then
    match body x with ParentalRating d => calcDescriptorParentalRatingLength d | _ => 0 end
  else if Tag x =? DescriptorTagPrivateDataIndicator then
    match body x with PrivateDataIndicator d => calcDescriptorPrivateDataIndicatorLength d | _ => 0 end
  else if Tag x =? DescriptorTagPrivateDataSpecifier then
    match body x with PrivateDataSpecifier d => calcDescriptorPrivateDataSpecifierLength d | _ => 0 end
  else if Tag x =? DescriptorTagRegistration then
    match body x with Registration d => calcDescriptorRegistrationLength d | _ => 0 end
  else if Tag x =? DescriptorTagService then
    match body x with Service d => calcDescriptorServiceLength d | _ => 0 end
  else if Tag x =? DescriptorTagShortEvent then
    match body x with ShortEvent d => calcDescriptorShortEventLength d | _ => 0 end
  else if Tag x =? DescriptorTagStreamIdentifier then
    match body x with StreamIdentifier d => calcDescriptorStreamIdentifierLength d | _ => 0 end
  else if Tag x =? DescriptorTagSubtitling then
    match body x with Subtitling d => calcDescriptorSubtitlingLength d | _ => 0 end
  else if Tag x =? DescriptorTagTeletext then
    match body x with Teletext d => calcDescriptorTeletextLength d | _ => 0 end
  else if Tag x =? DescriptorTagVBIData then
    match body x with VBIData d => calcDescriptorVBIDataLength d | _ => 0 end
  else if Tag x =? DescriptorTagVBITeletext then
    match body x with VBITeletext d => calcDescriptorTeletextLength d | _ => 0 end
  else match body x with Unknown d => calcDescriptorUnknownLength d | _ => 0 end.

Definition calcDescriptorsLength (ds : list Descriptor) : Z :=
  foldl (fun n d => u16 (u16 (n + 2) + calcDescriptorLength d)) 0 ds.

Section Write.
Context {W : Type} `{BitsWriter W}.

Definition writeDescriptor (d : Descriptor) : M W Z :=
  let n := calcDescriptorLength d in
  with_batch (BWrite (WUint8 (Tag d));; BWrite (WUint8 n);; done_batch);;
  when (negb (desc_Length d =? 0)) (write_body d);;
  mret (n + 2).

Fixpoint writeDescriptors (ds : list Descriptor) : M W Z :=
  match ds with
  | [] => mret 0
  | d :: ds => n ← writeDescriptor d; m ← writeDescriptors ds; mret (n + m)
  end.

Definition writeDescriptorsWithLength (ds : list Descriptor) : M W Z :=
  with_batch (
    BWriteN 0xff 4;;
    BWriteN (calcDescriptorsLength ds) 12;;
    done_batch);;
  written ← writeDescriptors ds;
  mret (written + 2).
End Write.
