(* ===== verification/Pmt.v ===== *)
(** * internal/go-astits/data_pmt.go: the program map table, data

    Stream types, elementary streams, and the patches that the codec
    transformers hand to the PMT transformer (ts/internal/pmtsignal). *)

From S2P Require Import Prelude Descriptor.
Local Open Scope Z_scope.

Definition StreamTypeMPEG1Video : Z := 0x01.
Definition StreamTypeMPEG2Video : Z := 0x02.
Definition StreamTypeMPEG1Audio : Z := 0x03.
Definition StreamTypeMPEG2HalvedSampleRateAudio : Z := 0x04.
Definition StreamTypeMPEG2Audio : Z := 0x04.
Definition StreamTypePrivateSection : Z := 0x05.
Definition StreamTypePrivateData : Z := 0x06.
Definition StreamTypeMPEG2PacketizedData : Z := 0x06.
Definition StreamTypeADTS : Z := 0x0F.
Definition StreamTypeAACAudio : Z := 0x0f.
Definition StreamTypeMPEG4Video : Z := 0x10.
Definition StreamTypeAACLATMAudio : Z := 0x11.
Definition StreamTypeMetadata : Z := 0x15.
Definition StreamTypeH264Video : Z := 0x1B.
Definition StreamTypeH265Video : Z := 0x24.
Definition StreamTypeHEVCVideo : Z := 0x24.
Definition StreamTypeCAVSVideo : Z := 0x42.
Definition StreamTypeVC1Video : Z := 0xea.
Definition StreamTypeDIRACVideo : Z := 0xd1.
Definition StreamTypeAC3Audio : Z := 0x81.
Definition StreamTypeDTSAudio : Z := 0x82.
Definition StreamTypeTRUEHDAudio : Z := 0x83.
Definition StreamTypeSCTE35 : Z := 0x86.
Definition StreamTypeEAC3Audio : Z := 0x87.

Definition IsVideo (t : Z) : bool :=
  (t =? StreamTypeMPEG1Video) || (t =? StreamTypeMPEG2Video) || (t =? StreamTypeMPEG4Video)
  || (t =? StreamTypeH264Video) || (t =? StreamTypeH265Video) || (t =? StreamTypeCAVSVideo)
  || (t =? StreamTypeVC1Video) || (t =? StreamTypeDIRACVideo).

Definition IsAudio (t : Z) : bool :=
  (t =? StreamTypeMPEG1Audio) || (t =? StreamTypeMPEG2Audio) || (t =? StreamTypeAACAudio)
  || (t =? StreamTypeAACLATMAudio) || (t =? StreamTypeAC3Audio) || (t =? StreamTypeDTSAudio)
  || (t =? StreamTypeTRUEHDAudio) || (t =? StreamTypeEAC3Audio).

Definition StreamType_String (t : Z) : string :=
  if t =? StreamTypeMPEG1Video then "MPEG1 Video"
  else if t =? StreamTypeMPEG2Video then "MPEG2 Video"
  else if t =? StreamTypeMPEG1Audio then "MPEG1 Audio"
  else if t =? StreamTypeMPEG2Audio then "MPEG2 Audio"
  else if t =? StreamTypePrivateSection then "Private Section"
  else if t =? StreamTypePrivateData then "Private Data"
  else if t =? StreamTypeAACAudio then "AAC Audio"
  else if t =? StreamTypeMPEG4Video then "MPEG4 Video"
  else if t =? StreamTypeAACLATMAudio then "AAC LATM Audio"
  else if t =? StreamTypeMetadata then "Metadata"
  else if t =? StreamTypeH264Video then "H264 Video"
  else if t =? StreamTypeH265Video then "H265 Video"
  else if t =? StreamTypeCAVSVideo then "CAVS Video"
  else if t =? StreamTypeVC1Video then "VC1 Video"
  else if t =? StreamTypeDIRACVideo then "DIRAC Video"
  else if t =? StreamTypeAC3Audio then "AC3 Audio"
  else if t =? StreamTypeDTSAudio then "DTS Audio"
  else if t =? StreamTypeTRUEHDAudio then "TRUEHD Audio"
  else if t =? StreamTypeSCTE35 then "SCTE 35"
  else if t =? StreamTypeEAC3Audio then "EAC3 Audio"
  else "Unknown".

Definition ToPESStreamID (t : Z) : Z :=
  if (t =? StreamTypeMPEG1Video) || (t =? StreamTypeMPEG2Video) || (t =? StreamTypeMPEG4Video)
     || (t =? StreamTypeH264Video) || (t =? StreamTypeH265Video) || (t =? StreamTypeCAVSVideo)
     || (t =? StreamTypeVC1Video)
  then 0xe0
  else if (t =? StreamTypeDIRACVideo)
  then 0xfd
  else if (t =? StreamTypeMPEG2Audio) || (t =? StreamTypeAACAudio) || (t =? StreamTypeAACLATMAudio)
  then 0xc0
  else if (t =? StreamTypeAC3Audio) || (t =? StreamTypeEAC3Audio)
  then 0xfd
  else if (t =? StreamTypePrivateSection) || (t =? StreamTypePrivateData)
     || (t =? StreamTypeMetadata)
  then 0xfc
  else 0xbd.

Record PMTElementaryStream := MkStream {
  ElementaryPID : Z;
  ElementaryStreamDescriptors : list Descriptor;
  StreamType : Z;
}.

Record PMTData := MkPMT {
  ElementaryStreams : list PMTElementaryStream;
  PCRPID : Z;
  ProgramDescriptors : list Descriptor;
  ProgramNumber : Z;
}.

#[export] Instance PMTElementaryStream_eq_dec : EqDecision PMTElementaryStream.
Proof. solve_decision. Defined.
#[export] Instance PMTData_eq_dec : EqDecision PMTData.
Proof. solve_decision. Defined.

(** pmtsignal.Patch: an in-place change of one elementary stream. *)
Definition Patch : Type := PMTElementaryStream -> PMTElementaryStream.

(** What every codec's [patchPMT] does: a new stream type, more descriptors. *)
Definition retype (streamType : Z) (ds : list Descriptor) : Patch := fun stream =>
  {| ElementaryPID := ElementaryPID stream;
     ElementaryStreamDescriptors := ElementaryStreamDescriptors stream ++ ds;
     StreamType := streamType |}.

Definition private_data_indicator (indicator : Z) : Descriptor :=
  {| Tag := DescriptorTagPrivateDataIndicator; desc_Length := 4;
     body := PrivateDataIndicator {| Indicator := indicator |} |}.

Definition registration (format : Z) (info : list Z) : Descriptor :=
  {| Tag := DescriptorTagRegistration;
     desc_Length := u8 (4 + Z.of_nat (length info));
     body := Registration {| FormatIdentifier := format;
                             AdditionalIdentificationInfo := info |} |}.
