(* ===== verification/Crc32.v ===== *)
(** * internal/go-astits/crc32.go: the CRC-32 of PSI sections

    The table of crc32_table.go, the table-driven update, the bit-by-bit division
    it implements, and the residue of a message followed by its checksum. *)

From S2P Require Import Prelude Astikit.
Local Open Scope Z_scope.

Definition crc32Polynomial : Z := 0xffffffff.

Definition tableCRC32 : list Z := [
  0x00000000; 0x04C11DB7; 0x09823B6E; 0x0D4326D9; 0x130476DC; 0x17C56B6B; 0x1A864DB2; 0x1E475005;
  0x2608EDB8; 0x22C9F00F; 0x2F8AD6D6; 0x2B4BCB61; 0x350C9B64; 0x31CD86D3; 0x3C8EA00A; 0x384FBDBD;
  0x4C11DB70; 0x48D0C6C7; 0x4593E01E; 0x4152FDA9; 0x5F15ADAC; 0x5BD4B01B; 0x569796C2; 0x52568B75;
  0x6A1936C8; 0x6ED82B7F; 0x639B0DA6; 0x675A1011; 0x791D4014; 0x7DDC5DA3; 0x709F7B7A; 0x745E66CD;
  0x9823B6E0; 0x9CE2AB57; 0x91A18D8E; 0x95609039; 0x8B27C03C; 0x8FE6DD8B; 0x82A5FB52; 0x8664E6E5;
  0xBE2B5B58; 0xBAEA46EF; 0xB7A96036; 0xB3687D81; 0xAD2F2D84; 0xA9EE3033; 0xA4AD16EA; 0xA06C0B5D;
  0xD4326D90; 0xD0F37027; 0xDDB056FE; 0xD9714B49; 0xC7361B4C; 0xC3F706FB; 0xCEB42022; 0xCA753D95;
  0xF23A8028; 0xF6FB9D9F; 0xFBB8BB46; 0xFF79A6F1; 0xE13EF6F4; 0xE5FFEB43; 0xE8BCCD9A; 0xEC7DD02D;
  0x34867077; 0x30476DC0; 0x3D044B19; 0x39C556AE; 0x278206AB; 0x23431B1C; 0x2E003DC5; 0x2AC12072;
  0x128E9DCF; 0x164F8078; 0x1B0CA6A1; 0x1FCDBB16; 0x018AEB13; 0x054BF6A4; 0x0808D07D; 0x0CC9CDCA;
  0x7897AB07; 0x7C56B6B0; 0x71159069; 0x75D48DDE; 0x6B93DDDB; 0x6F52C06C; 0x6211E6B5; 0x66D0FB02;
  0x5E9F46BF; 0x5A5E5B08; 0x571D7DD1; 0x53DC6066; 0x4D9B3063; 0x495A2DD4; 0x44190B0D; 0x40D816BA;
  0xACA5C697; 0xA864DB20; 0xA527FDF9; 0xA1E6E04E; 0xBFA1B04B; 0xBB60ADFC; 0xB6238B25; 0xB2E29692;
  0x8AAD2B2F; 0x8E6C3698; 0x832F1041; 0x87EE0DF6; 0x99A95DF3; 0x9D684044; 0x902B669D; 0x94EA7B2A;
  0xE0B41DE7; 0xE4750050; 0xE9362689; 0xEDF73B3E; 0xF3B06B3B; 0xF771768C; 0xFA325055; 0xFEF34DE2;
  0xC6BCF05F; 0xC27DEDE8; 0xCF3ECB31; 0xCBFFD686; 0xD5B88683; 0xD1799B34; 0xDC3ABDED; 0xD8FBA05A;
  0x690CE0EE; 0x6DCDFD59; 0x608EDB80; 0x644FC637; 0x7A089632; 0x7EC98B85; 0x738AAD5C; 0x774BB0EB;
  0x4F040D56; 0x4BC510E1; 0x46863638; 0x42472B8F; 0x5C007B8A; 0x58C1663D; 0x558240E4; 0x51435D53;
  0x251D3B9E; 0x21DC2629; 0x2C9F00F0; 0x285E1D47; 0x36194D42; 0x32D850F5; 0x3F9B762C; 0x3B5A6B9B;
  0x0315D626; 0x07D4CB91; 0x0A97ED48; 0x0E56F0FF; 0x1011A0FA; 0x14D0BD4D; 0x19939B94; 0x1D528623;
  0xF12F560E; 0xF5EE4BB9; 0xF8AD6D60; 0xFC6C70D7; 0xE22B20D2; 0xE6EA3D65; 0xEBA91BBC; 0xEF68060B;
  0xD727BBB6; 0xD3E6A601; 0xDEA580D8; 0xDA649D6F; 0xC423CD6A; 0xC0E2D0DD; 0xCDA1F604; 0xC960EBB3;
  0xBD3E8D7E; 0xB9FF90C9; 0xB4BCB610; 0xB07DABA7; 0xAE3AFBA2; 0xAAFBE615; 0xA7B8C0CC; 0xA379DD7B;
  0x9B3660C6; 0x9FF77D71; 0x92B45BA8; 0x9675461F; 0x8832161A; 0x8CF30BAD; 0x81B02D74; 0x857130C3;
  0x5D8A9099; 0x594B8D2E; 0x5408ABF7; 0x50C9B640; 0x4E8EE645; 0x4A4FFBF2; 0x470CDD2B; 0x43CDC09C;
  0x7B827D21; 0x7F436096; 0x7200464F; 0x76C15BF8; 0x68860BFD; 0x6C47164A; 0x61043093; 0x65C52D24;
  0x119B4BE9; 0x155A565E; 0x18197087; 0x1CD86D30; 0x029F3D35; 0x065E2082; 0x0B1D065B; 0x0FDC1BEC;
  0x3793A651; 0x3352BBE6; 0x3E119D3F; 0x3AD08088; 0x2497D08D; 0x2056CD3A; 0x2D15EBE3; 0x29D4F654;
  0xC5A92679; 0xC1683BCE; 0xCC2B1D17; 0xC8EA00A0; 0xD6AD50A5; 0xD26C4D12; 0xDF2F6BCB; 0xDBEE767C;
  0xE3A1CBC1; 0xE760D676; 0xEA23F0AF; 0xEEE2ED18; 0xF0A5BD1D; 0xF464A0AA; 0xF9278673; 0xFDE69BC4;
  0x89B8FD09; 0x8D79E0BE; 0x803AC667; 0x84FBDBD0; 0x9ABC8BD5; 0x9E7D9662; 0x933EB0BB; 0x97FFAD0C;
  0xAFB010B1; 0xAB710D06; 0xA6322BDF; 0xA2F33668; 0xBCB4666D; 0xB8757BDA; 0xB5365D03; 0xB1F740B4].

(** The table lookup cannot be out of range: the index is below 256. *)
Definition crc_byte (crc32 b : Z) : Z :=
  Z.lxor (u32 (Z.shiftl crc32 8))
    (byte_at tableCRC32 (Z.to_nat (Z.land (Z.lxor (Z.shiftr crc32 24) b) 0xff))).

Definition updateCRC32 (crc32 : Z) (bs : list Z) : Z := foldl crc_byte crc32 bs.

Definition computeCRC32 (bs : list Z) : Z := updateCRC32 crc32Polynomial bs.

(** ** The reference: division by the generator polynomial, bit by bit *)
Definition generator : Z := 0x04C11DB7.

Definition div_step (x : Z) : Z :=
  Z.lxor (u32 (Z.shiftl x 1)) (if Z.testbit x 31 then generator else 0).

Definition crc_byte_ref (crc b : Z) : Z := Nat.iter 8 div_step (Z.lxor crc (Z.shiftl b 24)).

Definition crc32_ref (bs : list Z) : Z := foldl crc_byte_ref crc32Polynomial bs.

(** ** Lemmas *)
Lemma u32_land x : u32 x = Z.land x (Z.ones 32).
Proof. by rewrite Z.land_ones by lia. Qed.

Lemma u32_range x : 0 <= u32 x < 2 ^ 32.
Proof. by apply Z.mod_pos_bound. Qed.

Lemma high_bits n x : 0 <= x < 2 ^ n -> forall i, n <= i -> Z.testbit x i = false.
Proof.
  intros Hx i Hi. destruct (decide (x = 0)) as [->|]; [apply Z.bits_0|].
  apply Z.bits_above_log2; [lia|]. eapply Z.lt_le_trans; [|exact Hi].
  apply Z.log2_lt_pow2; lia.
Qed.

Lemma lxor_range n x y : 0 <= n -> 0 <= x < 2 ^ n -> 0 <= y < 2 ^ n -> 0 <= Z.lxor x y < 2 ^ n.
Proof.
  intros Hn Hx Hy. assert (H0 : 0 <= Z.lxor x y) by (apply Z.lxor_nonneg; lia). split; [done|].
  destruct (Z.lt_ge_cases (Z.lxor x y) (2 ^ n)) as [|Hge]; [done|exfalso].
  assert (Hb : Z.testbit (Z.lxor x y) (Z.log2 (Z.lxor x y)) = true) by (apply Z.bit_log2; lia).
  assert (n <= Z.log2 (Z.lxor x y)).
  { rewrite <- (Z.log2_pow2 n) by done. by apply Z.log2_le_mono. }
  by rewrite Z.lxor_spec, (high_bits n x), (high_bits n y) in Hb.
Qed.

Lemma u32_lxor x y : u32 (Z.lxor x y) = Z.lxor (u32 x) (u32 y).
Proof.
  rewrite !u32_land. apply Z.bits_inj'. intros n Hn.
  rewrite !Z.land_spec, !Z.lxor_spec, !Z.land_spec.
  by destruct (Z.testbit x n), (Z.testbit y n), (Z.testbit (Z.ones 32) n).
Qed.

Lemma div_step_range x : 0 <= div_step x < 2 ^ 32.
Proof. apply lxor_range; [lia|apply u32_range|]. by destruct (Z.testbit x 31). Qed.

Lemma div_step_lxor x y : div_step (Z.lxor x y) = Z.lxor (div_step x) (div_step y).
Proof.
  unfold div_step. rewrite Z.shiftl_lxor, u32_lxor, Z.lxor_spec.
  set (a := u32 (Z.shiftl x 1)). set (b := u32 (Z.shiftl y 1)).
  apply Z.bits_inj'. intros n _.
  destruct (Z.testbit x 31), (Z.testbit y 31); cbn [xorb]; rewrite !Z.lxor_spec, ?Z.bits_0;
    by destruct (Z.testbit a n), (Z.testbit b n), (Z.testbit generator n).
Qed.

Lemma iter_lxor n x y : Nat.iter n div_step (Z.lxor x y) =
  Z.lxor (Nat.iter n div_step x) (Nat.iter n div_step y).
Proof. induction n as [|n IH]; [done|]. by rewrite !Nat.iter_succ, IH, div_step_lxor. Qed.

(** Bits below the top ones only move. *)
Lemma iter_low n x : 0 <= x < 2 ^ (32 - Z.of_nat n) -> (n <= 31)%nat ->
  Nat.iter n div_step x = Z.shiftl x (Z.of_nat n).
Proof.
  intros Hx Hn. induction n as [|n IH]; [by rewrite Z.shiftl_0_r|].
  rewrite Nat.iter_succ.
  assert (Hp : 2 ^ (32 - Z.of_nat n) = 2 * 2 ^ (32 - Z.of_nat (S n))).
  { rewrite <- Z.pow_succ_r by lia. f_equal. lia. }
  rewrite IH by lia. unfold div_step. clear IH.
  assert (Hs : 0 <= Z.shiftl x (Z.of_nat n) < 2 ^ 31).
  { rewrite Z.shiftl_mul_pow2 by lia. split; [lia|].
    replace (2 ^ 31) with (2 ^ (32 - Z.of_nat (S n)) * 2 ^ Z.of_nat n); [nia|].
    rewrite <- Z.pow_add_r by lia. f_equal. lia. }
  replace (Z.testbit (Z.shiftl x (Z.of_nat n)) 31) with false.
  2: { symmetry. by apply (high_bits 31). }
  rewrite Z.lxor_0_r, Z.shiftl_shiftl by lia. rewrite Nat2Z.inj_succ, <- Z.add_1_r.
  unfold u32. apply Z.mod_small. rewrite Z.shiftl_mul_pow2 in * by lia.
  rewrite Z.pow_add_r by lia. lia.
Qed.

(** Every entry of the table is the division of its index. *)
Lemma table_entries : forallb (fun i =>
  Z.eqb (Nat.iter 8 div_step (Z.shiftl (Z.of_nat i) 24)) (byte_at tableCRC32 i)) (seq 0 256) = true.
Proof. vm_compute. reflexivity. Qed.

Lemma table_entry b : is_byte b ->
  byte_at tableCRC32 (Z.to_nat b) = Nat.iter 8 div_step (Z.shiftl b 24).
Proof.
  intros Hb. pose proof table_entries as Ht. rewrite forallb_forall in Ht.
  specialize (Ht (Z.to_nat b)). rewrite Z2Nat.id in Ht by (unfold is_byte in Hb; lia).
  symmetry. apply Z.eqb_eq, Ht, in_seq. unfold is_byte in Hb. lia.
Qed.

Lemma crc_byte_range crc b : 0 <= crc_byte crc b < 2 ^ 32.
Proof.
  unfold crc_byte. apply lxor_range; [lia|apply u32_range|].
  assert (Hi : is_byte (Z.land (Z.lxor (Z.shiftr crc 24) b) 0xff)).
  { change 0xff with (Z.ones 8). rewrite Z.land_ones by lia. apply u8_range. }
  rewrite table_entry by done. cbn [Nat.iter nat_rect]. apply div_step_range.
Qed.

Lemma updateCRC32_app crc l1 l2 : updateCRC32 crc (l1 ++ l2) = updateCRC32 (updateCRC32 crc l1) l2.
Proof. apply foldl_app. Qed.

(** A word is its top byte and the rest. *)
Lemma split_top x : x = Z.lxor (Z.shiftl (Z.shiftr x 24) 24) (x mod 2 ^ 24).
Proof.
  apply Z.bits_inj'. intros n Hn. rewrite Z.lxor_spec, Z.shiftl_spec, <- Z.land_ones, Z.land_spec by lia.
  destruct (Z.lt_ge_cases n 24).
  - rewrite (Z.testbit_neg_r (Z.shiftr x 24)), Z.ones_spec_low by lia. by rewrite andb_true_r.
  - rewrite Z.shiftr_spec, Z.ones_spec_high by lia. rewrite andb_false_r, xorb_false_r. f_equal. lia.
Qed.

(** One byte, by the table and bit by bit. *)
Lemma crc_byte_correct crc b : 0 <= crc < 2 ^ 32 -> is_byte b -> crc_byte crc b = crc_byte_ref crc b.
Proof.
  intros Hc Hb. unfold crc_byte, crc_byte_ref. set (hi := Z.shiftr crc 24).
  assert (Hhi : 0 <= hi < 2 ^ 8).
  { unfold hi. rewrite Z.shiftr_div_pow2 by lia. split; [apply Z.div_pos; lia|].
    apply Z.div_lt_upper_bound; lia. }
  assert (Hi : is_byte (Z.lxor hi b)) by (apply (lxor_range 8); [lia|done|exact Hb]).
  assert (Hlo : 0 <= crc mod 2 ^ 24 < 2 ^ 24) by by apply Z.mod_pos_bound.
  replace (Z.land (Z.lxor hi b) 0xff) with (Z.lxor hi b).
  2: { change 0xff with (Z.ones 8). rewrite Z.land_ones by lia. symmetry. by apply Z.mod_small. }
  rewrite table_entry by done.
  assert (E : Z.lxor crc (Z.shiftl b 24) = Z.lxor (Z.shiftl (Z.lxor hi b) 24) (crc mod 2 ^ 24)).
  { rewrite (split_top crc) at 1. fold hi. rewrite Z.shiftl_lxor.
    apply Z.bits_inj'. intros n _. rewrite !Z.lxor_spec.
    by destruct (Z.testbit (Z.shiftl hi 24) n), (Z.testbit (Z.shiftl b 24) n), (Z.testbit (crc mod 2 ^ 24) n). }
  rewrite E, iter_lxor, (iter_low 8 (crc mod 2 ^ 24) Hlo) by lia.
  generalize (Nat.iter 8 div_step (Z.shiftl (Z.lxor hi b) 24)). intros t.
  rewrite (Z.lxor_comm t). apply (f_equal (fun y => Z.lxor y t)).
  rewrite (split_top crc) at 1. fold hi.
  rewrite Z.shiftl_lxor, u32_lxor, Z.shiftl_shiftl by lia. unfold u32 at 1.
  rewrite (Z.shiftl_mul_pow2 hi) by lia. change (24 + 8) with 32.
  rewrite Z.mod_mul by lia. rewrite Z.lxor_0_l. change (Z.of_nat 8) with 8.
  apply Z.mod_small. rewrite Z.shiftl_mul_pow2 by lia. lia.
Qed.

Lemma update_range crc bs : 0 <= crc < 2 ^ 32 -> 0 <= updateCRC32 crc bs < 2 ^ 32.
Proof.
  intros Hc. destruct bs as [|b bs _] using rev_ind; [done|].
  rewrite updateCRC32_app. apply crc_byte_range.
Qed.

Lemma update_correct bs crc : 0 <= crc < 2 ^ 32 -> bytes_ok bs ->
  updateCRC32 crc bs = foldl crc_byte_ref crc bs.
Proof.
  intros Hc Hb. revert crc Hc. induction Hb as [|b bs Hb _ IH]; intros crc Hc; [done|].
  cbn [updateCRC32 foldl]. rewrite <- crc_byte_correct by done. apply IH, crc_byte_range.
Qed.

(** ** Residue: the checksum appended, the division leaves nothing *)
Definition be32_bytes (x : Z) : list Z := bytes_of_bits (bits_of 32 x).

Lemma be32_bytes_eq x : be32_bytes x =
  [u8 (Z.shiftr x 24); u8 (Z.shiftr x 16); u8 (Z.shiftr x 8); u8 (Z.shiftr x 0)].
Proof.
  unfold be32_bytes. change 32%nat with (8 + 8 * 3)%nat. rewrite bytes_of_bits_of.
  change (8 * 3)%nat with (8 + 8 * 2)%nat. rewrite bytes_of_bits_of.
  change (8 * 2)%nat with (8 + 8 * 1)%nat. rewrite bytes_of_bits_of.
  change (8 * 1)%nat with (8 + 8 * 0)%nat. rewrite bytes_of_bits_of. done.
Qed.

(** The byte that is at the top shifts the rest up. *)
Lemma crc_top_byte crc b : is_byte (Z.shiftr crc 24) -> b = Z.shiftr crc 24 ->
  crc_byte crc b = u32 (Z.shiftl crc 8).
Proof.
  intros _ ->. unfold crc_byte. rewrite Z.lxor_nilpotent. change (Z.to_nat (Z.land 0 0xff)) with O.
  change (byte_at tableCRC32 0) with 0. apply Z.lxor_0_r.
Qed.

Lemma shift_up crc n : 0 <= n -> Z.shiftr (u32 (Z.shiftl crc n)) 24 = u8 (Z.shiftr (Z.shiftl crc n) 24).
Proof.
  intros Hn. unfold u32, u8. rewrite !Z.shiftr_div_pow2 by lia.
  change (2 ^ 32) with (2 ^ 24 * 2 ^ 8). rewrite Z.rem_mul_r by done.
  rewrite Z.mul_comm, Z.div_add by done. rewrite Z.mod_div by done. done.
Qed.

(** The four bytes of the remainder, divided, leave nothing. *)
Lemma update_residue crc : 0 <= crc < 2 ^ 32 -> updateCRC32 crc (be32_bytes crc) = 0.
Proof.
  intros Hc. rewrite be32_bytes_eq. cbn [updateCRC32 foldl].
  assert (Hs : forall n, 0 <= n -> is_byte (Z.shiftr (u32 (Z.shiftl crc n)) 24)).
  { intros n Hn. rewrite shift_up by done. apply u8_range. }
  assert (Hstep : forall n k m, 0 <= n <= 24 -> k = 24 - n -> m = n + 8 ->
    crc_byte (u32 (Z.shiftl crc n)) (u8 (Z.shiftr crc k)) = u32 (Z.shiftl crc m)).
  { intros n k m Hn -> ->. rewrite crc_top_byte; [|apply Hs; lia|].
    - rewrite !Z.shiftl_mul_pow2 by lia. unfold u32.
      rewrite Zmult_mod_idemp_l, Z.pow_add_r, Z.mul_assoc by lia. done.
    - rewrite shift_up by lia. f_equal. by rewrite Z.shiftr_shiftl_r by lia. }
  replace crc with (u32 (Z.shiftl crc 0)) at 1 by (rewrite Z.shiftl_0_r; by apply Z.mod_small).
  rewrite (Hstep 0 24 8), (Hstep 8 16 16), (Hstep 16 8 24), (Hstep 24 0 32) by lia.
  unfold u32. rewrite Z.shiftl_mul_pow2 by lia. by rewrite Z.mod_mul.
Qed.

(** C22: the table-driven checksum is the division of the message by the
    generator polynomial, bit by bit from the most significant one. *)
Theorem computeCRC32_correct bs : bytes_ok bs -> computeCRC32 bs = crc32_ref bs.
Proof. intros Hb. by apply update_correct. Qed.

Lemma computeCRC32_correct_witness : bytes_ok [0x31; 0x32; 0x33; 0x34; 0x35; 0x36; 0x37; 0x38; 0x39]
  /\ computeCRC32 [0x31; 0x32; 0x33; 0x34; 0x35; 0x36; 0x37; 0x38; 0x39]
     = crc32_ref [0x31; 0x32; 0x33; 0x34; 0x35; 0x36; 0x37; 0x38; 0x39].
Proof.
  assert (H : bytes_ok [0x31; 0x32; 0x33; 0x34; 0x35; 0x36; 0x37; 0x38; 0x39])
    by (repeat constructor; unfold is_byte; lia).
  split; [exact H|]. apply (computeCRC32_correct _ H).
Defined.

(** The check value of CRC-32/MPEG-2. *)
Example crc32_check : computeCRC32 [0x31; 0x32; 0x33; 0x34; 0x35; 0x36; 0x37; 0x38; 0x39] = 0x0376E6E7.
Proof. vm_compute. reflexivity. Qed.

(** A message followed by its checksum, as receivers check it. *)
Lemma computeCRC32_residue bs : computeCRC32 (bs ++ be32_bytes (computeCRC32 bs)) = 0.
Proof. unfold computeCRC32. rewrite updateCRC32_app. by apply update_residue, update_range. Qed.
