(* ===== verification/Tables.v ===== *)
(** * internal/go-astits/data_{pat,pmt,nit,sdt,tot,eit}.go: the PSI tables

    The data of each table and its section parser; PAT and PMT sections are also
    written. *)

From S2P Require Import Prelude Astikit DvbTime Descriptor DescriptorParse DescriptorWrite Pmt.
Local Open Scope Z_scope.

(** ** Data *)
Record PATProgram := MkProgram { ProgramMapID : Z; pat_ProgramNumber : Z }.
Record PATData := MkPAT { Programs : list PATProgram; pat_TransportStreamID : Z }.

Record NITDataTransportStream := MkTransportStream {
  nit_OriginalNetworkID : Z;
  TransportDescriptors : list Descriptor;
  nit_TransportStreamID : Z;
}.
Record NITData := MkNIT {
  NetworkDescriptors : list Descriptor;
  NetworkID : Z;
  TransportStreams : list NITDataTransportStream;
}.

Record SDTDataService := MkSDTService {
  sdt_Descriptors : list Descriptor;
  HasEITPresentFollowing : bool;
  HasEITSchedule : bool;
  sdt_HasFreeCSAMode : bool;
  sdt_RunningStatus : Z;
  sdt_ServiceID : Z;
}.
Record SDTData := MkSDT {
  sdt_OriginalNetworkID : Z;
  sdt_Services : list SDTDataService;
  sdt_TransportStreamID : Z;
}.

Record TOTData := MkTOT { tot_Descriptors : list Descriptor; UTCTime : Z }.

Record EITDataEvent := MkEITEvent {
  eit_Descriptors : list Descriptor;
  Duration : Z;
  EventID : Z;
  eit_HasFreeCSAMode : bool;
  eit_RunningStatus : Z;
  StartTime : Z;
}.
Record EITData := MkEIT {
  Events : list EITDataEvent;
  LastTableID : Z;
  eit_OriginalNetworkID : Z;
  SegmentLastSectionNumber : Z;
  eit_ServiceID : Z;
  eit_TransportStreamID : Z;
}.

(** [if err = m; err != nil { err = fmt.Errorf(msg); return }] *)
Definition set_err {S A} (msg : string) (m : M S A) : M S A := fun s =>
  match m s with
  | (Fail (Err _), s') => (Fail (Err (Errorf msg)), s')
  | r => r
  end.

(** ** Parsing sections *)
Section Parse.
Context {I : Type} `{BytesIterator I}.

Definition parsePATSection (offsetSectionsEnd tableIDExtension : Z) : M I PATData :=
  programs ← items_until offsetSectionsEnd (
    bs ← next_bytes_no_copy 4;
    mret {| ProgramMapID := Z.lor (Z.shiftl (Z.land (byte_at bs 2) 0x1f) 8) (byte_at bs 3);
            pat_ProgramNumber := be16 bs 0 |});
  mret {| Programs := programs; pat_TransportStreamID := tableIDExtension |}.

Definition parse_descriptors : M I (list Descriptor) :=
  wrap_err "astits: parsing descriptors failed" parseDescriptors.

Definition parse_stream : M I PMTElementaryStream :=
  b ← next_byte;
  bs ← next_bytes_no_copy 2;
  ds ← parse_descriptors;
  mret {| ElementaryPID := Z.lor (Z.shiftl (Z.land (byte_at bs 0) 0x1f) 8) (byte_at bs 1);
          ElementaryStreamDescriptors := ds; StreamType := b |}.

Definition parsePMTSection (offsetSectionsEnd tableIDExtension : Z) : M I PMTData :=
  bs ← next_bytes_no_copy 2;
  ds ← parse_descriptors;
  streams ← items_until offsetSectionsEnd parse_stream;
  mret {| ElementaryStreams := streams;
          PCRPID := Z.lor (Z.shiftl (Z.land (byte_at bs 0) 0x1f) 8) (byte_at bs 1);
          ProgramDescriptors := ds; ProgramNumber := tableIDExtension |}.

Definition parseNITSection (tableIDExtension : Z) : M I NITData :=
  ds ← parse_descriptors;
  bs ← next_bytes_no_copy 2;
  let transportStreamLoopLength := Z.lor (Z.shiftl (Z.land (byte_at bs 0) 0xf) 8) (byte_at bs 1) in
  o ← gets Offset;
  streams ← items_until (o + transportStreamLoopLength) (
    ts ← next_bytes_no_copy 2;
    net ← next_bytes_no_copy 2;
    ds ← parse_descriptors;
    mret {| nit_OriginalNetworkID := be16 net 0; TransportDescriptors := ds;
            nit_TransportStreamID := be16 ts 0 |});
  mret {| NetworkDescriptors := ds; NetworkID := tableIDExtension; TransportStreams := streams |}.

Definition parseSDTSection (offsetSectionsEnd tableIDExtension : Z) : M I SDTData :=
  net ← next_bytes_no_copy 2;
  Skip 1;;
  services ← items_until offsetSectionsEnd (
    id ← next_bytes_no_copy 2;
    b ← next_byte;
    b2 ← next_byte;
    Skip (-1);;
    ds ← parse_descriptors;
    mret {| sdt_Descriptors := ds; HasEITPresentFollowing := masked b 0x1;
            HasEITSchedule := masked b 0x2; sdt_HasFreeCSAMode := masked b2 0x10;
            sdt_RunningStatus := Z.shiftr b2 5; sdt_ServiceID := be16 id 0 |});
  mret {| sdt_OriginalNetworkID := be16 net 0; sdt_Services := services;
          sdt_TransportStreamID := tableIDExtension |}.

Definition parseTOTSection : M I TOTData :=
  t ← wrap_err "astits: parsing DVB time failed" parseDVBTime;
  ds ← parse_descriptors;
  mret {| tot_Descriptors := ds; UTCTime := t |}.

Definition parse_event : M I EITDataEvent :=
  id ← next_bytes_no_copy 2;
  start ← set_err "astits: parsing DVB time" parseDVBTime;
  duration ← wrap_err "astits: parsing DVB duration seconds failed" parseDVBDurationSeconds;
  b ← next_byte;
  Skip (-1);;
  ds ← parse_descriptors;
  mret {| eit_Descriptors := ds; Duration := duration; EventID := be16 id 0;
          eit_HasFreeCSAMode := masked b 0x10; eit_RunningStatus := Z.shiftr b 5;
          StartTime := start |}.

Definition parseEITSection (offsetSectionsEnd tableIDExtension : Z) : M I EITData :=
  ts ← next_bytes_no_copy 2;
  net ← next_bytes_no_copy 2;
  b ← next_byte;
  b2 ← next_byte;
  events ← items_until offsetSectionsEnd parse_event;
  mret {| Events := events; LastTableID := b2; eit_OriginalNetworkID := be16 net 0;
          SegmentLastSectionNumber := b; eit_ServiceID := tableIDExtension;
          eit_TransportStreamID := be16 ts 0 |}.
End Parse.

(** ** Lengths, in uint16 *)
Definition calcPATSectionLength (d : PATData) : Z := u16 (4 * Z.of_nat (length (Programs d))).

Definition add_stream_length (ret : Z) (es : PMTElementaryStream) : Z :=
  u16 (u16 (ret + 5) + calcDescriptorsLength (ElementaryStreamDescriptors es)).

Definition calcPMTProgramInfoLength (d : PMTData) : Z :=
  foldl add_stream_length (u16 (2 + calcDescriptorsLength (ProgramDescriptors d))) (ElementaryStreams d).

Definition calcPMTSectionLength (d : PMTData) : Z :=
  foldl add_stream_length (u16 (4 + calcDescriptorsLength (ProgramDescriptors d))) (ElementaryStreams d).

(** ** Writing sections *)
Section Write.
Context {W : Type} `{BitsWriter W}.

Definition patSectionEntryBytesSize : Z := 4.

Definition writePATSection (d : PATData) : M W Z := with_batch (
  for_each (fun p =>
    BWrite (WUint16 (pat_ProgramNumber p));;
    BWriteN 0xff 3;;
    BWriteN (ProgramMapID p) 13) (Programs d);;
  batch_result (Z.of_nat (length (Programs d)) * patSectionEntryBytesSize)).

(** The loop of [writePMTSection], on the batch. *)
Fixpoint write_streams (streams : list PMTElementaryStream) : M (Batch * W) Z :=
  match streams with
  | [] => mret 0
  | es :: streams =>
      BWrite (WUint8 (StreamType es));;
      BWriteN 0xff 3;;
      BWriteN (ElementaryPID es) 13;;
      n ← on_snd (writeDescriptorsWithLength (ElementaryStreamDescriptors es));
      m ← write_streams streams;
      mret (3 + n + m)
  end.

Definition writePMTSection (d : PMTData) : M W Z := with_batch (
  BWriteN 0xff 3;;
  BWriteN (PCRPID d) 13;;
  n ← on_snd (writeDescriptorsWithLength (ProgramDescriptors d));
  m ← write_streams (ElementaryStreams d);
  batch_result (2 + n + m)).
End Write.
