(* ===== verification/Psi.v ===== *)
(** * internal/go-astits/data_psi.go: PSI sections

    Parsing and writing of sections with their CRC, and fitting a section in the
    place of a transport packet. *)

From S2P Require Import Prelude Packet Astikit DvbTime Descriptor DescriptorParse DescriptorWrite Pmt Crc32 Tables.
Local Open Scope Z_scope.

(** ** Tables *)
Definition PSITableIDPAT : Z := 0x00.
Definition PSITableIDPMT : Z := 0x02.
Definition PSITableIDBAT : Z := 0x4a.
Definition PSITableIDDIT : Z := 0x7e.
Definition PSITableIDRST : Z := 0x71.
Definition PSITableIDSIT : Z := 0x7f.
Definition PSITableIDST : Z := 0x72.
Definition PSITableIDTDT : Z := 0x70.
Definition PSITableIDTOT : Z := 0x73.
Definition PSITableIDNull : Z := 0xff.
Definition PSITableIDEITStart : Z := 0x4e.
Definition PSITableIDEITEnd : Z := 0x6f.
Definition PSITableIDSDTVariant1 : Z := 0x42.
Definition PSITableIDSDTVariant2 : Z := 0x46.
Definition PSITableIDNITVariant1 : Z := 0x40.
Definition PSITableIDNITVariant2 : Z := 0x41.

Definition is_nit (t : Z) : bool := (t =? PSITableIDNITVariant1) || (t =? PSITableIDNITVariant2).
Definition is_sdt (t : Z) : bool := (t =? PSITableIDSDTVariant1) || (t =? PSITableIDSDTVariant2).
Definition is_eit (t : Z) : bool := (PSITableIDEITStart <=? t) && (t <=? PSITableIDEITEnd).

Definition Type_ (t : Z) : string :=
  if t =? PSITableIDBAT then "BAT"
  else if is_eit t then "EIT"
  else if t =? PSITableIDDIT then "DIT"
  else if is_nit t then "NIT"
  else if t =? PSITableIDNull then "Null"
  else if t =? PSITableIDPAT then "PAT"
  else if t =? PSITableIDPMT then "PMT"
  else if t =? PSITableIDRST then "RST"
  else if is_sdt t then "SDT"
  else if t =? PSITableIDSIT then "SIT"
  else if t =? PSITableIDST then "ST"
  else if t =? PSITableIDTDT then "TDT"
  else if t =? PSITableIDTOT then "TOT"
  else "Unknown".

Definition hasPSISyntaxHeader (t : Z) : bool :=
  (t =? PSITableIDPAT) || (t =? PSITableIDPMT) || is_nit t || is_sdt t || is_eit t.

Definition hasCRC32 (t : Z) : bool :=
  (t =? PSITableIDPAT) || (t =? PSITableIDPMT) || (t =? PSITableIDTOT)
  || is_nit t || is_sdt t || is_eit t.

Definition isUnknown (t : Z) : bool :=
  if (t =? PSITableIDBAT) || (t =? PSITableIDDIT) || is_nit t || (t =? PSITableIDNull)
     || (t =? PSITableIDPAT) || (t =? PSITableIDPMT) || (t =? PSITableIDRST) || is_sdt t
     || (t =? PSITableIDSIT) || (t =? PSITableIDST) || (t =? PSITableIDTDT) || (t =? PSITableIDTOT)
  then false
  else if is_eit t then false
  else true.

Definition shouldStopPSIParsing (t : Z) : bool := (t =? PSITableIDNull) || isUnknown t.

(** ** Data *)
Record PSISectionHeader := MkSectionHeader {
  PrivateBit : bool;
  SectionLength : Z;
  SectionSyntaxIndicator : bool;
  TableID : Z;
  TableType : string;
}.

Record PSISectionSyntaxHeader := MkSyntaxHeader {
  CurrentNextIndicator : bool;
  LastSectionNumber : Z;
  SectionNumber : Z;
  TableIDExtension : Z;
  VersionNumber : Z;
}.

(** The pointers of the Go structures are options. *)
Record PSISectionSyntaxData := MkSyntaxData {
  EIT : option EITData;
  NIT : option NITData;
  PAT : option PATData;
  PMT : option PMTData;
  SDT : option SDTData;
  TOT : option TOTData;
}.

Definition no_data : PSISectionSyntaxData :=
  {| EIT := None; NIT := None; PAT := None; PMT := None; SDT := None; TOT := None |}.

(** [Data] is never nil where [Syntax] is not. *)
Record PSISectionSyntax := MkSyntax {
  Data : PSISectionSyntaxData;
  syntax_Header : option PSISectionSyntaxHeader;
}.

Record PSISection := MkSection {
  CRC32 : Z;
  section_Header : PSISectionHeader;
  Syntax : option PSISectionSyntax;
}.

Record PSIData := MkPSI { PointerField : Z; Sections : list PSISection }.

(** ** Parsing *)
Section Parse.
Context {I : Type} `{BytesIterator I}.

Definition parseCRC32 : M I Z := bs ← next_bytes_no_copy 4; mret (be32 bs).

(** The header, and the offsets of the start, of the end of the sections and of
    the end. *)
Definition parsePSISectionHeader : M I (PSISectionHeader * (Z * Z * Z)) :=
  offsetStart ← gets Offset;
  t ← next_byte;
  if shouldStopPSIParsing t then
    mret ({| PrivateBit := false; SectionLength := 0; SectionSyntaxIndicator := false;
             TableID := t; TableType := Type_ t |}, (offsetStart, 0, 0))
  else
    bs ← next_bytes_no_copy 2;
    let len := Z.lor (Z.shiftl (Z.land (byte_at bs 0) 0xf) 8) (byte_at bs 1) in
    offsetSectionsStart ← gets Offset;
    let offsetEnd := offsetSectionsStart + len in
    let offsetSectionsEnd := if hasCRC32 t then offsetEnd - 4 else offsetEnd in
    mret ({| PrivateBit := masked (byte_at bs 0) 0x40; SectionLength := len;
             SectionSyntaxIndicator := masked (byte_at bs 0) 0x80; TableID := t;
             TableType := Type_ t |}, (offsetStart, offsetSectionsEnd, offsetEnd)).

Definition parsePSISectionSyntaxHeader : M I PSISectionSyntaxHeader :=
  bs ← next_bytes_no_copy 2;
  b ← next_byte;
  number ← next_byte;
  last ← next_byte;
  mret {| CurrentNextIndicator := masked b 0x1; LastSectionNumber := last; SectionNumber := number;
          TableIDExtension := be16 bs 0; VersionNumber := Z.shiftr (Z.land b 0x3f) 1 |}.

Definition set_eit (d : option EITData) (x : PSISectionSyntaxData) : PSISectionSyntaxData :=
  {| EIT := d; NIT := NIT x; PAT := PAT x; PMT := PMT x; SDT := SDT x; TOT := TOT x |}.

(** The tables read with a syntax header dereference it. *)
Definition parsePSISectionSyntaxData (t : Z) (sh : option PSISectionSyntaxHeader)
    (offsetSectionsEnd : Z) : M I PSISectionSyntaxData :=
  d ← (if is_nit t then
         sh ← must sh;
         d ← wrap_err "astits: parsing NIT section failed" (parseNITSection (TableIDExtension sh));
         mret {| EIT := None; NIT := Some d; PAT := None; PMT := None; SDT := None; TOT := None |}
       else if t =? PSITableIDPAT then
         sh ← must sh;
         d ← wrap_err "astits: parsing PAT section failed"
           (parsePATSection offsetSectionsEnd (TableIDExtension sh));
         mret {| EIT := None; NIT := None; PAT := Some d; PMT := None; SDT := None; TOT := None |}
       else if t =? PSITableIDPMT then
         sh ← must sh;
         d ← wrap_err "astits: parsing PMT section failed"
           (parsePMTSection offsetSectionsEnd (TableIDExtension sh));
         mret {| EIT := None; NIT := None; PAT := None; PMT := Some d; SDT := None; TOT := None |}
       else if is_sdt t then
         sh ← must sh;
         d ← wrap_err "astits: parsing PMT section failed"
           (parseSDTSection offsetSectionsEnd (TableIDExtension sh));
         mret {| EIT := None; NIT := None; PAT := None; PMT := None; SDT := Some d; TOT := None |}
       else if t =? PSITableIDTOT then
         d ← wrap_err "astits: parsing TOT section failed" parseTOTSection;
         mret {| EIT := None; NIT := None; PAT := None; PMT := None; SDT := None; TOT := Some d |}
       else mret no_data);
  if is_eit t then
    sh ← must sh;
    e ← wrap_err "astits: parsing EIT section failed"
      (parseEITSection offsetSectionsEnd (TableIDExtension sh));
    mret (set_eit (Some e) d)
  else mret d.

Definition parsePSISectionSyntax (t : Z) (offsetSectionsEnd : Z) : M I PSISectionSyntax :=
  sh ← optionally (hasPSISyntaxHeader t)
    (wrap_err "astits: parsing PSI section syntax header failed" parsePSISectionSyntaxHeader);
  d ← wrap_err "astits: parsing PSI section syntax data failed"
    (parsePSISectionSyntaxData t sh offsetSectionsEnd);
  mret {| Data := d; syntax_Header := sh |}.

Definition ErrCRC32Mismatch : goerror := Errorf "astits: CRC32 mismatch".

(** The CRC32 at the end of the sections, checked against the bytes before. *)
Definition check_crc (offsetStart offsetSectionsEnd : Z) : M I Z :=
  Seek offsetSectionsEnd;;
  crc ← wrap_err "astits: parsing CRC32 failed" parseCRC32;
  Seek offsetStart;;
  data ← next_bytes_no_copy (offsetSectionsEnd - offsetStart);
  if computeCRC32 data =? crc then mret crc else fail_with ErrCRC32Mismatch.

(** A section, and whether parsing stops. *)
Definition parsePSISection : M I (PSISection * bool) :=
  h ← wrap_err "astits: parsing PSI section header failed" parsePSISectionHeader;
  let '(h, (offsetStart, offsetSectionsEnd, offsetEnd)) := h in
  if shouldStopPSIParsing (TableID h) then
    mret ({| CRC32 := 0; section_Header := h; Syntax := None |}, true)
  else
    s ← (if 0 <? SectionLength h then
           syntax ← wrap_err "astits: parsing PSI section syntax failed"
             (parsePSISectionSyntax (TableID h) offsetSectionsEnd);
           crc ← (if hasCRC32 (TableID h) then check_crc offsetStart offsetSectionsEnd else mret 0);
           mret {| CRC32 := crc; section_Header := h; Syntax := Some syntax |}
         else mret {| CRC32 := 0; section_Header := h; Syntax := None |});
    Seek offsetEnd;;
    mret (s, false).

(** The loop of [parsePSIData].  The fuel: a section takes a byte at least. *)
Definition parse_sections : M I (list PSISection) := fun i =>
  iter (Z.to_nat (Len i - Offset i) + 1) (fun '(ss, stop) =>
    left ← gets HasBytesLeft;
    if left && negb stop then
      s ← wrap_err "astits: parsing PSI table failed" parsePSISection;
      mret (inl (ss ++ [s.1], s.2))
    else mret (inr ss)) ([], false) i.

Definition parsePSIData : M I PSIData :=
  b ← next_byte;
  Skip b;;
  ss ← parse_sections;
  mret {| PointerField := b; Sections := ss |}.

Definition ParsePSISection (data : list Z) : outcome PSISection :=
  let '(r, i) := wrap_err "astits: parsing PSI section" parsePSISection (NewBytesIterator data) in
  '(section, stop) ← r;
  if stop : bool then Fail (Err (Errorf "astits: PSI section is stuffing or an unsupported table"))
  else if HasBytesLeft i then Fail (Err (Errorf "astits: PSI section has trailing bytes"))
  else Ok section.
End Parse.

(** ** Writing *)

(** Reading a pointer that Go dereferences. *)
Definition deref {A} (o : option A) : outcome A :=
  match o with Some a => Ok a | None => Fail Panic end.

Definition calcPSISectionLength (s : PSISection) : outcome Z :=
  let t := TableID (section_Header s) in
  let ret := if hasPSISyntaxHeader t then 5 else 0 in
  ret ← (if t =? PSITableIDPAT then
           syntax ← deref (Syntax s); d ← deref (PAT (Data syntax));
           Ok (u16 (ret + calcPATSectionLength d))
         else if t =? PSITableIDPMT then
           syntax ← deref (Syntax s); d ← deref (PMT (Data syntax));
           Ok (u16 (ret + calcPMTSectionLength d))
         else Ok ret);
  Ok (if hasCRC32 t then u16 (ret + 4) else ret).

Section Write.
Context {W : Type} `{BitsWriter W}.

Definition writePSISectionSyntaxHeader (h : PSISectionSyntaxHeader) : M W Z := with_batch (
  BWrite (WUint16 (TableIDExtension h));;
  BWriteN 0xff 2;;
  BWriteN (VersionNumber h) 5;;
  BWrite (WBool (CurrentNextIndicator h));;
  BWrite (WUint8 (SectionNumber h));;
  BWrite (WUint8 (LastSectionNumber h));;
  batch_result 5).

Definition writePSISectionSyntaxData (d : PSISectionSyntaxData) (t : Z) : M W Z :=
  if t =? PSITableIDPAT then d ← must (PAT d); writePATSection d
  else if t =? PSITableIDPMT then d ← must (PMT d); writePMTSection d
  else mret 0.

Definition writePSISectionSyntax (s : PSISection) : M W Z :=
  let t := TableID (section_Header s) in
  syntax ← must (Syntax s);
  n ← (if hasPSISyntaxHeader t then
         h ← must (syntax_Header syntax); writePSISectionSyntaxHeader h
       else mret 0);
  m ← writePSISectionSyntaxData (Data syntax) t;
  mret (n + m).

(** The callback that the writer calls with the bytes of the section folds them
    into [sectionCRC32]. *)
Definition sectionCRC32 : M W Z :=
  calls ← gets CallbackCalls;
  mret (foldl updateCRC32 crc32Polynomial calls).

(** [defer w.SetWriteCallback(nil)] *)
Definition without_callback {A} (m : M W A) : M W A := fun w =>
  let '(r, w1) := m w in
  let '(_, w2) := SetWriteCallback false w1 in (r, w2).

Definition write_section (s : PSISection) (sectionLength : Z) : M W Z :=
  let h := section_Header s in
  let t := TableID h in
  with_batch (
    BWrite (WUint8 (u8 t));;
    BWrite (WBool (SectionSyntaxIndicator h));;
    BWrite (WBool (PrivateBit h));;
    BWriteN 0xff 2;;
    BWriteN sectionLength 12;;
    n ← (if 0 <? SectionLength h then
           n ← on_snd (writePSISectionSyntax s);
           if hasCRC32 t then
             crc ← on_snd sectionCRC32;
             BWrite (WUint32 crc);;
             mret (n + 4)
           else mret n
         else mret 0);
    batch_result (3 + n)).

Definition writePSISection (s : PSISection) : M W Z :=
  let t := TableID (section_Header s) in
  fail_if (negb (t =? PSITableIDPAT) && negb (t =? PSITableIDPMT))
    "writePSISection: table is not implemented";;
  sectionLength ← lift (calcPSISectionLength s);
  if hasCRC32 t then without_callback (SetWriteCallback true;; write_section s sectionLength)
  else write_section s sectionLength.

Fixpoint write_sections (ss : list PSISection) : M W Z :=
  match ss with
  | [] => mret 0
  | s :: ss => n ← writePSISection s; m ← write_sections ss; mret (n + m)
  end.

Definition writePSIData (d : PSIData) : M W Z :=
  with_batch (
    BWrite (WUint8 (u8 (PointerField d)));;
    for_each (fun _ => BWrite (WUint8 0x00)) (seq 0 (Z.to_nat (PointerField d)));;
    batch_result tt);;
  n ← write_sections (Sections d);
  mret (1 + PointerField d + n).
End Write.

(** ** Sections as bytes, and in the place of a packet *)
Section Marshal.
Context {W : Type} `{BufferWriter W}.

(** The section pointer is never nil here. *)
Definition MarshalPSISection (s : PSISection) : outcome (list Z) :=
  let '(r, w) := wrap_err "astits: marshaling PSI section" (writePSISection s) NewBufferWriter in
  _ ← r;
  Ok (BufferBytes w).

(** [output.Payload] becomes pointer field, section and filler. *)
Definition psi_payload (size : nat) (encoded : list Z) : list Z :=
  copy_at (copy_at (replicate size 0xFF) 0 [0]) 1 encoded.

Definition with_psi (h : bool) (a : option PacketAdaptationField) (payload : list Z) (p : Packet) : Packet :=
  let hd := Header p in
  {| AdaptationField := a;
     Header := {| ContinuityCounter := ContinuityCounter hd; HasAdaptationField := h;
       HasPayload := true; PayloadUnitStartIndicator := true; PID := PID hd;
       TransportErrorIndicator := TransportErrorIndicator hd;
       TransportPriority := TransportPriority hd;
       TransportScramblingControl := TransportScramblingControl hd |};
     Payload := payload |}.

(** A payload that grows takes its bytes from the adaptation field. *)
Definition PacketizePSISection (packet : Packet) (section : PSISection) : outcome Packet :=
  encoded ← MarshalPSISection section;
  let output := ClonePacket packet in
  let required := (length encoded + 1)%nat in
  let size := length (Payload output) in
  if (size <? required)%nat then
    let adaptationSize := MpegTsPacketSize - 4 - Z.of_nat size in
    let targetSize := adaptationSize - Z.of_nat (required - size) in
    minimumSize ← AdaptationFieldSizeWithoutStuffing (AdaptationField output);
    let minimumSize := if HasAdaptationFieldData (AdaptationField output) then minimumSize else 0 in
    if targetSize <? minimumSize then
      Fail (Err (Errorf "astits: PSI section does not fit one TS packet"))
    else
      a ← (if targetSize =? 0 then Ok None
           else a ← AdaptationFieldWithSize (AdaptationField output) targetSize; Ok (Some a));
      Ok (with_psi (negb (targetSize =? 0)) a (psi_payload required encoded) output)
  else
    Ok (with_psi (HasAdaptationField (Header output)) (AdaptationField output)
          (psi_payload size encoded) output).
End Marshal.
