(* ===== verification/SampleAes.v ===== *)
(** * sampleaes: the AES-CBC encryptor

    [Config], [BlockCryptor] and [CBCEncryptor] (types.go, encryptor.go).  The
    CBC mode of crypto/cipher is modelled; the AES block function of crypto/aes
    is a parameter, a map from a key and a block to a block.  The class
    [BlockCryptorLaws] states what the codec transformers rely on, and
    [CBCEncryptor] is proved to satisfy it. *)

From S2P Require Import Prelude.

Definition aes_BlockSize : nat := 16.

(** ** types.go *)
Record Config := MkConfig { Key : list Z; IV : list Z }.

Definition Validate (c : Config) : option goerror :=
  if negb (length (Key c) =? 16) then Some (Errorf "key must be 16 bytes")
  else if negb (length (IV c) =? 16) then Some (Errorf "iv must be 16 bytes")
  else None.

(** The interface: [CryptBlocks] overwrites the slice it is given, so it returns
    its new contents. *)
Class BlockCryptor (C : Type) := {
  Reset : M C unit;
  CryptBlocks : list Z -> M C (list Z);
}.

(** Contract: after a [Reset] the cryptor encrypts whole blocks, in chained
    calls as in one call, deterministically and keeping lengths. *)
Class BlockCryptorLaws (C : Type) `{BlockCryptor C} := {
  usable : C -> Prop;
  armed : C -> Prop;
  reset_state : C -> C;
  enc : C -> list Z -> list Z;
  after : C -> list Z -> C;
  usable_reset c : usable c -> Reset c = (Ok tt, reset_state c)
    /\ usable (reset_state c) /\ armed (reset_state c);
  crypt_armed c d : usable c -> armed c -> length d mod 16 = 0 ->
    CryptBlocks d c = (Ok (enc c d), after c d)
    /\ usable (after c d) /\ armed (after c d);
  length_enc c d : usable c -> armed c -> length d mod 16 = 0 ->
    length (enc c d) = length d;
  reset_after c d : usable c -> reset_state (after c d) = reset_state c;
  reset_reset c : usable c -> reset_state (reset_state c) = reset_state c;
  enc_app c d1 d2 : length d1 mod 16 = 0 ->
    enc c (d1 ++ d2) = enc c d1 ++ enc (after c d1) d2;
  after_app c d1 d2 : length d1 mod 16 = 0 ->
    after c (d1 ++ d2) = after (after c d1) d2;
}.

(** ** CBC mode of crypto/cipher *)
Section Cbc.
(** [aes key block]: the AES block encryption of crypto/aes. *)
Context (aes : list Z -> list Z -> list Z).

Definition xor_bytes (a b : list Z) : list Z := zip_with Z.lxor a b.

(** Encrypts [n] blocks, chaining from [iv]. *)
Fixpoint cbc_encrypt (key iv : list Z) (n : nat) (data : list Z) : list Z :=
  match n with
  | O => []
  | S n =>
      let c := aes key (xor_bytes (take 16 data) iv) in
      c ++ cbc_encrypt key c n (drop 16 data)
  end.

(** The chaining value left by [cbc_encrypt]: the last block written. *)
Fixpoint cbc_chain (key iv : list Z) (n : nat) (data : list Z) : list Z :=
  match n with
  | O => iv
  | S n => cbc_chain key (aes key (xor_bytes (take 16 data) iv)) n (drop 16 data)
  end.

(** ** encryptor.go *)

(** [block] is nil when [aes.NewCipher] refuses the key; [mode] is nil until
  the first [Reset] and holds the chaining value afterwards. *)
Record CBCEncryptor := MkCBC {
  block : option (list Z);
  initIV : list Z;
  mode : option (list Z);
  }.

Definition NewCBCEncryptor (cfg : Config) : outcome CBCEncryptor :=
  let ok := existsb (Nat.eqb (length (Key cfg))) [16; 24; 32] in
  if length (IV cfg) <? 16 then Fail Panic
  else Ok {| block := if ok then Some (Key cfg) else None;
             initIV := take 16 (IV cfg); mode := None |}.

Definition cbc_Reset : M CBCEncryptor unit :=
  e ← get;
  match block e with
  | None => panic
  | Some _ => modify (fun e => {| block := block e; initIV := initIV e;
                                  mode := Some (initIV e) |})
  end.

Definition cbc_CryptBlocks (data : list Z) : M CBCEncryptor (list Z) :=
  fail_if (negb (length data mod aes_BlockSize =? 0))
    "data length must be a multiple of the block size";;
  e ← get;
  match block e, mode e with
  | Some key, Some iv =>
      let n := length data / aes_BlockSize in
      modify (fun e => {| block := block e; initIV := initIV e;
                          mode := Some (cbc_chain key iv n data) |});;
      mret (cbc_encrypt key iv n data)
  | _, _ => panic
  end.

#[export] Instance cbc_cryptor : BlockCryptor CBCEncryptor := {
  Reset := cbc_Reset;
  CryptBlocks := cbc_CryptBlocks;
  }.

(** ** Lemmas *)
Lemma cbc_encrypt_app key iv n1 n2 d1 d2 : length d1 = 16 * n1 ->
  cbc_encrypt key iv (n1 + n2) (d1 ++ d2) =
  cbc_encrypt key iv n1 d1 ++ cbc_encrypt key (cbc_chain key iv n1 d1) n2 d2.
Proof.
  revert iv d1. induction n1 as [|n1 IH]; intros iv d1 Hl.
  - by destruct d1.
  - cbn [Nat.add cbc_encrypt cbc_chain]. rewrite take_app_le, drop_app_le by lia.
    rewrite IH by llia. by rewrite <- app_assoc.
Qed.

Lemma cbc_chain_app key iv n1 n2 d1 d2 : length d1 = 16 * n1 ->
  cbc_chain key iv (n1 + n2) (d1 ++ d2) =
  cbc_chain key (cbc_chain key iv n1 d1) n2 d2.
Proof.
  revert iv d1. induction n1 as [|n1 IH]; intros iv d1 Hl.
  - by destruct d1.
  - cbn [Nat.add cbc_chain]. rewrite take_app_le, drop_app_le by lia.
    rewrite IH by llia. done.
Qed.

Lemma mod16_mul n : n mod 16 = 0 -> n = 16 * (n / 16).
Proof. intros. pose proof (Nat.div_mod_eq n 16). lia. Qed.

Lemma div16_app (d1 d2 : list Z) : length d1 mod 16 = 0 ->
  length (d1 ++ d2) / 16 = length d1 / 16 + length d2 / 16.
Proof.
  intros H. rewrite length_app, (mod16_mul _ H) at 1.
  by rewrite Nat.mul_comm, Nat.div_add_l by lia.
Qed.

(** The block function returns blocks. *)
Definition aes_blocks : Prop := forall key b, length (aes key b) = 16.

Lemma length_cbc_encrypt key iv n d : aes_blocks ->
  length (cbc_encrypt key iv n d) = 16 * n.
Proof.
  intros Ha. revert iv d. induction n as [|n IH]; intros iv d; [done|].
  cbn [cbc_encrypt]. rewrite length_app, IH, Ha. lia.
Qed.

Definition cbc_mode_state (e : CBCEncryptor) (iv : list Z) : CBCEncryptor :=
  {| block := block e; initIV := initIV e; mode := Some iv |}.

(** [CBCEncryptor] satisfies the contract of the interface. *)
#[export] Instance cbc_laws (Ha : aes_blocks) : BlockCryptorLaws CBCEncryptor.
Proof.
  refine {|
    usable e := is_Some (block e);
    armed e := is_Some (mode e);
    reset_state e := cbc_mode_state e (initIV e);
    enc e d := cbc_encrypt (default [] (block e)) (default [] (mode e))
                 (length d / 16) d;
    after e d := cbc_mode_state e (cbc_chain (default [] (block e))
                   (default [] (mode e)) (length d / 16) d) |}.
  - intros [b iv m] [key Hk]. cbn in Hk. subst b. split; [done|]. cbn. eauto.
  - intros [b iv m] d [key Hk] [iv' Hm] Hd. cbn in Hk, Hm. subst b m.
    split; [|cbn; eauto]. cbn [CryptBlocks cbc_cryptor]. unfold cbc_CryptBlocks.
    unfold aes_BlockSize. by rewrite Hd.
  - intros e d _ _ Hd. rewrite length_cbc_encrypt by done. by rewrite <- mod16_mul.
  - done.
  - done.
  - intros e d1 d2 Hd. rewrite div16_app by done. apply cbc_encrypt_app, mod16_mul, Hd.
  - intros e d1 d2 Hd. rewrite div16_app by done. unfold cbc_mode_state. f_equal. cbn.
    f_equal. apply cbc_chain_app, mod16_mul, Hd.
Defined.
End Cbc.

(** ** Decryption, as a specification *)
Section Decrypt.
Context (aes aes_inv : list Z -> list Z -> list Z).

Fixpoint cbc_decrypt (key iv : list Z) (n : nat) (data : list Z) : list Z :=
  match n with
  | O => []
  | S n => xor_bytes (aes_inv key (take 16 data)) iv
             ++ cbc_decrypt key (take 16 data) n (drop 16 data)
  end.

Lemma xor_bytes_cancel a iv : length a <= length iv ->
  xor_bytes (xor_bytes a iv) iv = a.
Proof.
  revert iv. induction a as [|x a IH]; intros [|y iv] Hl; cbn in *; try done; [lia|].
  f_equal; [|apply IH; lia].
  by rewrite Z.lxor_assoc, Z.lxor_nilpotent, Z.lxor_0_r.
Qed.

(** CBC decryption inverts CBC encryption, for an invertible block function. *)
Lemma cbc_decrypt_encrypt key iv n d :
  (forall b, length b = 16 -> aes_inv key (aes key b) = b) ->
  aes_blocks aes -> length iv = 16 -> length d = 16 * n ->
  cbc_decrypt key iv n (cbc_encrypt aes key iv n d) = d.
Proof.
  intros Hinv Ha. revert iv d. induction n as [|n IH]; intros iv d Hiv Hd.
  { by destruct d. }
  cbn [cbc_encrypt cbc_decrypt].
  assert (Hx : length (xor_bytes (take 16 d) iv) = 16).
  { unfold xor_bytes. rewrite length_zip_with. llia. }
  rewrite take_app_le, take_ge, drop_app_le, drop_ge by (rewrite Ha; lia).
  rewrite Hinv, xor_bytes_cancel, app_nil_l, IH by (rewrite ?Ha; llia).
  apply take_drop.
Qed.

(** The chaining value is the last block written. *)
Lemma cbc_chain_last key iv n d : aes_blocks aes -> 0 < n ->
  cbc_chain aes key iv n d = drop (16 * (n - 1)) (cbc_encrypt aes key iv n d).
Proof.
  intros Ha. revert iv d. induction n as [|n IH]; intros iv d Hn; [lia|].
  cbn [cbc_chain cbc_encrypt]. replace (S n - 1) with n by lia. destruct n as [|n].
  - cbn. by rewrite app_nil_r.
  - rewrite IH by lia. rewrite (drop_app_ge _ _ (16 * S n)) by (rewrite Ha; lia).
    rewrite Ha. f_equal. lia.
Qed.

(** A valid configuration whose block function is invertible. *)
Record deciphers (cfg : Config) : Prop := {
  dec_inverse : forall b, length b = 16 -> aes_inv (Key cfg) (aes (Key cfg) b) = b;
  dec_valid : Validate cfg = None;
  }.

Lemma valid_lengths cfg : Validate cfg = None -> length (Key cfg) = 16 /\ length (IV cfg) = 16.
Proof.
  unfold Validate. destruct (Nat.eqb_spec (length (Key cfg)) 16); [|done].
  by destruct (Nat.eqb_spec (length (IV cfg)) 16).
Qed.

Lemma new_encryptor cfg : Validate cfg = None ->
  NewCBCEncryptor cfg = Ok {| block := Some (Key cfg); initIV := IV cfg; mode := None |}.
Proof.
  intros [Hk Hi]%valid_lengths. unfold NewCBCEncryptor. rewrite Hk, Hi. cbn.
  by rewrite take_ge by lia.
Qed.

Context (Ha : aes_blocks aes).
#[local] Existing Instance cbc_cryptor.
#[local] Instance this_cryptor : BlockCryptor CBCEncryptor := cbc_cryptor aes.
#[local] Instance this_laws : BlockCryptorLaws CBCEncryptor := cbc_laws aes Ha.

(** What a fresh encryptor has encrypted after a reset can be decrypted. *)
Lemma decrypt_enc cfg e d : deciphers cfg -> NewCBCEncryptor cfg = Ok e ->
  length d mod 16 = 0 ->
  usable e /\ length (enc (reset_state e) d) = length d
  /\ cbc_decrypt (Key cfg) (IV cfg) (length d / 16) (enc (reset_state e) d) = d.
Proof.
  intros [Hinv Hv] He Hm. rewrite new_encryptor in He by done. injection He as <-.
  pose proof (valid_lengths _ Hv) as [_ Hi]. split_and!.
  - by eexists.
  - by apply length_enc; [eexists..|].
  - cbn. apply cbc_decrypt_encrypt; try done. by apply mod16_mul.
Qed.
End Decrypt.

(** ** A concrete block function, to evaluate the model *)
Module Toy.
(** An involution on blocks in the place of the AES block function. *)
Definition aes (key b : list Z) : list Z :=
  Z.lxor 0x5A <$> take 16 (b ++ replicate 16 0%Z).

Lemma aes_is_blocks : aes_blocks aes.
Proof. intros key b. unfold aes. rewrite length_fmap. llia. Qed.

Definition config : Config :=
  {| Key := replicate 16 1%Z; IV := replicate 16 2%Z |}.

Definition encryptor : CBCEncryptor :=
  {| block := Some (Key config); initIV := IV config; mode := None |}.

Lemma encryptor_new : NewCBCEncryptor config = Ok encryptor.
Proof. done. Qed.

Lemma lxor_twice a x : Z.lxor a (Z.lxor a x) = x.
Proof. by rewrite <- Z.lxor_assoc, Z.lxor_nilpotent. Qed.

Lemma config_deciphers : deciphers aes aes config.
Proof.
  split; [|done]. intros b Hb. unfold aes.
  rewrite (take_app_le b) by lia. rewrite (take_ge b) by lia.
  rewrite take_app_le by (rewrite length_fmap; lia). rewrite take_ge by (rewrite length_fmap; lia).
  rewrite <- list_fmap_compose. rewrite <- (list_fmap_id b) at 2.
  apply list_fmap_ext. intros i x _. cbn. apply lxor_twice.
Qed.
End Toy.
