(* ===== verification/PesHandler.v ===== *)
(** * The PES handler interface and its program logic

    [packets.PESHandler] (ts/packets/pes.go) and [pmtsignal.Signal] are the
    calls a codec transformer makes on the rest of the program; a transformer
    runs on its own state paired with that rest, [W].

    The calls are reified as [event]s.  [emits] describes a transformer method
    for every [W] at once: a successful call amounts to running a list of events
    on [W], and a failing one either stops at the first failing event, with its
    failure, or fails by itself with an error after events that succeeded. *)

From S2P Require Import Prelude Pmt.

Class PESHandler (W : Type) := {
  PESHeader : list Z -> M W unit;
  PESPayload : list Z -> M W unit;
  PESEnd : M W unit;
}.

Class PMTSignal (W : Type) := {
  signal : Patch -> M W unit;
}.

Inductive event :=
  | EHeader (header : list Z)
  | EPayload (payload : list Z)
  | EEnd
  | ESignal (patch : Patch).

(** Delivering PES events to a handler; patches are not PES events. *)
Definition handle {W : Type} `{PESHandler W} (ev : event) : M W unit :=
  match ev with
  | EHeader h => PESHeader h
  | EPayload p => PESPayload p
  | EEnd => PESEnd
  | ESignal _ => mret tt
  end.

Definition handle_all {W : Type} `{PESHandler W} : list event -> M W unit :=
  for_each handle.

Section Run.
Context {W : Type} `{PESHandler W} `{PMTSignal W}.

Definition run_event (ev : event) : M W unit :=
  match ev with
  | EHeader h => PESHeader h
  | EPayload p => PESPayload p
  | EEnd => PESEnd
  | ESignal p => signal p
  end.

Definition run_events : list event -> M W unit := for_each run_event.

Lemma run_events_app l1 l2 w w1 :
  run_events l1 w = (Ok tt, w1) -> run_events (l1 ++ l2) w = run_events l2 w1.
Proof.
  unfold run_events. intros E. by rewrite for_each_app, bind_unfold, E.
Qed.

Lemma run_events_one ev w : run_events [ev] w = run_event ev w.
Proof.
  unfold run_events. cbn [for_each]. rewrite bind_unfold.
  by destruct (run_event ev w) as [[[]|] ?].
Qed.

(** ** Describing methods by the events they cause *)
Section Emits.
Context {T : Type}.

Definition emits {A} (m : M (T * W) A) (t : T)
  (Q : A -> T -> list event -> Prop)
  (E : goerror -> T -> list event -> Prop) : Prop :=
  forall w, match m (t, w) with
  | (Ok a, (t', w')) =>
    exists evs, run_events evs w = (Ok tt, w') /\ Q a t' evs
  | (Fail f, (t', w')) =>
    (exists evs, run_events evs w = (Fail f, w'))
    \/ (exists e evs, f = Err e /\ run_events evs w = (Ok tt, w') /\ E e t' evs)
  end.

Lemma emits_weaken {A} (m : M (T * W) A) t (Q Q' : A -> T -> list event -> Prop)
  (E E' : goerror -> T -> list event -> Prop) :
  emits m t Q E ->
  (forall a t' evs, Q a t' evs -> Q' a t' evs) ->
  (forall e t' evs, E e t' evs -> E' e t' evs) ->
  emits m t Q' E'.
Proof.
  intros Hm HQ HE w. specialize (Hm w).
  destruct (m (t, w)) as [[a|f] [t' w']].
  { destruct Hm as (evs & ? & ?). eauto. }
  destruct Hm as [?|(e & evs & -> & ? & ?)]; [by left|right; eauto 10].
Qed.

(** A call whose fuel is computed from the state. *)
Lemma emits_at {A} (m : T -> M (T * W) A) t (Q : A -> T -> list event -> Prop)
  (E : goerror -> T -> list event -> Prop) :
  emits (m t) t Q E -> emits (fun s => m s.1 s) t Q E.
Proof. done. Qed.

Lemma emits_ret {A} (a : A) t (Q : A -> T -> list event -> Prop)
  (E : goerror -> T -> list event -> Prop) :
  Q a t [] -> emits (mret a) t Q E.
Proof. intros HQ w. exists []. done. Qed.

(** Own computations on the transformer state. *)
Lemma emits_fst {A} (m : M T A) t a t' (Q : A -> T -> list event -> Prop)
  (E : goerror -> T -> list event -> Prop) :
  m t = (Ok a, t') -> Q a t' [] -> emits (on_fst m) t Q E.
Proof. intros Hm HQ w. unfold on_fst. rewrite Hm. exists []. done. Qed.

Lemma emits_fail {A} (e : goerror) t (Q : A -> T -> list event -> Prop)
  (E : goerror -> T -> list event -> Prop) :
  E e t [] -> emits (fail_with e) t Q E.
Proof. intros HE w. right. by exists e, []. Qed.

Lemma emits_event ev t (Q : unit -> T -> list event -> Prop)
  (E : goerror -> T -> list event -> Prop) :
  Q tt t [ev] -> emits (on_snd (run_event ev)) t Q E.
Proof.
  intros HQ w. unfold on_snd. pose proof (run_events_one ev w) as Ho.
  destruct (run_event ev w) as [[[]|f] w']; [by exists [ev]|].
  left. by exists [ev].
Qed.

Lemma emits_bind {A B} (m : M (T * W) A) (k : A -> M (T * W) B) t
  (Q : A -> T -> list event -> Prop) (Q' : B -> T -> list event -> Prop)
  (E : goerror -> T -> list event -> Prop) :
  emits m t Q E ->
  (forall a t' evs, Q a t' evs ->
  emits (k a) t' (fun b t'' evs' => Q' b t'' (evs ++ evs'))
                 (fun e t'' evs' => E e t'' (evs ++ evs'))) ->
  emits (m ≫= k) t Q' E.
Proof.
  intros Hm Hk w. specialize (Hm w). rewrite bind_unfold.
  destruct (m (t, w)) as [[a|f] [t' w']]; [|done].
  destruct Hm as (evs & Hrun & HQ). specialize (Hk a t' evs HQ w').
  destruct (k a (t', w')) as [[b|f] [t'' w'']].
  - destruct Hk as (evs' & Hrun' & HQ'). exists (evs ++ evs').
  by rewrite (run_events_app _ _ _ _ Hrun).
  - destruct Hk as [[evs' Hrun']|(e & evs' & -> & Hrun' & HE)].
  + left. exists (evs ++ evs'). by rewrite (run_events_app _ _ _ _ Hrun).
  + right. exists e, (evs ++ evs'). by rewrite (run_events_app _ _ _ _ Hrun).
Qed.

(** Steps that send nothing. *)
Lemma emits_get_bind {B} (k : T -> M (T * W) B) t (Q : B -> T -> list event -> Prop)
  (E : goerror -> T -> list event -> Prop) :
  emits (k t) t Q E -> emits (on_fst get ≫= k) t Q E.
Proof. done. Qed.

Lemma emits_modify_bind {B} f (k : unit -> M (T * W) B) t (Q : B -> T -> list event -> Prop)
  (E : goerror -> T -> list event -> Prop) :
  emits (k tt) (f t) Q E -> emits (on_fst (modify f) ≫= k) t Q E.
Proof. done. Qed.

Lemma emits_fst_bind {A B} (m : M T A) (k : A -> M (T * W) B) t a t'
  (Q : B -> T -> list event -> Prop) (E : goerror -> T -> list event -> Prop) :
  m t = (Ok a, t') -> emits (k a) t' Q E -> emits (on_fst m ≫= k) t Q E.
Proof. intros Hm Hk w. rewrite bind_unfold. unfold on_fst. rewrite Hm. apply Hk. Qed.

Lemma emits_fst_fail {A B} (m : M T A) (k : A -> M (T * W) B) t e t'
    (Q : B -> T -> list event -> Prop) (E : goerror -> T -> list event -> Prop) :
  m t = (Fail (Err e), t') -> E e t' [] -> emits (on_fst m ≫= k) t Q E.
Proof.
  intros Hm HE w. rewrite bind_unfold. unfold on_fst. rewrite Hm. right. by exists e, [].
Qed.

Lemma emits_check_bind {B} b msg (k : unit -> M (T * W) B) t
  (Q : B -> T -> list event -> Prop) (E : goerror -> T -> list event -> Prop) :
  (b = true -> E (Errorf msg) t []) -> (b = false -> emits (k tt) t Q E) ->
  emits (fail_if b msg ≫= k) t Q E.
Proof.
  intros HE Hk. destruct b; [|by apply Hk].
  intros w. right. exists (Errorf msg), []. by split_and!; [..|apply HE].
Qed.

Lemma emits_when_bind {B} (b : bool) m (k : unit -> M (T * W) B) t
  (Q : B -> T -> list event -> Prop) (E : goerror -> T -> list event -> Prop) :
  (b = true -> emits (m ≫= k) t Q E) -> (b = false -> emits (k tt) t Q E) ->
  emits (when b m ≫= k) t Q E.
Proof. intros Ht Hf. destruct b; [by apply Ht|by apply Hf]. Qed.

Lemma emits_ext {A} (m m' : M (T * W) A) t (Q : A -> T -> list event -> Prop)
  (E : goerror -> T -> list event -> Prop) :
  (forall w, m (t, w) = m' (t, w)) -> emits m' t Q E -> emits m t Q E.
Proof. intros Heq Hm w. rewrite Heq. apply Hm. Qed.

Lemma emits_assoc {A B D} (m : M (T * W) A) (k : A -> M (T * W) B) (h : B -> M (T * W) D) t
  (Q : D -> T -> list event -> Prop) (E : goerror -> T -> list event -> Prop) :
  emits ((m ≫= k) ≫= h) t Q E -> emits (m ≫= (fun a => k a ≫= h)) t Q E.
Proof. intros Hm w. specialize (Hm w). by rewrite bind_assoc in Hm. Qed.

Lemma emits_assoc_r {A B D} (m : M (T * W) A) (k : A -> M (T * W) B) (h : B -> M (T * W) D) t
    (Q : D -> T -> list event -> Prop) (E : goerror -> T -> list event -> Prop) :
  emits (m ≫= (fun a => k a ≫= h)) t Q E -> emits ((m ≫= k) ≫= h) t Q E.
Proof. intros Hm w. specialize (Hm w). by rewrite bind_assoc. Qed.

Lemma emits_assoc3 {A B D F} (m : M (T * W) A) (k : A -> M (T * W) B) (h : B -> M (T * W) D)
  (g : D -> M (T * W) F) t (Q : F -> T -> list event -> Prop)
  (E : goerror -> T -> list event -> Prop) :
  emits ((m ≫= (fun a => k a ≫= h)) ≫= g) t Q E ->
  emits (m ≫= (fun a => k a ≫= (fun b => h b ≫= g))) t Q E.
Proof.
  intros Hm w. specialize (Hm w). rewrite bind_assoc in Hm.
  rewrite (bind_ext _ _ (fun a => (k a ≫= h) ≫= g)); [done|]. intros. by rewrite bind_assoc.
Qed.

(** A fuelled loop whose variant is bounded by the fuel. *)
Lemma emits_iter {A B} (step : A -> M (T * W) (A + B))
  (I : A -> T -> list event -> Prop) (var : A -> T -> nat)
  (Q : B -> T -> list event -> Prop) (E : goerror -> T -> list event -> Prop) :
  (forall a t evs, I a t evs ->
  emits (step a) t
    (fun r t' evs' => match r with
       | inl a' => I a' t' (evs ++ evs') /\ var a' t' < var a t
       | inr b => Q b t' (evs ++ evs')
       end)
    (fun e t' evs' => E e t' (evs ++ evs'))) ->
  forall n a t evs, I a t evs -> var a t < n ->
  emits (iter n step a) t (fun b t' evs' => Q b t' (evs ++ evs'))
                          (fun e t' evs' => E e t' (evs ++ evs')).
Proof.
  intros Hstep n. induction n as [|n IH]; intros a t evs HI Hn; [lia|].
  cbn [iter]. eapply emits_bind.
  - eapply emits_weaken; [by apply Hstep|done|done].
  - intros [a'|b] t' evs'; cbn beta iota.
  + intros [HI' Hv]. eapply emits_weaken; [apply IH; [done|lia]|..];
      intros; by rewrite app_assoc.
  + intros HQ. apply emits_ret. by rewrite app_nil_r.
Qed.

(** The same for a whole call. *)
Lemma emits_loop {A B} (step : A -> M (T * W) (A + B))
  (I : A -> T -> list event -> Prop) (var : A -> T -> nat)
  (Q : B -> T -> list event -> Prop) (E : goerror -> T -> list event -> Prop)
  n a t :
  (forall a t evs, I a t evs ->
  emits (step a) t
    (fun r t' evs' => match r with
       | inl a' => I a' t' (evs ++ evs') /\ var a' t' < var a t
       | inr b => Q b t' (evs ++ evs')
       end)
    (fun e t' evs' => E e t' (evs ++ evs'))) ->
  I a t [] -> var a t < n -> emits (iter n step a) t Q E.
Proof. intros Hs HI Hn. exact (emits_iter step I var Q E Hs n a t [] HI Hn). Qed.
End Emits.
End Run.

(** ** Traces *)

(** A handler that records the calls: [event] lists as a state, never failing. *)
Module Recorder.
#[export] Instance handler : PESHandler (list event) := {
  PESHeader h := modify (fun l => l ++ [EHeader h]);
  PESPayload p := modify (fun l => l ++ [EPayload p]);
  PESEnd := modify (fun l => l ++ [EEnd]);
  }.
#[export] Instance signaller : PMTSignal (list event) := {
  signal p := modify (fun l => l ++ [ESignal p]);
  }.

Lemma run_record evs l : run_events evs l = (Ok tt, l ++ evs).
Proof.
  revert l. induction evs as [|ev evs IH]; intros l.
  - by rewrite app_nil_r.
  - unfold run_events. cbn [for_each]. rewrite bind_unfold.
    assert (run_event ev l = (Ok tt, l ++ [ev])) as -> by by destruct ev.
    fold (run_events evs). by rewrite IH, <- app_assoc.
Qed.
End Recorder.

(** The payload bytes delivered by a list of events. *)
Fixpoint payloads (evs : list event) : list Z :=
  match evs with
  | EPayload p :: evs => p ++ payloads evs
  | _ :: evs => payloads evs
  | [] => []
  end.

Lemma payloads_app l1 l2 : payloads (l1 ++ l2) = payloads l1 ++ payloads l2.
Proof.
  induction l1 as [|[] l1 IH]; cbn; [done|done| |done|done].
  by rewrite IH, app_assoc.
Qed.

(** The patches signalled by a list of events. *)
Fixpoint signals (evs : list event) : list Patch :=
  match evs with
  | ESignal p :: evs => p :: signals evs
  | _ :: evs => signals evs
  | [] => []
  end.

Lemma signals_app l1 l2 : signals (l1 ++ l2) = signals l1 ++ signals l2.
Proof. induction l1 as [|[] l1 IH]; cbn; [done|done..| ]. by rewrite IH. Qed.

(** The calls a transformer accepts: PES headers have at least six bytes. *)
Definition header_ok (ev : event) : bool :=
  match ev with EHeader h => 6 <=? length h | _ => true end.
