(* ===== verification/PesQueue.v ===== *)
(** * The queue of pending PES records of the codec transformers

    Each transformer (ts/codecs/avc, aac, ac3, eac3) delays elementary-stream
    bytes and keeps, in [t.pes], the PES records whose bytes it still owes to
    the next handler.  [write] splits outgoing bytes over those records and
    [finishPES] closes the records that are paid in full.  The methods have the
    same text in the four packages, up to the error message and, in AVC, the
    encoding of the bytes; they are written once here, over any transformer
    state that has such a queue.

    The ledger invariant states PES preservation: the frames sent downstream are
    the input frames, with the same headers and sizes, cut at the front of the
    queue. *)

From S2P Require Import Prelude Pmt PesHandler.

(** ** Data *)

(** [pendingPES]; [bytes] is a Go int that stays non-negative. *)
Record pendingPES := MkPES {
  header : list Z;
  bytes : nat;
  ended : bool;
  started : bool;
}.

Definition set_started (p : pendingPES) : pendingPES :=
  {| header := header p; bytes := bytes p; ended := ended p; started := true |}.
Definition set_bytes (n : nat) (p : pendingPES) : pendingPES :=
  {| header := header p; bytes := n; ended := ended p; started := started p |}.
Definition set_ended (p : pendingPES) : pendingPES :=
  {| header := header p; bytes := bytes p; ended := true; started := started p |}.

(** A transformer state with a queue of pending PES records. *)
Class HasPES (T : Type) := {
  pes_of : T -> list pendingPES;
  with_pes : list pendingPES -> T -> T;
  pes_of_with q t : pes_of (with_pes q t) = q;
  with_pes_with q q' t : with_pes q (with_pes q' t) = with_pes q t;
  with_pes_of t : with_pes (pes_of t) t = t;
}.

(** Applies [f] to the last record: [t.pes[len(t.pes)-1]]. *)
Fixpoint alter_last {A} (f : A -> A) (q : list A) : list A :=
  match q with
  | [] => []
  | [p] => [f p]
  | p :: q => p :: alter_last f q
  end.

Definition done_pes (p : pendingPES) : bool := ended p && (bytes p =? 0).

Section Operations.
Context {T W : Type} `{HasPES T} `{PESHandler W}.

Definition update_pes (f : list pendingPES -> list pendingPES) : M (T * W) unit :=
  on_fst (modify (fun t => with_pes (f (pes_of t)) t)).

(** ** finishPES *)
Definition finish_step (_ : unit) : M (T * W) (unit + unit) :=
  t ← on_fst get;
  match pes_of t with
  | p :: q =>
      if done_pes p then
        when (negb (started p)) (on_snd (PESHeader (header p)));;
        on_snd PESEnd;;
        update_pes tail;;
        mret (inl tt)
      else mret (inr tt)
  | [] => mret (inr tt)
  end.

(** The fuel: every round but the last removes a record. *)
Definition finishPES : M (T * W) unit := fun s =>
  iter (length (pes_of s.1) + 1) finish_step tt s.

(** ** write *)
Definition head_bytes (q : list pendingPES) : nat :=
  match q with p :: _ => bytes p | [] => 0 end.

Definition write_step (msg : string) (encode : list Z -> M T (list Z))
    (data : list Z) : M (T * W) (list Z + unit) :=
  if decide (data = []) then mret (inr tt)
  else
    t ← on_fst get;
    match pes_of t with
    | [] => errorf msg
    | pes :: _ =>
        fail_if (bytes pes =? 0) msg;;
        (if started pes then mret tt
         else on_snd (PESHeader (header pes));;
              update_pes (fun q => match q with p :: q => set_started p :: q | [] => [] end));;
        let n := min (length data) (bytes pes) in
        output ← on_fst (encode (take n data));
        on_snd (PESPayload output);;
        update_pes (fun q => match q with
                             | p :: q => set_bytes (bytes p - n) p :: q
                             | [] => [] end);;
        finishPES;;
        mret (inl (drop n data))
    end.

(** The fuel: every round that continues consumes a byte of [data]. *)
Definition write (msg : string) (encode : list Z -> M T (list Z)) (data : list Z) :
    M (T * W) unit :=
  iter (length data + 1) (write_step msg encode) data.
End Operations.

(** ** Frames *)

(** What a sequence of events amounts to: PES packets with a header, an amount
    of payload bytes and whether they are ended. *)
Record frame := MkFrame { f_header : list Z; f_len : nat; f_ended : bool }.

Definition add_len (n : nat) (f : frame) : frame :=
  {| f_header := f_header f; f_len := f_len f + n; f_ended := f_ended f |}.
Definition end_frame (f : frame) : frame :=
  {| f_header := f_header f; f_len := f_len f; f_ended := true |}.
Definition new_frame (h : list Z) : frame :=
  {| f_header := h; f_len := 0; f_ended := false |}.

(** Whether the last frame is open; payload and end events need one, a header
    event needs none. *)
Definition open_last (fs : list frame) : bool :=
  match list.last fs with Some f => negb (f_ended f) | None => false end.

Definition frame_event (ev : event) (fs : list frame) : option (list frame) :=
  match ev with
  | EHeader h => if open_last fs then None else Some (fs ++ [new_frame h])
  | EPayload p => if open_last fs then Some (alter_last (add_len (length p)) fs) else None
  | EEnd => if open_last fs then Some (alter_last end_frame fs) else None
  | ESignal _ => Some fs
  end.

Fixpoint frame_events (evs : list event) (fs : list frame) : option (list frame) :=
  match evs with
  | [] => Some fs
  | ev :: evs => fs' ← frame_event ev fs; frame_events evs fs'
  end.

(** ** The ledger *)
Definition total (q : list pendingPES) : nat := sum_list (bytes <$> q).

Lemma total_cons p q : total (p :: q) = bytes p + total q.
Proof. done. Qed.

(** The frame of a record of which [e] bytes have been sent. *)
Definition owed_after (e : nat) (p : pendingPES) : frame :=
  {| f_header := header p; f_len := e + bytes p; f_ended := ended p |}.

Definition owed_frames (e : nat) (q : list pendingPES) : list frame :=
  match q with
  | [] => []
  | p :: q => owed_after e p :: (owed_after 0 <$> q)
  end.

(** What has been sent of the record at the front. *)
Definition sent_frames (e : nat) (q : list pendingPES) : list frame :=
  match q with
  | p :: _ => if started p
      then [{| f_header := header p; f_len := e; f_ended := false |}] else []
  | [] => []
  end.

Definition fresh (p : pendingPES) : Prop := started p = false.

Definition all_ended (fs : list frame) : Prop := Forall (fun f => f_ended f = true) fs.

(** All records but the last are ended. *)
Fixpoint closed_but_last (q : list pendingPES) : Prop :=
  match q with
  | [] => True
  | [_] => True
  | p :: q => ended p = true /\ closed_but_last q
  end.

(** [ins] are the frames received, [outs] those sent on, and [q] the queue:
    after the frames that are [done], [e] bytes of the front record were sent. *)
Definition ledger (ins outs : list frame) (q : list pendingPES) : Prop :=
  exists done e,
    ins = done ++ owed_frames e q /\ outs = done ++ sent_frames e q
    /\ all_ended done /\ closed_but_last q /\ Forall fresh (tail q)
    /\ (sent_frames e q = [] -> e = 0).

(** No record at the front is paid in full: what [finishPES] leaves behind. *)
Definition settled (q : list pendingPES) : Prop :=
  match q with p :: _ => done_pes p = false | [] => True end.

(** ** Lemmas on frames *)
Lemma alter_last_snoc {A} (f : A -> A) l x : alter_last f (l ++ [x]) = l ++ [f x].
Proof.
  induction l as [|y l IH]; [done|]. cbn [app]. rewrite <- IH.
  by destruct l.
Qed.

Lemma alter_last_app {A} (f : A -> A) l1 l2 : l2 <> [] ->
  alter_last f (l1 ++ l2) = l1 ++ alter_last f l2.
Proof.
  intros Hne. destruct (exists_last Hne) as (l & x & ->).
  by rewrite app_assoc, !alter_last_snoc, <- app_assoc.
Qed.

Lemma alter_last_cons {A} (f : A -> A) x l : l <> [] ->
  alter_last f (x :: l) = x :: alter_last f l.
Proof. by destruct l. Qed.

Lemma alter_last_fmap {A B} (f : A -> A) (g : B -> B) (h : A -> B) l :
  (forall x, h (f x) = g (h x)) -> h <$> alter_last f l = alter_last g (h <$> l).
Proof.
  intros Hfg. destruct l as [|x l] using rev_ind; [done|].
  rewrite alter_last_snoc, !fmap_app. cbn. by rewrite alter_last_snoc, Hfg.
Qed.

Lemma alter_last_twice {A} (f g : A -> A) l : alter_last f (alter_last g l) = alter_last (fun x => f (g x)) l.
Proof.
  destruct l as [|x l _] using rev_ind; [done|]. by rewrite !alter_last_snoc.
Qed.

Lemma alter_last_nil {A} (f : A -> A) l : alter_last f l = [] -> l = [].
Proof. destruct l as [|x l _] using rev_ind; [done|]. rewrite alter_last_snoc. by destruct l. Qed.

Lemma alter_last_ext {A} (f g : A -> A) l : (forall x, f x = g x) ->
  alter_last f l = alter_last g l.
Proof.
  intros Hfg. destruct l as [|x l _] using rev_ind; [done|]. by rewrite !alter_last_snoc, Hfg.
Qed.

Lemma open_last_app l1 l2 : l2 <> [] -> open_last (l1 ++ l2) = open_last l2.
Proof.
  intros Hne. destruct (exists_last Hne) as (l & x & ->).
  unfold open_last. by rewrite app_assoc, !last_snoc.
Qed.

Lemma all_ended_closed fs : all_ended fs -> open_last fs = false.
Proof.
  intros H. destruct fs as [|f fs] using rev_ind; [done|].
  apply Forall_app in H as [_ H]. apply Forall_cons in H as [H _].
  unfold open_last. by rewrite last_snoc, H.
Qed.

Lemma frame_events_app l1 l2 fs :
  frame_events (l1 ++ l2) fs = fs' ← frame_events l1 fs; frame_events l2 fs'.
Proof.
  revert fs. induction l1 as [|ev l1 IH]; intros fs; [done|].
  cbn. destruct (frame_event ev fs); [apply IH|done].
Qed.

Lemma frame_events_trans l1 l2 fs fs1 fs2 :
  frame_events l1 fs = Some fs1 -> frame_events l2 fs1 = Some fs2 ->
  frame_events (l1 ++ l2) fs = Some fs2.
Proof. intros E1 E2. rewrite frame_events_app, E1. done. Qed.

(** Calls that are properly nested, so far. *)
Definition well_formed (calls : list event) : Prop :=
  is_Some (frame_events calls []) /\ Forall header_ok calls.

Lemma well_formed_app l1 l2 : well_formed (l1 ++ l2) -> well_formed l1.
Proof.
  intros [[fs Hf] [Hh _]%Forall_app]. split; [|done].
  rewrite frame_events_app in Hf. destruct (frame_events l1 []); [eauto|done].
Qed.

(** ** The ledger and the calls received *)
Lemma owed_alter_last e f F q :
  (forall e p, owed_after e (f p) = F (owed_after e p)) ->
  owed_frames e (alter_last f q) = alter_last F (owed_frames e q).
Proof.
  intros Hf. destruct q as [|p [|p' q]]; [done| |].
  - cbn. by rewrite Hf.
  - rewrite alter_last_cons by done. cbn [owed_frames].
    rewrite (alter_last_cons F) by done. f_equal. by apply alter_last_fmap.
Qed.

Lemma closed_alter_last f q : closed_but_last q -> closed_but_last (alter_last f q).
Proof.
  induction q as [|p [|p' q] IH]; intros Hc; [done..|].
  destruct Hc as [Hp Hc]. specialize (IH Hc). cbn [alter_last] in *.
  destruct q; cbn in *; auto.
Qed.

Lemma fresh_alter_last f q : (forall p, started (f p) = started p) ->
  Forall fresh (tail q) -> Forall fresh (tail (alter_last f q)).
Proof.
  intros Hf. destruct q as [|p [|p' q]]; cbn [alter_last tail]; [done..|].
  revert p'. induction q as [|p'' q IH]; intros p' Hq.
  - apply Forall_cons in Hq as [Hp _]. constructor; [|done]. unfold fresh in *.
    by rewrite Hf.
  - apply Forall_cons in Hq as [Hp Hq]. constructor; [done|]. by apply IH.
Qed.

Lemma sent_alter_last e f q : (forall p, started (f p) = started p) ->
  (forall p, header (f p) = header p) ->
  sent_frames e (alter_last f q) = sent_frames e q.
Proof.
  intros Hs Hh. destruct q as [|p [|p' q]]; cbn; [done| |done].
  by rewrite Hs, Hh.
Qed.

Lemma ledger_alter_last ins outs q f F :
  (forall e p, owed_after e (f p) = F (owed_after e p)) ->
  (forall x, f_header (F x) = f_header x) ->
  (forall p, started (f p) = started p) ->
  ledger ins outs q -> q <> [] -> ledger (alter_last F ins) outs (alter_last f q).
Proof.
  intros Hf HF Hs (done_ & e & -> & -> & Hd & Hc & Hfr & He) Hq.
  assert (Hh : forall p, header (f p) = header p).
  { intros p. specialize (Hf 0 p). specialize (HF (owed_after 0 p)).
    by rewrite <- Hf in HF. }
  exists done_, e. rewrite (owed_alter_last _ _ F), sent_alter_last by done.
  rewrite alter_last_app by (by destruct q).
  repeat split; auto using closed_alter_last, fresh_alter_last.
Qed.

(** The input is inside a PES exactly when the last record is not ended. *)
Lemma ledger_open ins outs q : ledger ins outs q ->
  open_last ins = match list.last q with Some p => negb (ended p) | None => false end.
Proof.
  intros (done_ & e & -> & _ & Hd & _). destruct q as [|p q].
  - rewrite app_nil_r. by apply all_ended_closed.
  - rewrite open_last_app by done. cbn [owed_frames].
    destruct q as [|p' q] using rev_ind; [done|].
    rewrite fmap_app, app_comm_cons. unfold open_last.
    change (owed_after 0 <$> [p']) with [owed_after 0 p'].
    by rewrite last_snoc, app_comm_cons, last_snoc.
Qed.

Lemma open_alter_add n fs : open_last (alter_last (add_len n) fs) = open_last fs.
Proof.
  destruct fs as [|f fs] using rev_ind; [done|].
  unfold open_last. by rewrite alter_last_snoc, !last_snoc.
Qed.

Lemma open_alter_end fs : open_last (alter_last end_frame fs) = false.
Proof.
  destruct fs as [|f fs] using rev_ind; [done|].
  unfold open_last. by rewrite alter_last_snoc, last_snoc.
Qed.

Definition new_pes (h : list Z) : pendingPES :=
  {| header := h; bytes := 0; ended := false; started := false |}.

Definition add_bytes (n : nat) (p : pendingPES) : pendingPES := set_bytes (bytes p + n) p.

Lemma closed_snoc q p : closed_but_last q ->
  match list.last q with Some p => negb (ended p) | None => false end = false ->
  closed_but_last (q ++ [p]).
Proof.
  induction q as [|p1 [|p2 q] IH]; [done| |].
  - intros _ Hl. cbn in Hl. split; [|done]. by destruct (ended p1).
  - intros [Hp Hc] Hl. split; [done|]. by apply IH.
Qed.

(** The three calls of the handler interface, on the ledger. *)
Lemma ledger_push ins outs q h : ledger ins outs q -> open_last ins = false ->
  ledger (ins ++ [new_frame h]) outs (q ++ [new_pes h]).
Proof.
  intros Hl Ho. rewrite (ledger_open _ _ _ Hl) in Ho.
  destruct Hl as (done_ & e & -> & -> & Hd & Hc & Hf & He).
  exists done_, e. destruct q as [|p q].
  - rewrite app_nil_r. rewrite He by done. by repeat split.
  - split_and!; try done.
    + cbn [app owed_frames]. by rewrite fmap_app, <- app_assoc.
    + by apply closed_snoc.
    + cbn [app tail] in *. apply Forall_app. by repeat constructor.
Qed.

(** A record whose header is sent at once, when nothing is pending. *)
Lemma ledger_push_started ins outs h : ledger ins outs [] -> 
  frame_events [EHeader h] outs = Some (outs ++ [new_frame h])
  /\ ledger (ins ++ [new_frame h]) (outs ++ [new_frame h]) [set_started (new_pes h)].
Proof.
  intros (done_ & e & -> & -> & Hd & _). cbn [owed_frames sent_frames]. rewrite !app_nil_r.
  split; [cbn; by rewrite all_ended_closed|]. exists done_, 0. by split_and!.
Qed.

Lemma ledger_add ins outs q n : ledger ins outs q -> q <> [] ->
  ledger (alter_last (add_len n) ins) outs (alter_last (add_bytes n) q).
Proof.
  apply ledger_alter_last; try done. intros e p. unfold owed_after, add_len. cbn.
  f_equal. lia.
Qed.

Lemma ledger_end ins outs q : ledger ins outs q -> q <> [] ->
  ledger (alter_last end_frame ins) outs (alter_last set_ended q).
Proof. by apply ledger_alter_last. Qed.

Lemma settled_push q h : settled q -> settled (q ++ [new_pes h]).
Proof. by destruct q. Qed.

Lemma settled_add q n : settled q -> settled (alter_last (add_bytes n) q).
Proof.
  destruct q as [|p [|p' q]]; cbn [alter_last settled]; [done| |done].
  unfold done_pes. cbn. intros Hp. destruct (ended p); [|done].
  cbn in *. apply Nat.eqb_neq. apply Nat.eqb_neq in Hp. lia.
Qed.

Lemma total_app q1 q2 : total (q1 ++ q2) = total q1 + total q2.
Proof. unfold total. rewrite fmap_app. induction q1; cbn in *; lia. Qed.

Lemma total_add q n : q <> [] -> total (alter_last (add_bytes n) q) = total q + n.
Proof.
  intros Hq. destruct (exists_last Hq) as (l & x & ->).
  rewrite alter_last_snoc, !total_app. cbn. lia.
Qed.

Lemma total_ended q : total (alter_last set_ended q) = total q.
Proof.
  destruct q as [|x q] using rev_ind; [done|]. by rewrite alter_last_snoc, !total_app.
Qed.

(** A queue that is settled, owes nothing and has no open record is empty. *)
Lemma ledger_closed ins outs q : ledger ins outs q -> settled q -> total q = 0 ->
  open_last ins = false -> q = [].
Proof.
  intros Hl Hs Ht Ho. rewrite (ledger_open _ _ _ Hl) in Ho.
  destruct Hl as (_ & _ & _ & _ & _ & Hc & _).
  destruct q as [|p q]; [done|]. cbn in Hs. unfold done_pes in Hs.
  rewrite total_cons in Ht. replace (bytes p) with 0 in Hs by lia.
  destruct (ended p) eqn:He; [done|]. destruct q as [|p' q].
  - cbn in Ho. by rewrite He in Ho.
  - destruct Hc as [Hc _]. congruence.
Qed.

Lemma ledger_nil ins outs : ledger ins outs [] -> outs = ins.
Proof. by intros (done_ & e & -> & -> & _). Qed.

(** ** Steps of the ledger *)
Definition header_if_needed (p : pendingPES) : list event :=
  if started p then [] else [EHeader (header p)].

Lemma owed_frames_0 q : owed_frames 0 q = owed_after 0 <$> q.
Proof. by destruct q. Qed.

Lemma sent_fresh q : Forall fresh q -> sent_frames 0 q = [].
Proof. destruct q as [|p q]; [done|]. intros [Hp _]%Forall_cons. cbn. by rewrite Hp. Qed.

Lemma closed_tail p q : closed_but_last (p :: q) -> closed_but_last q.
Proof. by destruct q; [|intros []]. Qed.

Lemma all_ended_snoc fs f : all_ended fs -> f_ended f = true -> all_ended (fs ++ [f]).
Proof. intros. apply Forall_app. split; [done|]. by repeat constructor. Qed.

Lemma open_last_sent done_ h e : open_last (done_ ++ [MkFrame h e false]) = true.
Proof. unfold open_last. by rewrite last_snoc. Qed.

(** After the header has been sent if it had not been, the front is open. *)
Lemma header_sent done_ e p q : all_ended done_ ->
  (sent_frames e (p :: q) = [] -> e = 0) ->
  frame_events (header_if_needed p) (done_ ++ sent_frames e (p :: q)) =
    Some (done_ ++ [MkFrame (header p) e false]).
Proof.
  intros Hd He. unfold header_if_needed. cbn [sent_frames] in *.
  destruct (started p); [done|]. rewrite He, app_nil_r by done. cbn.
  by rewrite all_ended_closed.
Qed.

Lemma ledger_finish ins outs p q : ledger ins outs (p :: q) -> done_pes p = true ->
  exists outs', frame_events (header_if_needed p ++ [EEnd]) outs = Some outs'
    /\ ledger ins outs' q.
Proof.
  intros (done_ & e & -> & -> & Hd & Hc & Hf & He) Hp.
  unfold done_pes in Hp. apply andb_true_iff in Hp as [Hend Hb%Nat.eqb_eq].
  exists (done_ ++ [owed_after e p]). split.
  - eapply frame_events_trans; [by apply header_sent|].
    cbn [frame_events frame_event]. rewrite open_last_sent, alter_last_snoc.
    unfold owed_after, end_frame. cbn. by rewrite Hb, Hend, Nat.add_0_r.
  - cbn [tail] in Hf. exists (done_ ++ [owed_after e p]), 0.
    rewrite owed_frames_0, sent_fresh, app_nil_r, <- app_assoc by done.
    repeat split; try done.
    + apply all_ended_snoc; [done|]. done.
    + by eapply closed_tail.
    + destruct q; [done|]. by apply Forall_cons in Hf as [_ Hf].
Qed.

Lemma ledger_send ins outs p q d : ledger ins outs (p :: q) -> length d <= bytes p ->
  exists outs', frame_events (header_if_needed p ++ [EPayload d]) outs = Some outs'
    /\ ledger ins outs' (set_bytes (bytes p - length d) (set_started p) :: q).
Proof.
  intros (done_ & e & -> & -> & Hd & Hc & Hf & He) Hn.
  exists (done_ ++ [MkFrame (header p) (e + length d) false]). split.
  - eapply frame_events_trans; [by apply header_sent|].
    cbn [frame_events frame_event]. by rewrite open_last_sent, alter_last_snoc.
  - exists done_, (e + length d). repeat split; try done.
    cbn. unfold owed_after. cbn. do 3 f_equal. lia.
Qed.

Lemma ledger_front ins outs q : ledger ins outs q -> settled q -> total q <> 0 ->
  exists p q', q = p :: q' /\ bytes p <> 0.
Proof.
  intros (_ & _ & _ & _ & _ & Hc & _) Hs Ht. destruct q as [|p q]; [done|].
  exists p, q. split; [done|]. intros Hb. apply Ht.
  cbn in Hs. unfold done_pes in Hs. rewrite Hb, Nat.eqb_refl, andb_true_r in Hs.
  destruct q; [cbn; lia|]. destruct Hc as [Hc _]. congruence.
Qed.

(** Headers and ends only. *)
Definition framing (evs : list event) : Prop :=
  Forall (fun ev => match ev with EHeader _ | EEnd => True | _ => False end) evs.

Lemma framing_payloads evs : framing evs -> payloads evs = [].
Proof. induction 1 as [|[] evs Hev _ IH]; done. Qed.

Lemma framing_signals evs : framing evs -> signals evs = [].
Proof. induction 1 as [|[] evs Hev _ IH]; done. Qed.

Lemma framing_header p : framing (header_if_needed p).
Proof. unfold header_if_needed. destruct (started p); by repeat constructor. Qed.

(** ** The operations and the ledger *)
Section Spec.
Context {T W : Type} `{HasPES T} `{PESHandler W} `{PMTSignal W}.

Lemma emits_update_pes f t (Q : unit -> T -> list event -> Prop)
    (E : goerror -> T -> list event -> Prop) :
  Q tt (with_pes (f (pes_of t)) t) [] -> emits (W := W) (update_pes f) t Q E.
Proof. intros HQ. by eapply emits_fst. Qed.

Lemma emits_get t (Q : T -> T -> list event -> Prop)
    (E : goerror -> T -> list event -> Prop) :
  Q t t [] -> emits (W := W) (on_fst get) t Q E.
Proof. intros HQ. by eapply emits_fst. Qed.

(** What [finishPES] achieves from the queue of [t]. *)
Definition finished ins outs (t t' : T) (evs : list event) : Prop :=
  exists q outs', t' = with_pes q t /\ frame_events evs outs = Some outs'
    /\ ledger ins outs' q /\ settled q /\ total q = total (pes_of t)
    /\ framing evs.

Lemma finish_emits t ins outs : ledger ins outs (pes_of t) ->
  emits (W := W) finishPES t (fun _ t' evs => finished ins outs t t' evs)
    (fun _ _ _ => False).
Proof.
  intros Hl.
  set (I := fun (_ : unit) t' evs => exists q outs', t' = with_pes q t
    /\ frame_events evs outs = Some outs' /\ ledger ins outs' q
    /\ total q = total (pes_of t) /\ framing evs).
  apply (emits_at (fun t => iter (length (pes_of t) + 1) finish_step tt)).
  apply (emits_loop finish_step I (fun _ t => length (pes_of t)));
    [|exists (pes_of t), outs; rewrite with_pes_of; by split_and!; try constructor|lia].
  intros [] ? evs (q & outs' & -> & He & Hl' & Ht & Hp).
  eapply emits_bind; [apply (emits_get _ (fun a t1 e => a = t1 /\ t1 = with_pes q t /\ e = [])
    (fun _ _ _ => False)); done|].
  intros ? ? ? (-> & -> & ->). cbn [app]. rewrite pes_of_with.
  destruct q as [|p q].
  { apply emits_ret. rewrite app_nil_r. by exists [], outs'. }
  destruct (done_pes p) eqn:Hdone; last first.
  { apply emits_ret. rewrite app_nil_r. by exists (p :: q), outs'. }
  destruct (ledger_finish _ _ _ _ Hl' Hdone) as (outs'' & He' & Hl'').
  assert (Hb : bytes p = 0).
  { unfold done_pes in Hdone. apply andb_true_iff in Hdone as [_ Hb%Nat.eqb_eq]. done. }
  eapply (emits_bind _ _ _ (fun _ t1 e => t1 = with_pes (p :: q) t
    /\ e = header_if_needed p)).
  { unfold header_if_needed, when. destruct (started p); [by apply emits_ret|].
    by apply (emits_event (EHeader (header p))). }
  intros _ ? ? (-> & ->).
  eapply (emits_bind _ _ _ (fun _ t1 e => t1 = with_pes (p :: q) t /\ e = [EEnd])).
  { by apply (emits_event EEnd). }
  intros _ ? ? (-> & ->).
  eapply (emits_bind _ _ _ (fun _ t1 e => t1 = with_pes q t /\ e = [])).
  { apply emits_update_pes. by rewrite pes_of_with, with_pes_with. }
  intros _ ? ? (-> & ->). apply emits_ret. cbn beta iota.
  rewrite !app_nil_r, !pes_of_with. split; [|cbn; lia].
  exists q, outs''. split_and!; try done.
  - by eapply frame_events_trans.
  - rewrite total_cons in Ht. lia.
  - apply Forall_app; split; [done|]. apply Forall_app; split; [|by repeat constructor].
    unfold header_if_needed. destruct (started p); by repeat constructor.
Qed.

(** A pure encoding of outgoing bytes, threading the transformer state but not
  its queue; it may rely on an invariant [P] of the state. *)
Record encoding (P : T -> Prop) (encode : list Z -> M T (list Z))
    (f : list Z -> T -> list Z * T) : Prop := Encoding {
  enc_ok d t : P t -> encode d t = (Ok (f d t).1, (f d t).2);
  enc_keep d t : P t -> P (f d t).2;
  enc_inv q t : P t <-> P (with_pes q t);
  enc_pes d t : pes_of (f d t).2 = pes_of t;
  enc_with d q t : f d (with_pes q t) = ((f d t).1, with_pes q (f d t).2);
  }.

(** Events whose payloads are encoded in turn. *)
Fixpoint encode_events (f : list Z -> T -> list Z * T) (evs : list event) (t : T) :
    list event * T :=
  match evs with
  | [] => ([], t)
  | EPayload p :: evs =>
      let '(o, t1) := f p t in
      let '(l, t2) := encode_events f evs t1 in (EPayload o :: l, t2)
  | ev :: evs => let '(l, t2) := encode_events f evs t in (ev :: l, t2)
  end.

(** What writing [data] achieves: the events are the encoding of raw events
  that carry exactly [data] and keep the ledger. *)
Definition written_pes f ins outs (t : T) (data : list Z) (t' : T) (evs : list event) :
    Prop :=
  exists raws q outs' t1, encode_events f raws t = (evs, t1)
    /\ t' = with_pes q t1 /\ payloads raws = data /\ frame_events raws outs = Some outs'
    /\ ledger ins outs' q /\ settled q /\ total q + length data = total (pes_of t)
    /\ signals raws = [].

Lemma encode_events_app f l1 l2 t :
  encode_events f (l1 ++ l2) t =
  let '(o1, t1) := encode_events f l1 t in
  let '(o2, t2) := encode_events f l2 t1 in (o1 ++ o2, t2).
Proof.
  revert t. induction l1 as [|[] l1 IH]; intros t; cbn [app encode_events].
  1: by destruct (encode_events f l2 t).
  2: destruct (f payload t) as [o t0].
  all: rewrite IH; destruct (encode_events f l1 _) as [o1 t1];
    by destruct (encode_events f l2 t1).
Qed.

Lemma encode_events_with P encode f evs q t : encoding P encode f ->
  encode_events f evs (with_pes q t) =
  ((encode_events f evs t).1, with_pes q (encode_events f evs t).2).
Proof.
  intros Hf. revert t. induction evs as [|[] evs IH]; intros t; cbn [encode_events].
  1: done.
  2: rewrite (enc_with _ _ _ Hf); destruct (f payload t) as [o t0]; cbn [fst snd].
  all: rewrite IH; by destruct (encode_events f evs _).
Qed.

Lemma encode_framing f evs t : framing evs -> encode_events f evs t = (evs, t).
Proof.
  induction 1 as [|ev evs Hev _ IH]; [done|]. cbn [encode_events]. rewrite IH.
  by destruct ev.
Qed.


Definition front_started (q : list pendingPES) : list pendingPES :=
  match q with p :: q => set_started p :: q | [] => [] end.

(** Sending the header of the front record unless it has been sent. *)
Lemma header_emits t p q (E : goerror -> T -> list event -> Prop) :
  pes_of t = p :: q ->
  emits (W := W) (if started p then mret tt
         else on_snd (PESHeader (header p));;
              update_pes (fun q => match q with p :: q => set_started p :: q | [] => [] end))
    t (fun _ t1 e => t1 = with_pes (set_started p :: q) t /\ e = header_if_needed p) E.
Proof.
  intros Hp. unfold header_if_needed. destruct (started p) eqn:Hs.
  - apply emits_ret. split; [|done]. rewrite <- (with_pes_of t) at 1. rewrite Hp.
    f_equal. f_equal. unfold set_started. rewrite <- Hs. by destruct p.
  - eapply (emits_bind _ _ _ (fun _ t1 e => t1 = t /\ e = [EHeader (header p)])).
    { by apply (emits_event (EHeader (header p))). }
    intros _ ? ? (-> & ->). apply emits_update_pes. by rewrite Hp.
Qed.

Lemma write_emits msg P encode f t ins outs data :
  encoding P encode f -> P t -> ledger ins outs (pes_of t) -> settled (pes_of t) ->
  length data <= total (pes_of t) ->
  emits (W := W) (write msg encode data) t
    (fun _ t' evs => P t' /\ written_pes f ins outs t data t' evs) (fun _ _ _ => False).
Proof.
  intros Hf HP Hl Hs Hlen.
  set (I := fun rest t' evs => exists sent, data = sent ++ rest /\ P t'
    /\ written_pes f ins outs t sent t' evs).
  apply (emits_loop _ I (fun rest _ => length rest)); [|exists []; split_and!; [done..|]|lia].
  2: { exists [], (pes_of t), outs, t. rewrite with_pes_of. split_and!; auto; cbn; lia. }
  intros rest ? evs (sent & Hdata & HP' & raws & q & outs' & t1 & Henc & -> & Hpay & Hev
    & Hl' & Hs' & Ht & Hsig). assert (HPt : P t1) by by apply (enc_inv _ _ _ Hf) in HP'.
  unfold write_step. case_decide as Hrest.
  { apply emits_ret. rewrite app_nil_r. subst rest. rewrite app_nil_r in Hdata.
    subst sent. split; [done|]. by exists raws, q, outs', t1. }
  assert (0 < length rest) by (by destruct rest; cbn; [|lia]).
  assert (Htot : total q <> 0) by (subst data; llia).
  destruct (ledger_front _ _ _ Hl' Hs' Htot) as (p & q' & -> & Hb).
  eapply emits_bind; [apply (emits_get _ (fun a t2 e => a = t2
    /\ t2 = with_pes (p :: q') t1 /\ e = [])); done|].
  intros ? ? ? (-> & -> & ->). cbn [app]. rewrite pes_of_with.
  rewrite (proj2 (Nat.eqb_neq _ _) Hb).
  eapply (emits_bind (fail_if _ _) _ _ (fun _ t2 e => t2 = with_pes (p :: q') t1 /\ e = []));
    [by apply emits_ret|].
  intros _ ? ? (-> & ->). cbn [app].
  eapply emits_bind; [by apply (header_emits _ p q'); rewrite pes_of_with|].
  intros _ ? ? (-> & ->). rewrite with_pes_with.
  set (n := min (length rest) (bytes p)).
  set (d := take n rest).
  assert (Hd : length d = n) by (subst d n; llia).
  eapply (emits_bind _ _ _ (fun o t2 e => o = (f d t1).1
    /\ t2 = with_pes (set_started p :: q') (f d t1).2 /\ e = [])).
  { eapply emits_fst; [by apply (enc_ok _ _ _ Hf), (enc_inv _ _ _ Hf)|].
    by rewrite (enc_with _ _ _ Hf). }
  intros ? ? ? (-> & -> & ->). cbn [app].
  eapply (emits_bind _ _ _ (fun _ t2 e => t2 = with_pes (set_started p :: q') (f d t1).2
    /\ e = [EPayload (f d t1).1])).
  { by apply (emits_event (EPayload (f d t1).1)). }
  intros _ ? ? (-> & ->).
  eapply (emits_bind _ _ _ (fun _ t2 e => e = []
    /\ t2 = with_pes (set_bytes (bytes p - n) (set_started p) :: q') (f d t1).2)).
  { apply emits_update_pes. by rewrite pes_of_with, with_pes_with. }
  intros _ ? ? (-> & ->). cbn [app].
  destruct (ledger_send _ _ _ _ d Hl') as (outs1 & Hev1 & Hl1); [subst n; lia|].
  rewrite Hd in Hl1.
  eapply emits_bind.
  { apply (finish_emits _ ins outs1). by rewrite pes_of_with. }
  intros _ ? evs2 (q2 & outs2 & -> & Hev2 & Hl2 & Hs2 & Ht2 & Hn2).
  rewrite pes_of_with, total_cons in Ht2. rewrite total_cons in Ht. cbn [bytes set_bytes] in Ht2.
  apply emits_ret. cbn beta iota. rewrite app_nil_r. split; [|subst n; llia].
  exists (sent ++ d). rewrite with_pes_with. split_and!.
  { subst d. by rewrite <- app_assoc, take_drop. }
  { apply (enc_inv _ _ _ Hf), (enc_keep _ _ _ Hf), HPt. }
  exists (raws ++ header_if_needed p ++ [EPayload d] ++ evs2), q2, outs2, (f d t1).2.
  split_and!; try done.
  - rewrite encode_events_app, Henc. cbn iota beta. rewrite encode_events_app.
    rewrite (encode_framing _ (header_if_needed p)) by apply framing_header.
    cbn [encode_events app]. destruct (f d t1) as [o t2]. cbn [fst snd].
    by rewrite encode_framing.
  - rewrite !payloads_app, Hpay, (framing_payloads (header_if_needed p)),
      (framing_payloads evs2) by auto using framing_header.
    cbn. by rewrite !app_nil_r.
  - eapply frame_events_trans; [done|]. rewrite app_assoc.
    by eapply frame_events_trans.
  - llia.
  - rewrite !signals_app, Hsig, (framing_signals (header_if_needed p)),
      (framing_signals evs2) by auto using framing_header. done.
Qed.
End Spec.

(** A method that, unless a call on the rest of the program fails, succeeds and
    sends on packets with the headers and sizes of [ins], the payload bytes
    [bytes] and the patches [ps]. *)
Definition sends {T W : Type} `{PESHandler W} `{PMTSignal W} (m : M (T * W) unit) (t : T)
    (ins : list frame) (bytes : list Z) (ps : list Patch) : Prop :=
  emits m t
    (fun _ _ evs => frame_events evs [] = Some ins /\ payloads evs = bytes /\ signals evs = ps)
    (fun _ _ _ => False).
