(* ===== verification/Audio.v ===== *)
(** * The frame-based transformers: the part AAC, AC-3 and E-AC-3 share

    The packages ts/codecs/aac, ac3 and eac3 have the same [Transformer]
    structure and the same [PESHeader], [PESPayload], [PESEnd] and [Flush], up
    to error messages; each has its own [processFrames].  This file models the
    shared part over any [processFrames], and states what such a loop does by a
    [plan]: how the bytes at the front of the buffer are to be read.  Aac.v,
    Ac3.v and Eac3.v model the three loops as written, prove that each follows
    its plan, and inherit the theory developed here. *)

From S2P Require Import Prelude SampleAes Pmt PesHandler PesQueue.

(** ** Data *)
Section Data.
Context {C : Type}.

Record Transformer := MkTransformer {
  block : C;
  inputPESOpen : bool;
  buffer : list Z;
  pes : list pendingPES;
  configSent : bool;
  }.

(** [NewTransformer]: [next] and [signal] belong to the state [W]. *)
Definition NewTransformer (block : C) : Transformer :=
  {| block := block; inputPESOpen := false; buffer := []; pes := [];
     configSent := false |}.

Definition set_block (c : C) (t : Transformer) : Transformer :=
  {| block := c; inputPESOpen := inputPESOpen t; buffer := buffer t; pes := pes t;
     configSent := configSent t |}.
Definition set_open (b : bool) (t : Transformer) : Transformer :=
  {| block := block t; inputPESOpen := b; buffer := buffer t; pes := pes t;
     configSent := configSent t |}.
Definition set_buffer (l : list Z) (t : Transformer) : Transformer :=
  {| block := block t; inputPESOpen := inputPESOpen t; buffer := l; pes := pes t;
     configSent := configSent t |}.
Definition set_pes (q : list pendingPES) (t : Transformer) : Transformer :=
  {| block := block t; inputPESOpen := inputPESOpen t; buffer := buffer t; pes := q;
     configSent := configSent t |}.
Definition set_sent (t : Transformer) : Transformer :=
  {| block := block t; inputPESOpen := inputPESOpen t; buffer := buffer t;
     pes := pes t; configSent := true |}.

#[export] Instance transformer_pes : HasPES Transformer.
Proof. refine {| pes_of := pes; with_pes := set_pes |}; by intros; try destruct t. Defined.
End Data.
Arguments Transformer : clear implicits.

(** ** The shared methods *)
Section Methods.
Context {C W : Type} `{BlockCryptor C} `{PESHandler W} `{PMTSignal W}.

(** The package's prefix of error messages and its name for a frame. *)
Context (prefix truncated missing : string).
Context (processFrames : M (Transformer C * W) unit).

Definition on_block {A} (m : M C A) : M (Transformer C * W) A := fun '(t, w) =>
  let '(r, c) := m (block t) in (r, (set_block c t, w)).

(** [t.block.CryptBlocks(frame[off : off+size])], in place in the buffer. *)
Definition crypt_range (off size : nat) : M (Transformer C * W) unit :=
  t ← on_fst get;
  d ← on_block (CryptBlocks (slice (buffer t) off (off + size)));
  on_fst (modify (fun t => set_buffer (copy_at (buffer t) off d) t)).

(** The three [write] methods; audio bytes are sent as they are. *)
Definition write_frame (data : list Z) : M (Transformer C * W) unit :=
  write (prefix +:+ missing) mret data.

Definition header_call (header : list Z) : M (Transformer C * W) unit :=
  t ← on_fst get;
  fail_if (inputPESOpen t) (prefix +:+ "previous PES is still open");;
  fail_if (length header <? 6) (prefix +:+ "PES header is too short");;
  on_fst (modify (fun t => set_open true (set_pes (pes t ++
    [{| header := header; bytes := 0; ended := false; started := false |}]) t))).

Definition payload_call (payload : list Z) : M (Transformer C * W) unit :=
  t ← on_fst get;
  fail_if (negb (inputPESOpen t)) (prefix +:+ "payload outside PES");;
  on_fst (modify (fun t => set_buffer (buffer t ++ payload) t));;
  on_fst (must (list.last (pes t)));;
  update_pes (alter_last (fun p => set_bytes (bytes p + length payload) p));;
  processFrames.

Definition end_call : M (Transformer C * W) unit :=
  t ← on_fst get;
  fail_if (negb (inputPESOpen t)) (prefix +:+ "no open PES");;
  on_fst (must (list.last (pes t)));;
  update_pes (alter_last set_ended);;
  on_fst (modify (set_open false));;
  finishPES.

Definition flush_call : M (Transformer C * W) unit :=
  t ← on_fst get;
  fail_if (inputPESOpen t) (prefix +:+ "PES is still open");;
  processFrames;;
  t ← on_fst get;
  fail_if (negb (length (buffer t) =? 0)) (prefix +:+ truncated);;
  finishPES;;
  t ← on_fst get;
  fail_if (negb (length (pes t) =? 0)) (prefix +:+ "incomplete PES").

(** A transformer and what follows it handle PES events. *)
Definition transformer_handler : PESHandler (Transformer C * W) := {|
  PESHeader := header_call;
  PESPayload := payload_call;
  PESEnd := end_call;
  |}.
End Methods.

(** ** Plans *)

(** How a round of [processFrames] goes, given the buffer and whether the setup
    has been signalled: whether it signals a patch first, and then whether it
    waits for more bytes, fails, or takes a frame of [size] bytes of which
    [len] bytes from [off] on are encrypted, after a [reset] of the cryptor. *)
Inductive plan_kind :=
  | PNeed
  | PBad (e : goerror)
  | PFrame (size : nat) (reset : bool) (off len : nat).

Record plan := MkPlan { p_setup : option Patch; p_kind : plan_kind }.

Definition strip (p : plan) : plan := {| p_setup := None; p_kind := p_kind p |}.

(** [chained] plans may encrypt a frame without a reset, continuing the chain of
    the previous frame; their first frame resets. *)
Class PlanLaws (chained : bool) (pl : bool -> list Z -> plan) : Prop := {
  plan_frame cs buf size reset off len :
    p_kind (pl cs buf) = PFrame size reset off len ->
    0 < size <= length buf /\ off + len <= size /\ len mod 16 = 0;
  plan_nil cs : pl cs [] = {| p_setup := None; p_kind := PNeed |};
  plan_sent buf : p_setup (pl true buf) = None;
  (** A frame is not read differently once more bytes have arrived. *)
  plan_stable cs buf more size reset off len :
    p_kind (pl cs buf) = PFrame size reset off len -> pl cs (buf ++ more) = pl cs buf;
  plan_bad cs buf more e :
    p_kind (pl cs buf) = PBad e -> pl cs (buf ++ more) = pl cs buf;
  (** Once signalled, the setup does not change and the plan goes on as if it
      had just been signalled. *)
  plan_setup buf more p : p_setup (pl false buf) = Some p ->
    p_setup (pl false (buf ++ more)) = Some p
    /\ pl true (buf ++ more) = strip (pl false (buf ++ more));
  (** A frame is only taken after the setup. *)
  plan_first buf size reset off len :
    p_kind (pl false buf) = PFrame size reset off len -> is_Some (p_setup (pl false buf));
  plan_reset cs buf size reset off len :
    p_kind (pl cs buf) = PFrame size reset off len ->
    chained = false \/ cs = false -> reset = true \/ (chained = false /\ len = 0);
}.

Section Plan.
Context {C W : Type} `{BlockCryptor C} `{PESHandler W} `{PMTSignal W}.
Context (prefix missing : string) (pl : bool -> list Z -> plan).

Definition signal_setup (o : option Patch) : M (Transformer C * W) unit :=
  match o with
  | Some p => on_snd (signal p);; on_fst (modify set_sent)
  | None => mret tt
  end.

Definition plan_step (_ : unit) : M (Transformer C * W) (unit + unit) :=
  t ← on_fst get;
  let p := pl (configSent t) (buffer t) in
  signal_setup (p_setup p);;
  match p_kind p with
  | PNeed => mret (inr tt)
  | PBad e => fail_with e
  | PFrame size reset off len =>
      when reset (on_block Reset);;
      when (0 <? len) (crypt_range off len);;
      t ← on_fst get;
      write_frame prefix missing (take size (buffer t));;
      on_fst (modify (fun t => set_buffer (drop size (buffer t)) t));;
      mret (inl tt)
  end.

(** The fuel: every round that continues consumes a byte of the buffer. *)
Definition run_plan : M (Transformer C * W) unit := fun s =>
  iter (length (buffer s.1) + 1) plan_step tt s.
End Plan.

(** ** The reference: cutting a whole elementary stream into frames *)
Section Reference.
Context {C : Type} `{BlockCryptorLaws C}.
Context (pl : bool -> list Z -> plan).

(** What has been made of the bytes so far. *)
Record cut := MkCut {
  out : list Z;            (** the encrypted frames *)
  patches : list Patch;    (** the setups signalled *)
  sent : bool;
  cryptor : C;
  rest : list Z;           (** the bytes of the frame in progress *)
  }.

Definition frame_out (c : C) (off len size : nat) (buf : list Z) : list Z :=
  take off buf ++ enc c (slice buf off (off + len)) ++ slice buf (off + len) size.

Definition frame_crypted (c : C) (off len size : nat) (buf : list Z) : list Z :=
  if 0 <? len then frame_out c off len size buf else take size buf.

Definition cryptor_after (c : C) (off len : nat) (buf : list Z) : C :=
  if 0 <? len then after c (slice buf off (off + len)) else c.

Definition opt_list {A} (o : option A) : list A :=
  match o with Some a => [a] | None => [] end.

Definition prepend (o : list Z) (ps : list Patch) (k : cut) : cut :=
  {| out := o ++ out k; patches := ps ++ patches k; sent := sent k;
     cryptor := cryptor k; rest := rest k |}.

Fixpoint cut_fuel (n : nat) (cs : bool) (c : C) (buf : list Z) : outcome cut :=
  match n with
  | O => Fail OutOfFuel
  | S n =>
      let p := pl cs buf in
      let ps := opt_list (p_setup p) in
      let cs' := cs || bool_decide (is_Some (p_setup p)) in
      match p_kind p with
      | PNeed => Ok {| out := []; patches := ps; sent := cs'; cryptor := c; rest := buf |}
      | PBad e => Fail (Err e)
      | PFrame size reset off len =>
          let c := if reset then reset_state c else c in
          k ← cut_fuel n cs' (cryptor_after c off len buf) (drop size buf);
          Ok (prepend (frame_crypted c off len size buf) ps k)
      end
  end.

Definition cut_stream (cs : bool) (c : C) (buf : list Z) : outcome cut :=
  cut_fuel (length buf + 1) cs c buf.

Definition and_then (o : list Z) (ps : list Patch) (r : outcome cut) : outcome cut :=
  k ← r; Ok (prepend o ps k).

Lemma and_then_nil r : and_then [] [] r = r.
Proof. by destruct r as [[]|]. Qed.

Lemma and_then_app o1 ps1 o2 ps2 r :
  and_then o1 ps1 (and_then o2 ps2 r) = and_then (o1 ++ o2) (ps1 ++ ps2) r.
Proof.
  destruct r as [k|f]; [|done]. cbn. unfold prepend. cbn. by rewrite <- !app_assoc.
Qed.

Context {chained : bool} `{!PlanLaws chained pl}.

Lemma cut_fuel_enough n m cs c buf : length buf < n -> length buf < m ->
  cut_fuel n cs c buf = cut_fuel m cs c buf.
Proof.
  revert m cs c buf. induction n as [|n IH]; intros [|m] cs c buf Hn Hm; [lia..|].
  cbn [cut_fuel]. destruct (p_kind (pl cs buf)) as [|e|size reset off len] eqn:E; [done..|].
  apply plan_frame in E as (Hs & _). rewrite (IH m); [done|llia|llia].
Qed.

(** One round of the reference. *)
Definition next_cut (cs : bool) (c : C) (buf : list Z) : outcome cut :=
  let p := pl cs buf in
  let cs' := cs || bool_decide (is_Some (p_setup p)) in
  match p_kind p with
  | PNeed => Ok {| out := []; patches := []; sent := cs'; cryptor := c; rest := buf |}
  | PBad e => Fail (Err e)
  | PFrame size reset off len =>
      let c := if reset then reset_state c else c in
      and_then (frame_crypted c off len size buf) []
        (cut_stream cs' (cryptor_after c off len buf) (drop size buf))
  end.

Lemma cut_stream_unfold cs c buf :
  cut_stream cs c buf = and_then [] (opt_list (p_setup (pl cs buf))) (next_cut cs c buf).
Proof.
  unfold cut_stream, next_cut at 1. rewrite Nat.add_1_r. cbn [cut_fuel].
  destruct (p_kind (pl cs buf)) as [|e|size reset off len] eqn:E.
  - cbn. unfold prepend. cbn. by rewrite app_nil_r.
  - done.
  - apply plan_frame in E as (Hs & _).
    rewrite (cut_fuel_enough _ (length (drop size buf) + 1)) by llia.
    rewrite and_then_app, app_nil_r. done.
Qed.

(** After its setup has been signalled a stream is cut as if the setup had
  been signalled with the bytes that came later. *)
Lemma cut_stream_setup c buf more p : p_setup (pl false buf) = Some p ->
  cut_stream false c (buf ++ more) = and_then [] [p] (cut_stream true c (buf ++ more)).
Proof.
  intros Hp. destruct (plan_setup _ more _ Hp) as [Hp' Ht].
  rewrite (cut_stream_unfold false), (cut_stream_unfold true), Hp', plan_sent.
  cbn [opt_list]. rewrite and_then_nil. f_equal. unfold next_cut.
  rewrite Ht, Hp'. cbn [p_kind strip p_setup]. by rewrite bool_decide_eq_true_2 by eauto.
Qed.

Lemma frame_crypted_app c off len size buf more :
  off + len <= size -> size <= length buf ->
  frame_crypted c off len size (buf ++ more) = frame_crypted c off len size buf
  /\ cryptor_after c off len (buf ++ more) = cryptor_after c off len buf.
Proof.
  intros Hl Hs. unfold frame_crypted, cryptor_after, frame_out, slice.
  rewrite !take_app_le, !drop_app_le, !take_app_le by llia. done.
Qed.

(** Cutting what arrives later is cutting on from where the stream was left. *)
Lemma cut_stream_app cs c buf more k : cut_stream cs c buf = Ok k ->
  cut_stream cs c (buf ++ more) =
  and_then (out k) (patches k) (cut_stream (sent k) (cryptor k) (rest k ++ more)).
Proof.
  remember (length buf) as n eqn:Hn. revert cs c buf k Hn.
  induction (lt_wf n) as [n _ IH]. intros cs c buf k -> Hk.
  rewrite cut_stream_unfold in Hk. unfold next_cut in Hk.
  destruct (p_kind (pl cs buf)) as [|e|size reset off len] eqn:E; [|done|].
  - cbn in Hk. injection Hk as <-. cbn [out patches sent cryptor rest prepend].
    rewrite app_nil_r. destruct (p_setup (pl cs buf)) as [p|] eqn:Hp; cbn [opt_list].
    + destruct cs; [by rewrite plan_sent in Hp|]. cbn. by apply cut_stream_setup.
    + rewrite orb_false_r. by rewrite and_then_nil.
  - pose proof (plan_frame _ _ _ _ _ _ E) as (Hs & Hl & _).
    rewrite cut_stream_unfold. unfold next_cut.
    rewrite (plan_stable _ _ more _ _ _ _ E), E.
    destruct (frame_crypted_app (if reset then reset_state c else c) off len size buf more)
      as [-> ->]; [lia..|]. rewrite drop_app_le by lia.
    destruct (cut_stream _ _ (drop size buf)) as [k'|f] eqn:Hk'; [|done].
    rewrite (IH (length (drop size buf)) ltac:(llia) _ _ _ k' eq_refl Hk').
    cbn in Hk. injection Hk as <-. cbn [out patches sent cryptor rest prepend].
    by rewrite !and_then_app, <- ?app_assoc.
Qed.

(** Nor does a stream that cannot be cut become one by what arrives later. *)
Lemma cut_stream_bad cs c buf more e : cut_stream cs c buf = Fail (Err e) ->
  cut_stream cs c (buf ++ more) = Fail (Err e).
Proof.
  remember (length buf) as n eqn:Hn. revert cs c buf Hn.
  induction (lt_wf n) as [n _ IH]. intros cs c buf -> Hk.
  rewrite cut_stream_unfold in Hk |- *. unfold next_cut in Hk |- *.
  destruct (p_kind (pl cs buf)) as [|e'|size reset off len] eqn:E; [done| |].
  - by rewrite (plan_bad _ _ more _ E), E.
  - pose proof (plan_frame _ _ _ _ _ _ E) as (Hs & Hl & _).
    rewrite (plan_stable _ _ more _ _ _ _ E), E.
    destruct (frame_crypted_app (if reset then reset_state c else c) off len size buf more)
      as [-> ->]; [lia..|]. rewrite drop_app_le by lia.
    destruct (cut_stream _ _ (drop size buf)) as [k'|f] eqn:Hk'; [done|].
    injection Hk as ->.
    by rewrite (IH (length (drop size buf)) ltac:(llia) _ _ _ eq_refl Hk').
Qed.
End Reference.

(** What a transformer [m] makes of the calls of an elementary stream, whatever
    they are: unless a call on the rest of the program fails, the packets sent on
    have the headers and sizes of those received, and their payloads and the
    patches are the reference cut of the bytes received; an error of [m] itself
    means that these cannot be cut, that the last packet is open, or that the
    last frame is not complete. *)
Definition cuts_stream {C W : Type} `{BlockCryptorLaws C} `{PESHandler W} `{PMTSignal W}
    (prefix truncated : string) (pl : bool -> list Z -> plan) (c : C) (calls : list event)
    (m : M (Transformer C * W) unit) : Prop :=
  let k := cut_stream pl false c (payloads calls) in
  emits m (NewTransformer c)
    (fun _ _ evs => frame_events evs [] = frame_events calls []
       /\ exists s, k = Ok s /\ rest s = [] /\ payloads evs = out s /\ signals evs = patches s)
    (fun e _ _ => k = Fail (Err e)
       \/ (e = Errorf (prefix +:+ "PES is still open")
           /\ option_map open_last (frame_events calls []) = Some true)
       \/ (e = Errorf (prefix +:+ truncated) /\ exists s, k = Ok s /\ rest s <> [])).

(** ** What [run_plan] does *)
Section Spec.
Context {C W : Type} `{BlockCryptorLaws C} `{PESHandler W} `{PMTSignal W}.
Context (prefix missing : string) {chained : bool} (pl : bool -> list Z -> plan)
      `{!PlanLaws chained pl}.

(** The cryptor has been reset as soon as a chained frame may need it. *)
Definition chain_ok (t : Transformer C) : Prop :=
  armed (block t) \/ chained = false \/ configSent t = false
  \/ is_Some (p_setup (pl false (buffer t))).

Record healthy (ins outs : list frame) (t : Transformer C) : Prop := Healthy {
  h_ledger : ledger ins outs (pes t);
  h_settled : settled (pes t);
  h_total : total (pes t) = length (buffer t);
  h_usable : usable (block t);
  h_chain : chain_ok t;
  }.

Lemma emits_block {A} (m : M C A) t a c' (Q : A -> Transformer C -> list event -> Prop)
    (E : goerror -> Transformer C -> list event -> Prop) :
  m (block t) = (Ok a, c') -> Q a (set_block c' t) [] ->
  emits (W := W) (on_block m) t Q E.
Proof. intros Hm HQ w. cbn. rewrite Hm. by exists []. Qed.

Lemma setup_emits o t (E : goerror -> Transformer C -> list event -> Prop) :
  emits (W := W) (signal_setup o) t
    (fun _ t' evs => evs = ESignal <$> opt_list o
       /\ t' = if bool_decide (is_Some o) then set_sent t else t) E.
Proof.
  destruct o as [p|]; [|by apply emits_ret]. cbn.
  eapply (emits_bind _ _ _ (fun _ t1 e => t1 = t /\ e = [ESignal p])).
  { by apply (emits_event (ESignal p)). }
  intros _ ? ? (-> & ->). by eapply emits_fst.
Qed.

(** Encrypting a frame in place in the buffer. *)
Definition crypted (reset : bool) (off len size : nat) (t : Transformer C)
    (t' : Transformer C) : Prop :=
  let c := if reset then reset_state (block t) else block t in
  exists b', t' = set_buffer b' (set_block (cryptor_after c off len (buffer t)) t)
    /\ take size b' = frame_crypted c off len size (buffer t)
    /\ drop size b' = drop size (buffer t) /\ length b' = length (buffer t).

Lemma set_same (t : Transformer C) : set_buffer (buffer t) (set_block (block t) t) = t.
Proof. by destruct t. Qed.

Lemma copy_frame (b d : list Z) off size :
  off + length d <= size -> size <= length b ->
  take size (copy_at b off d) = take off b ++ d ++ slice b (off + length d) size
  /\ drop size (copy_at b off d) = drop size b.
Proof.
  intros Hd Hs. unfold copy_at, slice.
  rewrite (take_ge d) by lia. rewrite !app_assoc. split.
  - rewrite take_app, take_ge by llia. f_equal. f_equal. llia.
  - rewrite drop_app, drop_ge, app_nil_l, drop_drop by llia. f_equal. llia.
Qed.

Lemma crypt_range_emits t off len size (E : goerror -> Transformer C -> list event -> Prop) :
  usable (block t) -> (0 < len -> armed (block t)) ->
  off + len <= size -> size <= length (buffer t) -> len mod 16 = 0 ->
  emits (W := W) (when (0 <? len) (crypt_range off len)) t
    (fun _ t' evs => evs = [] /\ crypted false off len size t t') E.
Proof.
  intros Hu Ha Hl Hs Hm. unfold crypted, frame_crypted, cryptor_after.
  destruct (Nat.ltb_spec 0 len) as [Hlen|Hlen]; cbn [when].
  2: { apply emits_ret. split; [done|]. exists (buffer t). by rewrite set_same. }
  specialize (Ha Hlen). unfold crypt_range.
  set (d := slice (buffer t) off (off + len)).
  assert (Hd : length d = len) by (unfold d; rewrite length_slice; lia).
  assert (Hm' : length d mod 16 = 0) by by rewrite Hd.
  destruct (crypt_armed _ d Hu Ha Hm') as (Hc & _ & _).
  eapply (emits_bind _ _ _ (fun a t1 e => a = t /\ t1 = t /\ e = [])).
  { by apply emits_get. }
  intros ? ? ? (-> & -> & ->).
  eapply (emits_bind _ _ _ (fun a t1 e => a = enc (block t) d
    /\ t1 = set_block (after (block t) d) t /\ e = [])).
  { by eapply emits_block. }
  intros ? ? ? (-> & -> & ->).
  eapply emits_fst; [done|]. split; [done|].
  exists (copy_at (buffer t) off (enc (block t) d)).
  pose proof (length_enc _ _ Hu Ha Hm') as Hle.
  destruct (copy_frame (buffer t) (enc (block t) d) off size) as [Ht Hd']; [lia..|].
  split_and!; [done| |done|].
  - rewrite Ht. unfold frame_out. by rewrite Hle, Hd.
  - rewrite length_copy_at; lia.
Qed.

Lemma crypt_emits t reset off len size (E : goerror -> Transformer C -> list event -> Prop) :
  usable (block t) -> (reset = true \/ len = 0 \/ armed (block t)) ->
  off + len <= size -> size <= length (buffer t) -> len mod 16 = 0 ->
  emits (W := W) (when reset (on_block Reset);; when (0 <? len) (crypt_range off len)) t
    (fun _ t' evs => evs = [] /\ crypted reset off len size t t') E.
Proof.
  intros Hu Ha Hl Hs Hm.
  eapply (emits_bind _ _ _ (fun _ t1 e => e = []
    /\ t1 = set_block (if reset then reset_state (block t) else block t) t)).
  { destruct (usable_reset _ Hu) as (Hr & _). destruct reset; cbn [when].
    - by eapply emits_block.
    - apply emits_ret. by destruct t. }
  intros _ ? ? (-> & ->).
  eapply emits_weaken; [apply (crypt_range_emits _ _ _ size)|..]; try done.
  - destruct (usable_reset _ Hu) as (_ & Hu' & _). by destruct reset.
  - intros Hlen. destruct (usable_reset _ Hu) as (_ & _ & Ha').
    destruct reset; [done|]. cbn. destruct Ha as [|[|]]; [done|lia|done].
Qed.

Lemma cryptor_after_ok c off len buf :
  usable c -> len = 0 \/ armed c -> off + len <= length buf -> len mod 16 = 0 ->
  usable (cryptor_after c off len buf)
  /\ (armed c -> armed (cryptor_after c off len buf)).
Proof.
  intros Hu Ha Hl Hm. unfold cryptor_after.
  destruct (Nat.ltb_spec 0 len); [|done]. destruct Ha as [|Ha]; [lia|].
  destruct (crypt_armed c (slice buf off (off + len)) Hu Ha) as (_ & ? & ?); [|done].
  rewrite length_slice by lia. by replace (off + len - off) with len by lia.
Qed.

Definition sent_after (t : Transformer C) : bool :=
  configSent t || bool_decide (is_Some (p_setup (pl (configSent t) (buffer t)))).

Lemma setup_state t :
  (if bool_decide (is_Some (p_setup (pl (configSent t) (buffer t)))) then set_sent t else t)
  = {| block := block t; inputPESOpen := inputPESOpen t; buffer := buffer t;
       pes := pes t; configSent := sent_after t |}.
Proof.
  unfold sent_after. case_bool_decide; [by rewrite orb_true_r|].
  rewrite orb_false_r. by destruct t.
Qed.

Lemma chain_ok_more t t' more :
  chain_ok t -> block t' = block t -> buffer t' = buffer t ++ more ->
  configSent t' = configSent t \/ configSent t' = sent_after t -> chain_ok t'.
Proof.
  unfold chain_ok, sent_after. intros Hc Hb Hbuf Hs. rewrite Hb, Hbuf.
  assert (Hp : is_Some (p_setup (pl false (buffer t)))
               -> is_Some (p_setup (pl false (buffer t ++ more)))).
  { intros [p Hp]. destruct (plan_setup _ more _ Hp) as [-> _]. eauto. }
  destruct Hc as [|[|[Hc|]]]; auto. rewrite Hc in Hs. cbn in Hs.
  destruct (decide (is_Some (p_setup (pl false (buffer t))))); [by auto|].
  rewrite bool_decide_eq_false_2 in Hs by done. destruct Hs; auto.
Qed.

Lemma frame_resets t size reset off len : chain_ok t ->
  p_kind (pl (configSent t) (buffer t)) = PFrame size reset off len ->
  reset = true \/ (chained = false /\ len = 0) \/ armed (block t).
Proof.
  intros Hc Hk.
  assert (Hgen : chained = false \/ configSent t = false ->
            reset = true \/ (chained = false /\ len = 0) \/ armed (block t)).
  { intros Hor. destruct (plan_reset _ _ _ _ _ _ Hk Hor); auto. }
  destruct Hc as [|[|[|[p Hp]]]]; auto.
  destruct (configSent t) eqn:Hs; [|auto].
  destruct (plan_setup _ [] _ Hp) as [_ Ht]. rewrite app_nil_r in Ht.
  rewrite Ht in Hk. cbn in Hk.
  destruct (plan_reset _ _ _ _ _ _ Hk (or_intror eq_refl)); auto.
Qed.

Lemma chain_ok_frame t t' size reset off len :
  usable (block t) -> chain_ok t ->
  p_kind (pl (configSent t) (buffer t)) = PFrame size reset off len ->
  block t' = cryptor_after (if reset then reset_state (block t) else block t)
               off len (buffer t) ->
  usable (block t') /\ chain_ok t'.
Proof.
  intros Hu Hc Hk Hb. pose proof (plan_frame _ _ _ _ _ _ Hk) as (Hs & Hl & Hm).
  pose proof (frame_resets _ _ _ _ _ Hc Hk) as Hr.
  destruct (usable_reset _ Hu) as (_ & Hu' & Ha').
  set (c := if reset then reset_state (block t) else block t) in *.
  assert (usable c) as Huc by (unfold c; by destruct reset).
  assert ((chained = false /\ len = 0) \/ armed c) as Hac.
  { unfold c. destruct reset; [by right|]. destruct Hr as [|]; auto. done. }
  destruct (cryptor_after_ok c off len (buffer t)) as [? Hac']; [done| |lia|done|].
  { destruct Hac as [[]|]; auto. }
  unfold chain_ok. rewrite Hb. destruct Hac as [[]|]; auto.
Qed.

(** Where a run of the loop started at [t0] stands. *)
Definition cutting ins outs0 (t0 t : Transformer C) (evs : list event) : Prop :=
  exists outs, frame_events evs outs0 = Some outs /\ healthy ins outs t
    /\ inputPESOpen t = inputPESOpen t0
    /\ cut_stream pl (configSent t0) (block t0) (buffer t0)
       = and_then (payloads evs) (signals evs)
           (cut_stream pl (configSent t) (block t) (buffer t)).

Lemma encode_id (raws : list event) (t : Transformer C) :
  encode_events (fun d t => (d, t)) raws t = (raws, t).
Proof. induction raws as [|[] raws IH]; cbn; [done|by rewrite IH..]. Qed.

Lemma write_frame_emits ins outs (t : Transformer C) data :
  ledger ins outs (pes t) -> settled (pes t) -> length data <= total (pes t) ->
  emits (W := W) (write_frame prefix missing data) t
    (fun _ t' evs => exists q outs', t' = set_pes q t
       /\ frame_events evs outs = Some outs' /\ ledger ins outs' q /\ settled q
       /\ total q + length data = total (pes t)
       /\ payloads evs = data /\ signals evs = [])
    (fun _ _ _ => False).
Proof.
  intros Hl Hs Hlen. unfold write_frame.
  eapply emits_weaken.
  { apply (write_emits _ (fun _ => True) _ (fun d t => (d, t)) t ins outs); [by split|done..]. }
  - intros [] t' evs (_ & raws & q & outs' & t1 & He & -> & Hp & Hev & Hl' & Hs' & Ht & Hsig).
    rewrite encode_id in He. injection He as <- <-. by exists q, outs'.
  - done.
Qed.

(** A round that takes a frame, the setup having been signalled. *)
Lemma frame_emits ins outs (t : Transformer C) size reset off len :
  healthy ins outs t -> p_kind (pl (configSent t) (buffer t)) = PFrame size reset off len ->
  let t1 := {| block := block t; inputPESOpen := inputPESOpen t; buffer := buffer t;
               pes := pes t; configSent := sent_after t |} in
  let c := if reset then reset_state (block t) else block t in
  emits (W := W) (when reset (on_block Reset);;
      when (0 <? len) (crypt_range off len);;
      t ← on_fst get;
      write_frame prefix missing (take size (buffer t));;
      on_fst (modify (fun t => set_buffer (drop size (buffer t)) t));;
      mret (inl tt : unit + unit)) t1
    (fun r t' evs => r = inl tt /\ exists outs', frame_events evs outs = Some outs'
       /\ healthy ins outs' t' /\ inputPESOpen t' = inputPESOpen t
       /\ payloads evs = frame_crypted c off len size (buffer t) /\ signals evs = []
       /\ configSent t' = sent_after t /\ block t' = cryptor_after c off len (buffer t)
       /\ buffer t' = drop size (buffer t))
    (fun _ _ _ => False).
Proof.
  intros [Hl Hs Htot Hu Hc] Hk t1 c.
  pose proof (plan_frame _ _ _ _ _ _ Hk) as (Hsz & Hlen & Hm).
  pose proof (frame_resets _ _ _ _ _ Hc Hk) as Hr.
  assert (Hcr : emits (W := W) (when reset (on_block Reset);; when (0 <? len) (crypt_range off len))
      t1 (fun _ t' evs => evs = [] /\ crypted reset off len size t1 t') (fun _ _ _ => False)).
  { apply crypt_emits; cbn; try done; [|lia]. destruct Hr as [|[[]|]]; auto. }
  intros w. rewrite <- bind_assoc. revert w.
  eapply (emits_bind _ _ _ _ _ _ Hcr).
  intros _ ? ? (-> & b' & -> & Htake & Hdrop & Hb). cbn [buffer block t1] in Htake, Hdrop, Hb.
  eapply (emits_bind _ _ _ (fun a t2 e => a = t2
    /\ t2 = set_buffer b' (set_block (cryptor_after c off len (buffer t)) t1) /\ e = []));
    [by apply emits_get|].
  intros ? ? ? (-> & -> & ->). cbn [app].
  assert (Hlf : length (take size b') = size) by llia.
  eapply emits_bind.
  { apply (write_frame_emits ins outs); cbn [pes set_buffer set_block t1]; auto. llia. }
  intros _ ? evs (q & outs' & -> & Hev & Hl' & Hs' & Ht' & Hp & Hsig).
  eapply (emits_bind _ _ _ (fun _ t2 e => e = []
    /\ t2 = set_buffer (drop size b') (set_pes q (set_buffer b'
         (set_block (cryptor_after c off len (buffer t)) t1)))));
    [by eapply emits_fst|].
  intros _ ? ? (-> & ->). apply emits_ret. split; [done|]. exists outs'.
  cbn [app pes buffer block configSent inputPESOpen set_buffer set_block set_pes t1] in *.
  rewrite app_nil_r. split_and!; try done; [|by rewrite Hp].
  destruct (chain_ok_frame t (set_buffer (drop size b') (set_pes q (set_buffer b'
         (set_block (cryptor_after c off len (buffer t)) t1)))) _ _ _ _ Hu Hc Hk eq_refl).
  split; try done. cbn [pes buffer set_buffer set_pes]. rewrite Hlf in Ht'. llia.
Qed.

Lemma signal_events o outs :
  frame_events (ESignal <$> opt_list o) outs = Some outs
  /\ payloads (ESignal <$> opt_list o) = []
  /\ signals (ESignal <$> opt_list o) = opt_list o.
Proof. by destruct o. Qed.

Lemma plan_step_emits ins outs0 t0 t evs : cutting ins outs0 t0 t evs ->
  emits (W := W) (plan_step prefix missing pl tt) t
    (fun r t' evs' => match r with
       | inl _ => cutting ins outs0 t0 t' (evs ++ evs') /\ length (buffer t') < length (buffer t)
       | inr _ => exists outs, frame_events (evs ++ evs') outs0 = Some outs
           /\ healthy ins outs t' /\ inputPESOpen t' = inputPESOpen t0
           /\ cut_stream pl (configSent t0) (block t0) (buffer t0) =
              Ok {| out := payloads (evs ++ evs'); patches := signals (evs ++ evs');
                    sent := configSent t'; cryptor := block t'; rest := buffer t' |}
       end)
    (fun e _ _ => cut_stream pl (configSent t0) (block t0) (buffer t0) = Fail (Err e)).
Proof.
  intros (outs & Hev & Hh & Ho & Hcut). unfold plan_step.
  rewrite (cut_stream_unfold pl (configSent t) (block t) (buffer t)) in Hcut.
  unfold next_cut in Hcut. fold (sent_after t) in Hcut.
  eapply (emits_bind _ _ _ (fun a t1 e => a = t /\ t1 = t /\ e = []));
    [by apply emits_get|].
  intros ? ? ? (-> & -> & ->). cbn [app].
  eapply emits_bind; [apply setup_emits|]. intros _ ? ? (-> & ->).
  rewrite setup_state. set (t1 := {| configSent := sent_after t |}) in *.
  set (o := p_setup (pl (configSent t) (buffer t))) in *.
  pose proof (signal_events o outs) as Hsig.
  destruct Hsig as (Hf & Hp & Hsi).
  assert (Hh1 : healthy ins outs t1).
  { destruct Hh. split; try done.
    by apply (chain_ok_more t t1 []); rewrite ?app_nil_r; auto. }
  destruct (p_kind (pl (configSent t) (buffer t))) as [|e|size reset off len] eqn:Hk.
  - apply emits_ret. rewrite app_nil_r. exists outs. split_and!; try done.
    + by eapply frame_events_trans.
    + rewrite Hcut. cbn. unfold prepend. cbn.
      by rewrite payloads_app, signals_app, Hp, Hsi, !app_nil_r.
  - apply emits_fail. by rewrite Hcut.
  - eapply emits_weaken; [by apply (frame_emits ins outs t)| |done].
    intros r t' evs' (-> & outs' & Hev' & Hh' & Ho' & Hp' & Hs' & Hcs & Hb & Hbuf).
    pose proof (plan_frame _ _ _ _ _ _ Hk) as (Hsz & _). split; [|rewrite Hbuf; llia].
    exists outs'. split_and!; [|done|congruence|].
    + eapply frame_events_trans; [done|]. by eapply frame_events_trans.
    + rewrite Hcut, !and_then_app, Hcs, Hb, Hbuf, !payloads_app, !signals_app, Hp, Hsi, Hp', Hs'.
      by rewrite !app_nil_r, !app_nil_l.
Qed.

Lemma run_plan_emits ins outs t : healthy ins outs t ->
  emits (W := W) (run_plan prefix missing pl) t
    (fun _ t' evs => exists outs', frame_events evs outs = Some outs'
       /\ healthy ins outs' t' /\ inputPESOpen t' = inputPESOpen t
       /\ cut_stream pl (configSent t) (block t) (buffer t) =
          Ok {| out := payloads evs; patches := signals evs;
                sent := configSent t'; cryptor := block t'; rest := buffer t' |})
    (fun e _ _ => cut_stream pl (configSent t) (block t) (buffer t) = Fail (Err e)).
Proof.
  intros Hh.
  apply (emits_at (fun t => iter (length (buffer t) + 1) (plan_step prefix missing pl) tt)).
  apply (emits_loop _ (fun _ t' evs => cutting ins outs t t' evs)
    (fun _ t' => length (buffer t'))); [|by exists outs; rewrite and_then_nil|lia].
  intros [] t' evs Hc. eapply emits_weaken; [by apply plan_step_emits|..]; [|done].
  intros [[]|[]] t'' evs'; [done|]. intros (outs' & ?). by exists outs'.
Qed.

(** ** The handler calls *)
Context (truncated : string) (processFrames : M (Transformer C * W) unit).
Context (Hprocess : forall s, processFrames s = run_plan prefix missing pl s).
Context (c0 : C) (Hc0 : usable c0).

(** Where a transformer started with the cryptor [c0] stands after [calls],
  having caused [evs]. *)
Definition stands (calls : list event) (t : Transformer C) (evs : list event) : Prop :=
  exists ins outs, frame_events calls [] = Some ins /\ frame_events evs [] = Some outs
    /\ healthy ins outs t /\ inputPESOpen t = open_last ins
    /\ cut_stream pl false c0 (payloads calls) =
       Ok {| out := payloads evs; patches := signals evs;
             sent := configSent t; cryptor := block t; rest := buffer t |}.

Lemma emits_process ins outs t : healthy ins outs t ->
  emits (W := W) processFrames t
    (fun _ t' evs => exists outs', frame_events evs outs = Some outs'
       /\ healthy ins outs' t' /\ inputPESOpen t' = inputPESOpen t
       /\ cut_stream pl (configSent t) (block t) (buffer t) =
          Ok {| out := payloads evs; patches := signals evs;
                sent := configSent t'; cryptor := block t'; rest := buffer t' |})
    (fun e _ _ => cut_stream pl (configSent t) (block t) (buffer t) = Fail (Err e)).
Proof. intros Hh w. rewrite Hprocess. by apply (run_plan_emits ins outs). Qed.

Lemma header_stands calls t evs h : stands calls t evs -> 6 <= length h ->
  is_Some (frame_events (calls ++ [EHeader h]) []) ->
  emits (W := W) (header_call prefix h) t
    (fun _ t' e => stands (calls ++ [EHeader h]) t' (evs ++ e)) (fun _ _ _ => False).
Proof.
  intros (ins & outs & Hi & Hev & [Hl Hs Ht Hu Hc] & Ho & Hcut) Hlen [ins' Hi'].
  rewrite frame_events_app, Hi in Hi'. cbn in Hi'. rewrite <- Ho in Hi'.
  destruct (inputPESOpen t) eqn:Hopen; [done|]. injection Hi' as <-.
  unfold header_call.
  eapply (emits_bind _ _ _ (fun a t1 e => a = t /\ t1 = t /\ e = []));
    [by apply emits_get|].
  intros ? ? ? (-> & -> & ->). rewrite Hopen, (proj2 (Nat.ltb_ge _ _)) by done.
  do 2 (eapply (emits_bind (fail_if _ _) _ _ (fun _ t1 e => t1 = t /\ e = []));
    [by apply emits_ret|]; intros _ ? ? (-> & ->)).
  eapply emits_fst; [done|]. cbn [app]. rewrite app_nil_r.
  exists (ins ++ [new_frame h]), outs. split_and!; try done.
  - eapply frame_events_trans; [done|]. cbn. by rewrite <- Ho.
  - split; cbn [pes buffer block set_open set_pes]; try done.
    + by apply ledger_push.
    + by apply settled_push.
    + rewrite total_app. cbn. lia.
  - cbn. by rewrite open_last_app.
  - by rewrite payloads_app, app_nil_r.
Qed.

(** In a PES the queue is not empty. *)
Lemma stands_open calls t evs ins : stands calls t evs -> frame_events calls [] = Some ins ->
  open_last ins = true -> exists p, list.last (pes t) = Some p.
Proof.
  intros (ins' & outs & Hi & _ & [Hl _ _ _ _] & _) Hi' Ho.
  rewrite Hi in Hi'. injection Hi' as ->. rewrite (ledger_open _ _ _ Hl) in Ho.
  destruct (list.last (pes t)); [eauto|done].
Qed.

Lemma payload_stands calls t evs d : stands calls t evs ->
  is_Some (frame_events (calls ++ [EPayload d]) []) ->
  emits (W := W) (payload_call prefix processFrames d) t
    (fun _ t' e => stands (calls ++ [EPayload d]) t' (evs ++ e))
    (fun e _ _ => cut_stream pl false c0 (payloads (calls ++ [EPayload d])) = Fail (Err e)).
Proof.
  intros Hst [ins' Hi']. pose proof Hst as (ins & outs & Hi & Hev & [Hl Hs Ht Hu Hc] & Ho & Hcut).
  pose proof Hi' as Hi''. rewrite frame_events_app, Hi in Hi'. cbn in Hi'.
  destruct (open_last ins) eqn:Hopen; [|done]. injection Hi' as <-.
  destruct (stands_open _ _ _ _ Hst Hi Hopen) as [p Hp].
  assert (Hne : pes t <> []) by (by destruct (pes t)).
  unfold payload_call.
  eapply (emits_bind _ _ _ (fun a t1 e => a = t /\ t1 = t /\ e = []));
    [by apply emits_get|].
  intros ? ? ? (-> & -> & ->). rewrite Ho.
  eapply (emits_bind (fail_if _ _) _ _ (fun _ t1 e => t1 = t /\ e = []));
    [by apply emits_ret|]. intros _ ? ? (-> & ->).
  eapply (emits_bind _ _ _ (fun _ t1 e => t1 = set_buffer (buffer t ++ d) t /\ e = []));
    [by eapply emits_fst|]. intros _ ? ? (-> & ->).
  eapply (emits_bind _ _ _ (fun _ t1 e => t1 = set_buffer (buffer t ++ d) t /\ e = [])).
  { eapply emits_fst; [cbn; by rewrite Hp|done]. }
  intros _ ? ? (-> & ->).
  set (t1 := set_pes (alter_last (add_bytes (length d)) (pes t)) (set_buffer (buffer t ++ d) t)).
  eapply (emits_bind _ _ _ (fun _ t2 e => t2 = t1 /\ e = [])); [by apply emits_update_pes|].
  intros _ ? ? (-> & ->). cbn [app].
  assert (Hh : healthy (alter_last (add_len (length d)) ins) outs t1).
  { split; cbn [pes buffer block set_buffer set_pes t1]; auto using ledger_add, settled_add.
    - rewrite total_add by done. llia.
    - apply (chain_ok_more t t1 d); by auto. }
  assert (Hcut' : cut_stream pl false c0 (payloads (calls ++ [EPayload d])) =
    and_then (payloads evs) (signals evs)
      (cut_stream pl (configSent t1) (block t1) (buffer t1))).
  { rewrite payloads_app. cbn [payloads]. rewrite app_nil_r.
    exact (cut_stream_app pl _ _ _ d _ Hcut). }
  rewrite Hcut'. eapply emits_weaken; [by apply emits_process|..].
  - intros _ t' evs' (outs' & Hev' & Hh' & Ho' & Hk).
    exists (alter_last (add_len (length d)) ins), outs'. split_and!; try done.
    + by eapply frame_events_trans.
    + rewrite Ho', open_alter_add, Hopen. exact Ho.
    + rewrite Hcut', Hk. cbn. unfold prepend. cbn. by rewrite payloads_app, signals_app.
  - by intros e _ _ ->.
Qed.

Lemma end_stands calls t evs : stands calls t evs ->
  is_Some (frame_events (calls ++ [EEnd]) []) ->
  emits (W := W) (end_call prefix) t
    (fun _ t' e => stands (calls ++ [EEnd]) t' (evs ++ e)) (fun _ _ _ => False).
Proof.
  intros Hst [ins' Hi']. pose proof Hst as (ins & outs & Hi & Hev & [Hl Hs Ht Hu Hc] & Ho & Hcut).
  rewrite frame_events_app, Hi in Hi'. cbn in Hi'.
  destruct (open_last ins) eqn:Hopen; [|done]. injection Hi' as <-.
  destruct (stands_open _ _ _ _ Hst Hi Hopen) as [p Hp].
  assert (Hne : pes t <> []) by (by destruct (pes t)).
  unfold end_call.
  eapply (emits_bind _ _ _ (fun a t1 e => a = t /\ t1 = t /\ e = []));
    [by apply emits_get|].
  intros ? ? ? (-> & -> & ->). rewrite Ho.
  eapply (emits_bind (fail_if _ _) _ _ (fun _ t1 e => t1 = t /\ e = []));
    [by apply emits_ret|]. intros _ ? ? (-> & ->).
  eapply (emits_bind _ _ _ (fun _ t1 e => t1 = t /\ e = [])).
  { eapply emits_fst; [cbn; by rewrite Hp|done]. }
  intros _ ? ? (-> & ->).
  set (t1 := set_pes (alter_last set_ended (pes t)) t).
  eapply (emits_bind _ _ _ (fun _ t2 e => t2 = t1 /\ e = [])); [by apply emits_update_pes|].
  intros _ ? ? (-> & ->).
  eapply (emits_bind _ _ _ (fun _ t2 e => t2 = set_open false t1 /\ e = []));
    [by eapply emits_fst|]. intros _ ? ? (-> & ->). cbn [app].
  eapply emits_weaken; [apply (finish_emits _ (alter_last end_frame ins) outs)|..]; [|..|done].
  { by apply ledger_end. }
  intros _ t' evs' (q & outs' & -> & Hev' & Hl' & Hs' & Ht' & Hf).
  cbn [pes_of transformer_pes with_pes pes set_open set_pes t1] in *. rewrite total_ended in Ht'.
  exists (alter_last end_frame ins), outs'. split_and!; try done.
  - eapply frame_events_trans; [done|]. cbn [frame_events frame_event]. by rewrite Hopen.
  - by eapply frame_events_trans.
  - split; cbn [pes buffer block set_open set_pes t1]; try done. lia.
  - symmetry. apply open_alter_end.
  - rewrite !payloads_app, !signals_app, (framing_payloads evs'), (framing_signals evs') by done.
    cbn [payloads]. rewrite !app_nil_r. exact Hcut.
Qed.

(** *** A sequence of calls *)
Local Existing Instance transformer_handler.
Local Instance this_handler : PESHandler (Transformer C * W) :=
  transformer_handler prefix processFrames.

Lemma call_stands calls t evs ev : stands calls t evs -> well_formed (calls ++ [ev]) ->
  emits (W := W) (handle ev) t (fun _ t' e => stands (calls ++ [ev]) t' (evs ++ e))
    (fun e _ _ => cut_stream pl false c0 (payloads (calls ++ [ev])) = Fail (Err e)).
Proof.
  intros Hst [Hev Hh]. destruct ev as [h|d| |p]; cbn [handle].
  - apply Forall_app in Hh as [_ Hh]. apply Forall_cons in Hh as [Hh _].
    eapply emits_weaken; [apply header_stands; try done|done|done].
    apply Nat.leb_le, Is_true_true. exact Hh.
  - by apply payload_stands.
  - by eapply emits_weaken; [by apply end_stands|..].
  - apply emits_ret. rewrite app_nil_r.
    destruct Hst as (ins & outs & Hi & ? & ? & ? & Hk). exists ins, outs. split_and!; try done.
    + eapply frame_events_trans; [done|]. done.
    + by rewrite payloads_app, app_nil_r.
Qed.

Lemma calls_stand calls : forall done_ t evs, stands done_ t evs ->
  well_formed (done_ ++ calls) ->
  emits (W := W) (handle_all calls) t (fun _ t' e => stands (done_ ++ calls) t' (evs ++ e))
    (fun e _ _ => cut_stream pl false c0 (payloads (done_ ++ calls)) = Fail (Err e)).
Proof.
  induction calls as [|ev calls IH]; intros done_ t evs Hst Hw.
  { apply emits_ret. by rewrite !app_nil_r. }
  replace (done_ ++ ev :: calls) with ((done_ ++ [ev]) ++ calls) in *
    by by rewrite <- app_assoc.
  unfold handle_all. cbn [for_each]. eapply emits_bind.
  { eapply emits_weaken; [apply call_stands; [done|by eapply well_formed_app]|done|].
    cbn. intros e _ _ Hk. rewrite payloads_app. by apply (cut_stream_bad pl). }
  intros [] t' evs' Hst'. eapply emits_weaken; [by apply IH|..]; cbn beta.
  - intros _ t'' e. by rewrite (app_assoc evs).
  - done.
Qed.

Lemma stands_new : stands [] (NewTransformer c0) [].
Proof.
  exists [], []. split_and!; try done.
  - split; try done; [exists [], 0; split_and!; constructor|by right; right; left].
  - rewrite (cut_stream_unfold pl). unfold next_cut. by rewrite plan_nil.
Qed.

(** *** Flush *)
Lemma flush_stands calls t evs : stands calls t evs ->
  emits (W := W) (flush_call prefix truncated processFrames) t
    (fun _ t' e => stands calls t' (evs ++ e)
       /\ frame_events (evs ++ e) [] = frame_events calls [] /\ buffer t' = [])
    (fun e t' evs' => (e = Errorf (prefix +:+ "PES is still open")
         /\ option_map open_last (frame_events calls []) = Some true)
       \/ (e = Errorf (prefix +:+ truncated)
         /\ stands calls t' (evs ++ evs') /\ buffer t' <> [])).
Proof.
  intros Hst. pose proof Hst as (ins & outs & Hi & Hev & Hh & Ho & Hcut).
  unfold flush_call.
  eapply (emits_bind _ _ _ (fun a t1 e => a = t /\ t1 = t /\ e = []));
    [by apply emits_get|].
  intros ? ? ? (-> & -> & ->). cbn [app].
  destruct (inputPESOpen t) eqn:Hopen.
  { eapply (emits_bind (fail_if _ _) _ _ (fun _ _ _ => False)); [|by intros].
    apply emits_fail. left. split; [done|]. rewrite Hi. cbn. by rewrite <- Ho. }
  eapply (emits_bind (fail_if _ _) _ _ (fun _ t1 e => t1 = t /\ e = []));
    [by apply emits_ret|]. intros _ ? ? (-> & ->). cbn [app].
  eapply (emits_bind _ _ _ (fun _ t1 e => stands calls t1 (evs ++ e)
    /\ inputPESOpen t1 = false)).
  { pose proof (cut_stream_app pl _ _ _ [] _ Hcut) as Hcut'.
    rewrite !app_nil_r, Hcut in Hcut'. cbn [out patches sent cryptor rest] in Hcut'.
    eapply emits_weaken; [by apply (emits_process ins outs)|..].
    - intros _ t' e (outs' & Hev' & Hh' & Ho' & Hk). split; [|congruence].
      exists ins, outs'. rewrite Hk in Hcut'. split_and!; try done; [..|congruence|].
      + by eapply frame_events_trans.
      + rewrite Hcut, Hcut'. cbn. unfold prepend. cbn. by rewrite payloads_app, signals_app.
    - intros e ? ? Hk. by rewrite Hk in Hcut'. }
  intros _ t1 e1 [Hst1 Ho1]. pose proof Hst1 as (ins1 & outs1 & Hi1 & Hev1 & [Hl Hs Ht Hu Hc] & Ho1' & Hcut1).
  rewrite Hi in Hi1. injection Hi1 as <-.
  eapply (emits_bind _ _ _ (fun a t2 e => a = t1 /\ t2 = t1 /\ e = []));
    [by apply emits_get|].
  intros ? ? ? (-> & -> & ->). cbn [app].
  destruct (decide (buffer t1 = [])) as [Hb|Hb]; last first.
  { rewrite (proj2 (Nat.eqb_neq _ _)) by (by destruct (buffer t1)).
    eapply (emits_bind (fail_if _ _) _ _ (fun _ _ _ => False)); [|by intros].
    apply emits_fail. right. by rewrite app_nil_r. }
  rewrite Hb in Ht |- *.
  eapply (emits_bind (fail_if _ _) _ _ (fun _ t2 e => t2 = t1 /\ e = []));
    [by apply emits_ret|]. intros _ ? ? (-> & ->). cbn [app].
  symmetry in Ho.
  pose proof (ledger_closed _ _ _ Hl Hs Ht Ho) as Hq.
  eapply (emits_bind _ _ _ (fun _ t' e => finished ins outs1 t1 t' e)).
  { by eapply emits_weaken; [by apply (finish_emits _ ins outs1)|..]. }
  intros _ t' e2 (q & outs' & -> & Hev' & Hl' & Hs' & Ht' & Hf).
  cbn [pes_of transformer_pes] in Ht'. rewrite Hq in Ht'.
  pose proof (ledger_closed _ _ _ Hl' Hs' Ht' Ho) as ->.
  eapply (emits_bind _ _ _ (fun a t2 e => a = set_pes [] t1 /\ t2 = set_pes [] t1 /\ e = []));
    [by apply emits_get|].
  intros ? ? ? (-> & -> & ->). apply emits_ret. cbn [app]. rewrite app_nil_r.
  assert (frame_events (evs ++ e1 ++ e2) [] = Some outs').
  { rewrite app_assoc. by eapply frame_events_trans. }
  apply ledger_nil in Hl' as Heq. subst outs'.
  split_and!; [|congruence|done].
  exists ins, ins. split_and!; try done.
  - split; try done. by cbn; rewrite Hb.
  - rewrite app_assoc, payloads_app, signals_app, (framing_payloads e2), (framing_signals e2) by done.
    by rewrite !app_nil_r.
Qed.

(** A whole elementary stream: any calls, then [Flush]. *)
Lemma transform_emits calls : well_formed calls ->
  cuts_stream prefix truncated pl c0 calls
    (handle_all calls;; flush_call prefix truncated processFrames).
Proof.
  intros Hw. unfold cuts_stream. eapply emits_bind.
  { eapply emits_weaken; [by apply (calls_stand calls [] _ _ stands_new)|done|].
    cbn beta. by left. }
  cbn beta. intros _ t' evs Hst. eapply emits_weaken; [by apply flush_stands|..]; cbn beta.
  - intros _ t'' e (Hst' & Hev & Hb). split; [done|].
    destruct Hst' as (ins & outs & _ & _ & _ & _ & Hk). eexists. split; [exact Hk|]. done.
  - intros e t'' evs' [?|(-> & Hst' & Hb)]; [by right; left|]. right. right.
    split; [done|]. destruct Hst' as (ins & outs & _ & _ & _ & _ & Hk).
    eexists. split; [exact Hk|]. done.
Qed.
End Spec.
