(* ===== verification/Frames.v ===== *)
(** * Elementary streams made of whole frames

    What a frame-based transformer makes of a stream that is a sequence of
    frames: the frames encrypted one after the other, and, where each encrypted
    frame resets the cryptor (AAC and AC-3), each frame by itself, so that a
    receiver can decrypt frame by frame. *)

From S2P Require Import Prelude SampleAes Pmt PesHandler PesQueue Audio.

(** ** Streams made of frames *)
Section Frames.
Context {C : Type} `{BlockCryptorLaws C} (pl : bool -> list Z -> plan)
      {chained : bool} `{!PlanLaws chained pl}.

(** One frame at the front of a stream is cut off and encrypted by itself. *)
Lemma cut_stream_frame cs c f more reset off len :
  p_kind (pl cs f) = PFrame (length f) reset off len ->
  cut_stream pl cs c (f ++ more) =
  and_then (frame_crypted (if reset then reset_state c else c) off len (length f) f)
    (opt_list (p_setup (pl cs f)))
    (cut_stream pl (cs || bool_decide (is_Some (p_setup (pl cs f))))
       (cryptor_after (if reset then reset_state c else c) off len f) more).
Proof.
  intros Hk. pose proof (plan_frame _ _ _ _ _ _ Hk) as (Hs & Hl & _).
  rewrite (cut_stream_unfold pl). unfold next_cut.
  rewrite (plan_stable _ _ more _ _ _ _ Hk), Hk.
  destruct (frame_crypted_app (if reset then reset_state c else c) off len (length f) f more)
    as [-> ->]; [lia..|]. by rewrite and_then_app, app_nil_r, drop_app_length.
Qed.

(** A codec's description of its frames: which byte lists are frames, the
  patch the first one gives, whether one resets the cryptor, and the range
  that is encrypted. *)
Context (is_frame starts : list Z -> Prop) (patch_of : list Z -> Patch)
      (resets : list Z -> bool) (first len_of : list Z -> nat).
Context (Hframe : forall f, is_frame f ->
p_kind (pl true f) = PFrame (length f) (resets f) (first f) (len_of f)).
Context (Hfirst : forall f, is_frame f -> starts f ->
p_setup (pl false f) = Some (patch_of f)).

Definition crypt_frame (c : C) (f : list Z) : list Z :=
  frame_crypted (if resets f then reset_state c else c) (first f) (len_of f) (length f) f.
Definition after_frame (c : C) (f : list Z) : C :=
  cryptor_after (if resets f then reset_state c else c) (first f) (len_of f) f.

Fixpoint crypt_frames (c : C) (fs : list (list Z)) : list Z :=
  match fs with
  | [] => []
  | f :: fs => crypt_frame c f ++ crypt_frames (after_frame c f) fs
  end.

Definition after_frames (c : C) (fs : list (list Z)) : C := foldl after_frame c fs.

Lemma cut_frames_sent c fs : Forall is_frame fs ->
  cut_stream pl true c (concat fs) =
  Ok {| out := crypt_frames c fs; patches := []; sent := true;
        cryptor := after_frames c fs; rest := [] |}.
Proof.
  intros Hfs. revert c. induction Hfs as [|f fs Hf _ IH]; intros c; cbn [concat].
  - rewrite (cut_stream_unfold pl). unfold next_cut. by rewrite plan_nil.
  - rewrite (cut_stream_frame _ _ _ _ _ _ _ (Hframe f Hf)), plan_sent.
    cbn [opt_list orb]. by rewrite IH.
Qed.

(** A stream of frames gives the frames encrypted, and one patch. *)
Lemma cut_frames c f fs : Forall is_frame (f :: fs) -> starts f ->
  cut_stream pl false c (concat (f :: fs)) =
  Ok {| out := crypt_frames c (f :: fs); patches := [patch_of f]; sent := true;
        cryptor := after_frames c (f :: fs); rest := [] |}.
Proof.
  intros Hfs Hs. pose proof Hfs as [Hf _]%Forall_cons.
  change (concat (f :: fs)) with (f ++ concat fs) at 1.
  rewrite (cut_stream_setup pl _ _ _ _ (Hfirst f Hf Hs)).
  change (f ++ concat fs) with (concat (f :: fs)).
  by rewrite (cut_frames_sent c (f :: fs) Hfs).
Qed.

(** Frames that reset the cryptor, or leave it alone, are independent. *)
Lemma crypt_frames_independent c0 c fs : usable c -> reset_state c = reset_state c0 ->
  Forall (fun f => is_frame f /\ (resets f = false -> len_of f = 0)) fs ->
  crypt_frames c fs = concat (crypt_frame c0 <$> fs).
Proof.
  intros Hu Hr Hfs. revert c Hu Hr. induction Hfs as [|f fs [Hf Hn] _ IH]; intros c Hu Hr.
  { done. }
  cbn [crypt_frames fmap list_fmap concat]. f_equal.
  - unfold crypt_frame. destruct (resets f); [by rewrite Hr|].
    unfold frame_crypted. by rewrite Hn.
  - destruct (plan_frame _ _ _ _ _ _ (Hframe f Hf)) as (_ & Hl & Hm).
    destruct (usable_reset _ Hu) as (_ & Hu' & Ha').
    unfold after_frame. destruct (resets f).
    + destruct (cryptor_after_ok (reset_state c) (first f) (len_of f) f); try done; [by right|].
      apply IH; [done|]. unfold cryptor_after. destruct (0 <? len_of f).
      * by rewrite reset_after, reset_reset.
      * by rewrite reset_reset.
    + unfold cryptor_after. rewrite Hn by done. by apply IH.
Qed.
End Frames.

(** ** Decrypting a frame with its protected range *)
Section Range.
(** Replacing the bytes of a range; [n] is the length of the range. *)
Definition map_range (g : list Z -> list Z) (off n : nat) (f : list Z) : list Z :=
  take off f ++ g (slice f off (off + n)) ++ drop (off + n) f.

Lemma split_range {A} (a d z : list A) :
  take (length a) (a ++ d ++ z) = a
  /\ slice (a ++ d ++ z) (length a) (length a + length d) = d
  /\ drop (length a + length d) (a ++ d ++ z) = z.
Proof.
  unfold slice. rewrite take_app_length, drop_app_length.
  replace (length a + length d - length a) with (length d) by lia.
  by rewrite take_app_length, <- drop_drop, !drop_app_length.
Qed.

Lemma join_range {A} (f : list A) off n : off + n <= length f ->
  take off f ++ slice f off (off + n) ++ drop (off + n) f = f.
Proof.
  intros Hn. unfold slice. replace (off + n - off) with n by lia.
  by rewrite <- drop_drop, !take_drop.
Qed.

Lemma map_range_inverse g h off n f : off + n <= length f ->
  length (g (slice f off (off + n))) = n ->
  h (g (slice f off (off + n))) = slice f off (off + n) ->
  map_range h off n (map_range g off n f) = f.
Proof.
  intros Hn Hg Hh. unfold map_range.
  pose proof (split_range (take off f) (g (slice f off (off + n))) (drop (off + n) f)) as Hs.
  rewrite length_take, Nat.min_l, Hg in Hs by lia. destruct Hs as (E1 & E2 & E3).
  rewrite ?Hg, E1, E2, E3, Hh. by apply join_range.
Qed.

Lemma map_range_head g off n f i : i < off -> off <= length f ->
  byte_at (map_range g off n f) i = byte_at f i.
Proof.
  intros Hi Hf. unfold map_range, byte_at. rewrite lookup_app_l by llia.
  by rewrite lookup_take_lt.
Qed.

Lemma length_map_range g off n f : off + n <= length f ->
  length (g (slice f off (off + n))) = n -> length (map_range g off n f) = length f.
Proof. intros. unfold map_range. rewrite !length_app, length_take, length_drop. lia. Qed.

Lemma frame_crypted_range {C : Type} `{BlockCryptorLaws C} (c : C) off n f :
  off + n <= length f ->
  frame_crypted c off n (length f) f = if 0 <? n then map_range (enc c) off n f else f.
Proof.
  intros Hn. unfold frame_crypted, frame_out, map_range. rewrite (take_ge f (length f)) by lia.
  replace (slice f (off + n) (length f)) with (drop (off + n) f); [done|].
  unfold slice. rewrite take_ge; [done|llia].
Qed.
End Range.

(** ** Codecs whose frames are independent *)
Section Independent.
Context {C W : Type} `{BlockCryptorLaws C} `{PESHandler W} `{PMTSignal W}.
Context (prefix missing truncated : string) (pl : bool -> list Z -> plan)
      `{!PlanLaws false pl} (processFrames : M (Transformer C * W) unit).
Context (Hprocess : forall s, processFrames s = run_plan prefix missing pl s).

(** A frame gives a patch when it comes first, and has [len_of] bytes to be
  encrypted, from [first] on. *)
Context (is_frame : list Z -> bool) (patch_of : list Z -> Patch)
      (first len_of : list Z -> nat).
Context (Hplan : forall cs f, is_frame f ->
pl cs f = MkPlan (if cs then None else Some (patch_of f))
  (PFrame (length f) (0 <? len_of f) (if 0 <? len_of f then first f else 0) (len_of f))).

Definition encrypt_range (c : C) (f : list Z) : list Z :=
  if 0 <? len_of f then map_range (enc (reset_state c)) (first f) (len_of f) f else f.

Lemma frame_range f : is_frame f -> 0 < len_of f ->
  first f + len_of f <= length f /\ len_of f mod 16 = 0.
Proof.
  intros Hf Hn. destruct (plan_frame true f (length f) (0 <? len_of f)
    (if 0 <? len_of f then first f else 0) (len_of f)) as (_ & Hl & Hm).
  { by rewrite Hplan. }
  by rewrite (proj2 (Nat.ltb_lt _ _) Hn) in Hl.
Qed.

Let resets f := 0 <? len_of f.
Let start f := if 0 <? len_of f then first f else 0.

Lemma encrypt_frames (c : C) fs : usable c -> Forall is_frame fs ->
  crypt_frames resets start len_of c fs = concat (encrypt_range c <$> fs).
Proof.
  intros Hu Hfs. rewrite (crypt_frames_independent pl is_frame resets start len_of) with (c0 := c);
    [|by intros; rewrite Hplan|done..|].
  - f_equal. apply Forall_fmap_ext_1. eapply Forall_impl; [exact Hfs|].
    intros f Hf. unfold crypt_frame, encrypt_range, resets, start.
    pose proof (frame_range f Hf).
    destruct (Nat.ltb_spec 0 (len_of f)) as [Hp|Hp].
    + rewrite frame_crypted_range by lia. by rewrite (proj2 (Nat.ltb_lt _ _)).
    + replace (len_of f) with 0 by lia. unfold frame_crypted. cbn.
      apply take_ge. lia.
  - eapply Forall_impl; [exact Hfs|]. intros f Hf. split; [done|].
    unfold resets. intros ?%Nat.ltb_ge. lia.
Qed.

#[local] Instance codec_handler : PESHandler (Transformer C * W) :=
  transformer_handler prefix processFrames.

Lemma frames_emits (c : C) calls fs ins : usable c -> well_formed calls ->
  frame_events calls [] = Some ins -> open_last ins = false ->
  Forall is_frame fs -> payloads calls = concat fs ->
  sends (handle_all calls;; flush_call prefix truncated processFrames) (NewTransformer c)
    ins (concat (encrypt_range c <$> fs)) (patch_of <$> take 1 fs).
Proof.
  intros Hu Hw Hi Ho Hfs Hp.
  assert (Hcut : exists k, cut_stream pl false c (payloads calls) = Ok k /\ rest k = []
    /\ out k = concat (encrypt_range c <$> fs) /\ patches k = patch_of <$> take 1 fs).
  { rewrite Hp. destruct fs as [|f fs].
    { rewrite (cut_stream_unfold pl). unfold next_cut. rewrite plan_nil. by eexists. }
    rewrite (cut_frames pl is_frame is_frame patch_of resets start len_of); try done.
    - eexists. split; [done|]. cbn [rest out patches]. by rewrite encrypt_frames.
    - intros. by rewrite Hplan.
    - intros. by rewrite Hplan.
    - by apply Forall_cons in Hfs as [? _]. }
  destruct Hcut as (k & Hk & Hr & Hout & Hpat).
  eapply emits_weaken;
    [exact (transform_emits _ _ pl truncated _ Hprocess c Hu calls Hw)|..].
  - cbn beta. rewrite Hk, Hi. intros _ _ evs (He & k' & [= <-] & _ & -> & ->). done.
  - cbn beta. rewrite Hk, Hi. cbn. rewrite Ho.
    intros e _ _ [?|[[_ ?]|(_ & k' & [= <-] & ?)]]; done.
Qed.
End Independent.

(** ** Receiving them *)
Section Receiver.
Context (aes aes_inv : list Z -> list Z -> list Z) (Ha : aes_blocks aes).
#[local] Instance aes_cryptor : BlockCryptor CBCEncryptor := cbc_cryptor aes.
#[local] Instance aes_laws : BlockCryptorLaws CBCEncryptor := cbc_laws aes Ha.
Context (first len_of : list Z -> nat).

(** What a receiver does with a frame. *)
Definition decrypt_range (cfg : Config) (f : list Z) : list Z :=
  map_range (fun d => cbc_decrypt aes_inv (Key cfg) (IV cfg) (length d / 16) d)
    (first f) (len_of f) f.

Lemma decrypt_encrypt_range cfg e f : deciphers aes aes_inv cfg ->
  NewCBCEncryptor cfg = Ok e ->
  (0 < len_of f -> first f + len_of f <= length f /\ len_of f mod 16 = 0) ->
  (forall g, 0 < len_of f -> first (map_range g (first f) (len_of f) f) = first f
     /\ len_of (map_range g (first f) (len_of f) f) = len_of f) ->
  decrypt_range cfg (encrypt_range first len_of e f) = f.
Proof.
  intros Hd He Hr Hh. unfold encrypt_range, decrypt_range.
  destruct (Nat.ltb_spec 0 (len_of f)) as [Hp|Hp].
  - destruct (Hr Hp) as [Hl Hm].
    destruct (Hh (enc (reset_state e)) Hp) as [-> ->].
    set (d := slice f (first f) (first f + len_of f)).
    assert (Hlen : length d = len_of f) by (unfold d; rewrite length_slice; lia).
    rewrite <- Hlen in Hm.
    destruct (decrypt_enc aes aes_inv Ha cfg e d Hd He Hm) as (_ & Hle & Hdec).
    change (length (enc (reset_state e) d) = length d) in Hle.
    change (cbc_decrypt aes_inv (Key cfg) (IV cfg) (length d / 16)
      (enc (reset_state e) d) = d) in Hdec.
    apply map_range_inverse; [done|fold d; by rewrite Hle|fold d; by rewrite Hle].
  - replace (len_of f) with 0 by lia. unfold map_range, slice. rewrite Nat.add_0_r.
    rewrite Nat.sub_diag. cbn. apply take_drop.
Qed.

Context {W : Type} `{PESHandler W} `{PMTSignal W}.
Context (prefix missing truncated : string) (pl : bool -> list Z -> plan)
      `{!PlanLaws false pl} (processFrames : M (Transformer CBCEncryptor * W) unit).
Context (Hprocess : forall s, processFrames s = run_plan prefix missing pl s).
Context (is_frame : list Z -> bool) (patch_of : list Z -> Patch).
Context (Hplan : forall cs f, is_frame f ->
pl cs f = MkPlan (if cs then None else Some (patch_of f))
  (PFrame (length f) (0 <? len_of f) (if 0 <? len_of f then first f else 0) (len_of f))).
#[local] Instance receiver_handler : PESHandler (Transformer CBCEncryptor * W) :=
  transformer_handler prefix processFrames.

(** What has been sent on are frames that decrypt to the frames received. *)
Lemma frames_decrypt cfg e calls fs ins :
  (forall f, is_frame f -> forall g, 0 < len_of f ->
     first (map_range g (first f) (len_of f) f) = first f
     /\ len_of (map_range g (first f) (len_of f) f) = len_of f) ->
  deciphers aes aes_inv cfg -> NewCBCEncryptor cfg = Ok e -> well_formed calls ->
  frame_events calls [] = Some ins -> open_last ins = false ->
  Forall is_frame fs -> payloads calls = concat fs ->
  exists gs, decrypt_range cfg <$> gs = fs
    /\ sends (handle_all calls;; flush_call prefix truncated processFrames)
         (NewTransformer e) ins (concat gs) (patch_of <$> take 1 fs).
Proof.
  intros Hh Hd He Hw Hi Ho Hfs Hp.
  destruct (decrypt_enc aes aes_inv Ha cfg e [] Hd He eq_refl) as (Hu & _).
  exists (encrypt_range first len_of e <$> fs). split; last first.
  { by apply (frames_emits prefix missing truncated pl processFrames Hprocess is_frame
                patch_of first len_of Hplan e calls fs ins). }
  rewrite <- list_fmap_compose. rewrite <- (list_fmap_id fs) at 2.
  apply Forall_fmap_ext_1. eapply Forall_impl; [exact Hfs|].
  intros f Hf. apply decrypt_encrypt_range; try done; [|by apply Hh].
  by apply (frame_range pl is_frame patch_of first len_of Hplan).
Qed.
End Receiver.

(** ** Receiving frames that continue each other's chain *)
Section Chained.
Context (aes aes_inv : list Z -> list Z -> list Z) (Ha : aes_blocks aes).
#[local] Instance chained_cryptor : BlockCryptor CBCEncryptor := cbc_cryptor aes.
#[local] Instance chained_laws : BlockCryptorLaws CBCEncryptor := cbc_laws aes Ha.
Context (resets : list Z -> bool) (first len_of : list Z -> nat).

(** The encrypted frames, one by one. *)
Fixpoint crypt_list (c : CBCEncryptor) (fs : list (list Z)) : list (list Z) :=
  match fs with
  | [] => []
  | f :: fs => crypt_frame resets first len_of c f
      :: crypt_list (after_frame resets first len_of c f) fs
  end.

Lemma crypt_frames_list c fs :
  crypt_frames resets first len_of c fs = concat (crypt_list c fs).
Proof. revert c. induction fs as [|f fs IH]; intros c; cbn; [done|]. by rewrite IH. Qed.

(** A receiver: the chain starts again at frames that reset, and goes on with
  the last encrypted block otherwise. *)
Fixpoint decrypt_chained (cfg : Config) (iv : list Z) (fs : list (list Z)) : list (list Z) :=
  match fs with
  | [] => []
  | f :: fs =>
      let iv := if resets f then IV cfg else iv in
      let n := len_of f in
      map_range (fun d => cbc_decrypt aes_inv (Key cfg) iv (length d / 16) d) (first f) n f
      :: decrypt_chained cfg
           (if 0 <? n then slice f (first f + n - 16) (first f + n) else iv) fs
  end.

(** Encryption leaves in the clear what frames are recognised by. *)
Definition clear_header (f : list Z) : Prop :=
  forall g, let f' := map_range g (first f) (len_of f) f in
    resets f' = resets f /\ first f' = first f /\ len_of f' = len_of f.

Definition good_frame (f : list Z) : Prop :=
  first f + len_of f <= length f /\ len_of f mod 16 = 0
  /\ (0 < len_of f -> clear_header f).

(** The encryptor with its chain at [iv]. *)
Definition chained_at (cfg : Config) (iv : list Z) : CBCEncryptor :=
  {| SampleAes.block := Some (Key cfg); initIV := IV cfg; mode := Some iv |}.

Lemma map_range_nil g off f : g [] = [] -> map_range g off 0 f = f.
Proof.
  intros Hg. unfold map_range, slice. replace (off + 0 - off) with 0 by lia.
  rewrite take_0, Hg, Nat.add_0_r. apply take_drop.
Qed.

Lemma slice_map_range_end g off n f m : off + n <= length f -> m <= n ->
  length (g (slice f off (off + n))) = n ->
  slice (map_range g off n f) (off + n - m) (off + n) = drop (n - m) (g (slice f off (off + n))).
Proof.
  intros Hn Hm Hg. unfold map_range, slice at 1. set (d := g _) in *.
  rewrite drop_app_ge by llia. rewrite drop_app_le by llia.
  rewrite take_app_le by llia. rewrite take_ge by llia. f_equal. llia.
Qed.

(** One frame: it can be decrypted, and the receiver knows the new chain. *)
Lemma decrypt_one cfg iv f : deciphers aes aes_inv cfg -> length iv = 16 ->
  good_frame f ->
  let f' := crypt_frame resets first len_of (chained_at cfg iv) f in
  let iv0 := if resets f' then IV cfg else iv in
  map_range (fun d => cbc_decrypt aes_inv (Key cfg) iv0 (length d / 16) d)
    (first f') (len_of f') f' = f
  /\ exists iv', length iv' = 16
     /\ (if 0 <? len_of f' then slice f' (first f' + len_of f' - 16) (first f' + len_of f')
         else iv0) = iv'
     /\ after_frame resets first len_of (chained_at cfg iv) f = chained_at cfg iv'.
Proof.
  intros [Hinv Hv] Hiv (Hl & Hm & Hc). pose proof (valid_lengths _ Hv) as [_ HI].
  unfold crypt_frame, after_frame. set (iv1 := if resets f then IV cfg else iv).
  assert (Hiv1 : length iv1 = 16) by (unfold iv1; by destruct (resets f)).
  replace (if resets f then reset_state (chained_at cfg iv) else chained_at cfg iv)
    with (chained_at cfg iv1) by (unfold iv1; by destruct (resets f)).
  rewrite frame_crypted_range by done. unfold cryptor_after. cbn zeta.
  destruct (Nat.ltb_spec 0 (len_of f)) as [Hp|Hp].
  - destruct (Hc Hp (enc (chained_at cfg iv1))) as (Er & Ef & El). rewrite Er, Ef, El.
    fold iv1. set (d := slice f (first f) (first f + len_of f)).
    assert (Hlen : length d = len_of f) by (unfold d; rewrite length_slice; lia).
    assert (Hd : length d = 16 * (length d / 16)) by (apply mod16_mul; congruence).
    change (enc (chained_at cfg iv1)) with
      (fun d => cbc_encrypt aes (Key cfg) iv1 (length d / 16) d).
    assert (Hle : length (cbc_encrypt aes (Key cfg) iv1 (length d / 16) d) = len_of f)
      by (rewrite length_cbc_encrypt; [lia|done]).
    split.
    + apply map_range_inverse; [done..|]. fold d. rewrite Hle, <- Hlen.
      by apply cbc_decrypt_encrypt.
    + rewrite (proj2 (Nat.ltb_lt _ _) Hp). eexists. split; [|split; [done|]].
      * rewrite length_slice by (rewrite length_map_range by done; lia). lia.
      * rewrite slice_map_range_end by (done || lia). fold d.
        change (after (chained_at cfg iv1) d) with
          (chained_at cfg (cbc_chain aes (Key cfg) iv1 (length d / 16) d)).
        rewrite cbc_chain_last by (done || lia). do 2 f_equal. lia.
  - replace (len_of f) with 0 by lia. cbn. rewrite map_range_nil by done.
    split; [done|]. by exists iv1.
Qed.

Lemma decrypt_chained_list cfg iv fs : deciphers aes aes_inv cfg -> length iv = 16 ->
  Forall good_frame fs ->
  decrypt_chained cfg iv (crypt_list (chained_at cfg iv) fs) = fs.
Proof.
  intros Hd Hiv Hfs. revert iv Hiv. induction Hfs as [|f fs Hf _ IH]; intros iv Hiv; [done|].
  destruct (decrypt_one cfg iv f Hd Hiv Hf) as (E & iv' & Hiv' & E1 & E2).
  cbn [crypt_list decrypt_chained]. cbn zeta in *. rewrite E, E1, E2. f_equal. by apply IH.
Qed.

(** From a fresh encryptor, when the first frame resets. *)
Lemma decrypt_chained_new cfg e f fs : deciphers aes aes_inv cfg ->
  NewCBCEncryptor cfg = Ok e -> Forall good_frame (f :: fs) ->
  resets f = true ->
  decrypt_chained cfg (IV cfg) (crypt_list e (f :: fs)) = f :: fs.
Proof.
  intros Hd He Hfs Hr. pose proof Hd as [_ Hv]. pose proof (valid_lengths _ Hv) as [_ HI].
  rewrite <- (decrypt_chained_list cfg (IV cfg) (f :: fs) Hd HI Hfs) at 2.
  rewrite new_encryptor in He by done. injection He as <-.
  f_equal. cbn [crypt_list]. unfold crypt_frame, after_frame. by rewrite Hr.
Qed.
End Chained.
