(* ===== verification/Aac.v ===== *)
(** * ts/codecs/aac: the AAC transformer

    The ADTS framing loop [processFrames] as written, its plan, and the
    transformer obtained from the shared methods of Audio.v. *)

From S2P Require Import Prelude SampleAes Descriptor Pmt PesHandler PesQueue Audio Frames.

Definition adtsHeaderSize : nat := 7.

(** ** pmt.go *)
Definition sampleAESStreamType : Z := 0xCF.

(** The setup record, with the bytes of 'zaac'. *)
Definition audio_setup_information (config : Z * Z) : list Z :=
  [0x7A; 0x61; 0x61; 0x63; 0; 0; 1; 2; config.1; config.2]%Z.

Definition patchPMT (config : Z * Z) : Patch :=
  let setup := audio_setup_information config in
  retype sampleAESStreamType
    [private_data_indicator 0x61616364; registration 0x61706164 setup].

(** ** ADTS header fields *)
Section Fields.
Local Open Scope Z_scope.
Context (b : list Z).

Definition adts_sync : bool :=
  (byte_at b 0 =? 0xFF) && (Z.land (byte_at b 1) 0xF0 =? 0xF0).

Definition headerSize : nat :=
  if Z.land (byte_at b 1) 1 =? 0 then 9%nat else adtsHeaderSize.

Definition audio_config : Z * Z :=
  let profile := Z.land (Z.shiftr (byte_at b 2) 6) 0x03 in
  let samplingFrequencyIndex := Z.land (Z.shiftr (byte_at b 2) 2) 0x0F in
  let channelConfiguration :=
    Z.lor (u8 (Z.shiftl (Z.land (byte_at b 2) 0x01) 2)) (Z.shiftr (byte_at b 3) 6) in
  let audioObjectType := u8 (profile + 1) in
  (Z.lor (u8 (Z.shiftl audioObjectType 3)) (Z.shiftr samplingFrequencyIndex 1),
   Z.lor (u8 (Z.shiftl samplingFrequencyIndex 7)) (u8 (Z.shiftl channelConfiguration 3))).

Definition frameSize : nat := Z.to_nat (
  Z.lor (Z.lor (Z.shiftl (Z.land (byte_at b 3) 0x03) 11)
               (Z.shiftl (byte_at b 4) 3))
        (Z.shiftr (byte_at b 5) 5)).
End Fields.

(** ** transformer.go *)
Section Methods.
Context {C W : Type} `{BlockCryptor C} `{PESHandler W} `{PMTSignal W}.

(** One round of the loop of [processFrames]. *)
Definition frame_step (_ : unit) : M (Transformer C * W) (unit + unit) :=
  t ← on_fst get;
  let b := buffer t in
  if length b <? adtsHeaderSize then mret (inr tt)
  else
    fail_if (negb (adts_sync b)) "AAC transformer: ADTS syncword missing";;
    if length b <? headerSize b then mret (inr tt)
    else
      when (negb (configSent t))
        (on_snd (signal (patchPMT (audio_config b)));; on_fst (modify set_sent));;
      fail_if (frameSize b <? headerSize b)
        "AAC transformer: invalid ADTS frame length";;
      if length b <? frameSize b then mret (inr tt)
      else
        let protectedOffset := headerSize b + 16 in
        when (protectedOffset <? frameSize b)
          (let protectedSize := (frameSize b - protectedOffset) / 16 * 16 in
           when (0 <? protectedSize)
             (on_block Reset;; crypt_range protectedOffset protectedSize));;
        t ← on_fst get;
        write_frame "AAC transformer: " "missing PES for ADTS payload"
          (take (frameSize b) (buffer t));;
        on_fst (modify (fun t => set_buffer (drop (frameSize b) (buffer t)) t));;
        mret (inl tt).

(** The fuel: every round that continues takes a frame off the buffer. *)
Definition processFrames : M (Transformer C * W) unit := fun s =>
  iter (length (buffer s.1) + 1) frame_step tt s.

Definition PESHeader : list Z -> M (Transformer C * W) unit :=
  header_call "AAC transformer: ".
Definition PESPayload : list Z -> M (Transformer C * W) unit :=
  payload_call "AAC transformer: " processFrames.
Definition PESEnd : M (Transformer C * W) unit := end_call "AAC transformer: ".
Definition Flush : M (Transformer C * W) unit :=
  flush_call "AAC transformer: " "truncated ADTS frame" processFrames.
End Methods.

(** ** The plan *)
Definition protected_offset (b : list Z) : nat := headerSize b + 16.
Definition protected_size (b : list Z) : nat := (frameSize b - (headerSize b + 16)) / 16 * 16.

Definition adts_plan (cs : bool) (b : list Z) : plan :=
  if length b <? adtsHeaderSize then MkPlan None PNeed
  else if negb (adts_sync b) then
    MkPlan None (PBad (Errorf "AAC transformer: ADTS syncword missing"))
  else if length b <? headerSize b then MkPlan None PNeed
  else
    let o := if cs then None else Some (patchPMT (audio_config b)) in
    if frameSize b <? headerSize b then
      MkPlan o (PBad (Errorf "AAC transformer: invalid ADTS frame length"))
    else if length b <? frameSize b then MkPlan o PNeed
    else
      let len := protected_size b in
      MkPlan o (PFrame (frameSize b) (0 <? len)
                  (if 0 <? len then headerSize b + 16 else 0) len).

(** The fields are in the fixed part of the header. *)
Lemma adts_fields_app b more : adtsHeaderSize <= length b ->
  adts_sync (b ++ more) = adts_sync b /\ headerSize (b ++ more) = headerSize b
  /\ audio_config (b ++ more) = audio_config b /\ frameSize (b ++ more) = frameSize b.
Proof.
  unfold adtsHeaderSize. intros Hb. unfold adts_sync, headerSize, audio_config, frameSize.
  by rewrite !byte_at_app by lia.
Qed.

Lemma adts_protected_size_app b more : adtsHeaderSize <= length b ->
  protected_size (b ++ more) = protected_size b.
Proof.
  intros Hb. destruct (adts_fields_app b more Hb) as (_ & Eh & _ & Es).
  unfold protected_size. by rewrite Eh, Es.
Qed.

Lemma headerSize_bounds b : 7 <= headerSize b <= 9.
Proof. unfold headerSize, adtsHeaderSize. destruct (_ =? _)%Z; lia. Qed.

Lemma adts_protected_size_bound b : 0 < protected_size b ->
  headerSize b + 16 + protected_size b <= frameSize b.
Proof.
  unfold protected_size. intros Hp.
  pose proof (div_mul_le (frameSize b - (headerSize b + 16)) 16). lia.
Qed.

Lemma adts_protected_size_mod b : protected_size b mod 16 = 0.
Proof. by apply mod_div_mul. Qed.

(** The header stays in the clear. *)
Lemma adts_fields_map_range g n f : protected_offset f + n <= length f ->
  protected_offset (map_range g (protected_offset f) n f) = protected_offset f
  /\ protected_size (map_range g (protected_offset f) n f) = protected_size f.
Proof.
  unfold protected_offset at 1. intros Hn. pose proof (headerSize_bounds f).
  assert (Hi : forall i, i < 7 ->
    byte_at (map_range g (protected_offset f) n f) i = byte_at f i).
  { unfold protected_offset. intros i Hi. apply map_range_head; lia. }
  assert (Hh : headerSize (map_range g (protected_offset f) n f) = headerSize f).
  { unfold headerSize at 1. by rewrite Hi by lia. }
  unfold protected_size. split.
  - unfold protected_offset at 1. by rewrite Hh.
  - rewrite Hh. unfold frameSize. by rewrite !Hi by lia.
Qed.

#[local] Opaque frameSize headerSize protected_size audio_config adts_sync Nat.modulo Nat.div.

(** Follows the branches of the plan. *)
Ltac adts_cases :=
  repeat first
    [ case_nat
    | match goal with
      | |- context [if negb ?c then _ else _] => destruct (negb c)
      | H : context [if negb ?c then _ else _] |- _ => destruct (negb c)
      end ];
  cbn [p_setup p_kind strip] in *; try discriminate;
  repeat match goal with
  | H : PFrame _ _ _ _ = PFrame _ _ _ _ |- _ => injection H as <- <- <- <-
  end; cbn [length] in *; try lia; try done.

(** The plan of a buffer whose header has arrived, as more bytes arrive. *)
Lemma adts_plan_more cs b more : adtsHeaderSize <= length b ->
  adts_plan cs (b ++ more) =
    let n := length b + length more in
    if negb (adts_sync b) then
      MkPlan None (PBad (Errorf "AAC transformer: ADTS syncword missing"))
    else if n <? headerSize b then MkPlan None PNeed
    else
      let o := if cs then None else Some (patchPMT (audio_config b)) in
      if frameSize b <? headerSize b then
        MkPlan o (PBad (Errorf "AAC transformer: invalid ADTS frame length"))
      else if n <? frameSize b then MkPlan o PNeed
      else
        let len := protected_size b in
        MkPlan o (PFrame (frameSize b) (0 <? len)
                    (if 0 <? len then headerSize b + 16 else 0) len).
Proof.
  intros Hb. destruct (adts_fields_app b more Hb) as (E1 & E2 & E3 & E4).
  unfold adts_plan. rewrite E1, E2, E3, E4, (adts_protected_size_app b more Hb), length_app.
  by destruct (Nat.ltb_spec (length b + length more) adtsHeaderSize); [lia|].
Qed.

Lemma adts_plan_short cs b : length b < adtsHeaderSize -> adts_plan cs b = MkPlan None PNeed.
Proof. intros. unfold adts_plan. by case_nat; [|lia]. Qed.

(** With the header there or not there. *)
Ltac adts_split b :=
  destruct (Nat.lt_ge_cases (length b) adtsHeaderSize) as [Hb|Hb];
  [rewrite (adts_plan_short _ b Hb) in *; cbn [p_setup p_kind] in *; try done
  |pose proof (fun cs => adts_plan_more cs b [] Hb) as E0; rewrite app_nil_r in E0;
   rewrite ?(adts_plan_more _ b _ Hb); rewrite E0 in *; clear E0; cbn zeta in *].

#[export] Instance adts_plan_laws : PlanLaws false adts_plan.
Proof.
  split.
  - intros cs b size reset off len Hk. pose proof (headerSize_bounds b).
    pose proof (adts_protected_size_bound b).
    pose proof (adts_protected_size_mod b).
    adts_split b. adts_cases; split_and!; (done || lia).
  - done.
  - intros b. adts_split b. adts_cases.
  - intros cs b more size reset off len Hk. adts_split b. adts_cases.
  - intros cs b more e Hk. adts_split b. adts_cases.
  - intros b more p Hk. adts_split b. adts_cases.
  - intros b size reset off len Hk. adts_split b. adts_cases; eauto.
  - intros cs b size reset off len Hk _. adts_split b. adts_cases; auto.
Qed.

(** ** The loop follows the plan *)
Section Correct.
Context {C W : Type} `{BlockCryptorLaws C} `{PESHandler W} `{PMTSignal W}.

Lemma adts_frame_step_plan u (s : Transformer C * W) :
  frame_step u s =
  plan_step "AAC transformer: " "missing PES for ADTS payload" adts_plan u s.
Proof.
  destruct s as [t w]. unfold frame_step, plan_step, adts_plan.
  cbn [on_fst get mbind M_bind]. rewrite !bind_unfold. cbn [on_fst get].
  destruct (Nat.ltb_spec (length (buffer t)) adtsHeaderSize); [done|].
  destruct (negb (adts_sync (buffer t))); [done|].
  cbn [fail_if]. rewrite bind_ret.
  destruct (Nat.ltb_spec (length (buffer t)) (headerSize (buffer t))); [done|].
  assert (Hs : forall k : unit -> M (Transformer C * W) (unit + unit),
    (when (negb (configSent t)) (on_snd (signal (patchPMT (audio_config (buffer t))));;
       on_fst (modify set_sent)) ≫= k) (t, w) =
    (signal_setup (if configSent t then None else Some (patchPMT (audio_config (buffer t))))
      ≫= k) (t, w)) by by destruct (configSent t).
  rewrite Hs. clear Hs.
  destruct (Nat.ltb_spec (frameSize (buffer t)) (headerSize (buffer t))); [done|].
  destruct (Nat.ltb_spec (length (buffer t)) (frameSize (buffer t))); [done|].
  cbn [p_setup p_kind fail_if]. apply bind_ext. intros _ s. rewrite bind_ret.
  change ((frameSize (buffer t) - (headerSize (buffer t) + 16)) / 16 * 16) with (protected_size (buffer t)).
  destruct (Nat.ltb_spec 0 (protected_size (buffer t))) as [Hp|Hp].
  - pose proof (adts_protected_size_bound _ Hp).
    rewrite (proj2 (Nat.ltb_lt _ _)) by lia. cbn [when]. by rewrite bind_assoc.
  - by destruct (Nat.ltb_spec (headerSize (buffer t) + 16) (frameSize (buffer t))).
Qed.

Lemma adts_processFrames_plan (s : Transformer C * W) : processFrames s =
  run_plan "AAC transformer: " "missing PES for ADTS payload" adts_plan s.
Proof. unfold processFrames, run_plan. apply iter_ext, adts_frame_step_plan. Qed.
End Correct.

(** ** ADTS frames *)
Definition adts_frame (f : list Z) : bool :=
  (adtsHeaderSize <=? length f) && adts_sync f && (headerSize f <=? frameSize f)
  && (frameSize f =? length f).

(** Each frame with a protected part has it encrypted, after a reset. *)
Definition encrypt_frame {C : Type} `{BlockCryptorLaws C} : C -> list Z -> list Z :=
  encrypt_range protected_offset protected_size.

Lemma adts_frame_plan cs f : adts_frame f ->
  adts_plan cs f = MkPlan (if cs then None else Some (patchPMT (audio_config f)))
    (PFrame (length f) (0 <? protected_size f)
      (if 0 <? protected_size f then protected_offset f else 0) (protected_size f)).
Proof.
  intros Hf%Is_true_true. revert Hf. unfold adts_frame, protected_offset. rewrite !andb_true_iff, !Nat.leb_le, Nat.eqb_eq.
  intros (((Hl & Hs) & Hh) & Hf). rewrite <- (app_nil_r f) at 1.
  rewrite adts_plan_more, Hs by done. cbn [negb length]. rewrite Nat.add_0_r, <- Hf.
  by repeat case_nat; try lia.
Qed.

Section Streams.
Context {C W : Type} `{BlockCryptorLaws C} `{PESHandler W} `{PMTSignal W}.

Definition handler : PESHandler (Transformer C * W) :=
  transformer_handler "AAC transformer: " processFrames.
#[local] Existing Instance handler.

(** The calls of one elementary stream, from a new transformer on. *)
Definition transform (calls : list event) : M (Transformer C * W) unit :=
  handle_all calls;; Flush.

(** C7: any stream: once it has been flushed, the packets sent on have the
  headers and sizes of the packets received, and their payloads are the
  received bytes cut into ADTS frames and encrypted, with one patch; an error
  of the transformer itself means that the bytes cannot be cut, that the last
  PES is open or that the last frame is cut off. *)
Theorem transform_stream (c : C) calls : usable c -> well_formed calls ->
  cuts_stream (W := W) "AAC transformer: " "truncated ADTS frame" adts_plan c calls (transform calls).
Proof.
  intros Hu Hw.
  exact (transform_emits _ _ adts_plan _ _ adts_processFrames_plan c Hu calls Hw).
Qed.

(** C8: a stream of whole ADTS frames, however the calls split it, is sent on
  with each frame encrypted by itself, its header and the following sixteen
  bytes in the clear, and the patch of the first frame; only the next handler
  can fail. *)
Theorem transform_frames (c : C) calls fs ins : usable c -> well_formed calls ->
  frame_events calls [] = Some ins -> open_last ins = false ->
  Forall adts_frame fs -> payloads calls = concat fs ->
  sends (W := W) (transform calls) (NewTransformer c) ins
    (concat (encrypt_frame c <$> fs)) ((fun f => patchPMT (audio_config f)) <$> take 1 fs).
Proof.
  intros. apply (frames_emits _ _ _ adts_plan processFrames adts_processFrames_plan adts_frame); auto.
  apply adts_frame_plan.
Qed.
End Streams.

(** ** Decryption *)
Section Decryption.
Context (aes aes_inv : list Z -> list Z -> list Z) (Ha : aes_blocks aes).
#[local] Instance aes_cryptor : BlockCryptor CBCEncryptor := cbc_cryptor aes.
#[local] Instance aes_laws : BlockCryptorLaws CBCEncryptor := cbc_laws aes Ha.
Context {W : Type} `{PESHandler W} `{PMTSignal W}.

(** C9: with the configured AES-CBC encryptor, what is sent on is a stream of
  frames that decrypt, with the key and IV of the configuration, to exactly
  the frames received. *)
Theorem transform_decrypts cfg e calls fs ins :
  deciphers aes aes_inv cfg -> NewCBCEncryptor cfg = Ok e -> well_formed calls ->
  frame_events calls [] = Some ins -> open_last ins = false ->
  Forall adts_frame fs -> payloads calls = concat fs ->
  exists gs, decrypt_range aes_inv protected_offset protected_size cfg <$> gs = fs
    /\ sends (W := W) (transform calls) (NewTransformer e) ins (concat gs)
         ((fun f => patchPMT (audio_config f)) <$> take 1 fs).
Proof.
  intros Hd He Hw Hi Ho Hfs Hp.
  apply (frames_decrypt aes aes_inv Ha _ _ _ _ _ adts_plan processFrames adts_processFrames_plan
    adts_frame _ adts_frame_plan) with (ins := ins); auto.
  intros f Hf g Hp'. apply adts_fields_map_range.
  by destruct (frame_range adts_plan adts_frame _ _ _ adts_frame_plan f Hf Hp').
Qed.
End Decryption.

(** ** A concrete stream: two frames in three packets *)
Module Example.
Import Toy.
#[export] Instance toy_cryptor : BlockCryptor CBCEncryptor := cbc_cryptor aes.
#[export] Instance toy_laws : BlockCryptorLaws CBCEncryptor := cbc_laws aes aes_is_blocks.

Definition pes_header : list Z := [0; 0; 1; 0xC0; 0; 0]%Z.
Definition frame1 : list Z := ([0xFF; 0xF1; 0x4C; 0x80; 5; 0; 0] ++ replicate 33 7)%Z.
Definition frame2 : list Z := ([0xFF; 0xF1; 0x4C; 0x80; 1; 0x20; 0] ++ [8; 9])%Z.
Definition stream : list event :=
  [EHeader pes_header; EPayload (take 10 frame1); EEnd;
   EHeader pes_header; EPayload (drop 10 frame1 ++ take 3 frame2); EPayload (drop 3 frame2);
   EEnd; EHeader pes_header; EEnd].

(** Headers and sizes of the packets. *)
Definition sizes : list frame :=
  [MkFrame pes_header 10 true; MkFrame pes_header 39 true; MkFrame pes_header 0 true].

Lemma adts_stream_well_formed : well_formed stream.
Proof. split; [by eexists|]. by repeat constructor. Qed.
End Example.

Import Example Recorder.

Lemma transform_stream_witness : well_formed Example.stream /\
  cuts_stream (W := list event) "AAC transformer: " "truncated ADTS frame" adts_plan
    Toy.encryptor Example.stream (transform Example.stream).
Proof.
  split; [apply Example.adts_stream_well_formed|].
  apply transform_stream; [by eexists|apply Example.adts_stream_well_formed].
Defined.

Lemma transform_frames_witness :
  sends (W := list event) (transform Example.stream) (NewTransformer Toy.encryptor)
    Example.sizes (concat (encrypt_frame Toy.encryptor <$> [Example.frame1; Example.frame2]))
    [patchPMT (audio_config Example.frame1)].
Proof.
  apply (transform_frames Toy.encryptor Example.stream [Example.frame1; Example.frame2]).
  - by eexists.
  - apply Example.adts_stream_well_formed.
  - reflexivity.
  - reflexivity.
  - by repeat constructor.
  - reflexivity.
Defined.

Lemma transform_decrypts_witness :
  exists gs, decrypt_range Toy.aes protected_offset protected_size Toy.config <$> gs
      = [Example.frame1; Example.frame2]
    /\ sends (W := list event) (transform Example.stream) (NewTransformer Toy.encryptor)
         Example.sizes (concat gs) [patchPMT (audio_config Example.frame1)].
Proof.
  apply (transform_decrypts Toy.aes Toy.aes Toy.aes_is_blocks Toy.config Toy.encryptor
    Example.stream [Example.frame1; Example.frame2]).
  - apply Toy.config_deciphers.
  - reflexivity.
  - apply Example.adts_stream_well_formed.
  - reflexivity.
  - reflexivity.
  - by repeat constructor.
  - reflexivity.
Defined.
