(* ===== verification/Ac3.v ===== *)
(** * ts/codecs/ac3: the AC-3 transformer

    The syncframe loop [processFrames] as written, its plan, and the transformer
    obtained from the shared methods of Audio.v. *)

From S2P Require Import Prelude SampleAes Descriptor Pmt PesHandler PesQueue Audio Frames.

Definition ac3HeaderSize : nat := 5.
Definition ac3SetupSize : nat := 10.
Definition ac3ClearLead : nat := 16.

(** 16-bit words per syncframe, by frame size code and sample rate code. *)
Definition frameSizeWords : list (nat * nat * nat) :=
    [(64, 69, 96); (64, 70, 96); (80, 87, 120); (80, 88, 120); (96, 104, 144); (96,
     105, 144); (112, 121, 168); (112, 122, 168); (128, 139, 192); (128, 140, 192);
     (160, 174, 240); (160, 175, 240); (192, 208, 288); (192, 209, 288); (224, 243,
     336); (224, 244, 336); (256, 278, 384); (256, 279, 384); (320, 348, 480); (320,
     349, 480); (384, 417, 576); (384, 418, 576); (448, 487, 672); (448, 488, 672);
     (512, 557, 768); (512, 558, 768); (640, 696, 960); (640, 697, 960); (768, 835,
     1152); (768, 836, 1152); (896, 975, 1344); (896, 976, 1344); (1024, 1114, 1536);
     (1024, 1115, 1536); (1152, 1253, 1728); (1152, 1254, 1728); (1280, 1393, 1920);
     (1280, 1394, 1920)].

(** ** pmt.go *)
Definition sampleAESStreamType : Z := 0xC1.

(** The setup record, with the bytes of 'zac3'. *)
Definition audio_setup_information (setup : list Z) : list Z :=
  ([0x7A; 0x61; 0x63; 0x33; 0; 0; 1; 10] ++ setup)%Z.

Definition patchPMT (setup : list Z) : Patch :=
  let info := audio_setup_information setup in
  retype sampleAESStreamType
    [private_data_indicator 0x61633364; registration 0x61706164 info].

(** ** Syncframe header fields *)
Section Fields.
Local Open Scope Z_scope.
Context (b : list Z).

Definition sync : bool := (byte_at b 0 =? 0x0B) && (byte_at b 1 =? 0x77).
Definition fscod : Z := Z.shiftr (byte_at b 4) 6.
Definition frmsizecod : Z := Z.land (byte_at b 4) 0x3F.
Definition invalid_code : bool := (2 <? fscod) || (37 <? frmsizecod).

(** [int(frameSizeWords[frmsizecod][fscod]) * 2]; the codes are in range. *)
Definition frameSize : nat :=
  match frameSizeWords !! Z.to_nat frmsizecod with
  | Some (w48, w44, w32) =>
      (if (fscod =? 0)%Z then w48 else if (fscod =? 1)%Z then w44 else w32) * 2
  | None => 0
  end%nat.

Definition unsupported_bsid : bool := 8 <? Z.shiftr (byte_at b 5) 3.
End Fields.

(** ** transformer.go *)
Section Methods.
Context {C W : Type} `{BlockCryptor C} `{PESHandler W} `{PMTSignal W}.

(** One round of the loop of [processFrames]. *)
Definition frame_step (_ : unit) : M (Transformer C * W) (unit + unit) :=
  t ← on_fst get;
  let b := buffer t in
  if length b <? ac3HeaderSize then mret (inr tt)
  else
    fail_if (negb (sync b)) "AC-3 transformer: syncword missing";;
    fail_if (invalid_code b) "AC-3 transformer: invalid frame size code";;
    if length b <? ac3SetupSize then mret (inr tt)
    else
      fail_if (unsupported_bsid b) "AC-3 transformer: unsupported bitstream id";;
      when (negb (configSent t))
        (on_snd (signal (patchPMT (take 10 b)));; on_fst (modify set_sent));;
      if length b <? frameSize b then mret (inr tt)
      else
        when (ac3ClearLead <? frameSize b)
          (let protectedSize := (frameSize b - ac3ClearLead) / 16 * 16 in
           when (0 <? protectedSize)
             (on_block Reset;; crypt_range ac3ClearLead protectedSize));;
        t ← on_fst get;
        write_frame "AC-3 transformer: " "missing PES for syncframe payload"
          (take (frameSize b) (buffer t));;
        on_fst (modify (fun t => set_buffer (drop (frameSize b) (buffer t)) t));;
        mret (inl tt).

(** The fuel: every round that continues takes a frame off the buffer. *)
Definition processFrames : M (Transformer C * W) unit := fun s =>
  iter (length (buffer s.1) + 1) frame_step tt s.

Definition PESHeader : list Z -> M (Transformer C * W) unit :=
  header_call "AC-3 transformer: ".
Definition PESPayload : list Z -> M (Transformer C * W) unit :=
  payload_call "AC-3 transformer: " processFrames.
Definition PESEnd : M (Transformer C * W) unit := end_call "AC-3 transformer: ".
Definition Flush : M (Transformer C * W) unit :=
  flush_call "AC-3 transformer: " "truncated syncframe" processFrames.
End Methods.

(** ** The plan *)
Definition protected_offset (b : list Z) : nat := ac3ClearLead.
Definition protected_size (b : list Z) : nat := (frameSize b - ac3ClearLead) / 16 * 16.

(** What is wrong with the first five bytes. *)
Definition bad_header (b : list Z) : option goerror :=
  if negb (sync b) then Some (Errorf "AC-3 transformer: syncword missing")
  else if invalid_code b then Some (Errorf "AC-3 transformer: invalid frame size code")
  else None.

(** The plan once there are [n] bytes, of which the first ten are those of [b]. *)
Definition ac3_read (cs : bool) (b : list Z) (n : nat) : plan :=
  if unsupported_bsid b then
    MkPlan None (PBad (Errorf "AC-3 transformer: unsupported bitstream id"))
  else
    let o := if cs then None else Some (patchPMT (take 10 b)) in
    if n <? frameSize b then MkPlan o PNeed
    else
      let len := protected_size b in
      MkPlan o (PFrame (frameSize b) (0 <? len)
                  (if 0 <? len then protected_offset b else 0) len).

Definition ac3_plan (cs : bool) (b : list Z) : plan :=
  if length b <? ac3HeaderSize then MkPlan None PNeed
  else match bad_header b with
  | Some e => MkPlan None (PBad e)
  | None => if length b <? ac3SetupSize then MkPlan None PNeed else ac3_read cs b (length b)
  end.

(** ** The fields are in the fixed part of the header *)
Lemma ac3_fields_app b more : ac3HeaderSize <= length b ->
  bad_header (b ++ more) = bad_header b /\ frameSize (b ++ more) = frameSize b
  /\ protected_size (b ++ more) = protected_size b.
Proof.
  unfold ac3HeaderSize. intros Hb.
  assert (Hf : frameSize (b ++ more) = frameSize b).
  { unfold frameSize, fscod, frmsizecod. by rewrite !byte_at_app by lia. }
  unfold protected_size. rewrite Hf. split_and!; try done.
  unfold bad_header, sync, invalid_code, fscod, frmsizecod. by rewrite !byte_at_app by lia.
Qed.

Lemma ac3_read_app cs b more n : ac3SetupSize <= length b ->
  ac3_read cs (b ++ more) n = ac3_read cs b n.
Proof.
  unfold ac3SetupSize. intros Hb. destruct (ac3_fields_app b more) as (_ & Ef & Ep).
  { unfold ac3HeaderSize. lia. }
  unfold ac3_read, unsupported_bsid. rewrite Ef, Ep, byte_at_app, take_app_le by lia. done.
Qed.

(** Every entry of the table is at least 64. *)
Lemma frameSize_bound b : invalid_code b = false -> 128 <= frameSize b.
Proof.
  unfold invalid_code. intros [_ Hc%Z.ltb_ge]%orb_false_iff. unfold frameSize.
  destruct (lookup_lt_is_Some_2 frameSizeWords (Z.to_nat (frmsizecod b))) as [[[w1 w2] w3] Hw].
  { cbn. lia. }
  rewrite Hw.
  assert (Hall : forallb (fun '(w1, w2, w3) => (64 <=? w1) && (64 <=? w2) && (64 <=? w3))
            frameSizeWords = true) by reflexivity.
  rewrite forallb_forall in Hall. apply list_elem_of_lookup_2, list_elem_of_In in Hw.
  apply Hall in Hw. rewrite !andb_true_iff, !Nat.leb_le in Hw.
  destruct (fscod b =? 0)%Z, (fscod b =? 1)%Z; lia.
Qed.

Lemma ac3_protected_size_mod b : protected_size b mod 16 = 0.
Proof. by apply mod_div_mul. Qed.

Lemma ac3_protected_size_bound b : 0 < protected_size b ->
  protected_offset b + protected_size b <= frameSize b.
Proof.
  unfold protected_size, protected_offset. intros Hp.
  pose proof (div_mul_le (frameSize b - ac3ClearLead) 16). lia.
Qed.

Lemma ac3_fields_map_range g n f : ac3ClearLead + n <= length f ->
  frameSize (map_range g ac3ClearLead n f) = frameSize f.
Proof.
  unfold ac3ClearLead. intros Hn. unfold frameSize, fscod, frmsizecod.
  by rewrite !map_range_head by lia.
Qed.

Lemma bad_header_code b : bad_header b = None -> invalid_code b = false.
Proof. unfold bad_header. by destruct (negb (sync b)), (invalid_code b). Qed.

#[local] Opaque frameSize protected_size unsupported_bsid Nat.modulo Nat.div.

(** The plan by how much of the header has arrived. *)
Lemma ac3_plan_short cs b : length b < ac3HeaderSize -> ac3_plan cs b = MkPlan None PNeed.
Proof. intros. unfold ac3_plan. by case_nat; [|lia]. Qed.

Lemma ac3_plan_bad cs b more e : ac3HeaderSize <= length b -> bad_header b = Some e ->
  ac3_plan cs (b ++ more) = MkPlan None (PBad e).
Proof.
  intros Hb He. destruct (ac3_fields_app b more Hb) as (E & _ & _).
  unfold ac3_plan. rewrite E, He, length_app. by case_nat; [lia|].
Qed.

Lemma ac3_plan_wait cs b : length b < ac3SetupSize -> bad_header b = None ->
  ac3_plan cs b = MkPlan None PNeed.
Proof. intros Hb He. unfold ac3_plan. rewrite He. repeat case_nat; try done. lia. Qed.

Lemma ac3_plan_more cs b more : ac3SetupSize <= length b -> bad_header b = None ->
  ac3_plan cs (b ++ more) = ac3_read cs b (length b + length more).
Proof.
  intros Hb He. assert (Hb' : ac3HeaderSize <= length b).
  { unfold ac3HeaderSize, ac3SetupSize in *. lia. }
  destruct (ac3_fields_app b more Hb') as (E & _ & _).
  unfold ac3_plan. rewrite E, He, ac3_read_app, length_app by done. by repeat case_nat; try lia.
Qed.

(** Follows the branches of the plan, by how much has arrived. *)
Ltac ac3_split b :=
  destruct (Nat.lt_ge_cases (length b) ac3HeaderSize) as [Hb|Hb];
  [rewrite (ac3_plan_short _ b Hb) in *; cbn [p_setup p_kind] in *; try done
  |destruct (bad_header b) as [e'|] eqn:He;
   [pose proof (fun cs => ac3_plan_bad cs b [] e' Hb He) as E0; rewrite app_nil_r in E0;
    rewrite ?(ac3_plan_bad _ b _ e' Hb He); rewrite E0 in *; clear E0;
    cbn [p_setup p_kind] in *; try done
   |destruct (Nat.lt_ge_cases (length b) ac3SetupSize) as [Hs|Hs];
    [rewrite (ac3_plan_wait _ b Hs He) in *; cbn [p_setup p_kind] in *; try done
    |pose proof (fun cs => ac3_plan_more cs b [] Hs He) as E0; rewrite app_nil_r in E0;
     rewrite ?(ac3_plan_more _ b _ Hs He); rewrite E0 in *; clear E0;
     pose proof (frameSize_bound b (bad_header_code b He));
     unfold ac3_read in *; cbn zeta in *]]];
  try destruct (unsupported_bsid b); repeat case_nat;
  cbn [p_setup p_kind strip length] in *; try discriminate;
  repeat match goal with
  | H : PFrame _ _ _ _ = PFrame _ _ _ _ |- _ => injection H as <- <- <- <-
  end; try lia; try done.

#[export] Instance ac3_plan_laws : PlanLaws false ac3_plan.
Proof.
  split.
  - intros cs b size reset off len Hk. pose proof (ac3_protected_size_bound b).
    pose proof (ac3_protected_size_mod b). ac3_split b; split_and!; (done || lia).
  - done.
  - intros b. ac3_split b.
  - intros cs b more size reset off len Hk. ac3_split b.
  - intros cs b more e Hk. ac3_split b.
  - intros b more p Hk. ac3_split b.
  - intros b size reset off len Hk. ac3_split b; eauto.
  - intros cs b size reset off len Hk _. ac3_split b; auto.
Qed.

(** ** The loop follows the plan *)
Section Correct.
Context {C W : Type} `{BlockCryptorLaws C} `{PESHandler W} `{PMTSignal W}.

Lemma ac3_frame_step_plan u (s : Transformer C * W) :
  frame_step u s =
  plan_step "AC-3 transformer: " "missing PES for syncframe payload" ac3_plan u s.
Proof.
  destruct s as [t w]. unfold frame_step, plan_step, ac3_plan.
  rewrite !bind_unfold. cbn [on_fst get]. set (b := buffer t).
  destruct (Nat.ltb_spec (length b) ac3HeaderSize); [done|].
  unfold bad_header. destruct (negb (sync b)); [done|]. cbn [fail_if]. rewrite bind_ret.
  destruct (invalid_code b); [done|]. cbn [fail_if]. rewrite bind_ret.
  destruct (Nat.ltb_spec (length b) ac3SetupSize); [done|]. unfold ac3_read.
  destruct (unsupported_bsid b); [done|]. cbn [fail_if]. rewrite bind_ret.
  assert (Hs : forall k : unit -> M (Transformer C * W) (unit + unit),
    (when (negb (configSent t)) (on_snd (signal (patchPMT (take 10 b)));;
       on_fst (modify set_sent)) ≫= k) (t, w) =
    (signal_setup (if configSent t then None else Some (patchPMT (take 10 b)))
      ≫= k) (t, w)) by by destruct (configSent t).
  rewrite Hs. clear Hs.
  destruct (Nat.ltb_spec (length b) (frameSize b)); [done|].
  cbn [p_setup p_kind]. apply bind_ext. intros _ s.
  change ((frameSize b - ac3ClearLead) / 16 * 16) with (protected_size b).
  destruct (Nat.ltb_spec 0 (protected_size b)) as [Hp|Hp].
  - pose proof (ac3_protected_size_bound _ Hp). unfold protected_offset in *.
    rewrite (proj2 (Nat.ltb_lt _ _)) by lia. cbn [when]. by rewrite bind_assoc.
  - by destruct (Nat.ltb_spec ac3ClearLead (frameSize b)).
Qed.

Lemma ac3_processFrames_plan (s : Transformer C * W) : processFrames s =
  run_plan "AC-3 transformer: " "missing PES for syncframe payload" ac3_plan s.
Proof. unfold processFrames, run_plan. apply iter_ext, ac3_frame_step_plan. Qed.
End Correct.

(** ** Syncframes *)
Definition ac3_frame (f : list Z) : bool :=
  (ac3SetupSize <=? length f) && sync f && negb (invalid_code f)
  && negb (unsupported_bsid f) && (frameSize f =? length f).

(** Each frame longer than the clear lead is encrypted, after a reset. *)
Definition encrypt_frame {C : Type} `{BlockCryptorLaws C} : C -> list Z -> list Z :=
  encrypt_range protected_offset protected_size.

Lemma ac3_frame_plan cs f : ac3_frame f ->
  ac3_plan cs f = MkPlan (if cs then None else Some (patchPMT (take 10 f)))
    (PFrame (length f) (0 <? protected_size f)
      (if 0 <? protected_size f then protected_offset f else 0) (protected_size f)).
Proof.
  intros Hf%Is_true_true. revert Hf. unfold ac3_frame.
  rewrite !andb_true_iff, !negb_true_iff, Nat.leb_le, Nat.eqb_eq.
  intros ((((Hl & Hs) & Hc) & Hb) & Hf). rewrite <- (app_nil_r f) at 1.
  rewrite ac3_plan_more; [|done|by unfold bad_header; rewrite Hs, Hc].
  unfold ac3_read. rewrite Hb. cbn [length]. rewrite Nat.add_0_r, <- Hf.
  by case_nat; [lia|].
Qed.

Section Streams.
Context {C W : Type} `{BlockCryptorLaws C} `{PESHandler W} `{PMTSignal W}.

Definition handler : PESHandler (Transformer C * W) :=
  transformer_handler "AC-3 transformer: " processFrames.
#[local] Existing Instance handler.

(** The calls of one elementary stream, from a new transformer on. *)
Definition transform (calls : list event) : M (Transformer C * W) unit :=
  handle_all calls;; Flush.

(** C10: any stream, as for AAC: the packets keep their headers and sizes, the
  bytes are cut into syncframes and encrypted, and every error of the
  transformer itself has its reason in the bytes received. *)
Theorem ac3_transform_stream (c : C) calls : usable c -> well_formed calls ->
  cuts_stream (W := W) "AC-3 transformer: " "truncated syncframe" ac3_plan c calls (transform calls).
Proof.
  intros Hu Hw.
  exact (transform_emits _ _ ac3_plan _ _ ac3_processFrames_plan c Hu calls Hw).
Qed.

(** C11: a stream of whole syncframes, however the calls split it, is sent on
  with each frame encrypted by itself after its first sixteen bytes, and with
  the patch whose setup is the first ten bytes of the first frame. *)
Theorem ac3_transform_frames (c : C) calls fs ins : usable c -> well_formed calls ->
  frame_events calls [] = Some ins -> open_last ins = false ->
  Forall ac3_frame fs -> payloads calls = concat fs ->
  sends (W := W) (transform calls) (NewTransformer c) ins
    (concat (encrypt_frame c <$> fs)) ((fun f => patchPMT (take 10 f)) <$> take 1 fs).
Proof.
  intros. apply (frames_emits _ _ _ ac3_plan processFrames ac3_processFrames_plan ac3_frame); auto.
  apply ac3_frame_plan.
Qed.
End Streams.

(** ** Decryption *)
Section Decryption.
Context (aes aes_inv : list Z -> list Z -> list Z) (Ha : aes_blocks aes).
#[local] Instance aes_cryptor : BlockCryptor CBCEncryptor := cbc_cryptor aes.
#[local] Instance aes_laws : BlockCryptorLaws CBCEncryptor := cbc_laws aes Ha.
Context {W : Type} `{PESHandler W} `{PMTSignal W}.

(** C12: with the configured AES-CBC encryptor, what is sent on is a stream of
  syncframes that decrypt to exactly the frames received. *)
Theorem ac3_transform_decrypts cfg e calls fs ins :
  deciphers aes aes_inv cfg -> NewCBCEncryptor cfg = Ok e -> well_formed calls ->
  frame_events calls [] = Some ins -> open_last ins = false ->
  Forall ac3_frame fs -> payloads calls = concat fs ->
  exists gs, decrypt_range aes_inv protected_offset protected_size cfg <$> gs = fs
    /\ sends (W := W) (transform calls) (NewTransformer e) ins (concat gs)
         ((fun f => patchPMT (take 10 f)) <$> take 1 fs).
Proof.
  intros Hd He Hw Hi Ho Hfs Hp.
  apply (frames_decrypt aes aes_inv Ha _ _ _ _ _ ac3_plan processFrames ac3_processFrames_plan
    ac3_frame _ ac3_frame_plan) with (ins := ins); auto.
  intros f Hf g Hp'.
  destruct (frame_range ac3_plan ac3_frame _ _ _ ac3_frame_plan f Hf Hp') as [Hl _].
  split; [done|]. Transparent protected_size.
  unfold protected_size at 1. unfold protected_offset in *.
  by rewrite ac3_fields_map_range.
Qed.
End Decryption.

(** ** A concrete stream: two frames in two packets *)
Module Example.
Import Toy.
#[export] Instance toy_cryptor : BlockCryptor CBCEncryptor := cbc_cryptor aes.
#[export] Instance toy_laws : BlockCryptorLaws CBCEncryptor := cbc_laws aes aes_is_blocks.

Definition pes_header : list Z := [0; 0; 1; 0xBD; 0; 0]%Z.
Definition frame1 : list Z := ([0x0B; 0x77; 1; 2; 0; 0x40] ++ replicate 122 7)%Z.
Definition frame2 : list Z := ([0x0B; 0x77; 3; 4; 0x40; 0x40] ++ replicate 132 9)%Z.
Definition stream : list event :=
  [EHeader pes_header; EPayload (take 10 frame1); EEnd;
   EHeader pes_header; EPayload (drop 10 frame1 ++ take 3 frame2); EPayload (drop 3 frame2);
   EEnd].

(** Headers and sizes of the packets. *)
Definition sizes : list frame :=
  [MkFrame pes_header 10 true; MkFrame pes_header 256 true].

Lemma ac3_stream_well_formed : well_formed stream.
Proof. split; [by eexists|]. by repeat constructor. Qed.
End Example.

Import Example Recorder.

Lemma ac3_transform_stream_witness : well_formed Example.stream /\
  cuts_stream (W := list event) "AC-3 transformer: " "truncated syncframe" ac3_plan
    Toy.encryptor Example.stream (transform Example.stream).
Proof.
  split; [apply Example.ac3_stream_well_formed|].
  apply ac3_transform_stream; [by eexists|apply Example.ac3_stream_well_formed].
Defined.

Lemma ac3_transform_frames_witness :
  sends (W := list event) (transform Example.stream) (NewTransformer Toy.encryptor)
    Example.sizes (concat (encrypt_frame Toy.encryptor <$> [Example.frame1; Example.frame2]))
    [patchPMT (take 10 Example.frame1)].
Proof.
  apply (ac3_transform_frames Toy.encryptor Example.stream [Example.frame1; Example.frame2]).
  - by eexists.
  - apply Example.ac3_stream_well_formed.
  - reflexivity.
  - reflexivity.
  - by repeat constructor.
  - reflexivity.
Defined.

Lemma ac3_transform_decrypts_witness :
  exists gs, decrypt_range Toy.aes protected_offset protected_size Toy.config <$> gs
      = [Example.frame1; Example.frame2]
    /\ sends (W := list event) (transform Example.stream) (NewTransformer Toy.encryptor)
         Example.sizes (concat gs) [patchPMT (take 10 Example.frame1)].
Proof.
  apply (ac3_transform_decrypts Toy.aes Toy.aes Toy.aes_is_blocks Toy.config Toy.encryptor
    Example.stream [Example.frame1; Example.frame2]).
  - apply Toy.config_deciphers.
  - reflexivity.
  - apply Example.ac3_stream_well_formed.
  - reflexivity.
  - reflexivity.
  - by repeat constructor.
  - reflexivity.
Defined.
