(* ===== verification/Eac3.v ===== *)
(** * ts/codecs/eac3: the E-AC-3 transformer

    The syncframe parser and loop [processFrames] as written, its plan, and the
    transformer obtained from the shared methods of Audio.v.  Dependent
    syncframes continue the CBC chain of the frame before them. *)

From S2P Require Import Prelude SampleAes Descriptor Pmt PesHandler PesQueue Audio Frames.

Definition eac3HeaderSize : nat := 7.
Definition eac3ClearLead : nat := 16.

Definition sampleRates : list Z := [48000; 44100; 32000; 0]%Z.
Definition frameBlocks : list Z := [1; 2; 3; 6]%Z.

(** ** pmt.go *)
Definition sampleAESStreamType : Z := 0xC2.

(** The setup record, with the bytes of 'zec3'. *)
Definition audio_setup_information (setup : list Z) : list Z :=
  ([0x7A; 0x65; 0x63; 0x33; 0; 0; 1; 5] ++ setup)%Z.

Definition patchPMT (setup : list Z) : Patch :=
  let info := audio_setup_information setup in
  retype sampleAESStreamType
    [private_data_indicator 0x65633364; registration 0x61706164 info].

(** ** syncframeHeader *)
Record syncframeHeader := MkHeader {
  frameType : Z;
  frameSize : nat;
  sampleRate : Z;
  blocks : Z;
  fscod : Z;
  bsid : Z;
  acmod : Z;
  lfeon : Z;
}.

Section Header.
Local Open Scope Z_scope.

Definition sample_fields (data : list Z) : outcome (Z * Z) :=
  let fscod := Z.shiftr (byte_at data 4) 6 in
  let code := Z.land (Z.shiftr (byte_at data 4) 4) 0x03 in
  if fscod =? 3 then
    if code =? 3 then Fail (Err (Errorf "E-AC-3 transformer: invalid sample rate code"))
    else Ok (byte_at sampleRates (Z.to_nat code) / 2, 6)
  else Ok (byte_at sampleRates (Z.to_nat fscod), byte_at frameBlocks (Z.to_nat code)).

Definition parseSyncframeHeader (data : list Z) : outcome syncframeHeader :=
  if negb ((byte_at data 0 =? 0x0B) && (byte_at data 1 =? 0x77)) then
    Fail (Err (Errorf "E-AC-3 transformer: syncword missing"))
  else
    let frameType := Z.shiftr (byte_at data 2) 6 in
    if frameType =? 3 then
      Fail (Err (Errorf "E-AC-3 transformer: reserved frame type"))
    else
      let frameSize := Z.to_nat ((Z.lor (Z.shiftl (Z.land (byte_at data 2) 0x07) 8)
                                        (byte_at data 3) + 1) * 2) in
      if (frameSize <? eac3HeaderSize)%nat then
        Fail (Err (Errorf "E-AC-3 transformer: invalid frame size"))
      else
        '(sampleRate, blocks) ← sample_fields data;
        let bsid := Z.shiftr (byte_at data 5) 3 in
        if (bsid <? 11) || (16 <? bsid) then
          Fail (Err (Errorf "E-AC-3 transformer: invalid bitstream id"))
        else Ok {|
          frameType := frameType;
          frameSize := frameSize;
          sampleRate := sampleRate;
          blocks := blocks;
          fscod := Z.shiftr (byte_at data 4) 6;
          bsid := bsid;
          acmod := Z.land (Z.shiftr (byte_at data 4) 1) 0x07;
          lfeon := Z.land (byte_at data 4) 0x01 |}.

Definition setup (h : syncframeHeader) : list Z :=
  let dataRate :=
    Z.of_nat (frameSize h) * 8 * sampleRate h / (blocks h * 256) / 1000 in
  [u8 (Z.shiftr dataRate 5);
   u8 (Z.shiftl dataRate 3);
   Z.lor (u8 (Z.shiftl (fscod h) 6)) (u8 (Z.shiftl (bsid h) 1));
   Z.lor (u8 (Z.shiftl (acmod h) 1)) (lfeon h);
   0].

Definition independent (h : syncframeHeader) : bool :=
  (frameType h =? 0) || (frameType h =? 2).
End Header.

(** ** transformer.go *)
Section Methods.
Context {C W : Type} `{BlockCryptor C} `{PESHandler W} `{PMTSignal W}.

(** One round of the loop of [processFrames]. *)
Definition frame_step (_ : unit) : M (Transformer C * W) (unit + unit) :=
  t ← on_fst get;
  let b := buffer t in
  if length b <? eac3HeaderSize then mret (inr tt)
  else
    header ← lift (parseSyncframeHeader b);
    when (negb (configSent t))
      (fail_if (negb (independent header))
         "E-AC-3 transformer: independent syncframe required first";;
       on_snd (signal (patchPMT (setup header)));; on_fst (modify set_sent));;
    if length b <? frameSize header then mret (inr tt)
    else
      when (independent header) (on_block Reset);;
      when (eac3ClearLead <? frameSize header)
        (let protectedSize := (frameSize header - eac3ClearLead) / 16 * 16 in
         when (0 <? protectedSize) (crypt_range eac3ClearLead protectedSize));;
      t ← on_fst get;
      write_frame "E-AC-3 transformer: " "missing PES for syncframe payload"
        (take (frameSize header) (buffer t));;
      on_fst (modify (fun t => set_buffer
        (if length (buffer t) =? frameSize header then []
         else drop (frameSize header) (buffer t)) t));;
      mret (inl tt).

(** The fuel: every round that continues takes a frame off the buffer. *)
Definition processFrames : M (Transformer C * W) unit := fun s =>
  iter (length (buffer s.1) + 1) frame_step tt s.

Definition PESHeader : list Z -> M (Transformer C * W) unit :=
  header_call "E-AC-3 transformer: ".
Definition PESPayload : list Z -> M (Transformer C * W) unit :=
  payload_call "E-AC-3 transformer: " processFrames.
Definition PESEnd : M (Transformer C * W) unit := end_call "E-AC-3 transformer: ".
Definition Flush : M (Transformer C * W) unit :=
  flush_call "E-AC-3 transformer: " "truncated syncframe" processFrames.
End Methods.

(** ** The plan *)
Definition protected_size (h : syncframeHeader) : nat :=
  (frameSize h - eac3ClearLead) / 16 * 16.

(** The plan of a header, once there are [n] bytes. *)
Definition eac3_read (cs : bool) (r : outcome syncframeHeader) (n : nat) : plan :=
  match r with
  | Ok h =>
      if negb cs && negb (independent h) then MkPlan None
        (PBad (Errorf "E-AC-3 transformer: independent syncframe required first"))
      else
        let o := if cs then None else Some (patchPMT (setup h)) in
        if n <? frameSize h then MkPlan o PNeed
        else
          let len := protected_size h in
          MkPlan o (PFrame (frameSize h) (independent h)
                      (if 0 <? len then eac3ClearLead else 0) len)
  | Fail (Err e) => MkPlan None (PBad e)
  | Fail _ => MkPlan None PNeed
  end.

Definition eac3_plan (cs : bool) (b : list Z) : plan :=
  if length b <? eac3HeaderSize then MkPlan None PNeed
  else eac3_read cs (parseSyncframeHeader b) (length b).

Lemma parse_app b more : eac3HeaderSize <= length b ->
  parseSyncframeHeader (b ++ more) = parseSyncframeHeader b.
Proof.
  unfold eac3HeaderSize. intros Hb. unfold parseSyncframeHeader, sample_fields.
  by rewrite !byte_at_app by lia.
Qed.

(** The parser fails with an error value, and headers that parse have a size. *)
Lemma parse_result b :
  match parseSyncframeHeader b with
  | Ok h => eac3HeaderSize <= frameSize h
  | Fail f => exists e, f = Err e
  end.
Proof.
  unfold parseSyncframeHeader. destruct (negb _); [by eauto|]. cbn zeta.
  destruct (_ =? 3)%Z; [by eauto|].
  destruct (Nat.ltb_spec (Z.to_nat ((Z.lor (Z.shiftl (Z.land (byte_at b 2) 0x07) 8)
    (byte_at b 3) + 1) * 2)) eac3HeaderSize) as [|Hs]; [by eauto|].
  assert (Hf : match sample_fields b with Ok _ => True | Fail f => exists e, f = Err e end).
  { unfold sample_fields. destruct (_ =? 3)%Z; [|done]. by destruct (_ =? 3)%Z; eauto. }
  destruct (sample_fields b) as [[r k]|f]; [|done]. cbn [mbind outcome_bind].
  by destruct (_ || _); eauto.
Qed.

Lemma eac3_protected_size_mod h : protected_size h mod 16 = 0.
Proof. by apply mod_div_mul. Qed.

Lemma eac3_protected_size_bound h : 0 < protected_size h ->
  eac3ClearLead + protected_size h <= frameSize h.
Proof.
  unfold protected_size. intros Hp. pose proof (div_mul_le (frameSize h - eac3ClearLead) 16). lia.
Qed.

#[local] Opaque frameSize protected_size parseSyncframeHeader setup independent Nat.modulo Nat.div.

Lemma eac3_plan_short cs b : length b < eac3HeaderSize -> eac3_plan cs b = MkPlan None PNeed.
Proof. intros. unfold eac3_plan. by case_nat; [|lia]. Qed.

Lemma eac3_plan_more cs b more : eac3HeaderSize <= length b ->
  eac3_plan cs (b ++ more) = eac3_read cs (parseSyncframeHeader b) (length b + length more).
Proof.
  intros Hb. unfold eac3_plan. rewrite parse_app, length_app by done. by case_nat; [lia|].
Qed.

(** Follows the branches of the plan, by how much has arrived. *)
Ltac eac3_split b :=
  destruct (Nat.lt_ge_cases (length b) eac3HeaderSize) as [Hb|Hb];
  [rewrite (eac3_plan_short _ b Hb) in *; cbn [p_setup p_kind] in *; try done
  |pose proof (fun cs => eac3_plan_more cs b [] Hb) as E0; rewrite app_nil_r in E0;
   rewrite ?(eac3_plan_more _ b _ Hb); rewrite E0 in *; clear E0;
   pose proof (parse_result b) as Hr;
   destruct (parseSyncframeHeader b) as [h|f]; [|destruct Hr as [e' ->]];
   unfold eac3_read in *; cbn zeta in *;
   [pose proof (eac3_protected_size_bound h); pose proof (eac3_protected_size_mod h)|..];
   unfold eac3HeaderSize in *];
  repeat first [case_nat | destruct (independent _) eqn:Hi];
  cbn [p_setup p_kind strip length negb andb] in *; try discriminate;
  repeat match goal with
  | H : PFrame _ _ _ _ = PFrame _ _ _ _ |- _ => injection H as <- <- <- <-
  end; try lia; try done.

#[export] Instance eac3_plan_laws : PlanLaws true eac3_plan.
Proof.
  split.
  - intros [] b size reset off len Hk; eac3_split b; split_and!; (done || lia).
  - done.
  - intros b. eac3_split b.
  - intros [] b more size reset off len Hk; eac3_split b.
  - intros [] b more e Hk; eac3_split b.
  - intros b more p Hk. eac3_split b.
  - intros b size reset off len Hk. eac3_split b; eauto.
  - intros [] b size reset off len Hk [|]; eac3_split b; auto.
Qed.

(** ** The loop follows the plan *)
Section Correct.
Context {C W : Type} `{BlockCryptorLaws C} `{PESHandler W} `{PMTSignal W}.

Lemma drop_frame n (t : Transformer C) :
  set_buffer (if length (buffer t) =? n then [] else drop n (buffer t)) t
  = set_buffer (drop n (buffer t)) t.
Proof. destruct (Nat.eqb_spec (length (buffer t)) n); [|done]. by rewrite drop_ge by lia. Qed.

Lemma eac3_frame_step_plan u (s : Transformer C * W) :
  frame_step u s =
  plan_step "E-AC-3 transformer: " "missing PES for syncframe payload" eac3_plan u s.
Proof.
  destruct s as [t w]. unfold frame_step, plan_step, eac3_plan.
  rewrite !bind_unfold. cbn [on_fst get]. set (b := buffer t).
  destruct (Nat.ltb_spec (length b) eac3HeaderSize); [done|].
  pose proof (parse_result b) as Hr.
  destruct (parseSyncframeHeader b) as [h|f]; [|by destruct Hr as [e ->]].
  rewrite bind_unfold. cbn [lift]. unfold eac3_read.
  assert (Hs : forall k k' : unit -> M (Transformer C * W) (unit + unit),
    negb (configSent t) && negb (independent h) = false ->
    (forall s, k tt s = k' tt s) ->
    (when (negb (configSent t)) (fail_if (negb (independent h))
       "E-AC-3 transformer: independent syncframe required first";;
       on_snd (signal (patchPMT (setup h)));; on_fst (modify set_sent)) ≫= k) (t, w) =
    (signal_setup (if configSent t then None else Some (patchPMT (setup h)))
      ≫= k') (t, w)).
  { intros k k' Hi Hk. transitivity ((signal_setup (if configSent t then None
      else Some (patchPMT (setup h))) ≫= k) (t, w)); [|by apply bind_ext; intros []].
    destruct (configSent t); [done|]. by destruct (independent h). }
  destruct (negb (configSent t) && negb (independent h)) eqn:Hi.
  { by destruct (configSent t), (independent h). }
  destruct (Nat.ltb_spec (length b) (frameSize h)).
  - cbn [p_setup p_kind]. apply Hs; [done|]. done.
  - cbn [p_setup p_kind]. apply Hs; [done|]. intros s. apply bind_ext. intros _ s1.
    change ((frameSize h - eac3ClearLead) / 16 * 16) with (protected_size h).
    assert (He : (when (eac3ClearLead <? frameSize h) (when (0 <? protected_size h)
        (crypt_range eac3ClearLead (protected_size h)))) =
      when (0 <? protected_size h) (crypt_range (if 0 <? protected_size h
         then eac3ClearLead else 0) (protected_size h)) :> M (Transformer C * W) unit).
    { destruct (Nat.ltb_spec 0 (protected_size h)) as [Hp|Hp].
      - pose proof (eac3_protected_size_bound _ Hp). by rewrite (proj2 (Nat.ltb_lt _ _)) by lia.
      - by destruct (Nat.ltb_spec eac3ClearLead (frameSize h)). }
    cbn zeta. rewrite He. apply bind_ext. intros _ s2. apply bind_ext. intros t1 s3.
    apply bind_ext. intros _ [t2 w2]. rewrite !bind_unfold. cbn [on_fst modify].
    by rewrite drop_frame.
Qed.

Lemma eac3_processFrames_plan (s : Transformer C * W) : processFrames s =
  run_plan "E-AC-3 transformer: " "missing PES for syncframe payload" eac3_plan s.
Proof. unfold processFrames, run_plan. apply iter_ext, eac3_frame_step_plan. Qed.
End Correct.

(** ** Syncframes *)
Definition eac3_frame (f : list Z) : bool :=
  (eac3HeaderSize <=? length f) &&
  match parseSyncframeHeader f with Ok h => frameSize h =? length f | Fail _ => false end.

Definition frame_setup (f : list Z) : list Z :=
  match parseSyncframeHeader f with Ok h => setup h | Fail _ => [] end.

(** Independent frames start the CBC chain again. *)
Definition frame_resets (f : list Z) : bool :=
  match parseSyncframeHeader f with Ok h => independent h | Fail _ => false end.
Definition frame_len (f : list Z) : nat :=
  match parseSyncframeHeader f with Ok h => protected_size h | Fail _ => 0 end.
Definition frame_first (f : list Z) : nat := if 0 <? frame_len f then eac3ClearLead else 0.

Lemma eac3_frame_plan f : eac3_frame f ->
  p_kind (eac3_plan true f) =
    PFrame (length f) (frame_resets f) (frame_first f) (frame_len f)
  /\ (frame_resets f -> p_setup (eac3_plan false f) = Some (patchPMT (frame_setup f))).
Proof.
  intros Hf%Is_true_true. revert Hf. unfold eac3_frame, frame_resets, frame_first, frame_len,
    frame_setup. rewrite andb_true_iff, Nat.leb_le. intros [Hl Hf].
  pose proof (fun cs => eac3_plan_more cs f [] Hl) as E. rewrite app_nil_r in E. rewrite !E.
  destruct (parseSyncframeHeader f) as [h|]; [|done]. apply Nat.eqb_eq in Hf.
  cbn [length eac3_read negb andb]. rewrite Nat.add_0_r, Hf, Nat.ltb_irrefl.
  split; [done|]. intros Hi%Is_true_true. by rewrite Hi.
Qed.

(** The header stays in the clear. *)
Lemma eac3_frame_clear f : eac3_frame f -> good_frame frame_resets frame_first frame_len f.
Proof.
  intros Hf. destruct (eac3_frame_plan f Hf) as [Hk _].
  pose proof (plan_frame _ _ _ _ _ _ Hk) as (_ & Hl & Hm). split_and!; [done..|].
  intros Hp g. unfold frame_first in Hl |- *. rewrite (proj2 (Nat.ltb_lt _ _) Hp) in Hl |- *.
  assert (He : parseSyncframeHeader (map_range g eac3ClearLead (frame_len f) f)
               = parseSyncframeHeader f).
  { unfold eac3ClearLead in *. Transparent parseSyncframeHeader.
    unfold parseSyncframeHeader, sample_fields. by rewrite !map_range_head by lia. }
  assert (El : frame_len (map_range g eac3ClearLead (frame_len f) f) = frame_len f).
  { unfold frame_len at 1. by rewrite He. }
  rewrite El, (proj2 (Nat.ltb_lt _ _) Hp). unfold frame_resets. by rewrite He.
Qed.

Section Streams.
Context {C W : Type} `{BlockCryptorLaws C} `{PESHandler W} `{PMTSignal W}.

Definition handler : PESHandler (Transformer C * W) :=
  transformer_handler "E-AC-3 transformer: " processFrames.
#[local] Existing Instance handler.

(** The calls of one elementary stream, from a new transformer on. *)
Definition transform (calls : list event) : M (Transformer C * W) unit :=
  handle_all calls;; Flush.

Lemma eac3_cut (c : C) f fs : Forall eac3_frame (f :: fs) -> frame_resets f ->
  exists k, cut_stream eac3_plan false c (concat (f :: fs)) = Ok k /\ rest k = []
    /\ out k = crypt_frames frame_resets frame_first frame_len c (f :: fs)
    /\ patches k = [patchPMT (frame_setup f)].
Proof.
  intros Hfs Hf. rewrite (cut_frames eac3_plan eac3_frame frame_resets
    (fun f => patchPMT (frame_setup f)) frame_resets frame_first frame_len); try done.
  - by eexists.
  - intros g Hg. by apply eac3_frame_plan.
  - intros g Hg Hs. by apply eac3_frame_plan.
Qed.

Lemma eac3_emits (c : C) calls f fs ins : usable c -> well_formed calls ->
  frame_events calls [] = Some ins -> open_last ins = false ->
  Forall eac3_frame (f :: fs) -> frame_resets f -> payloads calls = concat (f :: fs) ->
  sends (W := W) (transform calls) (NewTransformer c) ins
    (crypt_frames frame_resets frame_first frame_len c (f :: fs)) [patchPMT (frame_setup f)].
Proof.
  intros Hu Hw Hi Ho Hfs Hf Hp.
  destruct (eac3_cut c f fs Hfs Hf) as (k & Hk & Hr & Hout & Hpat). rewrite <- Hp in Hk.
  eapply emits_weaken;
    [exact (transform_emits _ _ eac3_plan _ _ eac3_processFrames_plan c Hu calls Hw)|..].
  - cbn beta. rewrite Hk, Hi. intros _ _ evs (He & k' & [= <-] & _ & -> & ->). done.
  - cbn beta. rewrite Hk, Hi. cbn. rewrite Ho.
    intros e _ _ [?|[[_ ?]|(_ & k' & [= <-] & ?)]]; done.
Qed.

(** C13: any stream, as for AAC and AC-3. *)
Theorem eac3_transform_stream (c : C) calls : usable c -> well_formed calls ->
  cuts_stream (W := W) "E-AC-3 transformer: " "truncated syncframe" eac3_plan c calls (transform calls).
Proof.
  intros Hu Hw.
  exact (transform_emits _ _ eac3_plan _ _ eac3_processFrames_plan c Hu calls Hw).
Qed.
End Streams.

(** ** Decryption *)
Section Decryption.
Context (aes aes_inv : list Z -> list Z -> list Z) (Ha : aes_blocks aes).
#[local] Instance aes_cryptor : BlockCryptor CBCEncryptor := cbc_cryptor aes.
#[local] Instance aes_laws : BlockCryptorLaws CBCEncryptor := cbc_laws aes Ha.
Context {W : Type} `{PESHandler W} `{PMTSignal W}.

(** C14: a stream of syncframes that starts with an independent one, however the
  calls split it, is sent on as frames that a receiver which restarts the
  chain at independent frames decrypts to exactly the frames received; the
  packets keep their headers and sizes, and the patch is that of the first
  frame. *)
Theorem eac3_transform_decrypts cfg e calls f fs ins :
  deciphers aes aes_inv cfg -> NewCBCEncryptor cfg = Ok e -> well_formed calls ->
  frame_events calls [] = Some ins -> open_last ins = false ->
  Forall eac3_frame (f :: fs) -> frame_resets f -> payloads calls = concat (f :: fs) ->
  exists gs, decrypt_chained aes_inv frame_resets frame_first frame_len cfg (IV cfg) gs = f :: fs
    /\ sends (W := W) (transform calls) (NewTransformer e) ins (concat gs)
         [patchPMT (frame_setup f)].
Proof.
  intros Hd He Hw Hi Ho Hfs Hf Hp.
  destruct (decrypt_enc aes aes_inv Ha cfg e [] Hd He eq_refl) as (Hu & _).
  exists (crypt_list aes Ha frame_resets frame_first frame_len e (f :: fs)). split; last first.
  - rewrite <- crypt_frames_list. by apply eac3_emits.
  - apply decrypt_chained_new; try done; [|by apply Is_true_true].
    eapply Forall_impl; [exact Hfs|]. apply eac3_frame_clear.
Qed.
End Decryption.

(** ** A concrete stream: an independent and a dependent frame *)
Module Example.
Import Toy.
#[export] Instance toy_cryptor : BlockCryptor CBCEncryptor := cbc_cryptor aes.
#[export] Instance toy_laws : BlockCryptorLaws CBCEncryptor := cbc_laws aes aes_is_blocks.

Definition pes_header : list Z := [0; 0; 1; 0xBD; 0; 0]%Z.
Definition frame1 : list Z := ([0x0B; 0x77; 0; 19; 0x30; 0x80; 0] ++ replicate 33 7)%Z.
Definition frame2 : list Z := ([0x0B; 0x77; 0x40; 24; 0x30; 0x80; 0] ++ replicate 43 9)%Z.
Definition stream : list event :=
  [EHeader pes_header; EPayload (take 10 frame1); EEnd;
   EHeader pes_header; EPayload (drop 10 frame1 ++ take 3 frame2); EPayload (drop 3 frame2);
   EEnd].

(** Headers and sizes of the packets. *)
Definition sizes : list frame :=
  [MkFrame pes_header 10 true; MkFrame pes_header 80 true].

Lemma eac3_stream_well_formed : well_formed stream.
Proof. split; [by eexists|]. by repeat constructor. Qed.
End Example.

Import Example Recorder.

Lemma eac3_transform_stream_witness : well_formed Example.stream /\
  cuts_stream (W := list event) "E-AC-3 transformer: " "truncated syncframe" eac3_plan
    Toy.encryptor Example.stream (transform Example.stream).
Proof.
  split; [apply Example.eac3_stream_well_formed|].
  apply eac3_transform_stream; [by eexists|apply Example.eac3_stream_well_formed].
Defined.

Lemma eac3_transform_decrypts_witness :
  exists gs, decrypt_chained Toy.aes frame_resets frame_first frame_len Toy.config
      (IV Toy.config) gs = [Example.frame1; Example.frame2]
    /\ sends (W := list event) (transform Example.stream) (NewTransformer Toy.encryptor)
         Example.sizes (concat gs) [patchPMT (frame_setup Example.frame1)].
Proof.
  apply (eac3_transform_decrypts Toy.aes Toy.aes Toy.aes_is_blocks Toy.config Toy.encryptor
    Example.stream Example.frame1 [Example.frame2]).
  - apply Toy.config_deciphers.
  - reflexivity.
  - apply Example.eac3_stream_well_formed.
  - reflexivity.
  - reflexivity.
  - by repeat constructor.
  - done.
  - reflexivity.
Defined.
