(* ===== verification/Ebsp.v ===== *)
(** * ts/codecs/avc/ebsp.go: emulation prevention

    The escaper inserts a byte 3 so that no start code appears in a NAL.  The
    code works on slices, with a search for pairs of zeros; the reference works
    byte by byte.  They agree, whatever way the NAL is split into slices. *)

From S2P Require Import Prelude.
Local Open Scope Z_scope.

(** ** bytes.Index *)

(** The position of the first occurrence of [pat]. *)
Fixpoint bytes_Index (data pat : list Z) : option nat :=
  if bool_decide (take (length pat) data = pat) then Some 0%nat
  else match data with
       | [] => None
       | _ :: data => S <$> bytes_Index data pat
       end.

(** ** ebspEscaper *)

(** The state: the number of zeros at the end of the output, at most two. *)
Record ebspEscaper := MkEscaper { esc_zeroRun : nat }.

Definition esc_Reset (e : ebspEscaper) : ebspEscaper := {| esc_zeroRun := 0 |}.

(** A round of the loop of [Append]: from [zeroRun] and the data left, the bytes
    appended to [dst], the new run and the data still left. *)
Definition Append_step (zeroRun : nat) (data : list Z) : list Z * nat * list Z :=
  match zeroRun, data with
  | 2%nat, b :: data =>
      ((if b <=? 3 then [3] else []) ++ [b], if b =? 0 then 1%nat else 0%nat, data)
  | 1%nat, 0 :: data => ([0], 2%nat, data)
  | z, _ =>
      let zeroRun := if Nat.eqb z 1 then 0%nat else z in
      match bytes_Index data [0; 0] with
      | None => (data, if default 0 (list.last data) =? 0 then 1%nat else zeroRun, [])
      | Some i => (take (i + 2) data, 2%nat, drop (i + 2) data)
      end
  end.

Fixpoint Append_loop (fuel : nat) (zeroRun : nat) (dst data : list Z) :
    outcome (list Z * nat) :=
  match fuel, data with
  | O, _ => Fail OutOfFuel
  | S _, [] => Ok (dst, zeroRun)
  | S fuel, _ =>
      let '(out, zeroRun, data) := Append_step zeroRun data in
      Append_loop fuel zeroRun (dst ++ out) data
  end.

(** The fuel: every round takes at least a byte of [data]. *)
Definition Append (dst data : list Z) : M ebspEscaper (list Z) :=
  e ← get;
  '(dst, z) ← lift (Append_loop (S (length data)) (esc_zeroRun e) dst data);
  modify (fun _ => {| esc_zeroRun := z |});;
  mret dst.

(** ** The reference, byte by byte *)
Definition next_run (z : nat) (b : Z) : nat :=
  if b =? 0 then (if Nat.eqb z 2 then 1 else S z)%nat else 0%nat.

Definition escape_byte (z : nat) (b : Z) : list Z :=
  if Nat.eqb z 2 && (b <=? 3) then [3; b] else [b].

Fixpoint escape (z : nat) (data : list Z) : list Z :=
  match data with
  | [] => []
  | b :: data => escape_byte z b ++ escape (next_run z b) data
  end.

Definition run_after (z : nat) (data : list Z) : nat := foldl next_run z data.

(** What a decoder does: drops a 3 after two zeros. *)
Fixpoint unescape (z : nat) (data : list Z) : list Z :=
  match data with
  | [] => []
  | b :: data =>
      if Nat.eqb z 2 && (b =? 3) then unescape 0 data
      else b :: unescape (if b =? 0 then Nat.min 2 (S z) else 0%nat) data
  end.

Lemma escape_app z d1 d2 : escape z (d1 ++ d2) = escape z d1 ++ escape (run_after z d1) d2.
Proof.
  revert z. induction d1 as [|b d1 IH]; intros z; [done|]. cbn. by rewrite IH, <- app_assoc.
Qed.

Lemma run_after_app z d1 d2 : run_after z (d1 ++ d2) = run_after (run_after z d1) d2.
Proof. apply foldl_app. Qed.

Lemma next_run_le z b : (z <= 2 -> next_run z b <= 2)%nat.
Proof.
  intros. unfold next_run. destruct (b =? 0); [|lia]. destruct (Nat.eqb_spec z 2); lia.
Qed.

Lemma run_after_le z d : (z <= 2 -> run_after z d <= 2)%nat.
Proof.
  revert z. induction d as [|b d IH]; intros z Hz; [done|]. by apply IH, next_run_le.
Qed.

(** ** bytes.Index and pairs of zeros *)
Definition no_pair (d : list Z) : Prop := bytes_Index d [0; 0] = None.

Lemma index_pair_cons b d : bytes_Index (b :: d) [0; 0] =
  if bool_decide (b = 0) && bool_decide (head d = Some 0) then Some 0%nat
  else S <$> bytes_Index d [0; 0].
Proof.
  cbn [bytes_Index length take]. destruct d as [|b' d].
  - rewrite bool_decide_eq_false_2 by done. by rewrite andb_comm.
  - cbn [head take]. destruct (decide (b = 0)) as [->|Hb].
    + destruct (decide (b' = 0)) as [->|Hb'].
      * by rewrite !bool_decide_eq_true_2.
      * rewrite (bool_decide_eq_false_2 (Some b' = Some 0)) by congruence.
        by rewrite bool_decide_eq_false_2, andb_comm by congruence.
    + by rewrite !bool_decide_eq_false_2 by congruence.
Qed.

Definition zero_run (b : Z) : nat := if b =? 0 then 1%nat else 0%nat.

(** The run cannot make a pair with the head of the data. *)
Definition no_join (z : nat) (d : list Z) : Prop :=
  z = 0%nat \/ (z = 1%nat /\ head d <> Some 0).

Lemma no_join_step z b d : no_join z (b :: d) ->
  escape_byte z b = [b] /\ next_run z b = zero_run b.
Proof.
  unfold escape_byte, next_run, zero_run. intros [->|[-> Hb]]; [done|]. cbn in *.
  destruct (Z.eqb_spec b 0); [congruence|done].
Qed.

Lemma no_join_next b d : (b = 0 -> head d <> Some 0) -> no_join (zero_run b) d.
Proof. unfold zero_run. intros Hb. destruct (Z.eqb_spec b 0); [right; auto|by left]. Qed.

Lemma pair_none b d : bytes_Index (b :: d) [0; 0] = None ->
  bytes_Index d [0; 0] = None /\ (b = 0 -> head d <> Some 0).
Proof.
  rewrite index_pair_cons. intros H.
  destruct (decide (b = 0)), (decide (head d = Some 0)) as [Hh|Hh];
    rewrite ?(bool_decide_eq_true_2 (b = 0)), ?(bool_decide_eq_true_2 (head d = Some 0)) in H by done;
    rewrite ?(bool_decide_eq_false_2 (b = 0)), ?(bool_decide_eq_false_2 (head d = Some 0)) in H by done;
    cbn in H; try done; (split; [by destruct (bytes_Index d [0; 0])|]); [by intros|by intros..].
Qed.

Lemma escape_no_pair z d : no_join z d -> bytes_Index d [0; 0] = None ->
  escape z d = d
  /\ run_after z d = match list.last d with Some b => zero_run b | None => z end.
Proof.
  revert z. induction d as [|b d IH]; intros z Hz Hp; [done|].
  apply pair_none in Hp as [Hp Hb]. destruct (no_join_step _ _ _ Hz) as [E1 E2].
  destruct (IH _ (no_join_next b d Hb) Hp) as [H1 H2].
  cbn [escape]. change (run_after z (b :: d)) with (run_after (next_run z b) d).
  rewrite E1, E2, H1, H2. split; [done|]. rewrite list.last_cons.
  by destruct (list.last d).
Qed.

Lemma escape_pair z d i : no_join z d -> bytes_Index d [0; 0] = Some i ->
  escape z (take (i + 2) d) = take (i + 2) d /\ run_after z (take (i + 2) d) = 2%nat
  /\ (i + 2 <= length d)%nat.
Proof.
  revert z i. induction d as [|b d IH]; intros z i Hz Hp; [done|].
  destruct (no_join_step _ _ _ Hz) as [E1 E2]. rewrite index_pair_cons in Hp.
  destruct (decide (b = 0)) as [->|Hb]; [destruct (decide (head d = Some 0)) as [Hh|Hh]|].
  - rewrite !bool_decide_eq_true_2 in Hp by done. injection Hp as <-.
    destruct d as [|b d]; [done|]. injection Hh as ->. cbn [take Nat.add escape].
    rewrite take_0.
    change (run_after z [0; 0]) with (next_run (next_run z 0) 0). rewrite E1, E2.
    split_and!; [done..|]. cbn. lia.
  - rewrite (bool_decide_eq_false_2 (head d = _)), andb_false_r in Hp by done.
    destruct (bytes_Index d [0; 0]) as [j|] eqn:Hj; [|done]. injection Hp as <-.
    destruct (IH (zero_run 0) j) as (H1 & H2 & H3); [by apply no_join_next|done|].
    cbn [take Nat.add escape length].
    change (run_after z (0 :: take (j + 2) d)) with (run_after (next_run z 0) (take (j + 2) d)).
    rewrite E1, E2, H1, H2. split_and!; [done..|lia].
  - rewrite (bool_decide_eq_false_2 (b = 0)) in Hp by done. cbn [andb] in Hp.
    destruct (bytes_Index d [0; 0]) as [j|] eqn:Hj; [|done]. injection Hp as <-.
    destruct (IH (zero_run b) j) as (H1 & H2 & H3); [by apply no_join_next|done|].
    cbn [take Nat.add escape length].
    change (run_after z (b :: take (j + 2) d)) with (run_after (next_run z b) (take (j + 2) d)).
    rewrite E1, E2, H1, H2. split_and!; [done..|lia].
Qed.

(** ** The loop and the reference *)
Lemma Append_step_spec z data : (z <= 2)%nat -> data <> [] ->
  let '(out, z', rest) := Append_step z data in
  escape z data = out ++ escape z' rest /\ run_after z data = run_after z' rest
  /\ (length rest < length data)%nat /\ (z' <= 2)%nat.
Proof.
  intros Hz Hd. destruct data as [|b data]; [done|].
  assert (Hsearch : no_join z (b :: data) -> forall z0, z0 = 0%nat ->
    let '(out, z', rest) := match bytes_Index (b :: data) [0; 0] with
      | None => (b :: data, if default 0 (list.last (b :: data)) =? 0 then 1%nat else z0, [])
      | Some i => (take (i + 2) (b :: data), 2%nat, drop (i + 2) (b :: data))
      end in
    escape z (b :: data) = out ++ escape z' rest /\ run_after z (b :: data) = run_after z' rest
    /\ (length rest < length (b :: data))%nat /\ (z' <= 2)%nat).
  { intros Hj z0 ->. destruct (bytes_Index (b :: data) [0; 0]) as [i|] eqn:Hi.
    - destruct (escape_pair _ _ _ Hj Hi) as (H1 & H2 & H3).
      pose proof (escape_app z (take (i + 2) (b :: data)) (drop (i + 2) (b :: data))) as He.
      pose proof (run_after_app z (take (i + 2) (b :: data)) (drop (i + 2) (b :: data))) as Hr.
      rewrite take_drop in He, Hr. rewrite He, Hr, H1, H2.
      split_and!; [done..| |done]. rewrite length_drop. lia.
    - destruct (escape_no_pair _ _ Hj Hi) as [H1 H2]. rewrite H1, H2. cbn [escape].
      rewrite app_nil_r, list.last_cons. split_and!; [done| |cbn; lia|].
      + by destruct (list.last data).
      + destruct (default 0 _ =? 0); lia. }
  destruct z as [|[|[|z]]]; [| | |lia].
  - apply (Hsearch (or_introl eq_refl) 0%nat eq_refl).
  - destruct (decide (b = 0)) as [->|Hb].
    + cbn. split_and!; lia || done.
    + assert (Hs : Append_step 1 (b :: data) = match bytes_Index (b :: data) [0; 0] with
      | None => (b :: data, if default 0 (list.last (b :: data)) =? 0 then 1%nat else 0%nat, [])
      | Some i => (take (i + 2) (b :: data), 2%nat, drop (i + 2) (b :: data))
      end) by by destruct b.
      rewrite Hs. apply Hsearch; [|done]. right. split; [done|]. cbn. congruence.
  - cbn. unfold escape_byte, next_run. cbn. destruct (b <=? 3), (b =? 0); split_and!; lia || done.
Qed.

Lemma Append_loop_spec n z dst data : (z <= 2)%nat -> (length data < n)%nat ->
  Append_loop n z dst data = Ok (dst ++ escape z data, run_after z data).
Proof.
  revert z dst data. induction n as [|n IH]; intros z dst data Hz Hn; [lia|].
  destruct data as [|b data]; [cbn; by rewrite app_nil_r|].
  pose proof (Append_step_spec z (b :: data) Hz ltac:(done)) as Hs.
  cbn [Append_loop]. destruct (Append_step z (b :: data)) as [[out z'] rest].
  destruct Hs as (H1 & H2 & H3 & H4). rewrite IH by (done || cbn in *; lia).
  by rewrite H1, H2, <- app_assoc.
Qed.

Lemma Append_spec dst data e : (esc_zeroRun e <= 2)%nat ->
  Append dst data e = (Ok (dst ++ escape (esc_zeroRun e) data),
                       {| esc_zeroRun := run_after (esc_zeroRun e) data |}).
Proof.
  intros He. unfold Append. rewrite bind_unfold. cbn [get]. rewrite bind_unfold. unfold lift.
  by rewrite Append_loop_spec by (done || lia).
Qed.

(** ** Round trip and safety *)
Lemma unescape_escape z d : (z <= 2)%nat -> unescape z (escape z d) = d.
Proof.
  revert z. induction d as [|b d IH]; intros z Hz; [done|]. cbn [escape]. unfold escape_byte.
  specialize (IH (next_run z b) (next_run_le z b Hz)). unfold next_run in IH |- *.
  destruct (Nat.eqb_spec z 2) as [Hz2|Hz2]; [subst z|]; cbn [andb].
  - destruct (Z.leb_spec b 3) as [Hb|Hb]; cbn [app unescape Nat.eqb andb Z.eqb].
    + f_equal. by destruct (b =? 0).
    + destruct (Z.eqb_spec b 3); [lia|]. destruct (Z.eqb_spec b 0); [lia|]. by f_equal.
  - cbn [app unescape]. destruct (Nat.eqb_spec z 2); [done|]. cbn [andb]. f_equal.
    destruct (b =? 0); [|done]. by rewrite Nat.min_r by lia.
Qed.

(** Two zeros are followed by nothing below 3, so by no start code. *)
Definition no_emulation (l : list Z) : Prop := forall i b,
  l !! i = Some 0 -> l !! S i = Some 0 -> l !! S (S i) = Some b -> 3 <= b.

Fixpoint safe (z : nat) (l : list Z) : Prop :=
  match l with
  | [] => True
  | b :: l => (z = 2%nat -> 3 <= b) /\ safe (if b =? 0 then Nat.min 2 (S z) else 0%nat) l
  end.

Lemma safe_escape z d : (z <= 2)%nat -> safe z (escape z d).
Proof.
  revert z. induction d as [|b d IH]; intros z Hz; [done|]. cbn [escape]. unfold escape_byte.
  specialize (IH (next_run z b) (next_run_le z b Hz)). unfold next_run in IH |- *.
  destruct (Nat.eqb_spec z 2) as [Hz2|Hz2]; [subst z|]; cbn [andb].
  - destruct (Z.leb_spec b 3) as [Hb|Hb]; cbn [app safe Z.eqb].
    + split; [done|]. split; [done|]. by destruct (b =? 0).
    + split; [lia|]. destruct (Z.eqb_spec b 0); [lia|]. done.
  - cbn [app safe]. split; [done|].
    destruct (b =? 0); [|done]. by rewrite Nat.min_r by lia.
Qed.

Lemma safe_weaken z z' l : (z' <= z <= 2)%nat -> safe z l -> safe z' l.
Proof.
  revert z z'. induction l as [|b l IH]; intros z z' Hz; [done|]. cbn [safe].
  intros [H1 H2]. split; [intros ->; apply H1; lia|].
  destruct (b =? 0); [|done]. apply (IH (Nat.min 2 (S z))); [lia|done].
Qed.

Lemma safe_no_emulation z l : (z <= 2)%nat -> safe z l -> no_emulation l.
Proof.
  intros Hz Hl i. revert z l Hz Hl. induction i as [|i IH]; intros z l Hz Hl b H0 H1 H2.
  - destruct l as [|b0 [|b1 [|b2 l]]]; try done. injection H0 as ->. injection H1 as ->.
    injection H2 as ->. apply (safe_weaken _ 0) in Hl; [|lia]. cbn in Hl. by apply Hl.
  - destruct l as [|b0 l]; [done|]. destruct Hl as [_ Hl].
    refine (IH _ l _ Hl b H0 H1 H2). destruct (b0 =? 0); lia.
Qed.

(** Escaping a NAL slice by slice. *)
Fixpoint append_all (dst : list Z) (chunks : list (list Z)) : M ebspEscaper (list Z) :=
  match chunks with
  | [] => mret dst
  | d :: chunks => dst ← Append dst d; append_all dst chunks
  end.

Lemma append_all_spec dst chunks e : (esc_zeroRun e <= 2)%nat ->
  append_all dst chunks e = (Ok (dst ++ escape (esc_zeroRun e) (concat chunks)),
    {| esc_zeroRun := run_after (esc_zeroRun e) (concat chunks) |}).
Proof.
  revert dst e. induction chunks as [|d chunks IH]; intros dst [z] He; cbn [append_all concat].
  - by rewrite app_nil_r.
  - rewrite bind_unfold, Append_spec by done. cbn [esc_zeroRun] in *.
    rewrite IH by by apply run_after_le. cbn [esc_zeroRun].
    by rewrite escape_app, run_after_app, <- app_assoc.
Qed.

(** C17: however a NAL is split into slices, the escaper terminates and its output
    is the byte-by-byte escaping of the NAL; it contains no start code, nor two
    zeros followed by anything below 3, and a decoder recovers the NAL from it. *)
Theorem Append_escapes chunks e :
  exists out, append_all [] chunks (esc_Reset e)
    = (Ok out, {| esc_zeroRun := run_after 0 (concat chunks) |})
  /\ out = escape 0 (concat chunks) /\ no_emulation out /\ unescape 0 out = concat chunks.
Proof.
  exists (escape 0 (concat chunks)). rewrite append_all_spec by (cbn; lia). split_and!; [done..| |].
  - apply (safe_no_emulation 0), safe_escape; lia.
  - apply unescape_escape. lia.
Qed.
