(* ===== verification/Avc.v ===== *)
(** * ts/codecs/avc/transformer.go: the AVC transformer

    The transformer splits the elementary stream into NALs at its start codes
    and encrypts slices in place, delaying bytes whose meaning is not known yet:
    trailing zeros ([zeroRun]), the first 49 bytes of a slice and the last block
    of it ([pattern]).  The output buffer [scratch] is not part of the state: a
    call passes its contents on.  A nil [block] is [None]. *)

From S2P Require Import Prelude SampleAes Descriptor Pmt PesHandler PesQueue Ebsp.

Definition avcProbeSize : nat := 49.
Definition avcClearLead : nat := 32.
Definition avcBlockSize : nat := 16.
Definition avcPatternSkipSize : nat := 9 * avcBlockSize.

Definition annexBStartCode : list Z := [0; 0; 1]%Z.
Definition zeroBytes : list Z := replicate 256 0%Z.

(** ** pmt.go *)
Definition sampleAESStreamType : Z := 0xDB.

Definition patchPMT : Patch :=
  retype sampleAESStreamType [private_data_indicator 0x7A617663].

(** ** State *)
Inductive avcNALState :=
  | avcNALStateNone
  | avcNALStateHeader
  | avcNALStatePassthrough
  | avcNALStateProtected.

#[export] Instance avcNALState_eq_dec : EqDecision avcNALState.
Proof. solve_decision. Defined.

Section Data.
Context {C : Type}.

Record Transformer := MkTransformer {
  block : option C;
  inputPESOpen : bool;
  pes : list pendingPES;
  nalState : avcNALState;
  zeroRun : nat;
  nalEncrypted : bool;
  pattern : list Z;
  patternLen : nat;
  skip : nat;
  escaper : ebspEscaper;
  }.

Definition newTransformer (block : option C) : Transformer :=
  {| block := block; inputPESOpen := false; pes := []; nalState := avcNALStateNone;
     zeroRun := 0; nalEncrypted := false; pattern := replicate avcProbeSize 0%Z;
     patternLen := 0; skip := 0; escaper := {| esc_zeroRun := 0 |} |}.

Definition set_block (c : C) (t : Transformer) : Transformer :=
  {| block := Some c; inputPESOpen := inputPESOpen t; pes := pes t; nalState := nalState t;
     zeroRun := zeroRun t; nalEncrypted := nalEncrypted t; pattern := pattern t;
     patternLen := patternLen t; skip := skip t; escaper := escaper t |}.
Definition set_open (b : bool) (t : Transformer) : Transformer :=
  {| block := block t; inputPESOpen := b; pes := pes t; nalState := nalState t;
     zeroRun := zeroRun t; nalEncrypted := nalEncrypted t; pattern := pattern t;
     patternLen := patternLen t; skip := skip t; escaper := escaper t |}.
Definition set_pes (q : list pendingPES) (t : Transformer) : Transformer :=
  {| block := block t; inputPESOpen := inputPESOpen t; pes := q; nalState := nalState t;
     zeroRun := zeroRun t; nalEncrypted := nalEncrypted t; pattern := pattern t;
     patternLen := patternLen t; skip := skip t; escaper := escaper t |}.
Definition set_state (s : avcNALState) (t : Transformer) : Transformer :=
  {| block := block t; inputPESOpen := inputPESOpen t; pes := pes t; nalState := s;
     zeroRun := zeroRun t; nalEncrypted := nalEncrypted t; pattern := pattern t;
     patternLen := patternLen t; skip := skip t; escaper := escaper t |}.
Definition set_zeroRun (z : nat) (t : Transformer) : Transformer :=
  {| block := block t; inputPESOpen := inputPESOpen t; pes := pes t; nalState := nalState t;
     zeroRun := z; nalEncrypted := nalEncrypted t; pattern := pattern t;
     patternLen := patternLen t; skip := skip t; escaper := escaper t |}.
Definition set_encrypted (b : bool) (t : Transformer) : Transformer :=
  {| block := block t; inputPESOpen := inputPESOpen t; pes := pes t; nalState := nalState t;
     zeroRun := zeroRun t; nalEncrypted := b; pattern := pattern t;
     patternLen := patternLen t; skip := skip t; escaper := escaper t |}.
Definition set_pattern (p : list Z) (n : nat) (t : Transformer) : Transformer :=
  {| block := block t; inputPESOpen := inputPESOpen t; pes := pes t; nalState := nalState t;
     zeroRun := zeroRun t; nalEncrypted := nalEncrypted t; pattern := p;
     patternLen := n; skip := skip t; escaper := escaper t |}.
Definition set_skip (n : nat) (t : Transformer) : Transformer :=
  {| block := block t; inputPESOpen := inputPESOpen t; pes := pes t; nalState := nalState t;
     zeroRun := zeroRun t; nalEncrypted := nalEncrypted t; pattern := pattern t;
     patternLen := patternLen t; skip := n; escaper := escaper t |}.
Definition set_escaper (e : ebspEscaper) (t : Transformer) : Transformer :=
  {| block := block t; inputPESOpen := inputPESOpen t; pes := pes t; nalState := nalState t;
     zeroRun := zeroRun t; nalEncrypted := nalEncrypted t; pattern := pattern t;
     patternLen := patternLen t; skip := skip t; escaper := e |}.

#[export] Instance avc_pes : HasPES Transformer.
Proof. refine {| pes_of := pes; with_pes := set_pes |}; by intros; try destruct t. Defined.
End Data.
Arguments Transformer : clear implicits.

(** ** Methods *)
Section Methods.
Context {C W : Type} `{BlockCryptor C} `{PESHandler W} `{PMTSignal W}.

Definition NewTransformer (block : option C) : M W (Transformer C) :=
  signal patchPMT;; mret (newTransformer block).

(** A call on [t.block], which panics on a nil interface. *)
Definition on_block {A} (m : M C A) : M (Transformer C * W) A := fun '(t, w) =>
  match block t with
  | Some c => let '(r, c) := m c in (r, (set_block c t, w))
  | None => (Fail Panic, (t, w))
  end.

(** [t.block.CryptBlocks(t.pattern[off : off+16])] *)
Definition crypt_pattern (off : nat) : M (Transformer C * W) unit :=
  t ← on_fst get;
  d ← on_block (CryptBlocks (slice (pattern t) off (off + avcBlockSize)));
  on_fst (modify (fun t => set_pattern (copy_at (pattern t) off d) (patternLen t) t)).

Definition encode (escaped : bool) (output : list Z) : M (Transformer C) (list Z) :=
  if escaped then fun t =>
    let '(r, e) := Append [] output (escaper t) in (r, set_escaper e t)
  else mret output.

Definition write (data : list Z) (escaped : bool) : M (Transformer C * W) unit :=
  PesQueue.write "AVC transformer: missing PES for NAL payload" (encode escaped) data.

(** A round of the loop of [writeNAL] after the probe. *)
Definition island_step (data : list Z) : M (Transformer C * W) (list Z + unit) :=
  if decide (data = []) then mret (inr tt)
  else
    t ← on_fst get;
    if 0 <? skip t then
      let n := min (length data) (skip t) in
      write (take n data) true;;
      on_fst (modify (fun t => set_skip (skip t - n) t));;
      mret (inl (drop n data))
    else if patternLen t =? avcBlockSize then
      crypt_pattern 0;;
      t ← on_fst get;
      write (take avcBlockSize (pattern t)) true;;
      on_fst (modify (fun t => set_skip avcPatternSkipSize (set_pattern (pattern t) 0 t)));;
      mret (inl data)
    else if avcBlockSize <? patternLen t then panic
    else
      let n := min (avcBlockSize - patternLen t) (length data) in
      on_fst (modify (fun t => set_pattern (copy_at (pattern t) (patternLen t) (take n data))
        (patternLen t + n) t));;
      mret (inl (drop n data)).

(** The probe: the data left after it, or [None] while it is not complete. *)
Definition probe (data : list Z) : M (Transformer C * W) (option (list Z)) :=
  t ← on_fst get;
  if nalEncrypted t then mret (Some data)
  else
    let n := min (avcProbeSize - patternLen t) (length data) in
    on_fst (modify (fun t =>
      set_pattern (copy_at (pattern t) (patternLen t) data) (patternLen t + n) t));;
    t ← on_fst get;
    if patternLen t <? avcProbeSize then mret None
    else
      on_block Reset;;
      crypt_pattern avcClearLead;;
      t ← on_fst get;
      write (pattern t) true;;
      on_fst (modify (fun t => set_skip (avcPatternSkipSize - 1)
        (set_encrypted true (set_pattern (pattern t) 0 t))));;
      mret (Some (drop n data)).

(** The fuel: a round takes a byte of [data], or a full block that a round that
  took bytes has completed. *)
Definition islands (data : list Z) : M (Transformer C * W) unit :=
  iter (2 * length data + 2) island_step data.

Definition writeNAL (data : list Z) : M (Transformer C * W) unit :=
  t ← on_fst get;
  fail_if (bool_decide (nalState t = avcNALStateNone))
    "AVC transformer: bytes before Annex-B start code";;
  when (bool_decide (nalState t = avcNALStateHeader))
    (b ← on_fst (must (head data));
     let nalType := Z.land b 0x1F in
     on_fst (modify (set_state
       (if bool_decide (is_Some (block t)) && ((nalType =? 1) || (nalType =? 5))%Z
        then avcNALStateProtected else avcNALStatePassthrough))));;
  t ← on_fst get;
  if bool_decide (nalState t = avcNALStatePassthrough) then write data false
  else
    r ← probe data;
    match r with
    | Some data => islands data
    | None => mret tt
    end.

(** [for n > 0 { size := min(n, len(zeroBytes)); f(zeroBytes[:size]); n -= size }] *)
Definition zeros_loop (f : list Z -> M (Transformer C * W) unit) (n : nat) :
    M (Transformer C * W) unit :=
  iter (n + 1) (fun n =>
    if n =? 0 then mret (inr tt)
    else
      let size := min n (length zeroBytes) in
      f (take size zeroBytes);;
      mret (inl (n - size))) n.

Definition writeNALZeros (n : nat) : M (Transformer C * W) unit := zeros_loop writeNAL n.

Definition writeZeros (n : nat) (escaped : bool) : M (Transformer C * W) unit :=
  zeros_loop (fun d => write d escaped) n.

Definition beginNAL : M (Transformer C * W) unit :=
  on_fst (modify (fun t => set_escaper (esc_Reset (escaper t)) (set_skip 0
    (set_pattern (pattern t) 0 (set_encrypted false (set_state avcNALStateHeader t)))))).

Definition finishNAL : M (Transformer C * W) unit :=
  t ← on_fst get;
  fail_if (bool_decide (nalState t = avcNALStateHeader))
    "AVC transformer: Annex-B start code without NAL header";;
  when (bool_decide (nalState t = avcNALStateProtected))
    (write (take (patternLen t) (pattern t)) (nalEncrypted t);;
     on_fst (modify (fun t => set_pattern (pattern t) 0 t)));;
  on_fst (modify (set_state avcNALStateNone)).

(** [if t.nalState != avcNALStateNone { t.finishNAL() }] *)
Definition finish_open : M (Transformer C * W) unit :=
  t ← on_fst get;
  when (negb (bool_decide (nalState t = avcNALStateNone))) finishNAL.

Definition PESHeader (header : list Z) : M (Transformer C * W) unit :=
  t ← on_fst get;
  fail_if (inputPESOpen t) "AVC transformer: previous PES is still open";;
  fail_if (length header <? 6) "AVC transformer: PES header is too short";;
  let outputHeader := <[5 := 0%Z]> (<[4 := 0%Z]> header) in
  when (length (pes t) =? 0) (on_snd (PesHandler.PESHeader outputHeader));;
  on_fst (modify (fun t' => set_open true (set_pes (pes t' ++
    [{| PesQueue.header := outputHeader; bytes := 0; ended := false;
        started := length (pes t) =? 0 |}]) t'))).

Definition leading_zeros : list Z -> nat := fix go l :=
  match l with
  | b :: l => if (b =? 0)%Z then S (go l) else 0
  | [] => 0
  end.

Definition trailing_zeros (l : list Z) : nat := leading_zeros (reverse l).

(** The unresolved zeros at the start of [PESPayload]: the payload left, or
  [None] when it holds zeros only. *)
Definition resolve_zeros (payload : list Z) : M (Transformer C * W) (option (list Z)) :=
  t ← on_fst get;
  if zeroRun t =? 0 then mret (Some payload)
  else
    let n := leading_zeros payload in
    on_fst (modify (fun t => set_zeroRun (zeroRun t + n) t));;
    t ← on_fst get;
    match drop n payload with
    | [] => mret None
    | b :: rest =>
        if (b =? 1)%Z && (2 <=? zeroRun t) then
          finish_open;;
          writeZeros (zeroRun t) false;;
          on_fst (modify (set_zeroRun 0));;
          write [b] false;;
          beginNAL;;
          mret (Some rest)
        else
          fail_if (bool_decide (nalState t = avcNALStateNone))
            "AVC transformer: bytes before Annex-B start code";;
          writeNALZeros (zeroRun t);;
          on_fst (modify (set_zeroRun 0));;
          mret (Some (b :: rest))
    end.

(** A round of the loop of [PESPayload]. *)
Definition payload_step (payload : list Z) : M (Transformer C * W) (list Z + unit) :=
  if decide (payload = []) then mret (inr tt)
  else
    match bytes_Index payload annexBStartCode with
    | None =>
        let end_ := length payload - trailing_zeros payload in
        when (0 <? end_) (writeNAL (take end_ payload));;
        on_fst (modify (set_zeroRun (length payload - end_)));;
        mret (inr tt)
    | Some startCode =>
        let start := startCode - trailing_zeros (take startCode payload) in
        when (0 <? start) (writeNAL (take start payload));;
        finish_open;;
        let end_ := startCode + length annexBStartCode in
        write (slice payload start end_) false;;
        beginNAL;;
        mret (inl (drop end_ payload))
    end.

Definition PESPayload (payload : list Z) : M (Transformer C * W) unit :=
  t ← on_fst get;
  fail_if (negb (inputPESOpen t)) "AVC transformer: payload outside PES";;
  on_fst (must (list.last (pes t)));;
  update_pes (alter_last (fun p => set_bytes (bytes p + length payload) p));;
  r ← resolve_zeros payload;
  match r with
  | None => mret tt
  | Some payload => iter (length payload + 1) payload_step payload
  end.

Definition PESEnd : M (Transformer C * W) unit :=
  t ← on_fst get;
  fail_if (negb (inputPESOpen t)) "AVC transformer: no open PES";;
  on_fst (must (list.last (pes t)));;
  update_pes (alter_last set_ended);;
  on_fst (modify (set_open false));;
  finishPES.

Definition Flush : M (Transformer C * W) unit :=
  t ← on_fst get;
  fail_if (inputPESOpen t) "AVC transformer: PES is still open";;
  finish_open;;
  t ← on_fst get;
  when (0 <? zeroRun t)
    (writeZeros (zeroRun t) false;; on_fst (modify (set_zeroRun 0)));;
  finishPES.

Definition handler : PESHandler (Transformer C * W) := {|
  PesHandler.PESHeader := PESHeader;
  PesHandler.PESPayload := PESPayload;
  PesHandler.PESEnd := PESEnd;
  |}.
End Methods.
