(* ===== verification/AvcNal.v ===== *)
(** * The AVC transformer: encrypting a NAL

    A slice of more than 48 bytes has every tenth block encrypted, a last block
    excepted, and is escaped as a whole.  [crypt_nal] says so for a whole NAL; the
    code gets the NAL in pieces and holds bytes back.  [nal_rel] relates its state
    to the bytes of the NAL seen so far, and the lemmas show that feeding more
    bytes preserves it. *)

From S2P Require Import Prelude SampleAes Pmt PesHandler PesQueue Ebsp Avc.

(** ** What is sent, and what it was made of *)

(** Events that differ in their payload bytes only. *)
Definition ev_match (a b : event) : Prop :=
  match a, b with
  | EHeader h, EHeader h' => h = h'
  | EPayload _, EPayload _ => True
  | EEnd, EEnd => True
  | _, _ => False
  end.

Definition shape : list event -> list event -> Prop := Forall2 ev_match.

Lemma shape_nil : shape [] [].
Proof. by apply Forall2_nil. Qed.

Lemma shape_cons a b l l' : ev_match a b -> shape l l' -> shape (a :: l) (b :: l').
Proof. intros. by apply Forall2_cons. Qed.

Lemma shape_app l1 l1' l2 l2' : shape l1 l1' -> shape l2 l2' -> shape (l1 ++ l2) (l1' ++ l2').
Proof. apply Forall2_app. Qed.

Lemma shape_refl evs : signals evs = [] -> shape evs evs.
Proof.
  induction evs as [|ev evs IH]; intros Hs; [apply shape_nil|].
  destruct ev; try done; (apply shape_cons; [done|by apply IH]).
Qed.

Section Nal.
Context {C W : Type} `{BlockCryptorLaws C} `{PESHandler W} `{PMTSignal W}.

Definition esc_ok (t : Transformer C) : Prop := esc_zeroRun (escaper t) <= 2.

Definition enc_fun (escaped : bool) (d : list Z) (t : Transformer C) : list Z * Transformer C :=
  if escaped then
    (escape (esc_zeroRun (escaper t)) d,
     set_escaper {| esc_zeroRun := run_after (esc_zeroRun (escaper t)) d |} t)
  else (d, t).

Lemma encode_encoding escaped : encoding esc_ok (encode (C := C) escaped) (enc_fun escaped).
Proof.
  destruct escaped; [|by split].
  split; try done; unfold esc_ok.
  - intros d t Ht. unfold encode. by rewrite Append_spec.
  - intros d t Ht. by apply run_after_le.
Qed.

Lemma set_escaper_same (t : Transformer C) : set_escaper (escaper t) t = t.
Proof. by destruct t. Qed.

Lemma encode_events_spec escaped raws t evs t1 : signals raws = [] ->
  encode_events (enc_fun escaped) raws t = (evs, t1) ->
  shape raws evs /\ signals evs = []
  /\ payloads evs = (if escaped then escape (esc_zeroRun (escaper t)) (payloads raws)
                     else payloads raws)
  /\ t1 = (if escaped then set_escaper
             {| esc_zeroRun := run_after (esc_zeroRun (escaper t)) (payloads raws) |} t else t).
Proof.
  revert t evs t1. induction raws as [|ev raws IH]; intros t evs t1 Hs He.
  { injection He as <- <-. split_and!; [apply shape_nil|done|by destruct escaped|].
    destruct escaped; [|done]. by destruct t as [? ? ? ? ? ? ? ? ? []]. }
  destruct ev as [h|p| |p]; [| | |done].
  1,3: cbn [encode_events] in He; destruct (encode_events (enc_fun escaped) raws t) as [l t2] eqn:Hl;
    injection He as <- <-; destruct (IH _ _ _ Hs Hl) as (H1' & H2' & H3' & H4');
    split_and!; try done; by apply shape_cons.
  cbn [encode_events] in He. unfold enc_fun at 1 in He. destruct escaped.
  - destruct (encode_events _ raws _) as [l t2] eqn:Hl. injection He as <- <-.
    destruct (IH _ _ _ Hs Hl) as (H1' & H2' & H3' & H4'). cbn in H3', H4'.
    cbn [payloads]. rewrite escape_app, run_after_app. split_and!; try done.
    + by apply shape_cons.
    + by rewrite H3'.
  - destruct (encode_events _ raws _) as [l t2] eqn:Hl. injection He as <- <-.
    destruct (IH _ _ _ Hs Hl) as (H1' & H2' & H3' & H4'). cbn [payloads].
    split_and!; try done; [by apply shape_cons|by rewrite H3'].
Qed.

(** The transformer has sent [evs], made of [raws], and owes [n] bytes. *)
Record owes (ins : list frame) (raws evs : list event) (t : Transformer C) (n : nat) : Prop :=
  Owes {
    o_esc : esc_ok t;
    o_sent : exists outs, frame_events raws [] = Some outs /\ ledger ins outs (pes t);
    o_settled : settled (pes t);
    o_total : total (pes t) = n;
    o_shape : shape raws evs;
    o_signals : signals evs = [];
  }.

(** [owes] only looks at the queue and the escaper. *)
Lemma owes_same ins raws evs t t' n n' : owes ins raws evs t n -> pes t' = pes t ->
  escaper t' = escaper t -> n' = n -> owes ins raws evs t' n'.
Proof.
  intros [He Ho Hs Ht Hsh Hsi] Hp Hesc ->. unfold esc_ok in He.
  split; unfold esc_ok; rewrite ?Hp, ?Hesc; done.
Qed.

Definition sent_bytes (escaped : bool) (t : Transformer C) (data : list Z) : list Z :=
  if escaped then escape (esc_zeroRun (escaper t)) data else data.

Definition esc_after (escaped : bool) (t : Transformer C) (data : list Z) : ebspEscaper :=
  if escaped then {| esc_zeroRun := run_after (esc_zeroRun (escaper t)) data |} else escaper t.

Lemma write_owes ins raws evs t n data escaped : owes ins raws evs t n -> length data <= n ->
  emits (W := W) (write data escaped) t
    (fun _ t' e => exists r q, owes ins (raws ++ r) (evs ++ e) t' (n - length data)
       /\ t' = set_pes q (set_escaper (esc_after escaped t data) t)
       /\ payloads r = data /\ payloads e = sent_bytes escaped t data)
    (fun _ _ _ => False).
Proof.
  intros [He (outs & Ho & Hl) Hs Ht Hsh Hsi] Hn.
  eapply emits_weaken;
    [apply (write_emits _ _ _ _ _ ins outs _ (encode_encoding escaped)); try done;
     change (pes_of t) with (pes t); lia|..|done].
  cbn beta. intros _ t' e (He' & r & q & outs' & t1 & Hr & -> & Hp & Hev & Hl' & Hs' & Ht' & Hsr).
  destruct (encode_events_spec _ _ _ _ _ Hsr Hr) as (H1' & H2' & H3' & ->). rewrite Hp in *.
  exists r, q. split_and!; [..|done|].
  - split; try done.
    + exists outs'. split; [|done]. by eapply frame_events_trans.
    + change (pes_of t) with (pes t) in Ht'. change (total q = n - length data). lia.
    + by apply shape_app.
    + by rewrite signals_app, Hsi.
  - unfold esc_after. destruct escaped; [done|]. by rewrite set_escaper_same.
  - by destruct escaped.
Qed.

(** ** The reference *)

(** From a point where [skip] clear bytes come first: a block is encrypted when
  bytes follow it, and 144 clear bytes come next. *)
Fixpoint tail_fuel (n : nat) (c : C) (skip : nat) (data : list Z) : list Z :=
  match n with
  | O => data
  | S n =>
      if length data <=? skip + avcBlockSize then data
      else
        let b := slice data skip (skip + avcBlockSize) in
        take skip data ++ enc c b
          ++ tail_fuel n (after c b) avcPatternSkipSize (drop (skip + avcBlockSize) data)
  end.

Definition tail_crypt (c : C) (skip : nat) (data : list Z) : list Z :=
  tail_fuel (length data) c skip data.

Definition long_nal (nal : list Z) : bool := avcProbeSize <=? length nal.

(** A slice of at least 49 bytes: the first 32 are clear, then a block. *)
Definition crypt_nal (c : C) (nal : list Z) : list Z :=
  if long_nal nal then
    let c := reset_state c in
    let b := slice nal avcClearLead (avcClearLead + avcBlockSize) in
    take avcClearLead nal ++ enc c b
      ++ tail_crypt (after c b) avcPatternSkipSize (drop (avcClearLead + avcBlockSize) nal)
  else nal.

(** Slices, by the type in the first byte. *)
Definition protected_type (nal : list Z) : bool :=
  match nal with
  | b :: _ => let nalType := Z.land b 0x1F in (nalType =? 1) || (nalType =? 5)
  | [] => false
  end%Z.

(** What becomes of a NAL, before and after escaping. *)
Definition nal_raw (b : option C) (nal : list Z) : list Z :=
  match b with
  | Some c => if protected_type nal then crypt_nal c nal else nal
  | None => nal
  end.

Definition nal_out (b : option C) (nal : list Z) : list Z :=
  match b with
  | Some c => if protected_type nal && long_nal nal then escape 0 (crypt_nal c nal) else nal
  | None => nal
  end.

Lemma tail_fuel_enough n m c skip data : length data <= n -> length data <= m ->
  tail_fuel n c skip data = tail_fuel m c skip data.
Proof.
  revert m c skip data. induction n as [|n IH]; intros [|m] c skip data Hn Hm; try done.
  1,2: destruct data; [|cbn in *; lia]; cbn [tail_fuel length];
    by rewrite (proj2 (Nat.leb_le _ _)) by (unfold avcBlockSize; lia).
  cbn [tail_fuel]. destruct (Nat.leb_spec (length data) (skip + avcBlockSize)); [done|].
  unfold avcBlockSize in *. do 2 f_equal. apply IH; llia.
Qed.

Lemma tail_crypt_unfold c skip data : tail_crypt c skip data =
  if length data <=? skip + avcBlockSize then data
  else
    let b := slice data skip (skip + avcBlockSize) in
    take skip data ++ enc c b
      ++ tail_crypt (after c b) avcPatternSkipSize (drop (skip + avcBlockSize) data).
Proof.
  unfold tail_crypt at 1. rewrite (tail_fuel_enough _ (S (length data))) by lia. cbn [tail_fuel].
  destruct (Nat.leb_spec (length data) (skip + avcBlockSize)); [done|]. cbn zeta.
  do 2 f_equal. unfold tail_crypt. apply tail_fuel_enough; llia.
Qed.

Lemma tail_crypt_short c skip data : length data <= skip + avcBlockSize ->
  tail_crypt c skip data = data.
Proof. intros. by rewrite tail_crypt_unfold, (proj2 (Nat.leb_le _ _)). Qed.

(** Clear bytes are sent as they come. *)
Lemma tail_crypt_clear c skip d1 d2 : length d1 <= skip ->
  tail_crypt c skip (d1 ++ d2) = d1 ++ tail_crypt c (skip - length d1) d2.
Proof.
  intros Hd. rewrite !tail_crypt_unfold, length_app.
  destruct (Nat.leb_spec (length d1 + length d2) (skip + avcBlockSize)).
  { by rewrite (proj2 (Nat.leb_le _ _)) by lia. }
  rewrite (proj2 (Nat.leb_gt _ _)) by lia. cbn zeta.
  rewrite take_app_ge, drop_app_ge by lia. rewrite <- app_assoc. do 2 f_equal.
  unfold slice. rewrite drop_app_ge by lia.
  replace (skip + avcBlockSize - length d1) with (skip - length d1 + avcBlockSize) by lia.
  by replace (skip - length d1 + avcBlockSize - (skip - length d1))
    with (skip + avcBlockSize - skip) by lia.
Qed.

(** A block that is not the last is encrypted. *)
Lemma tail_crypt_block c b d : length b = avcBlockSize -> d <> [] ->
  tail_crypt c 0 (b ++ d) = enc c b ++ tail_crypt (after c b) avcPatternSkipSize d.
Proof.
  intros Hb Hd. rewrite tail_crypt_unfold, length_app.
  destruct d as [|x d]; [done|]. rewrite (proj2 (Nat.leb_gt _ _)) by (cbn in *; lia).
  cbn zeta. cbn [Nat.add]. unfold slice. rewrite Nat.sub_0_r, drop_0, take_0, <- Hb.
  by rewrite take_app_length, drop_app_length.
Qed.

(** ** The state while a NAL is received *)
Context (b0 : option C).

(** The cryptor is the one given, up to its chain. *)
Definition block_ok (t : Transformer C) : Prop :=
  match b0, block t with
  | Some c0, Some c => usable c /\ reset_state c = reset_state c0
  | None, None => True
  | _, _ => False
  end.

(** The bytes of the NAL that are held back. *)
Definition held (t : Transformer C) : list Z := take (patternLen t) (pattern t).

(** An encrypted NAL, of whose bytes [d] the last, [rest], are still to be
  taken: [w] has been written, sent as [o]. *)
Record enc_state (t : Transformer C) (d rest w o : list Z) : Prop := EncState {
  e_long : avcProbeSize <= length d;
  e_type : protected_type d;
  e_nal : nalState t = avcNALStateProtected;
  e_flag : nalEncrypted t = true;
  e_held : patternLen t <= avcBlockSize;
  e_skip : 0 < skip t -> patternLen t = 0;
  e_crypt : exists c0 c, b0 = Some c0 /\ block t = Some c /\ armed c
    /\ forall f, crypt_nal c0 (d ++ f) = w ++ tail_crypt c (skip t) (held t ++ rest ++ f);
  e_out : o = escape 0 w;
  e_escaper : escaper t = {| esc_zeroRun := run_after 0 w |};
  }.

(** Of the NAL bytes [d], [w] has been written, sent as [o]. *)
Inductive nal_rel (t : Transformer C) (d w o : list Z) : Prop :=
| RelHeader : d = [] -> w = [] -> o = [] ->
    nalState t = avcNALStateHeader -> nalEncrypted t = false -> patternLen t = 0 ->
    escaper t = {| esc_zeroRun := 0 |} -> nal_rel t d w o
| RelPassthrough : d <> [] -> w = d -> o = d ->
    bool_decide (is_Some b0) && protected_type d = false ->
    nalState t = avcNALStatePassthrough -> patternLen t = 0 -> nal_rel t d w o
| RelProbe : d <> [] -> w = [] -> o = [] -> is_Some b0 -> protected_type d ->
    nalState t = avcNALStateProtected -> nalEncrypted t = false ->
    held t = d -> patternLen t = length d -> length d < avcProbeSize ->
    escaper t = {| esc_zeroRun := 0 |} -> nal_rel t d w o
| RelEncrypted : enc_state t d [] w o -> nal_rel t d w o.

(** The transformer in a NAL whose bytes so far are [d], with [x] more bytes to
  come that it owes; [pr] and [po] are what was written and sent before. *)
Record in_nal (ins : list frame) (pr po : list Z) (raws evs : list event)
    (t : Transformer C) (d : list Z) (x : nat) : Prop := InNal {
  n_owes : owes ins raws evs t (patternLen t + x);
  n_rel : exists w o, nal_rel t d w o /\ payloads raws = pr ++ w /\ payloads evs = po ++ o;
  n_pattern : length (pattern t) = avcProbeSize;
  n_block : block_ok t;
  }.

(** What the NAL methods leave alone. *)
Definition same (t t' : Transformer C) : Prop :=
  inputPESOpen t' = inputPESOpen t /\ zeroRun t' = zeroRun t.

(** Writing escaped bytes in an encrypted NAL. *)
Lemma write_escaped ins raws evs t n data z : owes ins raws evs t n -> length data <= n ->
  escaper t = {| esc_zeroRun := z |} ->
  emits (W := W) (write data true) t
    (fun _ t' e => exists r q, owes ins (raws ++ r) (evs ++ e) t' (n - length data)
       /\ t' = set_pes q (set_escaper {| esc_zeroRun := run_after z data |} t)
       /\ payloads r = data /\ payloads e = escape z data)
    (fun _ _ _ => False).
Proof.
  intros Ho Hn Hz. eapply emits_weaken; [by apply write_owes|..|done].
  cbn beta. unfold sent_bytes, esc_after. rewrite Hz. done.
Qed.

(** Encrypting a block of the pattern in place. *)
Lemma crypt_pattern_emits t c off : block t = Some c -> usable c -> armed c ->
  length (pattern t) = avcProbeSize -> off + avcBlockSize <= avcProbeSize ->
  let b := slice (pattern t) off (off + avcBlockSize) in
  emits (W := W) (crypt_pattern off) t
    (fun _ t' e => e = [] /\ usable (after c b) /\ armed (after c b)
       /\ length (enc c b) = avcBlockSize
       /\ t' = set_pattern (copy_at (pattern t) off (enc c b)) (patternLen t)
                 (set_block (after c b) t))
    (fun _ _ _ => False).
Proof.
  intros Hb Hu Ha Hp Hoff b. unfold crypt_pattern, avcBlockSize, avcProbeSize in *.
  assert (Hlen : length b = 16) by (unfold b; rewrite length_slice; lia).
  assert (Hm : length b mod 16 = 0) by by rewrite Hlen.
  destruct (crypt_armed c b Hu Ha Hm) as (Hc & Hu' & Ha').
  pose proof (length_enc c b Hu Ha Hm) as Hle.
  eapply (emits_bind _ _ _ (fun a t1 e => a = t /\ t1 = t /\ e = [])); [by apply emits_get|].
  intros ? ? ? (-> & -> & ->).
  eapply (emits_bind _ _ _ (fun d t1 e => d = enc c b /\ t1 = set_block (after c b) t /\ e = [])).
  { intros w. unfold on_block. rewrite Hb. fold b. rewrite Hc. by exists []. }
  intros ? ? ? (-> & -> & ->). eapply emits_fst; [done|]. cbn.
  split_and!; try done. congruence.
Qed.

Lemma block_ok_after t c d : block_ok t -> block t = Some c -> armed c ->
  length d mod 16 = 0 -> block_ok (set_block (after c d) t).
Proof.
  unfold block_ok. intros Hok Hb Ha Hm. rewrite Hb in Hok. cbn [block set_block].
  destruct b0; [|done]. destruct Hok as [Hu Hr].
  destruct (crypt_armed c d Hu Ha Hm) as (_ & ? & _). split; [done|]. by rewrite reset_after.
Qed.

(** *** The loop after the probe *)
Record loop_inv (ins : list frame) (pr po : list Z) (raws evs : list event)
    (t : Transformer C) (d rest : list Z) (x : nat) : Prop := LoopInv {
  l_owes : owes ins raws evs t (patternLen t + length rest + x);
  l_rel : exists w o, enc_state t d rest w o /\ payloads raws = pr ++ w /\ payloads evs = po ++ o;
  l_pattern : length (pattern t) = avcProbeSize;
  l_block : block_ok t;
  }.

(** A round that goes on. *)
Definition goes_on (ins : list frame) (pr po : list Z) (raws evs : list event)
    (t : Transformer C) (d : list Z) (x : nat) (v : nat)
    (r : list Z + unit) (t' : Transformer C) (e : list event) : Prop :=
  exists rest' r', r = inl rest' /\ same t t'
    /\ loop_inv ins pr po (raws ++ r') (evs ++ e) t' d rest' x
    /\ 2 * length rest' + (if patternLen t' =? avcBlockSize then 1 else 0) < v.

Lemma held_nil (t : Transformer C) : patternLen t = 0 -> held t = [].
Proof. intros Hp. unfold held. by rewrite Hp. Qed.

(** Clear bytes. *)
Lemma island_clear ins pr po raws evs t d rest x :
  loop_inv ins pr po raws evs t d rest x -> rest <> [] -> 0 < skip t ->
  emits (W := W) (let n := min (length rest) (skip t) in
      write (take n rest) true;;
      on_fst (modify (fun t => set_skip (skip t - n) t));;
      mret (inl (drop n rest) : list Z + unit)) t
    (goes_on ins pr po raws evs t d x (2 * length rest)) (fun _ _ _ => False).
Proof.
  intros [Ho (w & o & He & Hr & Hv) Hp Hb] Hne Hs. cbn zeta. set (n := min (length rest) (skip t)).
  destruct He as [He1 He2 He3 He4 He5 He6 (c0 & c & Hc0 & Hc & Ha & Hcr) He8 He9].
  pose proof (He6 Hs) as Hpl. rewrite Hpl in Ho. cbn [Nat.add] in Ho.
  assert (Hlen : length (take n rest) = n) by (subst n; llia).
  assert (0 < n) by (assert (length rest <> 0) by (by destruct rest); subst n; lia).
  eapply emits_bind; [apply (write_escaped _ _ _ _ _ (take n rest) (run_after 0 w) Ho); [rewrite Hlen; subst n; lia|done]|].
  intros _ ? e (r & q & Ho' & -> & Hpr & Hpe).
  eapply (emits_bind _ _ _ (fun _ t2 e => e = [] /\ t2 = set_skip (skip t - n) _));
    [by eapply emits_fst|].
  intros _ ? ? (-> & ->). apply emits_ret. cbn [app]. rewrite !app_nil_r.
  exists (drop n rest), r. split_and!; [done|done| |].
  - split; [|exists (w ++ take n rest), (o ++ escape (run_after 0 w) (take n rest))|done|done].
    + apply (owes_same _ _ _ _ _ _ _ Ho'); [done..|].
      cbn [patternLen set_skip set_pes set_escaper]. rewrite Hpl. llia.
    + split_and!; [|by rewrite payloads_app, Hr, Hpr, app_assoc
                   |by rewrite payloads_app, Hv, Hpe, app_assoc].
      split; try done; cbn [patternLen skip block escaper set_skip set_pes set_escaper].
      * exists c0, c. split_and!; try done. intros f. rewrite Hcr.
        change (held (set_skip _ _)) with (held t). rewrite (held_nil t Hpl). cbn [app].
        rewrite <- (take_drop n rest) at 1. rewrite <- !app_assoc.
        rewrite tail_crypt_clear by (subst n; llia). by rewrite Hlen.
      * by rewrite escape_app, He8.
      * by rewrite run_after_app.
  - cbn [patternLen set_skip set_pes set_escaper]. rewrite Hpl. cbn. llia.
Qed.

(** A full block that is not the last. *)
Lemma island_block ins pr po raws evs t d rest x :
  loop_inv ins pr po raws evs t d rest x -> rest <> [] -> skip t = 0 ->
  patternLen t = avcBlockSize ->
  emits (W := W) (crypt_pattern 0;;
      t ← on_fst get;
      write (take avcBlockSize (pattern t)) true;;
      on_fst (modify (fun t => set_skip avcPatternSkipSize (set_pattern (pattern t) 0 t)));;
      mret (inl rest : list Z + unit)) t
    (goes_on ins pr po raws evs t d x (2 * length rest + 1)) (fun _ _ _ => False).
Proof.
  intros [Ho (w & o & He & Hr & Hv) Hp Hb] Hne Hs Hpl.
  destruct He as [He1 He2 He3 He4 He5 He6 (c0 & c & Hc0 & Hc & Ha & Hcr) He8 He9].
  assert (Hu : usable c).
  { unfold block_ok in Hb. rewrite Hc, Hc0 in Hb. by destruct Hb. }
  eapply emits_bind; [apply (crypt_pattern_emits t c 0); try done; unfold avcBlockSize, avcProbeSize; lia|].
  intros _ ? ? (-> & Hu' & Ha' & Hle & ->). cbn [Nat.add] in *.
  set (b := slice (pattern t) 0 avcBlockSize) in *.
  assert (Hbl : length b = avcBlockSize).
  { unfold b. rewrite length_slice; unfold avcBlockSize, avcProbeSize in *; lia. }
  assert (Hbh : held t = b).
  { unfold held, b, slice. by rewrite Hpl, drop_0, Nat.sub_0_r. }
  assert (Hpat : take avcBlockSize (copy_at (pattern t) 0 (enc c b)) = enc c b).
  { rewrite take_copy_at; [|lia|rewrite Hle, Hp; unfold avcBlockSize, avcProbeSize; lia].
    rewrite take_0, take_ge; [done|]. rewrite Hle, Hp. unfold avcBlockSize, avcProbeSize. lia. }
  eapply (emits_bind _ _ _ (fun a t1 e => e = [] /\ a = t1 /\ t1 = _)); [by apply emits_get|].
  intros ? ? ? (-> & -> & ->). cbn [pattern set_pattern set_block app]. rewrite Hpat.
  set (t1 := set_pattern _ _ _).
  assert (Ho1 : owes ins raws evs t1 (avcBlockSize + length rest + x)).
  { rewrite Hpl in Ho. by apply (owes_same _ _ _ _ _ _ _ Ho). }
  eapply emits_bind; [apply (write_escaped _ _ _ _ _ _ (run_after 0 w) Ho1); [lia|done]|].
  intros _ ? e (r & q & Ho' & -> & Hpr & Hpe).
  eapply (emits_bind _ _ _ (fun _ t2 e => e = [] /\ t2 = set_skip avcPatternSkipSize
    (set_pattern (copy_at (pattern t) 0 (enc c b)) 0 _))); [by eapply emits_fst|].
  intros _ ? ? (-> & ->). apply emits_ret. cbn [app]. rewrite !app_nil_r.
  exists rest, r. split_and!; [done|done| |].
  - split; [|exists (w ++ enc c b), (o ++ escape (run_after 0 w) (enc c b))|..].
    + apply (owes_same _ _ _ _ _ _ _ Ho'); [done..|].
      cbn [patternLen set_skip set_pattern]. lia.
    + split_and!; [|by rewrite payloads_app, Hr, Hpr, app_assoc
                   |by rewrite payloads_app, Hv, Hpe, app_assoc].
      split; try done; cbn [patternLen skip set_skip set_pattern]; [lia|..].
      * exists c0, (after c b). split_and!; try done. intros f. rewrite Hcr, Hs, Hbh.
        rewrite tail_crypt_block by (done || by destruct rest). cbn [held].
        by rewrite <- app_assoc.
      * by rewrite escape_app, He8.
      * cbn. by rewrite run_after_app.
    + cbn. rewrite length_copy_at; lia.
    + apply (block_ok_after t c b) in Hb; [done..|]. by rewrite Hbl.
  - cbn [patternLen set_skip set_pattern]. cbn. lia.
Qed.

(** Bytes of the next block, kept until more is known. *)
Lemma held_copy (p data : list Z) k n : length p = avcProbeSize -> k + n <= avcProbeSize ->
  n <= length data -> take (k + n) (copy_at p k (take n data)) = take k p ++ take n data.
Proof.
  unfold avcProbeSize. intros Hp Hk Hn.
  rewrite take_copy_at; [|lia|llia]. f_equal. rewrite take_ge; [done|llia].
Qed.

Lemma island_fill ins pr po raws evs t d rest x :
  loop_inv ins pr po raws evs t d rest x -> rest <> [] -> skip t = 0 ->
  patternLen t < avcBlockSize ->
  emits (W := W) (let n := min (avcBlockSize - patternLen t) (length rest) in
      on_fst (modify (fun t => set_pattern (copy_at (pattern t) (patternLen t) (take n rest))
        (patternLen t + n) t));;
      mret (inl (drop n rest) : list Z + unit)) t
    (goes_on ins pr po raws evs t d x (2 * length rest)) (fun _ _ _ => False).
Proof.
  intros [Ho (w & o & He & Hr & Hv) Hp Hb] Hne Hs Hpl. cbn zeta.
  set (n := min (avcBlockSize - patternLen t) (length rest)).
  destruct He as [He1 He2 He3 He4 He5 He6 (c0 & c & Hc0 & Hc & Ha & Hcr) He8 He9].
  assert (0 < length rest) by (destruct rest; cbn; [done|lia]).
  assert (Hk : patternLen t + n <= avcBlockSize) by (subst n; lia).
  assert (Hk' : patternLen t + n <= avcProbeSize) by (unfold avcProbeSize, avcBlockSize in *; lia).
  assert (Hn : 0 < n <= length rest) by (subst n; lia).
  eapply (emits_bind _ _ _ (fun _ t2 e => e = [] /\ t2 = set_pattern
    (copy_at (pattern t) (patternLen t) (take n rest)) (patternLen t + n) t));
    [by eapply emits_fst|].
  intros _ ? ? (-> & ->). apply emits_ret. cbn [app].
  exists (drop n rest), []. split_and!; [done|done| |].
  - rewrite !app_nil_r. split; [|exists w, o|..].
    + apply (owes_same _ _ _ _ _ _ _ Ho); [done..|]. cbn [patternLen set_pattern]. llia.
    + split_and!; [|done..]. split; try done; cbn [patternLen skip set_pattern]; [lia|].
      exists c0, c. split_and!; try done. intros f. rewrite Hcr. do 2 f_equal.
      unfold held. cbn [pattern patternLen set_pattern]. rewrite held_copy by (done || lia).
      rewrite <- app_assoc. f_equal. by rewrite app_assoc, take_drop.
    + cbn. rewrite length_copy_at; [done|]. unfold avcProbeSize, avcBlockSize in *. lia.
    + done.
  - destruct (patternLen _ =? _); llia.
Qed.

(** The loop takes all the bytes it is given. *)
Lemma islands_emits ins pr po raws evs t d rest x :
  loop_inv ins pr po raws evs t d rest x ->
  emits (W := W) (islands rest) t
    (fun _ t' e => exists r, in_nal ins pr po (raws ++ r) (evs ++ e) t' d x /\ same t t')
    (fun _ _ _ => False).
Proof.
  intros Hinv.
  apply (emits_loop island_step
    (fun rest t' e => exists r, loop_inv ins pr po (raws ++ r) (evs ++ e) t' d rest x /\ same t t')
    (fun rest t' => 2 * length rest + (if patternLen t' =? avcBlockSize then 1 else 0))).
  2: { exists []. by rewrite !app_nil_r. }
  2: { destruct (patternLen t =? avcBlockSize); lia. }
  clear rest Hinv. intros rest t1 e1 (r1 & Hinv & Hsame). unfold island_step.
  case_decide as Hne.
  { apply emits_ret. rewrite app_nil_r. exists r1. split; [|done].
    destruct Hinv as [Ho (w & o & He & Hr & Hv) Hp Hb]. rewrite Hne in Ho. cbn [length] in Ho.
    rewrite Nat.add_0_r in Ho. subst rest. split; try done.
    exists w, o. split_and!; [|done..]. by apply RelEncrypted. }
  eapply (emits_bind _ _ _ (fun a t2 e => a = t1 /\ t2 = t1 /\ e = [])); [by apply emits_get|].
  intros ? ? ? (-> & -> & ->).
  assert (Hgo : forall v, v <= 2 * length rest + (if patternLen t1 =? avcBlockSize then 1 else 0) ->
    forall a t' e, goes_on ins pr po (raws ++ r1) (evs ++ e1) t1 d x v a t' e ->
    match a with
    | inl rest' => (exists r, loop_inv ins pr po (raws ++ r) (evs ++ e1 ++ [] ++ e) t' d rest' x /\ same t t')
        /\ 2 * length rest' + (if patternLen t' =? avcBlockSize then 1 else 0)
          < 2 * length rest + (if patternLen t1 =? avcBlockSize then 1 else 0)
    | inr _ => exists r, in_nal ins pr po (raws ++ r) (evs ++ e1 ++ [] ++ e) t' d x /\ same t t'
    end).
  { intros v Hv a t' e (rest' & r' & -> & Hs & Hi & Hlt). split; [|lia].
    exists (r1 ++ r'). rewrite app_assoc, (app_assoc evs). split; [done|].
    destruct Hsame, Hs. by split; congruence. }
  destruct (Nat.ltb_spec 0 (skip t1)) as [Hs|Hs].
  { eapply emits_weaken; [by apply (island_clear ins pr po (raws ++ r1) (evs ++ e1) t1 d rest x)
      |apply Hgo; lia|done]. }
  destruct (Nat.eqb_spec (patternLen t1) avcBlockSize) as [Hp|Hp].
  { eapply emits_weaken; [apply (island_block ins pr po (raws ++ r1) (evs ++ e1) t1 d rest x);
      (done || lia)|apply Hgo; lia|done]. }
  pose proof Hinv as [_ (w & o & He & _) _ _]. pose proof (e_held _ _ _ _ _ He) as Hle.
  rewrite (proj2 (Nat.ltb_ge _ _)) by lia.
  eapply emits_weaken; [apply (island_fill ins pr po (raws ++ r1) (evs ++ e1) t1 d rest x);
    (done || lia)|apply Hgo; lia|done].
Qed.

(** *** The probe *)

(** The probe as a whole, once it is complete. *)
Lemma crypt_probe c0 nal f p : long_nal nal -> p = take avcProbeSize nal ->
  let c := reset_state c0 in
  let b := slice p avcClearLead (avcClearLead + avcBlockSize) in
  length (enc c b) = avcBlockSize ->
  crypt_nal c0 (nal ++ f) = copy_at p avcClearLead (enc c b)
    ++ tail_crypt (after c b) (avcPatternSkipSize - 1) (drop avcProbeSize nal ++ f).
Proof.
  intros Hl%Is_true_true Hp c b He. unfold long_nal in Hl. apply Nat.leb_le in Hl.
  unfold crypt_nal, long_nal. rewrite (proj2 (Nat.leb_le _ _)) by llia.
  assert (Hpl : length p = 49) by (subst p; unfold avcProbeSize in *; llia).
  assert (Hnal : nal = p ++ drop 49 nal) by (subst p; by rewrite take_drop).
  unfold avcProbeSize, avcClearLead, avcPatternSkipSize, avcBlockSize in *.
  cbn [Nat.add Nat.mul Nat.sub] in *. rewrite Hnal at 1 2 3 4 5. rewrite <- !app_assoc.
  replace (slice (p ++ drop 49 nal ++ f) 32 48) with b
    by (unfold b, slice; by rewrite drop_app_le, take_app_le by llia).
  fold c. rewrite take_app_le, drop_app_le by lia. unfold copy_at.
  rewrite (take_ge (enc c b)) by lia. rewrite He. cbn [Nat.add]. rewrite <- !app_assoc. do 2 f_equal.
  rewrite tail_crypt_clear by llia. rewrite length_drop, Hpl.
  f_equal. f_equal. f_equal. by rewrite drop_app_ge, Hpl, drop_0 by lia.
Qed.

Lemma block_ok_some t : block_ok t -> is_Some b0 ->
  exists c0 c, b0 = Some c0 /\ block t = Some c /\ usable c /\ reset_state c = reset_state c0.
Proof.
  unfold block_ok. intros Hb [c0 Hc0]. rewrite Hc0 in *.
  destruct (block t) as [c|]; [|done]. exists c0, c. by destruct Hb.
Qed.

Lemma probe_emits ins pr po raws evs t d data x :
  owes ins raws evs t (patternLen t + (length data + x)) ->
  length (pattern t) = avcProbeSize -> block_ok t -> is_Some b0 ->
  protected_type (d ++ data) -> nalState t = avcNALStateProtected -> nalEncrypted t = false ->
  held t = d -> patternLen t = length d -> length d < avcProbeSize ->
  escaper t = {| esc_zeroRun := 0 |} -> data <> [] ->
  payloads raws = pr -> payloads evs = po ->
  emits (W := W) (probe data) t
    (fun r t' e => same t t' /\ match r with
       | None => e = [] /\ in_nal ins pr po raws evs t' (d ++ data) x
       | Some rest => exists r', loop_inv ins pr po (raws ++ r') (evs ++ e) t' (d ++ data) rest x
       end)
    (fun _ _ _ => False).
Proof.
  intros Ho Hp Hb Hsome Hty Hst Hne Hheld Hpl Hshort Hesc Hdata Hr Hv. unfold probe.
  eapply (emits_bind _ _ _ (fun a t1 e => a = t /\ t1 = t /\ e = [])); [by apply emits_get|].
  intros ? ? ? (-> & -> & ->). rewrite Hne. set (n := min _ _).
  assert (Hn : n <= length data /\ patternLen t + n <= avcProbeSize) by (subst n; lia).
  assert (Hcopy : copy_at (pattern t) (patternLen t) data
                  = copy_at (pattern t) (patternLen t) (take n data)).
  { unfold copy_at. rewrite take_take, Hp. replace (min (avcProbeSize - patternLen t) n) with n by (subst n; lia).
    replace (take (avcProbeSize - patternLen t) data) with (take n data); [done|].
    subst n. destruct (Nat.le_ge_cases (avcProbeSize - patternLen t) (length data)).
    - by rewrite Nat.min_l.
    - rewrite Nat.min_r by done. by rewrite !take_ge by lia. }
  set (t1 := set_pattern (copy_at (pattern t) (patternLen t) data) (patternLen t + n) t).
  assert (Hheld1 : held t1 = d ++ take n data).
  { unfold held, t1. cbn [pattern patternLen set_pattern]. rewrite Hcopy, held_copy by (done || lia).
    f_equal. exact Hheld. }
  assert (Hp1 : length (pattern t1) = avcProbeSize).
  { cbn. rewrite length_copy_at; lia. }
  eapply (emits_bind _ _ _ (fun _ t2 e => e = [] /\ t2 = t1)); [by eapply emits_fst|].
  intros _ ? ? (-> & ->).
  eapply (emits_bind _ _ _ (fun a t2 e => e = [] /\ a = t1 /\ t2 = t1)); [by apply emits_get|].
  intros ? ? ? (-> & -> & ->). cbn [app]. cbn [patternLen set_pattern t1].
  destruct (Nat.ltb_spec (patternLen t + n) avcProbeSize) as [Hlt|Hge].
  { assert (Hall : n = length data) by (subst n; lia). apply emits_ret. split; [done|]. split; [done|].
    rewrite Hall, take_ge in Hheld1 by lia. split; [| |done|done].
    - apply (owes_same _ _ _ _ _ _ _ Ho); [done..|]. unfold t1; cbn [patternLen set_pattern]; lia.
    - exists [], []. rewrite !app_nil_r. split_and!; [|done..].
      apply RelProbe; try done; [by destruct d, data|..];
        unfold t1; cbn [patternLen set_pattern]; rewrite length_app; lia. }
  pose proof (block_ok_some t Hb Hsome) as (c0 & c & Hc0 & Hc & Hu & Hrs).
  destruct (usable_reset c Hu) as (Hreset & Hu' & Ha').
  eapply (emits_bind _ _ _ (fun _ t2 e => e = [] /\ t2 = set_block (reset_state c) t1)).
  { intros w. unfold on_block. cbn [block t1 set_pattern]. rewrite Hc, Hreset. by exists []. }
  intros _ ? ? (-> & ->).
  eapply emits_bind; [apply (crypt_pattern_emits _ (reset_state c) avcClearLead); try done;
    unfold avcClearLead, avcBlockSize, avcProbeSize; lia|].
  intros _ ? ? (-> & Hu2 & Ha2 & Hle & ->). cbn [pattern set_block] in *.
  assert (Hfull : pattern t1 = take avcProbeSize (d ++ data)).
  { rewrite <- (take_ge (pattern t1) (patternLen t + n)) by lia. fold (held t1).
    change (take (patternLen t + n) (pattern t1)) with (held t1). rewrite Hheld1.
    rewrite take_app, (take_ge d) by lia. f_equal. f_equal. lia. }
  set (b := slice (pattern t1) avcClearLead (avcClearLead + avcBlockSize)) in *.
  eapply (emits_bind _ _ _ (fun a t2 e => e = [] /\ a = t2 /\ t2 = _)); [by apply emits_get|].
  intros ? ? ? (-> & -> & ->). cbn [pattern set_pattern app].
  set (p := copy_at (pattern t1) avcClearLead (enc (reset_state c) b)).
  assert (Hlp : length p = avcProbeSize).
  { unfold p. rewrite length_copy_at; unfold avcClearLead, avcProbeSize in *; lia. }
  set (t2 := set_pattern p _ _).
  assert (Ho2 : owes ins raws evs t2 (avcProbeSize + (length (drop n data) + x))).
  { apply (owes_same _ _ _ _ _ _ _ Ho); [done..|]. llia. }
  eapply emits_bind; [apply (write_escaped _ _ _ _ _ p 0 Ho2); [lia|done]|].
  intros _ ? e (r & q & Ho' & -> & Hpr & Hpe).
  eapply (emits_bind _ _ _ (fun _ t3 e => e = [] /\ t3 = set_skip (avcPatternSkipSize - 1)
    (set_encrypted true (set_pattern p 0 _)))); [by eapply emits_fst|].
  intros _ ? ? (-> & ->). apply emits_ret. cbn [app]. rewrite !app_nil_r. split; [done|].
  assert (Hlong : long_nal (d ++ data)).
  { apply Is_true_true. unfold long_nal. apply Nat.leb_le. llia. }
  exists r. split; [|exists p, (escape 0 p)|done|].
  - apply (owes_same _ _ _ _ _ _ _ Ho'); [done..|]. cbn [patternLen set_skip set_encrypted set_pattern]. lia.
  - split_and!; [|by rewrite payloads_app, Hr, Hpr|by rewrite payloads_app, Hv, Hpe].
    split; try done; cbn [patternLen skip set_skip set_pattern set_encrypted].
    + apply Nat.leb_le, Is_true_true, Hlong.
    + unfold avcBlockSize. lia.
    + exists c0, (after (reset_state c) b). split_and!; [done..|]. intros f.
      rewrite (crypt_probe c0 (d ++ data) f (pattern t1)); [|done|done|by rewrite <- Hrs].
      rewrite <- Hrs. do 2 f_equal. unfold held. cbn [patternLen set_skip set_pattern set_encrypted].
      rewrite take_0. cbn [app]. f_equal. rewrite drop_app_ge by lia. f_equal. lia.
  - unfold block_ok. cbn. rewrite Hc0. split; [done|].
    by rewrite reset_after, reset_reset by done.
Qed.

(** ** The methods *)
Lemma block_ok_is_some t : block_ok t ->
  bool_decide (is_Some (block t)) = bool_decide (is_Some b0).
Proof.
  unfold block_ok. intros Hb. apply bool_decide_ext.
  destruct b0, (block t); try done; split; by eauto.
Qed.

Lemma protected_type_app d data : d <> [] -> protected_type (d ++ data) = protected_type d.
Proof. by destruct d. Qed.

(** The part of [writeNAL] after the NAL type is known. *)
Definition write_typed (data : list Z) : M (Transformer C * W) unit :=
  t ← on_fst get;
  if bool_decide (nalState t = avcNALStatePassthrough) then write data false
  else
    r ← probe data;
    match r with
    | Some data => islands data
    | None => mret tt
    end.

Lemma pass_emits ins pr po raws evs t d data x :
  owes ins raws evs t (length data + x) -> patternLen t = 0 ->
  nalState t = avcNALStatePassthrough -> length (pattern t) = avcProbeSize -> block_ok t ->
  bool_decide (is_Some b0) && protected_type (d ++ data) = false -> data <> [] ->
  payloads raws = pr ++ d -> payloads evs = po ++ d ->
  emits (W := W) (write_typed data) t
    (fun _ t' e => exists r, in_nal ins pr po (raws ++ r) (evs ++ e) t' (d ++ data) x /\ same t t')
    (fun _ _ _ => False).
Proof.
  intros Ho Hpl Hst Hp Hb Hty Hne Hr Hv. unfold write_typed.
  eapply (emits_bind _ _ _ (fun a t1 e => e = [] /\ a = t /\ t1 = t)); [by apply emits_get|].
  intros ? ? ? (-> & -> & ->). rewrite bool_decide_eq_true_2 by done.
  eapply emits_weaken; [apply (write_owes _ _ _ _ _ data false Ho); lia|..|done].
  cbn beta. intros _ t' e (r & q & Ho' & -> & Hpr & Hpe). exists r. split; [|done].
  split; [|exists (d ++ data), (d ++ data)|done|done].
  - apply (owes_same _ _ _ _ _ _ _ Ho'); [done..|].
    cbn [patternLen set_pes set_escaper]. lia.
  - rewrite !payloads_app, Hr, Hv, Hpr, Hpe, <- !app_assoc. split_and!; [|done..].
    apply RelPassthrough; try done. by destruct d, data.
Qed.

Lemma typed_probe_emits ins pr po raws evs t d data x :
  owes ins raws evs t (patternLen t + (length data + x)) ->
  length (pattern t) = avcProbeSize -> block_ok t -> is_Some b0 ->
  protected_type (d ++ data) -> nalState t = avcNALStateProtected -> nalEncrypted t = false ->
  held t = d -> patternLen t = length d -> length d < avcProbeSize ->
  escaper t = {| esc_zeroRun := 0 |} -> data <> [] ->
  payloads raws = pr -> payloads evs = po ->
  emits (W := W) (write_typed data) t
    (fun _ t' e => exists r, in_nal ins pr po (raws ++ r) (evs ++ e) t' (d ++ data) x /\ same t t')
    (fun _ _ _ => False).
Proof.
  intros Ho Hp Hb Hsome Hty Hst Hnf Hheld Hpl Hlt Hesc Hne Hr Hv. unfold write_typed.
  eapply (emits_bind _ _ _ (fun a t1 e => e = [] /\ a = t /\ t1 = t)); [by apply emits_get|].
  intros ? ? ? (-> & -> & ->). rewrite bool_decide_eq_false_2 by congruence. cbn [app].
  eapply emits_bind; [by apply (probe_emits ins pr po raws evs t d data x)|].
  intros [rest|] t1 e1 [Hs1 Hcase].
  - destruct Hcase as [r1 Hinv]. eapply emits_weaken; [by eapply islands_emits|..|done].
    cbn beta. intros _ t' e (r & Hin & Hs). exists (r1 ++ r).
    rewrite !app_assoc. split; [done|]. destruct Hs1, Hs. split; congruence.
  - destruct Hcase as [-> Hin]. apply emits_ret. exists []. cbn [app]. by rewrite !app_nil_r.
Qed.

Lemma typed_emits ins pr po raws evs t d data x :
  in_nal ins pr po raws evs t d (length data + x) -> data <> [] -> d <> [] ->
  emits (W := W) (write_typed data) t
    (fun _ t' e => exists r, in_nal ins pr po (raws ++ r) (evs ++ e) t' (d ++ data) x /\ same t t')
    (fun _ _ _ => False).
Proof.
  intros [Ho (w & o & Hrel & Hr & Hv) Hp Hb] Hne Hd.
  destruct Hrel as [? | _ -> -> Hty Hst Hpl | _ -> -> Hsome Hty Hst Hnf Hheld Hpl Hlt Hesc
                    | [He1 He2 He3 He4 He5 He6 (c0 & c & Hc0 & Hc & Ha & Hcr) He8 He9]].
  - done.
  - apply (pass_emits ins pr po raws evs t d data x); try done; [by rewrite Hpl in Ho|].
    by rewrite protected_type_app.
  - rewrite app_nil_r in Hr, Hv. apply typed_probe_emits; try done.
    by rewrite protected_type_app.
  - unfold write_typed.
    eapply (emits_bind _ _ _ (fun a t1 e => e = [] /\ a = t /\ t1 = t)); [by apply emits_get|].
    intros ? ? ? (-> & -> & ->). rewrite bool_decide_eq_false_2 by congruence. cbn [app].
    eapply (emits_bind _ _ _ (fun a t1 e => e = [] /\ a = Some data /\ t1 = t)).
    { unfold probe. eapply (emits_bind _ _ _ (fun a t1 e => e = [] /\ a = t /\ t1 = t));
        [by apply emits_get|].
      intros ? ? ? (-> & -> & ->). rewrite He4. by apply emits_ret. }
    intros ? ? ? (-> & -> & ->). cbn [app]. apply islands_emits. split; try done.
    + apply (owes_same _ _ _ _ _ _ _ Ho); [done..|lia].
    + exists w, o. split_and!; [|done..]. split; try done.
      * llia.
      * by rewrite protected_type_app.
      * exists c0, c. split_and!; try done. intros f. by rewrite <- app_assoc, Hcr.
Qed.

(** Feeding bytes to the NAL. *)
Lemma writeNAL_emits ins pr po raws evs t d data x :
  in_nal ins pr po raws evs t d (length data + x) -> data <> [] ->
  emits (W := W) (writeNAL data) t
    (fun _ t' e => exists r, in_nal ins pr po (raws ++ r) (evs ++ e) t' (d ++ data) x /\ same t t')
    (fun _ _ _ => False).
Proof.
  intros Hin Hne. unfold writeNAL. pose proof Hin as [Ho (w & o & Hrel & Hr & Hv) Hp Hb].
  eapply (emits_bind _ _ _ (fun a t1 e => e = [] /\ a = t /\ t1 = t)); [by apply emits_get|].
  intros ? ? ? (-> & -> & ->).
  assert (Hst : nalState t <> avcNALStateNone).
  { destruct Hrel as [| | |[]]; congruence. }
  rewrite (bool_decide_eq_false_2 (nalState t = avcNALStateNone)) by done.
  eapply (emits_bind (fail_if _ _) _ _ (fun _ t1 e => t1 = t /\ e = [])); [by apply emits_ret|].
  intros _ ? ? (-> & ->). cbn [app].
  destruct (decide (d = [])) as [->|Hd]; last first.
  { rewrite (bool_decide_eq_false_2 (nalState t = _)) by (destruct Hrel as [| | |[]]; congruence).
    eapply (emits_bind (when _ _) _ _ (fun _ t1 e => t1 = t /\ e = [])); [by apply emits_ret|].
    intros _ ? ? (-> & ->). cbn [app]. by apply typed_emits. }
  destruct Hrel as [_ -> -> Hh Hf Hpl Hesc| | |[]]; [|done|done|cbn in *; unfold avcProbeSize in *; lia].
  rewrite (bool_decide_eq_true_2 (nalState t = _)) by done. destruct data as [|b data]; [done|]. cbn [when head must].
  set (ty := bool_decide (is_Some (block t)) && ((Z.land b 0x1F =? 1) || (Z.land b 0x1F =? 5))%Z).
  assert (Hty : ty = bool_decide (is_Some b0) && protected_type (b :: data))
    by by unfold ty; rewrite block_ok_is_some.
  set (t1 := set_state (if ty then avcNALStateProtected else avcNALStatePassthrough) t).
  eapply (emits_bind _ _ _ (fun _ t2 e => t2 = t1 /\ e = [])).
  { eapply (emits_bind _ _ _ (fun a t2 e => a = b /\ t2 = t /\ e = [])); [by eapply emits_fst|].
    intros ? ? ? (-> & -> & ->). by eapply emits_fst. }
  intros _ ? ? (-> & ->). cbn [app]. rewrite app_nil_r in Hr, Hv.
  assert (Ho1 : owes ins raws evs t1 (length (b :: data) + x)).
  { apply (owes_same _ _ _ _ _ _ _ Ho); [done..|lia]. }
  change ([] ++ b :: data) with (b :: data). destruct ty eqn:Ety.
  - symmetry in Hty. apply andb_true_iff in Hty as [Hsome%bool_decide_eq_true Hty].
    apply (typed_probe_emits ins pr po raws evs t1 [] (b :: data) x); try done.
    + by cbn [patternLen t1 set_state]; rewrite Hpl.
    + change (protected_type (b :: data)); by apply Is_true_true.
    + unfold held. cbn [patternLen t1 set_state]. by rewrite Hpl.
    + unfold avcProbeSize. cbn. lia.
  - apply (pass_emits ins pr po raws evs t1 [] (b :: data) x); try done; by rewrite app_nil_r.
Qed.

(** *** Zeros *)
Lemma take_zeros k : k <= length zeroBytes -> take k zeroBytes = replicate k 0%Z.
Proof.
  unfold zeroBytes. rewrite length_replicate. intros Hk. by rewrite take_replicate, Nat.min_l.
Qed.

(** A loop over zeros, from what one piece does; [P] speaks of the zeros still to
  come. *)
Lemma zeros_loop_emits f n t (P : nat -> Transformer C -> list event -> Prop) :
  (forall k size t e, 0 < size <= k -> P k t e ->
     emits (W := W) (f (replicate size 0%Z)) t (fun _ t' e' => P (k - size) t' (e ++ e'))
       (fun _ _ _ => False)) ->
  P n t [] ->
  emits (W := W) (zeros_loop f n) t (fun _ t' e => P 0 t' e) (fun _ _ _ => False).
Proof.
  intros Hf HP. apply (emits_loop _ (fun k t e => P k t e) (fun k _ => k)); [|done|lia].
  intros k t1 e1 Hk. destruct (Nat.eqb_spec k 0) as [->|Hne].
  { apply emits_ret. by rewrite app_nil_r. }
  cbn beta zeta. set (size := min k (length zeroBytes)).
  assert (Hsz : 0 < size <= k).
  { subst size. unfold zeroBytes. rewrite length_replicate. lia. }
  rewrite take_zeros by (subst size; lia).
  eapply emits_bind; [by apply (Hf k size)|].
  intros [] t2 e2 H2'. apply emits_ret. rewrite app_nil_r. split; [done|lia].
Qed.

Lemma writeNALZeros_emits ins pr po raws evs t d n x :
  in_nal ins pr po raws evs t d (n + x) ->
  emits (W := W) (writeNALZeros n) t
    (fun _ t' e => exists r, in_nal ins pr po (raws ++ r) (evs ++ e) t' (d ++ replicate n 0%Z) x
       /\ same t t')
    (fun _ _ _ => False).
Proof.
  intros Hin. eapply emits_weaken.
  - apply (zeros_loop_emits _ n t (fun k t' e => k <= n /\ exists r,
      in_nal ins pr po (raws ++ r) (evs ++ e) t' (d ++ replicate (n - k) 0%Z) (k + x) /\ same t t')).
    + intros k size t1 e1 Hsz (Hk & r1 & Hin1 & Hs1).
      eapply emits_weaken; [apply (writeNAL_emits ins pr po (raws ++ r1) (evs ++ e1) t1
        (d ++ replicate (n - k) 0%Z) (replicate size 0%Z) (k - size + x))|..|done].
      * rewrite length_replicate. by replace (size + (k - size + x)) with (k + x) by lia.
      * by destruct size; [lia|].
      * cbn beta. intros _ t2 e2 (r2 & Hin2 & Hs2). split; [lia|]. exists (r1 ++ r2).
        rewrite <- (app_assoc d), <- replicate_add in Hin2.
        replace (n - (k - size)) with (n - k + size) by lia. rewrite !app_assoc.
        split; [done|]. destruct Hs1, Hs2. split; congruence.
    + split; [done|]. exists []. by rewrite !app_nil_r, Nat.sub_diag, app_nil_r.
  - cbn beta. intros _ t' e (_ & r & Hr & Hs). exists r. by rewrite Nat.sub_0_r in Hr.
  - done.
Qed.

Lemma writeZeros_emits ins raws evs t n x : owes ins raws evs t (n + x) ->
  emits (W := W) (writeZeros n false) t
    (fun _ t' e => exists r q, owes ins (raws ++ r) (evs ++ e) t' x /\ t' = set_pes q t
       /\ payloads r = replicate n 0%Z /\ payloads e = replicate n 0%Z)
    (fun _ _ _ => False).
Proof.
  intros Ho. eapply emits_weaken.
  - apply (zeros_loop_emits _ n t (fun k t' e => k <= n /\ exists r q,
      owes ins (raws ++ r) (evs ++ e) t' (k + x) /\ t' = set_pes q t
      /\ payloads r = replicate (n - k) 0%Z /\ payloads e = replicate (n - k) 0%Z)).
    + intros k size t1 e1 Hsz (Hk & r1 & q1 & Ho1 & -> & Hr1 & He1).
      eapply emits_weaken; [apply (write_owes _ _ _ _ _ (replicate size 0%Z) false Ho1)|..|done].
      * rewrite length_replicate. lia.
      * cbn beta. intros _ t2 e2 (r2 & q2 & Ho2 & -> & Hr2 & He2). split; [lia|].
        exists (r1 ++ r2), q2. rewrite !payloads_app, Hr1, Hr2, He1, He2. cbn [sent_bytes].
        rewrite <- replicate_add. rewrite length_replicate in Ho2. rewrite !app_assoc.
        replace (n - (k - size)) with (n - k + size) by lia.
        replace (k - size + x) with (k + x - size) by lia.
        by split_and!.
    + split; [done|]. exists [], (pes t). rewrite !app_nil_r, Nat.sub_diag.
      split_and!; try done. by destruct t.
  - cbn beta. intros _ t' e (_ & r & q & Hr). exists r, q. by rewrite Nat.sub_0_r in Hr.
  - done.
Qed.

(** *** The end of a NAL *)
Lemma short_nal (d : list Z) : length d < avcProbeSize -> long_nal d = false.
Proof. intros. by apply Nat.leb_gt. Qed.

Lemma finishNAL_emits ins pr po raws evs t d x :
  in_nal ins pr po raws evs t d x -> d <> [] ->
  emits (W := W) finishNAL t
    (fun _ t' e => exists r, owes ins (raws ++ r) (evs ++ e) t' x
       /\ payloads (raws ++ r) = pr ++ nal_raw b0 d
       /\ payloads (evs ++ e) = po ++ nal_out b0 d
       /\ nalState t' = avcNALStateNone /\ length (pattern t') = avcProbeSize
       /\ block_ok t' /\ same t t')
    (fun _ _ _ => False).
Proof.
  intros [Ho (w & o & Hrel & Hr & Hv) Hp Hb] Hd. unfold finishNAL.
  eapply (emits_bind _ _ _ (fun a t1 e => e = [] /\ a = t /\ t1 = t)); [by apply emits_get|].
  intros ? ? ? (-> & -> & ->).
  rewrite (bool_decide_eq_false_2 (nalState t = avcNALStateHeader))
    by (destruct Hrel as [| | |[]]; congruence).
  eapply (emits_bind (fail_if _ _) _ _ (fun _ t1 e => t1 = t /\ e = [])); [by apply emits_ret|].
  intros _ ? ? (-> & ->). cbn [app].
  assert (Hheld : length (held t) = patternLen t).
  { unfold held. rewrite length_take, Hp. unfold avcProbeSize.
    destruct Hrel as [|? ? ? ? ? Hpl|? ? ? ? ? ? ? ? Hpl Hl|[]]; unfold avcProbeSize, avcBlockSize in *; lia. }
  destruct (decide (nalState t = avcNALStateProtected)) as [Hpr|Hpr]; last first.
  { rewrite bool_decide_eq_false_2 by done.
    eapply (emits_bind (when _ _) _ _ (fun _ t1 e => t1 = t /\ e = [])); [by apply emits_ret|].
    intros _ ? ? (-> & ->). eapply emits_fst; [done|]. exists []. rewrite !app_nil_r.
    destruct Hrel as [|_ -> -> Hty Hst Hpl| |[]]; [done| |congruence|congruence].
    assert (Hnal : nal_raw b0 d = d /\ nal_out b0 d = d).
    { unfold nal_raw, nal_out. destruct b0; [|done]. cbn in Hty. by rewrite Hty. }
    destruct Hnal as [-> ->]. split_and!; try done.
    apply (owes_same _ _ _ _ _ _ _ Ho); [done..|]. by rewrite Hpl. }
  rewrite bool_decide_eq_true_2 by done. cbn [when]. fold (held t).
  assert (Hn : forall r e, payloads r = held t -> payloads e = sent_bytes (nalEncrypted t) t (held t) ->
    payloads (raws ++ r) = pr ++ nal_raw b0 d /\ payloads (evs ++ e) = po ++ nal_out b0 d).
  { intros r e Hpr' Hpe. rewrite !payloads_app, Hr, Hv, Hpr', Hpe.
    destruct Hrel as [|_ -> -> Hty Hst Hpl|_ -> -> Hsome Hty Hst Hnf Hh Hpl Hlt Hesc|He];
      [done|congruence| |].
    - rewrite Hnf, Hh. cbn [sent_bytes]. rewrite !app_nil_r. unfold nal_raw, nal_out.
      destruct Hsome as [c ->]. unfold crypt_nal. rewrite short_nal, andb_false_r by done.
      by destruct (protected_type d).
    - destruct He as [He1 He2 He3 He4 He5 He6 (c0 & c & Hc0 & Hc & Ha & Hcr) -> He9].
      specialize (Hcr []). rewrite !app_nil_r in Hcr. rewrite tail_crypt_short in Hcr by lia.
      rewrite He4. unfold sent_bytes, nal_raw, nal_out. rewrite Hc0, He9. cbn [esc_zeroRun].
      apply Is_true_true in He2. rewrite He2. unfold long_nal.
      rewrite (proj2 (Nat.leb_le _ _) He1). cbn [andb]. rewrite Hcr, escape_app.
      by rewrite !app_assoc. }
  eapply (emits_bind _ _ _ (fun _ t1 e => exists r q, owes ins (raws ++ r) (evs ++ e) t1 x
    /\ t1 = set_pattern (pattern t) 0 (set_pes q (set_escaper (esc_after (nalEncrypted t) t (held t)) t))
    /\ payloads r = held t /\ payloads e = sent_bytes (nalEncrypted t) t (held t))).
  { eapply emits_bind; [apply (write_owes _ _ _ _ _ (held t) (nalEncrypted t) Ho); lia|].
    intros _ ? e (r & q & Ho' & -> & Hpr' & Hpe). eapply emits_fst; [done|].
    rewrite app_nil_r. exists r, q. split_and!; try done.
    apply (owes_same _ _ _ _ _ _ _ Ho'); [done..|lia]. }
  intros _ ? e (r & q & Ho' & -> & Hpr' & Hpe). eapply emits_fst; [done|].
  rewrite app_nil_r. exists r. destruct (Hn r e Hpr' Hpe) as [E1 E2]. split_and!; try done.
  by apply (owes_same _ _ _ _ _ _ _ Ho').
Qed.
End Nal.
