(* ===== verification/AvcParse.v ===== *)
(** * Annex-B byte streams

    The reference parser reads a byte stream one byte at a time and cuts it into
    NALs; the lemmas relate it to the searches on slices that the transformer
    makes ([bytes.Index] for a start code, counting zeros). *)

From S2P Require Import Prelude PesQueue Ebsp Avc.

(** A parsed stream: for each NAL the number of zeros of its start code and its
    bytes, and the zeros at the end, which may belong to the last NAL or to a
    start code. *)
Record annexb := MkAnnexb { nals : list (nat * list Z); trailing : nat }.

Definition no_nals : annexb := {| nals := []; trailing := 0 |}.

Definition add_bytes_nal (d : list Z) (n : nat * list Z) : nat * list Z := (n.1, n.2 ++ d).

Definition annexb_step (a : annexb) (b : Z) : outcome annexb :=
  if (b =? 0)%Z then Ok {| nals := nals a; trailing := S (trailing a) |}
  else if (b =? 1)%Z && (2 <=? trailing a) then
    match list.last (nals a) with
    | Some (_, []) => Fail (Err (Errorf "AVC transformer: Annex-B start code without NAL header"))
    | _ => Ok {| nals := nals a ++ [(trailing a, [])]; trailing := 0 |}
    end
  else
    match nals a with
    | [] => Fail (Err (Errorf "AVC transformer: bytes before Annex-B start code"))
    | _ => Ok {| nals := alter_last (add_bytes_nal (replicate (trailing a) 0%Z ++ [b])) (nals a);
                 trailing := 0 |}
    end.

Fixpoint parse_from (a : annexb) (l : list Z) : outcome annexb :=
  match l with
  | [] => Ok a
  | b :: l => a ← annexb_step a b; parse_from a l
  end.

Definition annexb_parse (l : list Z) : outcome annexb := parse_from no_nals l.

Lemma parse_from_app a l1 l2 :
  parse_from a (l1 ++ l2) = a ← parse_from a l1; parse_from a l2.
Proof.
  revert a. induction l1 as [|b l1 IH]; intros a; [done|]. cbn.
  destruct (annexb_step a b); [apply IH|done].
Qed.

Lemma parse_zeros n ns z l :
  parse_from {| nals := ns; trailing := z |} (replicate n 0%Z ++ l)
  = parse_from {| nals := ns; trailing := z + n |} l.
Proof.
  revert z. induction n as [|n IH]; intros z; [by rewrite Nat.add_0_r|].
  cbn [replicate app parse_from annexb_step Z.eqb mbind outcome_bind nals trailing].
  rewrite IH. f_equal. f_equal. lia.
Qed.

(** ** Start codes *)
Definition no_start (l : list Z) : Prop := bytes_Index l annexBStartCode = None.

Lemma no_start_tail b l : no_start (b :: l) -> no_start l.
Proof.
  unfold no_start. cbn [bytes_Index]. case_bool_decide; [done|].
  by destruct (bytes_Index l _).
Qed.

Lemma no_start_zeros z b l : no_start (replicate z 0%Z ++ b :: l) -> b = 1%Z -> z < 2.
Proof.
  intros Hn ->. destruct (Nat.lt_ge_cases z 2) as [|Hz]; [done|]. exfalso.
  induction z as [|z IH]; [lia|]. destruct (decide (z = 1)) as [->|].
  - by cbn in Hn.
  - apply no_start_tail in Hn. apply IH; [done|lia].
Qed.

(** The slice is empty or does not end with a zero. *)
Definition no_zero_end (d : list Z) : Prop := list.last d <> Some 0%Z.

(** Bytes without a start code belong to the NAL. *)
Lemma parse_data ns z d l : ns <> [] -> d <> [] -> no_zero_end d ->
  no_start (replicate z 0%Z ++ d) ->
  parse_from {| nals := ns; trailing := z |} (d ++ l) =
  parse_from {| nals := alter_last (add_bytes_nal (replicate z 0%Z ++ d)) ns; trailing := 0 |} l.
Proof.
  revert ns z. induction d as [|b d IH]; intros ns z Hns Hd Hz Hst; [done|].
  destruct (decide (b = 0%Z)) as [->|Hb].
  - assert (Hd' : d <> []) by (intros ->; by apply Hz).
    assert (Hz' : no_zero_end d).
    { unfold no_zero_end in *. rewrite list.last_cons in Hz. by destruct (list.last d). }
    assert (Hrep : replicate z 0%Z ++ 0%Z :: d = replicate (S z) 0%Z ++ d).
    { change (0%Z :: d) with ([0%Z] ++ d). rewrite app_assoc. f_equal.
      by rewrite <- (replicate_S_end z 0%Z). }
    cbn [app parse_from annexb_step Z.eqb mbind outcome_bind nals trailing].
    rewrite IH; try done; rewrite <- Hrep; done.
  - pose proof (no_start_zeros z b d Hst) as H1.
    cbn [app parse_from]. unfold annexb_step. cbn [nals trailing].
    rewrite (proj2 (Z.eqb_neq _ _) Hb).
    assert (Hno : (b =? 1)%Z && (2 <=? z) = false).
    { destruct (Z.eqb_spec b 1); [|done]. apply Nat.leb_gt. auto. }
    rewrite Hno. destruct ns as [|n ns]; [done|]. cbn [mbind outcome_bind].
    destruct (decide (d = [])) as [->|Hd']; [done|].
    rewrite IH; try done.
    + f_equal. f_equal. rewrite alter_last_twice. apply alter_last_ext. intros [k m].
      unfold add_bytes_nal. cbn [fst snd replicate app]. by rewrite <- !app_assoc.
    + intros He. by apply alter_last_nil in He.
    + unfold no_zero_end in *. rewrite list.last_cons in Hz.
      by destruct (list.last d) eqn:El; [|apply last_None in El].
    + clear -Hst. induction z as [|z IH]; [by apply no_start_tail in Hst|].
      by apply IH; apply no_start_tail in Hst.
Qed.

Lemma parse_data_error z d l : d <> [] -> no_zero_end d -> no_start (replicate z 0%Z ++ d) ->
  parse_from {| nals := []; trailing := z |} (d ++ l)
  = Fail (Err (Errorf "AVC transformer: bytes before Annex-B start code")).
Proof.
  revert z. induction d as [|b d IH]; intros z Hd Hz Hst; [done|].
  destruct (decide (b = 0%Z)) as [->|Hb].
  - assert (Hd' : d <> []) by (intros ->; by apply Hz).
    assert (Hz' : no_zero_end d).
    { unfold no_zero_end in *. rewrite list.last_cons in Hz. by destruct (list.last d). }
    assert (Hrep : replicate z 0%Z ++ 0%Z :: d = replicate (S z) 0%Z ++ d).
    { change (0%Z :: d) with ([0%Z] ++ d). rewrite app_assoc. f_equal.
      by rewrite <- (replicate_S_end z 0%Z). }
    cbn [app parse_from annexb_step Z.eqb mbind outcome_bind nals trailing].
    apply IH; try done. by rewrite <- Hrep.
  - pose proof (no_start_zeros z b d Hst) as H1.
    cbn [app parse_from]. unfold annexb_step. cbn [nals trailing].
    rewrite (proj2 (Z.eqb_neq _ _) Hb).
    assert (Hno : (b =? 1)%Z && (2 <=? z) = false).
    { destruct (Z.eqb_spec b 1); [|done]. apply Nat.leb_gt. auto. }
    by rewrite Hno.
Qed.

(** A start code ends a NAL and begins another. *)
Lemma parse_start ns z k l : 2 <= z + k ->
  parse_from {| nals := ns; trailing := z |} (replicate k 0%Z ++ 1%Z :: l) =
  match list.last ns with
  | Some (_, []) => Fail (Err (Errorf "AVC transformer: Annex-B start code without NAL header"))
  | _ => parse_from {| nals := ns ++ [(z + k, [])]; trailing := 0 |} l
  end.
Proof.
  intros Hk. rewrite parse_zeros. cbn [parse_from]. unfold annexb_step. cbn [nals trailing].
  cbn [Z.eqb Pos.eqb]. rewrite (proj2 (Nat.leb_le _ _) Hk). cbn [andb].
  by destruct (list.last ns) as [[? []]|].
Qed.

(** ** The searches of the transformer *)
Lemma trailing_split l :
  let n := trailing_zeros l in
  l = take (length l - n) l ++ replicate n 0%Z /\ n <= length l
  /\ no_zero_end (take (length l - n) l).
Proof.
  unfold trailing_zeros. induction l as [|b l IH] using rev_ind; [done|].
  rewrite reverse_app. cbn [reverse rev_append app leading_zeros].
  change (reverse [b]) with [b]. cbn [app leading_zeros]. destruct IH as (E & Hn & He).
  destruct (Z.eqb_spec b 0) as [->|Hb].
  - rewrite length_app. cbn [length].
    replace (length l + 1 - S (leading_zeros (reverse l))) with (length l - leading_zeros (reverse l)) by lia.
    rewrite take_app_le by lia. split_and!; [|lia|done].
    rewrite replicate_S_end, app_assoc. by rewrite <- E.
  - rewrite Nat.sub_0_r. cbn [replicate]. rewrite take_ge, app_nil_r by lia.
    split_and!; [done|lia|]. unfold no_zero_end. rewrite last_snoc. congruence.
Qed.

Lemma leading_split l :
  let n := leading_zeros l in
  l = replicate n 0%Z ++ drop n l /\ n <= length l
  /\ match drop n l with b :: _ => b <> 0%Z | [] => True end.
Proof.
  induction l as [|b l IH]; [done|]. cbn [leading_zeros].
  destruct (Z.eqb_spec b 0) as [->|Hb]; [|cbn; split_and!; [done|lia|done]].
  destruct IH as (E & Hn & Hd). cbn [replicate drop app length]. split_and!; [by rewrite <- E|lia|done].
Qed.

Lemma no_start_take l i : bytes_Index l annexBStartCode = Some i \/ no_start l ->
  forall j, (forall k, bytes_Index l annexBStartCode = Some k -> j <= k) -> no_start (take j l).
Proof.
  revert i. induction l as [|b l IH]; intros i Hi j Hj; [by destruct j|].
  destruct j as [|j]; [done|]. cbn [take]. unfold no_start in *. cbn [bytes_Index] in *.
  case_bool_decide as Ht; [specialize (Hj 0 eq_refl); lia|].
  rewrite bool_decide_eq_false_2.
  - rewrite (IH (pred i)); [done|..].
    + destruct (bytes_Index l annexBStartCode) eqn:E; [|by right].
      left. destruct Hi as [[= <-]|]; done.
    + intros k Hk. rewrite Hk in Hj. specialize (Hj (S k) eq_refl). lia.
  - intros Ht'. apply Ht. cbn [length annexBStartCode take] in *.
    destruct j as [|[|j]]; [done..| |]; destruct l as [|b1 [|b2 l]]; try done.
Qed.

(** What the search for a start code finds. *)
Lemma start_split l i : bytes_Index l annexBStartCode = Some i ->
  exists rest, l = take i l ++ [0; 0; 1]%Z ++ rest /\ i + 3 <= length l /\ drop (i + 3) l = rest.
Proof.
  revert i. induction l as [|b l IH]; intros i Hi; [done|]. cbn [bytes_Index] in Hi.
  case_bool_decide as Ht.
  - injection Hi as <-. exists (drop 3 (b :: l)). cbn [Nat.add take app].
    pose proof (take_drop 3 (b :: l)) as E. change (length annexBStartCode) with 3 in Ht.
    rewrite Ht in E. split_and!; [symmetry; exact E| |done].
    assert (length (take 3 (b :: l)) = 3) by by rewrite Ht. rewrite length_take in *. lia.
  - destruct (bytes_Index l annexBStartCode) as [j|] eqn:Hj; [|done]. injection Hi as <-.
    destruct (IH j eq_refl) as (rest & E & Hl & Hd). exists rest. cbn [take app Nat.add drop length].
    split_and!; [by f_equal|lia|done].
Qed.

(** The start code found, with the zeros before it. *)
Lemma start_found l i : bytes_Index l annexBStartCode = Some i ->
  let start := i - trailing_zeros (take i l) in
  let k := trailing_zeros (take i l) + 2 in
  let end_ := i + length annexBStartCode in
  l = take start l ++ replicate k 0%Z ++ 1%Z :: drop end_ l
  /\ slice l start end_ = replicate k 0%Z ++ [1%Z]
  /\ start <= i /\ end_ <= length l
  /\ no_zero_end (take start l) /\ no_start (take start l).
Proof.
  intros Hi. destruct (start_split _ _ Hi) as (rest & E & Hl & Hd). cbn zeta.
  change (length annexBStartCode) with 3. rewrite Hd.
  destruct (trailing_split (take i l)) as (Et & Hn & He).
  rewrite length_take, Nat.min_l in Et, Hn, He by lia. rewrite take_take in Et, He.
  set (n := trailing_zeros (take i l)) in *.
  rewrite Nat.min_l in Et, He by lia.
  assert (El : l = take (i - n) l ++ replicate (n + 2) 0%Z ++ 1%Z :: rest).
  { rewrite E at 1. rewrite Et. rewrite <- app_assoc. f_equal.
    rewrite replicate_add, <- app_assoc. done. }
  split_and!; try done; try lia.
  - unfold slice. rewrite El at 1. rewrite drop_app_ge by llia.
    rewrite length_take, Nat.min_l, Nat.sub_diag, drop_0 by lia.
    change (1%Z :: rest) with ([1%Z] ++ rest). rewrite app_assoc, take_app_le.
    + apply take_ge. rewrite length_app, length_replicate. cbn. lia.
    + rewrite length_app, length_replicate. cbn. lia.
  - apply (no_start_take l i); [by left|]. intros k Hk. rewrite Hi in Hk. injection Hk as <-. lia.
Qed.
