(* ===== verification/AvcStream.v ===== *)
(** * The AVC transformer on a whole elementary stream

    However the calls split the stream, the transformer sends the stream with
    every NAL replaced by [nal_out], and keeps the PES packets: the same headers,
    with the packet length set to zero, in front of the bytes made of the same
    source bytes. *)

From S2P Require Import Prelude SampleAes Pmt PesHandler PesQueue Ebsp Avc AvcNal AvcParse.

Section Stream.
Context {C W : Type} `{BlockCryptorLaws C} `{PESHandler W} `{PMTSignal W}.
Context (b0 : option C).

(** A NAL with its start code. *)
Definition with_start (f : list Z -> list Z) (n : nat * list Z) : list Z :=
  replicate n.1 0%Z ++ [1%Z] ++ f n.2.

Definition raw_of (ns : list (nat * list Z)) : list Z := concat (with_start (nal_raw b0) <$> ns).
Definition out_of (ns : list (nat * list Z)) : list Z := concat (with_start (nal_out b0) <$> ns).

Lemma raw_of_snoc ns n : raw_of (ns ++ [n]) = raw_of ns ++ with_start (nal_raw b0) n.
Proof. unfold raw_of. rewrite fmap_app, concat_app. cbn. by rewrite app_nil_r. Qed.
Lemma out_of_snoc ns n : out_of (ns ++ [n]) = out_of ns ++ with_start (nal_out b0) n.
Proof. unfold out_of. rewrite fmap_app, concat_app. cbn. by rewrite app_nil_r. Qed.

(** Between NALs: all the NALs have been written. *)
Record closed (ins : list frame) (raws evs : list event) (t : Transformer C)
    (ns : list (nat * list Z)) (x : nat) : Prop := Closed {
  c_owes : owes ins raws evs t x;
  c_raws : payloads raws = raw_of ns;
  c_evs : payloads evs = out_of ns;
  c_state : nalState t = avcNALStateNone;
  c_pattern : length (pattern t) = avcProbeSize;
  c_block : block_ok b0 t;
  }.

(** In the last NAL. *)
Definition in_last (ins : list frame) (raws evs : list event) (t : Transformer C)
    (ns : list (nat * list Z)) (x : nat) : Prop :=
  exists pre k nal, ns = pre ++ [(k, nal)]
  /\ in_nal b0 ins (raw_of pre ++ replicate k 0%Z ++ [1%Z])
       (out_of pre ++ replicate k 0%Z ++ [1%Z]) raws evs t nal x.

(** The NALs [ns] have been received, and [x] more bytes are owed. *)
Definition received (ins : list frame) (raws evs : list event) (t : Transformer C)
    (ns : list (nat * list Z)) (x : nat) : Prop :=
  (ns = [] /\ closed ins raws evs t [] x) \/ in_last ins raws evs t ns x.

Lemma received_same ins raws evs t t' ns x : received ins raws evs t ns x ->
  t' = set_zeroRun (zeroRun t') t -> received ins raws evs t' ns x.
Proof.
  intros [(-> & [])|(pre & k & nal & -> & [Ho (w & o & Hrel & Hr & Hv) Hp Hb])] ->.
  - left. split; [done|]. split; try done. by apply (owes_same ins raws evs t _ x x).
  - right. exists pre, k, nal. split; [done|]. split; try done; [by apply (owes_same _ _ _ _ _ _ _ Ho)|].
    exists w, o. split; [|done].
    destruct Hrel; [by apply RelHeader|by apply RelPassthrough|by apply RelProbe|].
    apply RelEncrypted. by destruct H3.
Qed.

Lemma received_none ins raws evs t ns x : received ins raws evs t ns x ->
  nalState t = avcNALStateNone <-> ns = [].
Proof.
  intros [(-> & [])|(pre & k & nal & -> & [Ho (w & o & Hrel & _) _ _])]; [done|].
  split; [|by destruct pre]. destruct Hrel as [| | |[]]; congruence.
Qed.

(** ** Ending and beginning a NAL *)
Definition last_empty (ns : list (nat * list Z)) : Prop :=
  match list.last ns with Some (_, []) => True | _ => False end.

Lemma finish_open_emits ins raws evs t ns x : received ins raws evs t ns x ->
  emits (W := W) finish_open t
    (fun _ t' e => exists r, closed ins (raws ++ r) (evs ++ e) t' ns x /\ same t t' /\ ~ last_empty ns)
    (fun e _ _ => last_empty ns
       /\ e = Errorf "AVC transformer: Annex-B start code without NAL header").
Proof.
  intros Hrec. unfold finish_open.
  eapply (emits_bind _ _ _ (fun a t1 e => e = [] /\ a = t /\ t1 = t)); [by apply emits_get|].
  intros ? ? ? (-> & -> & ->). pose proof (received_none _ _ _ _ _ _ Hrec) as Hnone.
  destruct Hrec as [(-> & Hc)|(pre & k & nal & -> & Hin)].
  - rewrite bool_decide_eq_true_2 by (by apply Hnone). apply emits_ret. exists [].
    cbn [app]. rewrite !app_nil_r. split_and!; [done|done|by intros []].
  - rewrite bool_decide_eq_false_2 by (intros E; apply Hnone in E; by destruct pre).
    cbn [negb when]. unfold last_empty. rewrite last_snoc.
    destruct nal as [|b nal].
    { pose proof Hin as [_ (w & o & Hrel & _) _ _].
      destruct Hrel as [_ _ _ Hst _ _ _|?|?|[Hl _ _ _ _ _ _ _ _]]; [|done|done|cbn in Hl; unfold avcProbeSize in Hl; lia].
      unfold finishNAL.
      eapply (emits_bind _ _ _ (fun a t1 e => e = [] /\ a = t /\ t1 = t)); [by apply emits_get|].
      intros ? ? ? (-> & -> & ->). rewrite (bool_decide_eq_true_2 (nalState t = avcNALStateHeader)) by done.
      eapply (emits_bind (fail_if _ _) _ _ (fun _ _ _ => False)); [by apply emits_fail|by intros]. }
    eapply emits_weaken; [by apply (finishNAL_emits b0 _ _ _ _ _ _ _ _ Hin)|..|done].
    cbn beta. cbn [app]. intros _ t' e (r & Ho & Hr & Hv & Hst & Hp & Hb & Hs). exists r. split_and!; [|done|by intros []].
    split; try done.
    + by rewrite Hr, raw_of_snoc, <- !app_assoc.
    + by rewrite Hv, out_of_snoc, <- !app_assoc.
Qed.

(** The state after a start code. *)
Lemma begin_emits ins raws evs t ns k x y : closed ins raws evs t ns y ->
  forall r e, payloads r = replicate k 0%Z ++ [1%Z] -> payloads e = replicate k 0%Z ++ [1%Z] ->
  forall t1, owes ins (raws ++ r) (evs ++ e) t1 x -> (exists q, t1 = set_pes q t) ->
  emits (W := W) beginNAL t1
    (fun _ t' e' => e' = [] /\ received ins (raws ++ r) (evs ++ e) t' (ns ++ [(k, [])]) x /\ same t t')
    (fun _ _ _ => False).
Proof.
  intros [_ Hr Hv Hst Hp Hb] r e Hr' He' t1 Ho [q ->]. unfold beginNAL. eapply emits_fst; [done|].
  split; [done|]. split; [|done]. right. exists ns, k, []. split; [done|]. split.
  - destruct Ho as [_ ? ? ? ? ?]. split; [|done..]. unfold esc_ok. cbn. lia.
  - exists [], []. rewrite !app_nil_r, !payloads_app, Hr, Hv, Hr', He'.
    split_and!; [by apply RelHeader|done..].
  - done.
  - done.
Qed.

(** A start code after the end of the NALs. *)
Lemma start_emits ins raws evs t ns k x : closed ins raws evs t ns (k + 1 + x) ->
  emits (W := W) (write (replicate k 0%Z ++ [1%Z]) false;; beginNAL) t
    (fun _ t' e => exists r, received ins (raws ++ r) (evs ++ e) t' (ns ++ [(k, [])]) x
       /\ same t t')
    (fun _ _ _ => False).
Proof.
  intros Hc. eapply emits_bind.
  { apply (write_owes _ _ _ _ _ (replicate k 0%Z ++ [1%Z]) false (c_owes _ _ _ _ _ _ Hc)). llia. }
  intros _ t1 e (r & q & Ho & -> & Hr & He). cbn [sent_bytes esc_after] in *.
  rewrite set_escaper_same in *.
  replace (k + 1 + x - length (replicate k 0%Z ++ [1%Z])) with x in Ho by llia.
  eapply emits_weaken;
    [apply (begin_emits ins raws evs t ns k x _ Hc r e Hr He _ Ho); by exists q|..|done].
  cbn beta. intros _ t' e' (-> & Hrec & Hs). rewrite app_nil_r. by exists r.
Qed.

(** Zeros held back, then the 1 that makes them a start code. *)
Lemma zeros_start_emits ins raws evs t ns k x : closed ins raws evs t ns (k + 1 + x) ->
  emits (W := W)
    (writeZeros k false;; on_fst (modify (set_zeroRun 0));; write [1%Z] false;; beginNAL) t
    (fun _ t' e => exists r, received ins (raws ++ r) (evs ++ e) t' (ns ++ [(k, [])]) x
       /\ same (set_zeroRun 0 t) t')
    (fun _ _ _ => False).
Proof.
  intros Hc. eapply emits_bind.
  { apply (writeZeros_emits ins raws evs t k (1 + x)).
    replace (k + (1 + x)) with (k + 1 + x) by lia. apply (c_owes _ _ _ _ _ _ Hc). }
  intros _ t1 e1 (r1 & q1 & Ho1 & -> & Hr1 & He1).
  eapply (emits_bind _ _ _ (fun _ t1 e => t1 = set_zeroRun 0 (set_pes q1 t) /\ e = []));
    [by eapply emits_fst|]. intros _ ? ? (-> & ->). cbn [app].
  eapply emits_bind.
  { apply (write_owes ins (raws ++ r1) (evs ++ e1) _ (1 + x) [1%Z] false); [|cbn; lia].
    by apply (owes_same _ _ _ _ _ _ _ Ho1). }
  intros _ t2 e2 (r2 & q2 & Ho2 & -> & Hr2 & He2). cbn [sent_bytes esc_after] in *.
  rewrite set_escaper_same in *. replace (1 + x - length [1%Z]) with x in Ho2 by (cbn; lia).
  rewrite <- !app_assoc in Ho2.
  assert (Hc' : closed ins raws evs (set_zeroRun 0 t) ns (k + 1 + x)).
  { destruct Hc as [Ho ? ? ? ? ?]. split; try done. by apply (owes_same _ _ _ _ _ _ _ Ho). }
  eapply emits_weaken;
    [apply (begin_emits ins raws evs _ ns k x _ Hc' (r1 ++ r2) (e1 ++ e2))|..|done].
  - by rewrite payloads_app, Hr1, Hr2.
  - by rewrite payloads_app, He1, He2.
  - done.
  - by exists q2.
  - cbn beta. intros _ t' e' (-> & Hrec & Hs). rewrite app_nil_r. by exists (r1 ++ r2).
Qed.

(** Bytes of the current NAL. *)
Lemma feed_emits ins raws evs t ns d x : received ins raws evs t ns (length d + x) -> d <> [] ->
  emits (W := W) (writeNAL d) t
    (fun _ t' e => ns <> [] /\ exists r,
       received ins (raws ++ r) (evs ++ e) t' (alter_last (add_bytes_nal d) ns) x /\ same t t')
    (fun e _ _ => ns = [] /\ e = Errorf "AVC transformer: bytes before Annex-B start code").
Proof.
  intros [(-> & Hc)|(pre & k & nal & -> & Hin)] Hd.
  - unfold writeNAL.
    eapply (emits_bind _ _ _ (fun a t1 e => e = [] /\ a = t /\ t1 = t)); [by apply emits_get|].
    intros ? ? ? (-> & -> & ->). rewrite (bool_decide_eq_true_2 (nalState t = avcNALStateNone)) by apply (c_state _ _ _ _ _ _ Hc).
    eapply (emits_bind (fail_if _ _) _ _ (fun _ _ _ => False)); [by apply emits_fail|by intros].
  - eapply emits_weaken; [by apply (writeNAL_emits b0 _ _ _ _ _ _ _ _ _ Hin)|..|done].
    cbn beta. intros _ t' e (r & Hin' & Hs). split; [by destruct pre|]. exists r. split; [|done].
    right. exists pre, k, (nal ++ d). by rewrite alter_last_snoc.
Qed.

Lemma feed_zeros_emits ins raws evs t ns n x : received ins raws evs t ns (n + x) ->
  nalState t <> avcNALStateNone ->
  emits (W := W) (writeNALZeros n) t
    (fun _ t' e => exists r,
       received ins (raws ++ r) (evs ++ e) t' (alter_last (add_bytes_nal (replicate n 0%Z)) ns) x
       /\ same t t')
    (fun _ _ _ => False).
Proof.
  intros Hrec Hst. pose proof (received_none _ _ _ _ _ _ Hrec) as Hn.
  destruct Hrec as [(-> & Hc)|(pre & k & nal & -> & Hin)]; [by destruct Hst; apply Hn|].
  eapply emits_weaken; [by apply (writeNALZeros_emits b0 _ _ _ _ _ _ _ _ _ Hin)|..|done].
  cbn beta. intros _ t' e (r & Hin' & Hs). exists r. split; [|done].
  right. exists pre, k, (nal ++ replicate n 0%Z). by rewrite alter_last_snoc.
Qed.

(** ** PESPayload *)

(** What a call on the bytes [data] amounts to, from the parsed stream [a]: it
  parses them too, or fails with the error of the parser. *)
Definition parses (ins : list frame) (raws evs : list event) (t : Transformer C) (a : annexb)
    (data : list Z) (t' : Transformer C) (e : list event) : Prop :=
  exists a' r, parse_from a data = Ok a' /\ inputPESOpen t' = inputPESOpen t
    /\ received ins (raws ++ r) (evs ++ e) t' (nals a') (trailing a') /\ zeroRun t' = trailing a'.

Lemma add_nothing ns : alter_last (add_bytes_nal []) ns = ns.
Proof.
  destruct ns as [|[k n] ns _] using rev_ind; [done|].
  rewrite alter_last_snoc. unfold add_bytes_nal. cbn [fst snd]. by rewrite app_nil_r.
Qed.

(** The bytes before a start code or before the zeros at the end. *)
Lemma feed_part ins raws evs t ns d rest x :
  received ins raws evs t ns (length d + x) -> no_zero_end d -> no_start d ->
  emits (W := W) (when (0 <? length d) (writeNAL d)) t
    (fun _ t' e => exists r ns', received ins (raws ++ r) (evs ++ e) t' ns' x /\ same t t'
       /\ parse_from {| nals := ns; trailing := 0 |} (d ++ rest)
          = parse_from {| nals := ns'; trailing := 0 |} rest)
    (fun e _ _ => parse_from {| nals := ns; trailing := 0 |} (d ++ rest) = Fail (Err e)).
Proof.
  intros Hrec Hz Hst. destruct (decide (d = [])) as [->|Hd].
  { apply emits_ret. exists [], ns. by rewrite !app_nil_r. }
  rewrite (proj2 (Nat.ltb_lt _ _)) by (by destruct d; cbn; [|lia]). cbn [when].
  eapply emits_weaken; [by apply (feed_emits ins raws evs t ns d x)|..]; cbn beta.
  - intros _ t' e (Hns & r & Hrec' & Hs). exists r, (alter_last (add_bytes_nal d) ns).
    split_and!; [done..|]. by apply (parse_data ns 0).
  - intros e _ _ (-> & ->). by apply parse_data_error.
Qed.

Lemma feed_last ins raws evs t ns p : received ins raws evs t ns (length p) -> zeroRun t = 0 ->
  no_start p ->
  let end_ := length p - trailing_zeros p in
  emits (W := W) (when (0 <? end_) (writeNAL (take end_ p));;
                  on_fst (modify (set_zeroRun (length p - end_)))) t
    (fun _ t' e => parses ins raws evs t {| nals := ns; trailing := 0 |} p t' e)
    (fun e _ _ => parse_from {| nals := ns; trailing := 0 |} p = Fail (Err e)).
Proof.
  intros Hrec Hz Hst end_. destruct (trailing_split p) as (Ep & Hn & He). fold end_ in Ep, He.
  set (d := take end_ p) in *. set (n := trailing_zeros p) in *.
  assert (Hd : length d = end_) by (subst d end_; llia).
  replace (length p - end_) with n by (subst end_; lia). rewrite <- Hd.
  eapply emits_bind.
  - eapply emits_weaken; [apply (feed_part ins raws evs t ns d (replicate n 0%Z) n)|done|].
    + rewrite Hd. subst end_. by replace (length p - n + n) with (length p) by lia.
    + done.
    + apply (no_start_take p 0); [by right|]. intros k Hk. by rewrite Hst in Hk.
    + cbn beta. intros e _ _ HE. by rewrite <- Ep in HE.
  - cbn beta. intros _ t1 e (r & ns' & Hrec' & [Ho' Hz'] & Hp). rewrite <- Ep in Hp.
    eapply emits_fst; [done|].
    rewrite app_nil_r. exists {| nals := ns'; trailing := n |}, r. split_and!; try done.
    + rewrite Hp. pose proof (parse_zeros n ns' 0 []) as Hpz. by rewrite app_nil_r in Hpz.
    + by apply (received_same _ _ _ _ _ _ _ Hrec').
Qed.

Lemma start_parse ns z k l : 2 <= z + k -> ~ last_empty ns ->
  parse_from {| nals := ns; trailing := z |} (replicate k 0%Z ++ 1%Z :: l) =
  parse_from {| nals := ns ++ [(z + k, [])]; trailing := 0 |} l.
Proof.
  intros Hk Hl. rewrite parse_start by done. unfold last_empty in Hl.
  by destruct (list.last ns) as [[? []]|].
Qed.

Lemma start_parse_error ns z k l : 2 <= z + k -> last_empty ns ->
  parse_from {| nals := ns; trailing := z |} (replicate k 0%Z ++ 1%Z :: l) =
  Fail (Err (Errorf "AVC transformer: Annex-B start code without NAL header")).
Proof.
  intros Hk Hl. rewrite parse_start by done. unfold last_empty in Hl.
  by destruct (list.last ns) as [[? []]|].
Qed.

(** A start code in the payload: it ends a NAL and begins another. *)
Lemma feed_start ins raws evs t ns k rest : received ins raws evs t ns (k + 1 + length rest) ->
  2 <= k ->
  emits (W := W) (finish_open;; write (replicate k 0%Z ++ [1%Z]) false;; beginNAL) t
    (fun _ t' e => exists r, received ins (raws ++ r) (evs ++ e) t' (ns ++ [(k, [])]) (length rest)
       /\ same t t'
       /\ parse_from {| nals := ns; trailing := 0 |} (replicate k 0%Z ++ 1%Z :: rest)
          = parse_from {| nals := ns ++ [(k, [])]; trailing := 0 |} rest)
    (fun e _ _ => parse_from {| nals := ns; trailing := 0 |} (replicate k 0%Z ++ 1%Z :: rest)
       = Fail (Err e)).
Proof.
  intros Hrec Hk. eapply emits_bind.
  { eapply emits_weaken; [by apply (finish_open_emits _ _ _ _ _ _ Hrec)|done|].
    cbn beta. intros e t' es [Hl ->]. by apply start_parse_error. }
  intros _ t1 e1 (r1 & Hc & [Ho1 Hz1] & Hl).
  eapply emits_weaken; [by apply (start_emits _ _ _ _ _ _ _ Hc)|..|done].
  cbn beta. intros _ t2 e2 (r2 & Hrec2 & [Ho2 Hz2]). exists (r1 ++ r2). rewrite !app_assoc.
  split_and!; [done|split; congruence|by apply (start_parse ns 0)].
Qed.

Lemma payload_step_emits ins raws evs t ns p :
  received ins raws evs t ns (length p) -> zeroRun t = 0 ->
  emits (W := W) (payload_step p) t
    (fun r t' e => match r with
       | inl p' => length p' < length p /\ zeroRun t' = 0 /\ inputPESOpen t' = inputPESOpen t
           /\ exists rw ns', received ins (raws ++ rw) (evs ++ e) t' ns' (length p')
           /\ parse_from {| nals := ns; trailing := 0 |} p
              = parse_from {| nals := ns'; trailing := 0 |} p'
       | inr _ => parses ins raws evs t {| nals := ns; trailing := 0 |} p t' e
       end)
    (fun e _ _ => parse_from {| nals := ns; trailing := 0 |} p = Fail (Err e)).
Proof.
  intros Hrec Hz. unfold payload_step. case_decide as Hp.
  { subst p. apply emits_ret. exists {| nals := ns; trailing := 0 |}, []. by rewrite !app_nil_r. }
  destruct (bytes_Index p annexBStartCode) as [i|] eqn:Hi; last first.
  { pose proof (feed_last _ _ _ _ _ _ Hrec Hz Hi) as Hf. cbn zeta in Hf |- *.
    apply emits_assoc. eapply emits_bind; [by apply Hf|].
    cbn beta. intros _ t' e Hpa. apply emits_ret. by rewrite app_nil_r. }
  destruct (start_found p i Hi) as (Ep & Hs & Hle & Hend & Hze & Hns). cbn zeta in *.
  set (start := i - trailing_zeros (take i p)) in *. set (k := trailing_zeros (take i p) + 2) in *.
  rewrite Hs. set (rest := drop (i + length annexBStartCode) p) in *. set (d := take start p) in *.
  assert (Hd : length d = start) by (subst d; rewrite length_take; cbn in Hend; lia).
  assert (Hlen : length p = length d + (k + 1 + length rest)).
  { rewrite Ep at 1. llia. }
  rewrite <- Hd. rewrite Hlen in Hrec. eapply emits_bind.
  { eapply emits_weaken; [by apply (feed_part ins raws evs t ns d
      (replicate k 0%Z ++ 1%Z :: rest) _ Hrec)|done|].
    cbn beta. intros e _ _ HE. by rewrite <- Ep in HE. }
  intros _ t1 e1 (r1 & ns1 & Hrec1 & [Ho1 Hz1] & Hp1). rewrite <- Ep in Hp1.
  assert (Hk : 2 <= k) by (subst k; lia).
  pose proof (feed_start _ _ _ _ _ _ _ Hrec1 Hk) as Hf.
  apply emits_assoc3. eapply emits_bind.
  { eapply emits_weaken; [by apply Hf|done|]. cbn beta. intros e _ _ HE. by rewrite Hp1. }
  cbn beta. intros _ t2 e2 (r2 & Hrec2 & [Ho2 Hz2] & Hp2). apply emits_ret. rewrite app_nil_r.
  split_and!; [lia|congruence..|]. exists (r1 ++ r2), (ns1 ++ [(k, [])]).
  rewrite !app_assoc. by rewrite Hp1.
Qed.

(** The loop of [PESPayload]. *)
Lemma scan_emits ins raws evs t ns p :
  received ins raws evs t ns (length p) -> zeroRun t = 0 ->
  emits (W := W) (iter (length p + 1) payload_step p) t
    (fun _ t' e => parses ins raws evs t {| nals := ns; trailing := 0 |} p t' e)
    (fun e _ _ => parse_from {| nals := ns; trailing := 0 |} p = Fail (Err e)).
Proof.
  intros Hrec Hz.
  apply (emits_loop _ (fun p1 t1 e1 => zeroRun t1 = 0 /\ inputPESOpen t1 = inputPESOpen t
    /\ exists rw ns1, received ins (raws ++ rw) (evs ++ e1) t1 ns1 (length p1)
    /\ parse_from {| nals := ns; trailing := 0 |} p = parse_from {| nals := ns1; trailing := 0 |} p1)
    (fun p1 _ => length p1)); [| |lia].
  - intros p1 t1 e1 (Hz1 & Ho1 & r1 & ns1 & Hrec1 & Hp1).
    eapply emits_weaken; [by apply (payload_step_emits _ _ _ _ _ _ Hrec1)|..]; cbn beta.
    + intros [p2|] t2 e2.
      * intros (Hl & Hz2 & Ho2 & r2 & ns2 & Hrec2 & Hp2). split; [|done].
        split; [done|]. split; [congruence|]. exists (r1 ++ r2), ns2. rewrite !app_assoc.
        split; [done|congruence].
      * intros (a' & r2 & Hp2 & Ho2 & Hrec2 & Hz2). exists a', (r1 ++ r2). rewrite !app_assoc.
        split_and!; try done; congruence.
    + intros e _ _ HE. congruence.
  - split_and!; [done..|]. exists [], ns. by rewrite !app_nil_r.
Qed.

(** Zeros held back that turn out to be data. *)
Lemma data_zeros_parse ns z b rest : b <> 0%Z -> (b =? 1)%Z && (2 <=? z) = false ->
  parse_from {| nals := ns; trailing := z |} (b :: rest) =
  match ns with
  | [] => Fail (Err (Errorf "AVC transformer: bytes before Annex-B start code"))
  | _ => parse_from {| nals := alter_last (add_bytes_nal (replicate z 0%Z)) ns; trailing := 0 |}
           (b :: rest)
  end.
Proof.
  intros Hb H1'. cbn [parse_from]. unfold annexb_step. cbn [nals trailing].
  rewrite (proj2 (Z.eqb_neq _ _) Hb), H1'. change (2 <=? 0) with false; rewrite andb_false_r.
  destruct ns as [|n ns]; [done|]. cbn [mbind outcome_bind replicate app].
  destruct (alter_last (add_bytes_nal (replicate z 0%Z)) (n :: ns)) eqn:E;
    [by apply alter_last_nil in E|].
  rewrite <- E, alter_last_twice. cbn [mbind outcome_bind]. f_equal. f_equal. apply alter_last_ext. intros [k m].
  unfold add_bytes_nal. cbn [fst snd]. by rewrite <- app_assoc.
Qed.

Lemma received_zeroRun ins raws evs t ns x z :
  received ins raws evs t ns x -> received ins raws evs (set_zeroRun z t) ns x.
Proof. intros Hrec. by apply (received_same _ _ _ _ _ _ _ Hrec). Qed.

Definition resolved ins raws evs t a p (r : option (list Z)) t' e : Prop :=
  match r with
  | None => parses ins raws evs t a p t' e
  | Some p' => zeroRun t' = 0 /\ inputPESOpen t' = inputPESOpen t
      /\ exists rw ns', received ins (raws ++ rw) (evs ++ e) t' ns' (length p')
      /\ parse_from a p = parse_from {| nals := ns'; trailing := 0 |} p'
  end.

Lemma resolve_start ins raws evs t ns z rest : 2 <= z ->
  received ins raws evs t ns (z + 1 + length rest) ->
  emits (W := W)
    (finish_open;; writeZeros z false;; on_fst (modify (set_zeroRun 0));; write [1%Z] false;;
     beginNAL;; mret (Some rest)) t
    (fun r t' e => r = Some rest
       /\ resolved ins raws evs t {| nals := ns; trailing := z |} (1%Z :: rest) r t' e)
    (fun e _ _ => parse_from {| nals := ns; trailing := z |} (1%Z :: rest) = Fail (Err e)).
Proof.
  intros Hz Hrec. eapply emits_bind.
  { eapply emits_weaken; [by apply (finish_open_emits _ _ _ _ _ _ Hrec)|done|].
    cbn beta. intros e _ _ [Hl ->]. apply (start_parse_error ns z 0 rest); [lia|done]. }
  intros _ t1 e1 (r1 & Hc & [Ho1 _] & Hl).
  pose proof (zeros_start_emits _ _ _ _ _ _ _ Hc) as Hs.
  assert (Heq : forall w, (writeZeros z false;; on_fst (modify (set_zeroRun 0));;
      write [1%Z] false;; beginNAL;; mret (Some rest)) (t1, w)
    = ((writeZeros z false;; on_fst (modify (set_zeroRun 0));; write [1%Z] false;; beginNAL);;
       mret (Some rest)) (t1, w)).
  { intros w. rewrite bind_assoc. apply bind_ext. intros _ s1. rewrite bind_assoc.
    apply bind_ext. intros _ s2. by rewrite bind_assoc. }
  eapply emits_ext; [exact Heq|]. eapply emits_bind; [eapply emits_weaken; [by apply Hs|done|done]|].
  cbn beta. intros _ t2 e2 (r2 & Hrec2 & [Ho2 Hz2]). apply emits_ret. rewrite app_nil_r.
  split; [done|]. split_and!; [done|by rewrite Ho2|]. exists (r1 ++ r2), (ns ++ [(z, [])]).
  rewrite !app_assoc. split; [done|].
  rewrite <- (Nat.add_0_r z) at 2. apply (start_parse ns z 0 rest); [lia|done].
Qed.

Lemma resolve_zeros_emits ins raws evs t ns z p :
  received ins raws evs t ns (z + length p) -> zeroRun t = z ->
  emits (W := W) (resolve_zeros p) t
    (fun r t' e => resolved ins raws evs t {| nals := ns; trailing := z |} p r t' e)
    (fun e _ _ => parse_from {| nals := ns; trailing := z |} p = Fail (Err e)).
Proof.
  intros Hrec Hz. unfold resolve_zeros. apply emits_get_bind. rewrite Hz.
  destruct (Nat.eqb_spec z 0) as [->|Hz0].
  { apply emits_ret. split_and!; [done..|]. exists [], ns. by rewrite !app_nil_r. }
  destruct (leading_split p) as (Ep & Hn & Hd). cbn zeta.
  set (n := leading_zeros p) in *.
  apply emits_modify_bind, emits_get_bind. cbn [zeroRun set_zeroRun]. rewrite Hz.
  set (t1 := set_zeroRun (z + n) t).
  assert (Hlen : length p = n + length (drop n p)) by llia.
  assert (Hrec1 : received ins raws evs t1 ns (z + n + length (drop n p))).
  { rewrite Hlen, Nat.add_assoc in Hrec. by apply received_zeroRun. }
  assert (Hpz : parse_from {| nals := ns; trailing := z |} p
    = parse_from {| nals := ns; trailing := z + n |} (drop n p)).
  { rewrite Ep at 1. apply parse_zeros. }
  destruct (drop n p) as [|b rest].
  { apply emits_ret. exists {| nals := ns; trailing := z + n |}, [].
    rewrite !app_nil_r. rewrite Nat.add_0_r in Hrec1. by split_and!. }
  destruct ((b =? 1)%Z && (2 <=? z + n)) eqn:Hb.
  - apply andb_true_iff in Hb as [->%Z.eqb_eq Hzn%Nat.leb_le].
    eapply emits_weaken; [apply (resolve_start ins raws evs t1 ns (z + n) rest Hzn)|..]; cbn beta.
    + cbn [length] in Hrec1. by replace (z + n + 1 + length rest) with (z + n + S (length rest)) by lia.
    + intros r t' e (-> & Hz' & Ho' & Hr'). split_and!; [done..|]. by rewrite Hpz.
    + intros e _ _ HE. by rewrite Hpz.
  - pose proof (data_zeros_parse ns (z + n) b rest Hd Hb) as Hdata. rewrite <- Hpz in Hdata.
    pose proof (received_none _ _ _ _ _ _ Hrec1) as Hnone.
    apply emits_check_bind.
    { intros ->%bool_decide_eq_true%Hnone. done. }
    intros Hst%bool_decide_eq_false.
    eapply emits_bind.
    { eapply emits_weaken; [by apply (feed_zeros_emits _ _ _ _ _ _ _ Hrec1)|done|done]. }
    cbn beta. intros _ t2 e2 (r2 & Hrec2 & [Ho2 _]). apply emits_modify_bind, emits_ret.
    rewrite app_nil_r. split_and!; [done..|]. exists r2, (alter_last (add_bytes_nal (replicate (z + n) 0%Z)) ns).
    split; [by apply received_zeroRun|]. destruct ns; [|done].
    by destruct Hst; apply Hnone.
Qed.

(** ** The calls *)

(** The header with the packet length cleared, as the code sends it on. *)
Definition unbounded (ev : event) : event :=
  match ev with EHeader h => EHeader (<[5 := 0%Z]> (<[4 := 0%Z]> h)) | _ => ev end.

(** Calls that only frame the bytes. *)
Lemma received_framing ins ins' raws evs r e t t' ns x x' :
  received ins raws evs t ns x -> payloads r = [] -> payloads e = [] ->
  (exists o z q, t' = set_open o (set_zeroRun z (set_pes q t))) ->
  (forall n, owes ins raws evs t (n + x) -> owes ins' (raws ++ r) (evs ++ e) t' (n + x')) ->
  received ins' (raws ++ r) (evs ++ e) t' ns x'.
Proof.
  intros Hrec Hr He (o & z & q & ->) Ho.
  assert (Hpr : payloads (raws ++ r) = payloads raws) by by rewrite payloads_app, Hr, app_nil_r.
  assert (Hpe : payloads (evs ++ e) = payloads evs) by by rewrite payloads_app, He, app_nil_r.
  destruct Hrec as [(-> & [Ho0 ? ? ? ? ?])|(pre & k & nal & -> & [Ho0 (w & out & Hrel & Hw & Hout) Hp Hb])].
  - left. split; [done|]. split; try done; [by apply (Ho 0)|congruence..].
  - right. exists pre, k, nal. split; [done|]. split; try done; [by apply Ho|].
    exists w, out. rewrite Hpr, Hpe. split; [|done].
    destruct Hrel as [| | |[]]; [by apply RelHeader|by apply RelPassthrough|by apply RelProbe|].
    by apply RelEncrypted.
Qed.

(** The transformer after the calls [calls], having sent [evs]. *)
Definition stands (calls : list event) (t : Transformer C) (evs : list event) : Prop :=
  exists ins raws a, frame_events (unbounded <$> calls) [] = Some ins
    /\ annexb_parse (payloads calls) = Ok a
    /\ received ins raws evs t (nals a) (trailing a) /\ zeroRun t = trailing a
    /\ inputPESOpen t = open_last ins.

Lemma received_total ins raws evs t ns x : received ins raws evs t ns x ->
  exists n, owes ins raws evs t (n + x).
Proof.
  intros [(-> & Hc)|(pre & k & nal & -> & Hin)].
  - exists 0. apply (c_owes _ _ _ _ _ _ Hc).
  - exists (patternLen t). apply (n_owes _ _ _ _ _ _ _ _ _ Hin).
Qed.

Lemma owes_push ins raws evs (t : Transformer C) n h : owes ins raws evs t n -> open_last ins = false ->
  let first := length (pes t) =? 0 in
  let r := if first then [EHeader h] else [] in
  let p := {| PesQueue.header := h; bytes := 0; ended := false; started := first |} in
  owes (ins ++ [new_frame h]) (raws ++ r) (evs ++ r) (set_open true (set_pes (pes t ++ [p]) t)) n.
Proof.
  intros [He (outs & Hf & Hl) Hs Ht Hsh Hsi] Ho. cbn zeta.
  destruct (Nat.eqb_spec (length (pes t)) 0) as [Hq%nil_length_inv|Hq].
  - rewrite Hq in *. destruct (ledger_push_started _ _ h Hl) as [Hf' Hl'].
    split; try done.
    + exists (outs ++ [new_frame h]). split; [by eapply frame_events_trans|done].
    + apply shape_app; [done|]. by apply shape_cons; [|apply shape_nil].
    + by rewrite signals_app, Hsi.
  - rewrite !app_nil_r. split; try done.
    + exists outs. split; [done|]. by apply ledger_push.
    + by apply (settled_push (pes t) h).
    + unfold set_open, set_pes. cbn [pes]. rewrite total_app, Ht. cbn. lia.
Qed.

Lemma frame_events_unbounded calls ev :
  frame_events (unbounded <$> (calls ++ [ev])) [] =
  fs ← frame_events (unbounded <$> calls) []; frame_event (unbounded ev) fs.
Proof.
  rewrite fmap_app, frame_events_app. destruct (frame_events _ _) as [fs|]; [|done].
  cbn. by destruct (frame_event (unbounded ev) fs).
Qed.

Lemma avc_header_stands calls t evs h : stands calls t evs -> header_ok (EHeader h) ->
  is_Some (frame_events (unbounded <$> (calls ++ [EHeader h])) []) ->
  emits (W := W) (Avc.PESHeader h) t (fun _ t' e => stands (calls ++ [EHeader h]) t' (evs ++ e))
    (fun _ _ _ => False).
Proof.
  intros (ins & raws & a & Hi & Ha & Hrec & Hz & Ho) Hh Hf.
  rewrite frame_events_unbounded, Hi in Hf. cbn [mbind option_bind unbounded frame_event] in Hf.
  destruct (open_last ins) eqn:Hopen; [by destruct Hf|].
  unfold Avc.PESHeader. apply emits_get_bind. rewrite Ho.
  apply emits_check_bind; [done|intros _]. apply emits_check_bind.
  { change (Is_true (6 <=? length h)) in Hh. intros Hlt%Nat.ltb_lt. apply Is_true_true, Nat.leb_le in Hh. lia. }
  intros _. set (h' := <[5 := 0%Z]> (<[4 := 0%Z]> h)). cbn zeta.
  set (first := length (pes t) =? 0). set (r := if first then [EHeader h'] else []).
  eapply (emits_bind _ _ _ (fun _ t1 e => t1 = t /\ e = r)).
  { subst r. destruct first; [by apply (emits_event (EHeader h'))|by apply emits_ret]. }
  intros _ ? ? (-> & ->). eapply emits_fst; [done|]. rewrite app_nil_r.
  exists (ins ++ [new_frame h']), (raws ++ r), a. split_and!.
  - rewrite frame_events_unbounded, Hi. cbn. by rewrite Hopen.
  - by rewrite payloads_app, app_nil_r.
  - apply (received_framing ins _ _ _ _ _ t _ _ _ _ Hrec); [by subst r; destruct first..| |].
    + exists true, (zeroRun t), (pes t ++ [{| PesQueue.header := h'; bytes := 0; ended := false;
        started := first |}]). by destruct t.
    + intros n Hn. by apply owes_push.
  - done.
  - cbn. unfold open_last. by rewrite last_snoc.
Qed.

(** Inside a PES the queue has a last record. *)
Lemma open_queue ins raws evs (t : Transformer C) n : owes ins raws evs t n -> open_last ins = true ->
  exists p, list.last (pes t) = Some p /\ pes t <> [].
Proof.
  intros [_ (outs & _ & Hl) _ _ _ _] Ho. rewrite (ledger_open _ _ _ Hl) in Ho.
  destruct (list.last (pes t)) as [p|] eqn:E; [|done]. exists p. split; [done|].
  intros Hq. by rewrite Hq in E.
Qed.

Lemma avc_payload_stands calls t evs d : stands calls t evs ->
  is_Some (frame_events (unbounded <$> (calls ++ [EPayload d])) []) ->
  emits (W := W) (Avc.PESPayload d) t (fun _ t' e => stands (calls ++ [EPayload d]) t' (evs ++ e))
    (fun e _ _ => annexb_parse (payloads (calls ++ [EPayload d])) = Fail (Err e)).
Proof.
  intros (ins & raws & [ns z] & Hi & Ha & Hrec & Hz & Ho) Hf.
  rewrite frame_events_unbounded, Hi in Hf. cbn [mbind option_bind unbounded frame_event] in Hf.
  destruct (open_last ins) eqn:Hopen; [|by destruct Hf]. cbn [nals trailing] in *.
  assert (Hparse : annexb_parse (payloads (calls ++ [EPayload d]))
    = parse_from {| nals := ns; trailing := z |} d).
  { rewrite payloads_app. cbn [payloads]. rewrite app_nil_r. unfold annexb_parse in *.
    by rewrite parse_from_app, Ha. }
  destruct (received_total _ _ _ _ _ _ Hrec) as [n0 Ho0].
  destruct (open_queue _ _ _ _ _ Ho0 Hopen) as (p & Hp & Hq).
  unfold Avc.PESPayload. apply emits_get_bind. rewrite Ho.
  apply emits_check_bind; [done|intros _]. rewrite Hp.
  eapply emits_fst_bind; [done|]. unfold update_pes. apply emits_modify_bind.
  set (t1 := with_pes (alter_last (add_bytes (length d)) (pes t)) t).
  change (with_pes _ t) with t1.
  assert (Hrec1 : received (alter_last (add_len (length d)) ins) raws evs t1 ns (z + length d)).
  { rewrite <- (app_nil_r raws), <- (app_nil_r evs).
    apply (received_framing ins _ _ _ _ _ t _ _ _ _ Hrec); [done..| |].
    - exists (inputPESOpen t), (zeroRun t), (alter_last (add_bytes (length d)) (pes t)). by destruct t.
    - intros n [? (outs & Hfo & Hl) ? Ht ? ?]. rewrite !app_nil_r. split; try done.
      + exists outs. split; [done|]. by apply ledger_add.
      + by apply settled_add.
      + change (total (alter_last (add_bytes (length d)) (pes t)) = n + (z + length d)).
        rewrite total_add by done. lia. }
  assert (Hstand : forall t' e, parses (alter_last (add_len (length d)) ins) raws evs t1
    {| nals := ns; trailing := z |} d t' e -> stands (calls ++ [EPayload d]) t' (evs ++ e)).
  { intros t' e (a' & r & Hp' & Ho' & Hrec' & Hz').
    exists (alter_last (add_len (length d)) ins), (raws ++ r), a'. rewrite Hparse.
    split_and!; try done.
    - rewrite frame_events_unbounded, Hi. cbn. by rewrite Hopen.
    - rewrite Ho', open_alter_add, Hopen. done. }
  eapply emits_bind.
  { eapply emits_weaken; [by apply (resolve_zeros_emits _ _ _ _ _ _ _ Hrec1)|done|].
    cbn beta. intros e _ _ HE. by rewrite Hparse. }
  intros [d'|] t2 e2 Hres; [|apply emits_ret; rewrite app_nil_r; by apply Hstand].
  destruct Hres as (Hz2 & Ho2 & r2 & ns2 & Hrec2 & Hp2).
  eapply emits_weaken; [by apply (scan_emits _ _ _ _ _ _ Hrec2)|..]; cbn beta.
  - intros _ t3 e3 (a' & r3 & Hp3 & Ho3 & Hrec3 & Hz3). apply Hstand.
    exists a', (r2 ++ r3). rewrite !app_assoc. split_and!; try done; congruence.
  - intros e _ _ HE. rewrite Hparse. congruence.
Qed.

(** Closing the packets that are paid in full. *)
Lemma owes_finish ins ins' raws evs (t t1 : Transformer C) n : owes ins raws evs t n ->
  (forall outs, ledger ins outs (pes t) -> ledger ins' outs (pes t1)) ->
  total (pes t1) = total (pes t) -> escaper t1 = escaper t ->
  emits (W := W) finishPES t1
    (fun _ t' e => exists q, t' = set_pes q t1 /\ owes ins' (raws ++ e) (evs ++ e) t' n
       /\ payloads e = [])
    (fun _ _ _ => False).
Proof.
  intros [He (outs & Hf & Hl) Hs Ht Hsh Hsi] Hl1 Ht1 He1.
  eapply emits_weaken; [by apply (finish_emits t1 ins' outs), Hl1|..|done].
  cbn beta. intros _ t' e (q & outs' & -> & Hf' & Hl' & Hs' & Ht' & Hfr). exists q.
  split; [done|]. split; [|by apply framing_payloads]. split; try done.
  - unfold esc_ok in *. change (esc_zeroRun (escaper t1) <= 2). by rewrite He1.
  - exists outs'. split; [by eapply frame_events_trans|done].
  - change (total q = n). rewrite Ht'. change (total (pes t1) = n). congruence.
  - apply shape_app; [done|]. by apply shape_refl, framing_signals.
  - by rewrite signals_app, Hsi, framing_signals.
Qed.

Lemma owes_fun ins raws evs (t : Transformer C) n n' : owes ins raws evs t n ->
  owes ins raws evs t n' -> n' = n.
Proof. intros [_ _ _ <- _ _] [_ _ _ <- _ _]. done. Qed.

Lemma avc_end_stands calls t evs : stands calls t evs ->
  is_Some (frame_events (unbounded <$> (calls ++ [EEnd])) []) ->
  emits (W := W) Avc.PESEnd t (fun _ t' e => stands (calls ++ [EEnd]) t' (evs ++ e))
    (fun _ _ _ => False).
Proof.
  intros (ins & raws & a & Hi & Ha & Hrec & Hz & Ho) Hf.
  rewrite frame_events_unbounded, Hi in Hf. cbn [mbind option_bind unbounded frame_event] in Hf.
  destruct (open_last ins) eqn:Hopen; [|by destruct Hf].
  destruct (received_total _ _ _ _ _ _ Hrec) as [n0 Ho0].
  destruct (open_queue _ _ _ _ _ Ho0 Hopen) as (p & Hp & Hq).
  unfold Avc.PESEnd. apply emits_get_bind. rewrite Ho.
  apply emits_check_bind; [done|intros _]. rewrite Hp.
  eapply emits_fst_bind; [done|]. unfold update_pes. apply emits_modify_bind, emits_modify_bind.
  set (t1 := set_open false (with_pes (alter_last set_ended (pes_of t)) t)).
  eapply emits_weaken; [apply (owes_finish ins (alter_last end_frame ins) _ _ t t1 _ Ho0)|..|done].
  - intros outs Hl. by apply ledger_end.
  - apply total_ended.
  - done.
  - cbn beta. intros _ t' e (q & -> & Ho' & Hpe).
    exists (alter_last end_frame ins), (raws ++ e), a. split_and!; try done.
    + rewrite frame_events_unbounded, Hi. cbn. by rewrite Hopen.
    + by rewrite payloads_app, app_nil_r.
    + apply (received_framing ins _ _ _ _ _ t _ _ _ _ Hrec); [done..| |].
      * exists false, (zeroRun t), q. by destruct t.
      * intros n Hn. by rewrite (owes_fun _ _ _ _ _ _ Ho0 Hn).
    + by rewrite open_alter_end.
Qed.

(** Calls that are properly nested, with headers of at least six bytes; clearing
  the packet length changes neither. *)
Definition pes_calls (calls : list event) : Prop :=
  Forall header_ok calls /\ is_Some (frame_events (unbounded <$> calls) []).

Lemma pes_calls_app l1 l2 : pes_calls (l1 ++ l2) -> pes_calls l1.
Proof.
  intros [[Hh _]%Forall_app [fs Hf]]. split; [done|].
  rewrite fmap_app, frame_events_app in Hf. destruct (frame_events (unbounded <$> l1) []); [eauto|done].
Qed.

#[local] Existing Instance Avc.handler.

Lemma avc_call_stands calls t evs ev : stands calls t evs -> pes_calls (calls ++ [ev]) ->
  emits (W := W) (handle ev) t (fun _ t' e => stands (calls ++ [ev]) t' (evs ++ e))
    (fun e _ _ => annexb_parse (payloads (calls ++ [ev])) = Fail (Err e)).
Proof.
  intros Hst [Hh Hf]. destruct ev as [h|d| |p]; cbn [handle].
  - apply Forall_app in Hh as [_ Hh]. apply Forall_cons in Hh as [Hh _].
    by eapply emits_weaken; [by apply avc_header_stands|..].
  - by apply avc_payload_stands.
  - by eapply emits_weaken; [by apply avc_end_stands|..].
  - apply emits_ret. rewrite app_nil_r.
    destruct Hst as (ins & raws & a & Hi & Ha & Hr & Hz & Ho). exists ins, raws, a.
    rewrite frame_events_unbounded, Hi, payloads_app, app_nil_r. by split_and!.
Qed.

Lemma avc_calls_stand calls : forall done_ t evs, stands done_ t evs -> pes_calls (done_ ++ calls) ->
  emits (W := W) (handle_all calls) t (fun _ t' e => stands (done_ ++ calls) t' (evs ++ e))
    (fun e _ _ => annexb_parse (payloads (done_ ++ calls)) = Fail (Err e)).
Proof.
  induction calls as [|ev calls IH]; intros done_ t evs Hst Hw.
  { apply emits_ret. by rewrite !app_nil_r. }
  replace (done_ ++ ev :: calls) with ((done_ ++ [ev]) ++ calls) in *
    by by rewrite <- app_assoc.
  unfold handle_all. cbn [for_each]. eapply emits_bind.
  { eapply emits_weaken; [apply avc_call_stands; [done|by eapply pes_calls_app]|done|].
    cbn. intros e _ _ Hk. rewrite payloads_app. unfold annexb_parse in *.
    by rewrite parse_from_app, Hk. }
  intros [] t' evs' Hst'. eapply emits_weaken; [by apply IH|..]; cbn beta.
  - intros _ t'' e. by rewrite (app_assoc evs).
  - done.
Qed.

Lemma avc_stands_new : (forall c, b0 = Some c -> usable c) -> stands [] (newTransformer b0) [].
Proof.
  intros Hb. exists [], [], no_nals. split_and!; try done. left. split; [done|]. split; try done.
  - split; try done; [unfold esc_ok; cbn; lia| |apply shape_nil].
    exists []. split; [done|]. exists [], 0. split_and!; constructor.
  - unfold block_ok. cbn. destruct b0 as [c|]; [|done]. split; [by apply Hb|done].
Qed.

(** ** Flush *)

(** The bytes sent and the bytes they were made of. *)
Definition stream_of (f : list Z -> list Z) (a : annexb) : list Z :=
  concat (with_start f <$> nals a) ++ replicate (trailing a) 0%Z.

Definition flushed (calls : list event) (evs : list event) : Prop :=
  exists ins raws a, frame_events (unbounded <$> calls) [] = Some ins
    /\ annexb_parse (payloads calls) = Ok a /\ open_last ins = false /\ ~ last_empty (nals a)
    /\ shape raws evs /\ signals evs = [] /\ frame_events raws [] = Some ins
    /\ payloads raws = stream_of (nal_raw b0) a /\ payloads evs = stream_of (nal_out b0) a.

Definition flush_error (calls : list event) (e : goerror) : Prop :=
  exists ins a, frame_events (unbounded <$> calls) [] = Some ins
    /\ annexb_parse (payloads calls) = Ok a
    /\ ((open_last ins = true /\ e = Errorf "AVC transformer: PES is still open")
        \/ (last_empty (nals a)
            /\ e = Errorf "AVC transformer: Annex-B start code without NAL header")).

Lemma avc_flush_stands calls t evs : stands calls t evs ->
  emits (W := W) Flush t (fun _ t' e => flushed calls (evs ++ e)) (fun e _ _ => flush_error calls e).
Proof.
  intros (ins & raws & a & Hi & Ha & Hrec & Hz & Ho). unfold Flush.
  apply emits_get_bind. rewrite Ho. apply emits_check_bind.
  { intros Hopen. exists ins, a. split_and!; [done..|]. by left. }
  intros Hopen. eapply emits_bind.
  { eapply emits_weaken; [by apply (finish_open_emits _ _ _ _ _ _ Hrec)|done|].
    cbn beta. intros e _ _ [Hl ->]. exists ins, a. split_and!; [done..|]. by right. }
  intros _ t1 e1 (r1 & Hc & [_ Hz1] & Hl). apply emits_get_bind. rewrite Hz1, Hz.
  eapply (emits_bind _ _ _ (fun _ t2 e => exists r, owes ins ((raws ++ r1) ++ r) ((evs ++ e1) ++ e) t2 0
    /\ payloads r = replicate (trailing a) 0%Z /\ payloads e = replicate (trailing a) 0%Z)).
  { pose proof (c_owes _ _ _ _ _ _ Hc) as Ho1. destruct (Nat.ltb_spec 0 (trailing a)) as [Hlt|Hlt]; cbn [when].
    - rewrite <- (Nat.add_0_r (trailing a)) in Ho1. eapply emits_bind.
      { eapply emits_weaken; [by apply (writeZeros_emits _ _ _ _ _ _ Ho1)|done|done]. }
      cbn beta. intros _ t2 e2 (r & q & Ho2 & -> & Hr & He). eapply emits_fst; [done|].
      rewrite app_nil_r. exists r. split_and!; [|done..]. by apply (owes_same _ _ _ _ _ _ _ Ho2).
    - replace (trailing a) with 0 in * by lia. apply emits_ret. exists []. by rewrite !app_nil_r. }
  intros _ t2 e2 (r2 & Ho2 & Hr2 & He2).
  eapply emits_weaken; [by apply (owes_finish ins ins _ _ t2 t2 0 Ho2)|..|done].
  cbn beta. intros _ t3 e3 (q & -> & [_ (outs & Hf & Hled) Hs Ht Hsh Hsi] & Hpe).
  assert (Hq : pes (set_pes q t2) = []) by by eapply ledger_closed.
  rewrite Hq in Hled. rewrite (ledger_nil _ _ Hled) in Hf.
  exists ins, (((raws ++ r1) ++ r2) ++ e3), a. rewrite !app_assoc. split_and!; try done.
  - rewrite payloads_app, payloads_app, (c_raws _ _ _ _ _ _ Hc), Hr2, Hpe, app_nil_r. done.
  - rewrite payloads_app, payloads_app, (c_evs _ _ _ _ _ _ Hc), He2, Hpe, app_nil_r. done.
Qed.

(** A whole elementary stream: any calls, then [Flush]. *)
Definition transform (calls : list event) : M (Transformer C * W) unit :=
  handle_all calls;; Flush.

Lemma avc_transform_emits calls : (forall c, b0 = Some c -> usable c) -> pes_calls calls ->
  emits (W := W) (transform calls) (newTransformer b0)
    (fun _ _ evs => flushed calls evs)
    (fun e _ _ => annexb_parse (payloads calls) = Fail (Err e) \/ flush_error calls e).
Proof.
  intros Hb Hc. unfold transform. eapply emits_bind.
  { eapply emits_weaken; [by apply (avc_calls_stand calls [] _ _ (avc_stands_new Hb))|done|].
    cbn beta. by left. }
  cbn beta. intros _ t evs Hst. eapply emits_weaken; [by apply avc_flush_stands|..]; cbn beta.
  - done.
  - by right.
Qed.
End Stream.

(** C15: any elementary stream. Unless the next handler fails, the transformer
    either fails because the bytes are not an Annex-B stream, because the last
    PES is open or because the stream ends with a start code, or it sends, in the
    packets received with their length cleared, each NAL with its start code:
    slices of at least 49 bytes encrypted and escaped, the others as they came. *)
Theorem avc_transform_stream {C W : Type} `{BlockCryptorLaws C} `{PESHandler W} `{PMTSignal W}
    (b0 : option C) calls :
  (forall c, b0 = Some c -> usable c) -> pes_calls calls ->
  emits (W := W) (transform calls) (newTransformer b0)
    (fun _ _ evs => flushed b0 calls evs)
    (fun e _ _ => annexb_parse (payloads calls) = Fail (Err e) \/ flush_error calls e).
Proof. apply avc_transform_emits. Qed.

(** ** A concrete stream: a parameter set and a slice, in two packets *)
Module AvcExample.
Import Toy Recorder.
#[export] Instance avc_toy_cryptor : BlockCryptor CBCEncryptor := cbc_cryptor aes.
#[export] Instance avc_toy_laws : BlockCryptorLaws CBCEncryptor := cbc_laws aes aes_is_blocks.

Definition pes_header : list Z := [0; 0; 1; 0xE0; 2; 1]%Z.
Definition sps : list Z := [0x67; 1; 2; 0; 3]%Z.
Definition coded_slice : list Z := (0x65 :: replicate 300 7)%Z.
Definition stream : list event :=
  [EHeader pes_header; EPayload ([0; 0; 0; 1] ++ sps ++ [0])%Z; EPayload [0; 1; 0x65]%Z; EEnd;
   EHeader pes_header; EPayload (tail coded_slice); EPayload [0; 0; 0]%Z; EEnd].

Lemma stream_calls : pes_calls stream.
Proof. split; [by repeat constructor|by eexists]. Qed.
End AvcExample.

Import AvcExample Recorder.

Lemma avc_transform_stream_witness : pes_calls AvcExample.stream /\
  emits (W := list event) (transform AvcExample.stream) (newTransformer (Some Toy.encryptor))
    (fun _ _ evs => flushed (Some Toy.encryptor) AvcExample.stream evs)
    (fun e _ _ => annexb_parse (payloads AvcExample.stream) = Fail (Err e)
       \/ flush_error AvcExample.stream e).
Proof.
  split; [apply AvcExample.stream_calls|]. apply avc_transform_stream.
  - intros c [= <-]. by eexists.
  - apply AvcExample.stream_calls.
Defined.
