(* ===== verification/AvcReceiver.v ===== *)
(** * AVC: what a receiver makes of the transformed stream

    The bytes sent on are again an Annex-B stream, whose NALs are the transformed
    ones, and the receiver's decryption of them gives the NALs back. *)

From S2P Require Import Prelude SampleAes Pmt PesHandler PesQueue Ebsp Avc AvcNal AvcParse AvcStream.

(** ** Parsing what has been parsed *)

(** In a NAL, the bytes [d] and then [z] zeros are parsed as such. *)
Definition reparses (d : list Z) (z : nat) : Prop := forall ns k,
  parse_from {| nals := ns ++ [(k, [])]; trailing := 0 |} (d ++ replicate z 0%Z)
  = Ok {| nals := ns ++ [(k, d)]; trailing := z |}.

(** A NAL that another one follows. *)
Definition whole_nal (n : nat * list Z) : Prop := 2 <= n.1 /\ n.2 <> [] /\ reparses n.2 0.

Definition parsed_ok (a : annexb) : Prop :=
  match reverse (nals a) with
  | [] => True
  | n :: pre => 2 <= n.1 /\ reparses n.2 (trailing a) /\ Forall whole_nal pre
  end.

Lemma reparses_nil : reparses [] 0.
Proof. done. Qed.

Lemma reparses_zero d z : reparses d z -> reparses d (S z).
Proof.
  intros Hr ns k. rewrite replicate_S_end, app_assoc, parse_from_app, Hr. done.
Qed.

Lemma reparses_byte d z b : reparses d z -> (b =? 0)%Z = false -> (b =? 1)%Z && (2 <=? z) = false ->
  reparses (d ++ replicate z 0%Z ++ [b]) 0.
Proof.
  intros Hr H0 H1 ns k. cbn [replicate]. rewrite app_nil_r, app_assoc, parse_from_app, Hr.
  cbn [mbind outcome_bind parse_from]. unfold annexb_step. cbn [nals trailing]. rewrite H0, H1.
  destruct (ns ++ [(k, d)]) eqn:E; [by destruct ns|]. rewrite <- E, alter_last_snoc. unfold add_bytes_nal. cbn [fst snd]. by rewrite <- ?app_assoc.
Qed.

(** Trailing zeros can be left out of a NAL that is followed by a start code. *)
Lemma reparses_end d z : reparses d z -> reparses d 0.
Proof.
  intros Hr ns k. specialize (Hr ns k). rewrite parse_from_app in Hr. cbn [replicate].
  rewrite app_nil_r. destruct (parse_from _ d) as [[ns' z']|]; [|done].
  cbn [mbind outcome_bind] in Hr. pose proof (parse_zeros z ns' z' []) as Hz.
  rewrite app_nil_r in Hz. rewrite Hz in Hr. cbn in Hr. injection Hr as -> Hzz.
  do 2 f_equal. lia.
Qed.

Lemma step_parsed_ok a b a' : parsed_ok a -> annexb_step a b = Ok a' -> parsed_ok a'.
Proof.
  unfold parsed_ok, annexb_step. intros Ha Hs.
  destruct (b =? 0)%Z eqn:H0.
  { injection Hs as <-. cbn [nals trailing]. destruct (reverse (nals a)); [done|].
    destruct Ha as (? & ? & ?). split_and!; try done. by apply reparses_zero. }
  destruct ((b =? 1)%Z && (2 <=? trailing a)) eqn:H1.
  - apply andb_true_iff in H1 as [_ Hz%Nat.leb_le].
    assert (Hne : ~ last_empty (nals a) /\ a' = {| nals := nals a ++ [(trailing a, [])]; trailing := 0 |}).
    { unfold last_empty. destruct (list.last (nals a)) as [[? [|]]|]; first [discriminate Hs|injection Hs as <-; split; [by intros []|done]]. }
    destruct Hne as [Hne ->]. cbn [nals trailing]. rewrite reverse_snoc.
    split_and!; [done|apply reparses_nil|].
    destruct (nals a) as [|[k n] ns _] using rev_ind; [constructor|].
    rewrite reverse_snoc in Ha |- *.
    destruct Ha as (? & ? & ?). constructor; [|done]. split_and!; [done| |by eapply reparses_end].
    intros Hn. cbn in Hn. subst n. apply Hne. unfold last_empty. by rewrite last_snoc.
  - destruct (nals a) as [|[k n] ns _] using rev_ind; [done|].
    destruct (ns ++ [(k, n)]) eqn:E; [by destruct ns|]. rewrite <- E in *. injection Hs as <-.
    cbn [nals trailing]. rewrite alter_last_snoc. rewrite reverse_snoc in Ha |- *. destruct Ha as (? & ? & ?). split_and!; [done| |done].
    cbn. by apply reparses_byte.
Qed.

Lemma parse_from_ok a l a' : parsed_ok a -> parse_from a l = Ok a' -> parsed_ok a'.
Proof.
  revert a. induction l as [|b l IH]; intros a Ha Hp; [by injection Hp as <-|].
  cbn [parse_from] in Hp. destruct (annexb_step a b) as [a1|] eqn:E; [|done].
  apply (IH a1); [by eapply step_parsed_ok|done].
Qed.

Lemma annexb_parse_ok l a : annexb_parse l = Ok a -> parsed_ok a.
Proof. by apply parse_from_ok. Qed.

(** ** Parsing the NALs transformed *)
Definition map_nal (f : list Z -> list Z) (n : nat * list Z) : nat * list Z := (n.1, f n.2).

Lemma parse_whole f ns l : (forall d, In d (snd <$> l) -> f d <> [] /\ reparses (f d) 0) ->
  Forall (fun n => 2 <= n.1) l -> ~ last_empty ns -> forall rest,
  parse_from {| nals := ns; trailing := 0 |} (concat (with_start f <$> l) ++ rest)
  = parse_from {| nals := ns ++ (map_nal f <$> l); trailing := 0 |} rest.
Proof.
  revert ns. induction l as [|[k d] l IH]; intros ns Hf Hk Hne rest.
  { by rewrite app_nil_r. }
  apply Forall_cons in Hk as [Hk Hks]. cbn [fst] in Hk.
  destruct (Hf d) as [Hd Hr]; [by left|].
  rewrite !fmap_cons. cbn [concat]. unfold with_start at 1. cbn [fst snd].
  rewrite <- !app_assoc. cbn [app].
  rewrite (start_parse ns 0 k) by (lia || done). cbn [Nat.add].
  specialize (Hr ns k). cbn [replicate] in Hr. rewrite app_nil_r in Hr.
  rewrite parse_from_app, Hr. cbn [mbind outcome_bind].
  change (ns ++ map_nal f (k, d) :: (map_nal f <$> l)) with (ns ++ [(k, f d)] ++ (map_nal f <$> l)).
  rewrite app_assoc. apply IH.
  - intros d' Hd'. apply Hf. by right.
  - done.
  - unfold last_empty. rewrite last_snoc. destruct (f d); [by destruct Hd|by intros []].
Qed.

(** A stream made of the parsed NALs, each changed by [f], is parsed as such. *)
Lemma parse_stream f a : parsed_ok a -> ~ last_empty (nals a) ->
  (forall d, d <> [] -> reparses d 0 -> f d <> [] /\ reparses (f d) 0) ->
  annexb_parse (stream_of f a) = Ok {| nals := map_nal f <$> nals a; trailing := trailing a |}.
Proof.
  intros Ha Hl Hf.
  assert (Hall : Forall whole_nal (nals a)).
  { unfold parsed_ok in Ha. destruct (nals a) as [|[k d] ns _] using rev_ind; [done|].
    rewrite reverse_snoc in Ha. destruct Ha as (Hk & Hr & Hw).
    apply Forall_app. split; [by rewrite <- (reverse_involutive ns); apply Forall_reverse|]. constructor; [|done].
    split_and!; [done| |by eapply reparses_end]. intros Hd. cbn in Hd. subst d.
    apply Hl. unfold last_empty. by rewrite last_snoc. }
  unfold annexb_parse, stream_of, no_nals. rewrite (parse_whole f [] (nals a)).
  - cbn [app]. pose proof (parse_zeros (trailing a) (map_nal f <$> nals a) 0 []) as Hz.
    by rewrite app_nil_r in Hz.
  - intros d Hd. apply list_elem_of_In, list_elem_of_fmap in Hd as (n & -> & Hn).
    eapply Forall_forall in Hall as (_ & Hne & Hr); [|done]. by apply Hf.
  - eapply Forall_impl; [done|]. by intros n (? & _).
  - by intros [].
Qed.

(** ** Escaped NALs *)
Lemma no_emulation_start l : no_emulation l -> no_start l.
Proof.
  intros Hl. unfold no_start. destruct (bytes_Index l annexBStartCode) as [i|] eqn:E; [|done].
  destruct (start_split _ _ E) as (rest & El & Hlen & _). exfalso.
  assert (H1 : (3 <= 1)%Z); [|lia]. apply (Hl i).
  - rewrite El, lookup_app_r; rewrite length_take, Nat.min_l by lia; [|done]. by rewrite Nat.sub_diag.
  - rewrite El, lookup_app_r; rewrite length_take, Nat.min_l by lia; [|lia].
    by replace (S i - i) with 1 by lia.
  - rewrite El, lookup_app_r; rewrite length_take, Nat.min_l by lia; [|lia].
    by replace (S (S i) - i) with 2 by lia.
Qed.

Lemma last_escape z d : list.last (escape z d) = list.last d.
Proof.
  revert z. induction d as [|b d IH]; intros z; [done|]. cbn [escape].
  assert (Hb : exists p, escape_byte z b = p ++ [b]).
  { unfold escape_byte. destruct (Nat.eqb z 2 && (b <=? 3)%Z); [by exists [3%Z]|by exists []]. }
  destruct Hb as [p ->]. rewrite <- app_assoc, list.last_app. cbn [app].
  rewrite !list.last_cons, IH. by destruct (list.last d).
Qed.

Lemma reparses_escape d : no_zero_end d -> d <> [] -> reparses (escape 0 d) 0.
Proof.
  intros Hz Hd ns k. cbn [replicate]. rewrite (parse_data _ 0).
  - rewrite alter_last_snoc. unfold add_bytes_nal. done.
  - by destruct ns.
  - intros He. apply (f_equal list.last) in He. rewrite last_escape in He. by apply last_None in He.
  - unfold no_zero_end in *. by rewrite last_escape.
  - apply no_emulation_start, (safe_no_emulation 0), safe_escape; lia.
Qed.

(** A whole NAL does not end with a zero. *)
Lemma reparses_no_zero_end d : d <> [] -> reparses d 0 -> no_zero_end d.
Proof.
  intros Hd Hr Hl. destruct d as [|b d _] using rev_ind; [done|].
  rewrite last_snoc in Hl. injection Hl as ->. specialize (Hr [] 2). cbn [replicate app] in Hr.
  rewrite app_nil_r, parse_from_app in Hr. destruct (parse_from _ d) as [a|]; [|done].
  cbn in Hr. done.
Qed.

(** ** Decryption, as a specification *)
Section Decryption.
Context (aes aes_inv : list Z -> list Z -> list Z) (Ha : aes_blocks aes).
#[local] Instance aes_cryptor : BlockCryptor CBCEncryptor := cbc_cryptor aes.
#[local] Instance aes_laws : BlockCryptorLaws CBCEncryptor := cbc_laws aes Ha.

(** From a point where [skip] clear bytes come first; [iv] is the last block
  received encrypted. *)
Fixpoint decrypt_tail (n : nat) (key iv : list Z) (skip : nat) (data : list Z) : list Z :=
  match n with
  | O => data
  | S n =>
      if length data <=? skip + avcBlockSize then data
      else
        let b := slice data skip (skip + avcBlockSize) in
        take skip data ++ xor_bytes (aes_inv key b) iv
          ++ decrypt_tail n key b avcPatternSkipSize (drop (skip + avcBlockSize) data)
  end.

Definition decrypt_nal (cfg : Config) (nal : list Z) : list Z :=
  if protected_type nal && long_nal nal then
    let d := unescape 0 nal in
    take avcClearLead d
      ++ decrypt_tail (length d) (Key cfg) (IV cfg) 0 (drop avcClearLead d)
  else nal.

(** An encryptor that has been reset, at the chaining value [iv]. *)
Definition chained (cfg : Config) (iv : list Z) (e : CBCEncryptor) : Prop :=
  SampleAes.block e = Some (Key cfg) /\ mode e = Some iv /\ length iv = 16.

Lemma enc_block cfg iv e b : chained cfg iv e -> length b = avcBlockSize ->
  enc e b = aes (Key cfg) (xor_bytes b iv) /\ chained cfg (enc e b) (after e b).
Proof.
  intros (Hb & Hm & Hi) Hl. unfold avcBlockSize in Hl.
  cbn [enc after aes_laws cbc_laws]. rewrite Hl, Hb, Hm. cbn [default from_option id].
  change (16 / 16) with 1. cbn [cbc_encrypt cbc_chain]. rewrite app_nil_r, take_ge by lia.
  split; [done|]. split_and!; [done..|]. apply Ha.
Qed.

Lemma length_tail n c iv cfg skip data : chained cfg iv c ->
  length (tail_fuel n c skip data) = length data.
Proof.
  revert c iv skip data. induction n as [|n IH]; intros c iv skip data Hc; [done|].
  cbn [tail_fuel]. destruct (Nat.leb_spec (length data) (skip + avcBlockSize)); [done|].
  cbn zeta. set (b := slice data skip (skip + avcBlockSize)).
  assert (Hl : length b = avcBlockSize) by (unfold b, avcBlockSize in *; rewrite length_slice; lia).
  destruct (enc_block _ _ _ b Hc Hl) as [He Hc'].
  rewrite !length_app, (IH _ _ _ _ Hc'), He, Ha. unfold avcBlockSize in *. llia.
Qed.

Lemma decrypt_tail_crypt cfg n c iv skip data : deciphers aes aes_inv cfg -> chained cfg iv c ->
  decrypt_tail n (Key cfg) iv skip (tail_fuel n c skip data) = data.
Proof.
  intros Hd. revert c iv skip data. induction n as [|n IH]; intros c iv skip data Hc; [done|].
  pose proof (length_tail (S n) c iv cfg skip data Hc) as Hlen.
  cbn [decrypt_tail]. rewrite Hlen. cbn [tail_fuel].
  destruct (Nat.leb_spec (length data) (skip + avcBlockSize)); [done|].
  cbn zeta. set (b := slice data skip (skip + avcBlockSize)).
  assert (Hl : length b = avcBlockSize) by (unfold b, avcBlockSize in *; rewrite length_slice; lia).
  destruct (enc_block _ _ _ b Hc Hl) as [He Hc'].
  set (rest := tail_fuel n (after c b) avcPatternSkipSize (drop (skip + avcBlockSize) data)).
  assert (Hle : length (enc c b) = avcBlockSize) by (rewrite He; apply Ha).
  assert (Hsk : length (take skip data) = skip) by (rewrite length_take; lia).
  assert (Hs : slice (take skip data ++ enc c b ++ rest) skip (skip + avcBlockSize) = enc c b).
  { unfold slice. rewrite drop_app_ge by lia. rewrite Hsk, Nat.sub_diag, drop_0, take_app_le by lia.
    apply take_ge. lia. }
  rewrite Hs. rewrite (take_app_le _ _ skip), (take_ge _ skip) by lia.
  rewrite (app_assoc _ (enc c b)), drop_app_ge by (rewrite length_app; lia).
  rewrite length_app, Hsk, Hle, Nat.sub_diag, drop_0. subst rest. rewrite (IH _ _ _ _ Hc').
  rewrite He, (dec_inverse _ _ _ Hd), xor_bytes_cancel.
  - subst b. unfold slice. replace (skip + avcBlockSize - skip) with avcBlockSize by lia.
    rewrite <- drop_drop, take_drop, take_drop. done.
  - destruct Hc as (_ & _ & Hi). unfold avcBlockSize in *. lia.
  - unfold xor_bytes. rewrite length_zip_with. destruct Hc as (_ & _ & Hi). unfold avcBlockSize in *. lia.
Qed.

Lemma crypt_nal_tail (c : CBCEncryptor) nal : long_nal nal = true ->
  crypt_nal c nal = take avcClearLead nal
    ++ tail_crypt (reset_state c) 0 (drop avcClearLead nal).
Proof.
  intros Hl. unfold crypt_nal. rewrite Hl. cbn zeta. f_equal. rewrite (tail_crypt_unfold (reset_state c) 0).
  unfold long_nal in Hl. apply Nat.leb_le in Hl. unfold avcProbeSize, avcClearLead, avcBlockSize in *.
  rewrite (proj2 (Nat.leb_gt (length (drop 32 nal)) (0 + 16))) by llia. cbn zeta. cbn [Nat.add take app].
  unfold slice. by rewrite take_0, !drop_drop.
Qed.

Lemma escape_longer z d : length d <= length (escape z d).
Proof.
  revert z. induction d as [|b d IH]; intros z; [done|]. cbn [escape]. rewrite length_app.
  specialize (IH (next_run z b)). unfold escape_byte. destruct (_ && _); cbn; lia.
Qed.

Lemma fresh_chained cfg e : deciphers aes aes_inv cfg -> NewCBCEncryptor cfg = Ok e ->
  chained cfg (IV cfg) (reset_state e).
Proof.
  intros [_ Hv] He. rewrite new_encryptor in He by done. injection He as <-.
  by apply valid_lengths in Hv as [_ ?].
Qed.

(** The clear lead keeps the type. *)
Lemma nal_out_kind (c : CBCEncryptor) d : protected_type d && long_nal d = true ->
  (length d = length (take avcClearLead d) + length (tail_crypt (reset_state c) 0 (drop avcClearLead d))) ->
  protected_type (nal_out (Some c) d) && long_nal (nal_out (Some c) d) = true
  /\ nal_out (Some c) d = escape 0 (crypt_nal c d).
Proof.
  intros Hd Hc. unfold nal_out. rewrite Hd. split; [|done].
  apply andb_true_iff in Hd as [Ht Hl]. rewrite crypt_nal_tail by done.
  assert (Hlen : avcProbeSize <= length d) by by apply Nat.leb_le.
  destruct d as [|b d]; [done|]. apply andb_true_iff. split.
  - cbn [take app escape]. unfold avcClearLead. cbn [take app escape].
    unfold escape_byte. cbn [Nat.eqb andb app]. exact Ht.
  - apply Nat.leb_le. etransitivity; [|apply escape_longer]. by rewrite length_app, <- Hc.
Qed.

(** The receiver recovers each NAL. *)
Lemma decrypt_nal_out cfg e d : deciphers aes aes_inv cfg -> NewCBCEncryptor cfg = Ok e ->
  decrypt_nal cfg (nal_out (Some e) d) = d.
Proof.
  intros Hd He. pose proof (fresh_chained _ _ Hd He) as Hc.
  destruct (protected_type d && long_nal d) eqn:Hk; last first.
  { unfold nal_out, decrypt_nal. by rewrite !Hk. }
  assert (Hlong : long_nal d = true) by by apply andb_true_iff in Hk as [_ ?].
  assert (Hct : length (tail_crypt (reset_state e) 0 (drop avcClearLead d))
    = length (drop avcClearLead d)) by by eapply length_tail.
  destruct (nal_out_kind e d Hk) as [Hk' Ho].
  { pose proof (f_equal (@length Z) (take_drop avcClearLead d)) as E. rewrite length_app in E.
    rewrite Hct. lia. }
  unfold decrypt_nal. rewrite Hk', Ho, unescape_escape by lia. cbn zeta.
  rewrite crypt_nal_tail by done.
  assert (Hcl : length (take avcClearLead d) = avcClearLead).
  { rewrite length_take. apply Nat.leb_le in Hlong. unfold avcProbeSize, avcClearLead in *. lia. }
  rewrite take_app_le, take_ge, drop_app_ge by lia. rewrite Hcl, Nat.sub_diag, drop_0.
  rewrite <- (take_drop avcClearLead d) at 5. f_equal.
  rewrite length_app, Hct. unfold tail_crypt.
  rewrite (tail_fuel_enough _ (length (take avcClearLead d) + length (drop avcClearLead d))) by lia.
  by apply decrypt_tail_crypt.
Qed.

(** The last byte of a slice is clear. *)
Lemma last_app_ne {A} (l1 l2 : list A) : l2 <> [] -> list.last (l1 ++ l2) = list.last l2.
Proof. intros Hne. destruct (exists_last Hne) as (l & x & ->). by rewrite app_assoc, !last_snoc. Qed.

Lemma last_tail n (c : CBCEncryptor) skip data : list.last (tail_fuel n c skip data) = list.last data.
Proof.
  revert c skip data. induction n as [|n IH]; intros c skip data; [done|]. cbn [tail_fuel].
  destruct (Nat.leb_spec (length data) (skip + avcBlockSize)); [done|]. cbn zeta.
  set (rest := drop (skip + avcBlockSize) data).
  assert (Hr : rest <> []) by (intros E; apply (f_equal length) in E; subst rest; cbn in E; llia).
  assert (Hl : list.last rest = list.last data).
  { rewrite <- (take_drop (skip + avcBlockSize) data). by rewrite last_app_ne. }
  rewrite app_assoc, last_app_ne, IH; [done|]. intros E.
  specialize (IH (after c (slice data skip (skip + avcBlockSize))) avcPatternSkipSize rest).
  rewrite E in IH. symmetry in IH. by apply last_None in IH.
Qed.

Lemma nal_out_reparses e d : d <> [] -> reparses d 0 ->
  nal_out (Some e) d <> [] /\ reparses (nal_out (Some e) d) 0.
Proof.
  intros Hd Hr. unfold nal_out. destruct (protected_type d && long_nal d) eqn:Hk; [|done].
  apply andb_true_iff in Hk as [_ Hl].
  assert (Hlast : list.last (crypt_nal e d) = list.last d).
  { rewrite crypt_nal_tail by done. rewrite <- (take_drop avcClearLead d) at 3.
    assert (Hdr : drop avcClearLead d <> []).
    { intros E. apply (f_equal length) in E. cbn in E. apply Nat.leb_le in Hl.
      unfold avcProbeSize, avcClearLead in *. llia. }
    rewrite !last_app_ne; [apply last_tail|done|].
    intros E. pose proof (last_tail (length (drop avcClearLead d)) (reset_state e) 0 (drop avcClearLead d)) as El.
    unfold tail_crypt in E. rewrite E in El. symmetry in El. by apply last_None in El. }
  assert (Hne : crypt_nal e d <> []).
  { intros E. rewrite E in Hlast. symmetry in Hlast. by apply last_None in Hlast. }
  split.
  - intros E. apply (f_equal list.last) in E. rewrite last_escape in E. by apply last_None in E.
  - apply reparses_escape; [|done]. unfold no_zero_end. rewrite Hlast.
    by apply reparses_no_zero_end.
Qed.

Context {W : Type} `{PESHandler W} `{PMTSignal W}.

(** C16: with the configured AES-CBC encryptor the bytes sent on are again an
  Annex-B stream, with the start codes and trailing zeros of the stream
  received, and its NALs decrypt, with the key and IV of the configuration, to
  exactly the NALs received: the slices are found, unescaped and decrypted by
  their type and length alone. *)
Theorem avc_transform_decrypts cfg e calls :
  deciphers aes aes_inv cfg -> NewCBCEncryptor cfg = Ok e -> pes_calls calls ->
  emits (W := W) (transform calls) (newTransformer (Some e))
    (fun _ _ evs => exists a b, annexb_parse (payloads calls) = Ok a
       /\ annexb_parse (payloads evs) = Ok b
       /\ nals a = map_nal (decrypt_nal cfg) <$> nals b /\ trailing a = trailing b)
    (fun e _ _ => annexb_parse (payloads calls) = Fail (Err e) \/ flush_error calls e).
Proof.
  intros Hd He Hc. eapply emits_weaken; [apply avc_transform_emits; [|done]| |done].
  - intros c [= <-]. rewrite new_encryptor in He by apply Hd. injection He as <-. by eexists.
  - cbn beta. intros _ _ evs (ins & raws & a & _ & Hp & _ & Hl & _ & _ & _ & _ & Hev).
    exists a, {| nals := map_nal (nal_out (Some e)) <$> nals a; trailing := trailing a |}.
    split_and!; [done| | |done].
    + rewrite Hev. apply parse_stream; [by eapply annexb_parse_ok|done|].
      intros. by apply nal_out_reparses.
    + cbn [nals]. rewrite <- list_fmap_compose. rewrite <- (list_fmap_id (nals a)) at 1.
      apply list_fmap_ext. intros i [k d] _. cbn. unfold map_nal. cbn [fst snd].
      by rewrite (decrypt_nal_out cfg e d Hd He).
Qed.
End Decryption.

(** ** The concrete stream *)
Module ReceiverExample.
Import Toy Recorder AvcExample.
(** The model, evaluated: the receiver finds the two NALs. *)
Example receiver_sees :
  match transform (W := list event) stream (newTransformer (Some encryptor), []) with
  | (Ok _, (_, evs)) =>
      match annexb_parse (payloads evs) with
      | Ok b => (snd <$> (map_nal (decrypt_nal aes config) <$> nals b)) = [sps; coded_slice]
          /\ trailing b = 3 /\ (snd <$> nals b) <> [sps; coded_slice]
      | Fail _ => False
      end
  | _ => False
  end.
Proof. vm_compute. done. Qed.
End ReceiverExample.

Import AvcExample Recorder.

Lemma avc_transform_decrypts_witness :
  emits (W := list event) (transform AvcExample.stream) (newTransformer (Some Toy.encryptor))
    (fun _ _ evs => exists a b, annexb_parse (payloads AvcExample.stream) = Ok a
       /\ annexb_parse (payloads evs) = Ok b
       /\ nals a = map_nal (decrypt_nal Toy.aes Toy.config) <$> nals b /\ trailing a = trailing b)
    (fun e _ _ => annexb_parse (payloads AvcExample.stream) = Fail (Err e)
       \/ flush_error AvcExample.stream e).
Proof.
  apply (avc_transform_decrypts Toy.aes Toy.aes Toy.aes_is_blocks Toy.config Toy.encryptor).
  - apply Toy.config_deciphers.
  - reflexivity.
  - apply AvcExample.stream_calls.
Defined.
