(* ===== verification/PesCollector.v ===== *)
(** * ts/packets/pes.go: the PES collector

    [PESCollector] reassembles the PES packets of one PID from the payloads of
    its transport packets and passes them to a [PESHandler].  The reference cuts
    the bytes of a unit (the payloads from one start indicator to the next) into
    header and payload by looking at all the bytes received so far; the code
    buffers only the header. *)

From S2P Require Import Prelude Pmt PesHandler PesQueue.

(** ** State *)
Record PESCollector := MkCollector {
  active : bool;
  header : list Z;
  headerLength : nat;
  payloadRemaining : Z;
}.

Definition new_collector : PESCollector :=
  {| active := false; header := []; headerLength := 0; payloadRemaining := 0 |}.

Definition Active (m : PESCollector) : bool := active m.

Definition header_complete (m : PESCollector) : bool :=
  negb ((headerLength m =? 0) || (length (header m) <? headerLength m)).

Definition set_remaining (n : Z) (m : PESCollector) : PESCollector :=
  {| active := active m; header := header m; headerLength := headerLength m;
     payloadRemaining := n |}.
Definition set_header (h : list Z) (m : PESCollector) : PESCollector :=
  {| active := active m; header := h; headerLength := headerLength m;
     payloadRemaining := payloadRemaining m |}.
Definition set_headerLength (n : nat) (m : PESCollector) : PESCollector :=
  {| active := active m; header := header m; headerLength := n;
     payloadRemaining := payloadRemaining m |}.

(** ** Methods *)
Definition start : M PESCollector unit :=
  modify (fun _ => {| active := true; header := []; headerLength := 0; payloadRemaining := -1 |}).

Definition idle : PESCollector :=
  {| active := false; header := []; headerLength := 0; payloadRemaining := -1 |}.

Definition bad_start_code (h : list Z) : bool :=
  (3 <=? length h) && negb ((byte_at h 0 =? 0) && (byte_at h 1 =? 0) && (byte_at h 2 =? 1))%Z.

(** [PES_packet_length] and [9 + PES_header_data_length] of a header. *)
Definition packet_length (h : list Z) : Z := Z.lor (Z.shiftl (byte_at h 4) 8) (byte_at h 5).
Definition header_length (h : list Z) : nat := 9 + Z.to_nat (byte_at h 8).

Definition consumeHeader (payload : list Z) : M PESCollector nat :=
  m ← get;
  let needed := if 0 <? headerLength m then headerLength m else 9 in
  let n := min (length payload) (needed - length (header m)) in
  modify (fun m => set_header (header m ++ take n payload) m);;
  m ← get;
  fail_if (bad_start_code (header m)) "PES start code prefix missing";;
  if length (header m) <? 9 then mret n
  else if headerLength m =? 0 then
    modify (set_headerLength (header_length (header m)));;
    if (packet_length (header m) =? 0)%Z then
      modify (set_remaining (-1));; mret n
    else
      let remaining :=
        (packet_length (header m) + 6 - Z.of_nat (header_length (header m)))%Z in
      modify (set_remaining remaining);;
      fail_if (remaining <? 0)%Z "PES packet length shorter than header";;
      mret n
  else mret n.

Section Methods.
Context {W : Type} `{PESHandler W}.

Definition finish : M (PESCollector * W) unit :=
  m ← on_fst get;
  fail_if (negb (header_complete m)) "new PES starts before previous PES header is complete";;
  fail_if (0 <? payloadRemaining m)%Z "new PES starts with bytes missing from previous PES";;
  on_fst (modify (fun _ => idle));;
  on_snd PESEnd.

(** A round of the loop of [Consume]. *)
Definition consume_step (payload : list Z) : M (PESCollector * W) (list Z + unit) :=
  if decide (payload = []) then mret (inr tt)
  else
    m ← on_fst get;
    fail_if (negb (active m)) "PES contains bytes after its declared length";;
    if negb (header_complete m) then
      n ← on_fst (consumeHeader payload);
      let payload := drop n payload in
      m ← on_fst get;
      if negb (header_complete m) then
        if decide (payload = []) then mret (inr tt) else mret (inl payload)
      else
        on_snd (PESHeader (header m));;
        when (payloadRemaining m =? 0)%Z finish;;
        mret (inl payload)
    else
      let n := if (0 <=? payloadRemaining m)%Z && (payloadRemaining m <? Z.of_nat (length payload))%Z
               then Z.to_nat (payloadRemaining m) else length payload in
      fail_if (n =? 0) "PES contains bytes after its declared length";;
      on_snd (PESPayload (take n payload));;
      when (0 <=? payloadRemaining m)%Z (
        on_fst (modify (set_remaining (payloadRemaining m - Z.of_nat n)));;
        when (payloadRemaining m - Z.of_nat n =? 0)%Z finish);;
      mret (inl (drop n payload)).

(** The fuel: every round that continues takes at least one byte. *)
Definition Consume (pusi : bool) (payload : list Z) : M (PESCollector * W) unit :=
  when pusi (
    m ← on_fst get;
    when (active m) finish;;
    on_fst start);;
  m ← on_fst get;
  if active m then iter (length payload + 1) consume_step payload else mret tt.

Definition Flush : M (PESCollector * W) unit :=
  m ← on_fst get;
  if active m then
    fail_if (negb (header_complete m)) "truncated PES header";;
    fail_if (0 <? payloadRemaining m)%Z "truncated PES payload";;
    finish
  else mret tt.
End Methods.

(** ** The reference *)

(** What the bytes [u] of a unit amount to. *)
Inductive status :=
  | InHeader                       (** the header is not complete *)
  | InPayload (hl : nat)           (** [hl] bytes of header, and more may come *)
  | Complete (hl : nat)            (** the declared length has been reached *)
  | Malformed (msg : string).

Definition unit_status (u : list Z) : status :=
  if bad_start_code u then Malformed "PES start code prefix missing"
  else if length u <? 9 then InHeader
  else
    let hl := header_length u in
    let size := packet_length u in
    if (negb (size =? 0) && (size + 6 <? Z.of_nat hl))%Z then
      Malformed "PES packet length shorter than header"
    else if length u <? hl then InHeader
    else if (size =? 0)%Z then InPayload hl
    else match (Z.of_nat (length u) ?= size + 6)%Z with
         | Lt => InPayload hl
         | Eq => Complete hl
         | Gt => Malformed "PES contains bytes after its declared length"
         end.

(** What is sent when the unit grows from [u] by [d]. *)
Definition payload_events (d : list Z) : list event :=
  if decide (d = []) then [] else [EPayload d].

Definition growth_events (u d : list Z) : list event :=
  match unit_status (u ++ d) with
  | InPayload hl =>
      (if length u <? hl then [EHeader (take hl (u ++ d))] else [])
        ++ payload_events (drop (hl - length u) d)
  | Complete hl =>
      (if length u <? hl then [EHeader (take hl (u ++ d))] else [])
        ++ payload_events (drop (hl - length u) d) ++ [EEnd]
  | _ => []
  end.

(** The unit being received: [None] outside a unit, or once it is complete. *)
Definition grow (u d : list Z) : outcome (option (list Z)) :=
  match unit_status (u ++ d) with
  | Malformed msg => Fail (Err (Errorf msg))
  | Complete _ => Ok None
  | _ => Ok (Some (u ++ d))
  end.

(** The end of a unit: a start indicator follows, or the stream ends. *)
Definition close_unit (short missing : string) (u : list Z) : outcome (list event) :=
  match unit_status u with
  | InPayload _ =>
      if (packet_length u =? 0)%Z then Ok [EEnd] else Fail (Err (Errorf missing))
  | _ => Fail (Err (Errorf short))
  end.

(** ** Lemmas on the reference *)
Lemma header_fields_app u d : 9 <= length u ->
  header_length (u ++ d) = header_length u /\ packet_length (u ++ d) = packet_length u.
Proof.
  intros. unfold header_length, packet_length. by rewrite !byte_at_app by lia.
Qed.

Lemma bad_start_app u d : 3 <= length u -> bad_start_code (u ++ d) = bad_start_code u.
Proof.
  intros. unfold bad_start_code. rewrite !byte_at_app by lia.
  by rewrite !(proj2 (Nat.leb_le _ _)) by llia.
Qed.

Lemma bad_start_long u : bad_start_code u = true -> 3 <= length u.
Proof. unfold bad_start_code. intros [H%Nat.leb_le _]%andb_true_iff. done. Qed.

(** A malformed unit stays malformed, for the same reason. *)
Lemma malformed_app u d msg : unit_status u = Malformed msg -> unit_status (u ++ d) = Malformed msg.
Proof.
  unfold unit_status. destruct (bad_start_code u) eqn:Hb.
  { rewrite bad_start_app, Hb by by apply bad_start_long. done. }
  destruct (Nat.ltb_spec (length u) 9); [done|].
  rewrite bad_start_app, Hb by lia. destruct (header_fields_app u d) as [-> ->]; [lia|].
  rewrite (proj2 (Nat.ltb_ge (length (u ++ d)) _)) by llia. cbn zeta.
  destruct (negb _ && _); [done|].
  destruct (Nat.ltb_spec (length u) (header_length u)); [done|].
  rewrite (proj2 (Nat.ltb_ge (length (u ++ d)) _)) by llia.
  destruct (packet_length u =? 0)%Z; [done|].
  destruct (Z.compare_spec (Z.of_nat (length u)) (packet_length u + 6)); [done..|].
  rewrite (proj2 (Z.compare_gt_iff _ _)); [done|llia].
Qed.

Lemma complete_more u d hl : unit_status u = Complete hl -> d <> [] ->
  unit_status (u ++ d) = Malformed "PES contains bytes after its declared length".
Proof.
  unfold unit_status. intros Hc Hd. destruct (bad_start_code u) eqn:Hb; [done|].
  destruct (Nat.ltb_spec (length u) 9); [done|].
  rewrite bad_start_app, Hb by lia. destruct (header_fields_app u d) as [-> ->]; [lia|].
  rewrite (proj2 (Nat.ltb_ge (length (u ++ d)) _)) by llia. cbn zeta in *.
  destruct (negb _ && _); [done|].
  destruct (Nat.ltb_spec (length u) (header_length u)); [done|].
  rewrite (proj2 (Nat.ltb_ge (length (u ++ d)) _)) by llia.
  destruct (packet_length u =? 0)%Z; [done|].
  destruct (Z.compare_spec (Z.of_nat (length u)) (packet_length u + 6)); try done.
  rewrite (proj2 (Z.compare_gt_iff _ _)); [done|]. destruct d; [done|]. cbn in *. llia.
Qed.

(** What the status says of the lengths. *)
Definition remaining_of (u : list Z) : Z :=
  if (packet_length u =? 0)%Z then -1
  else (packet_length u + 6 - Z.of_nat (max (header_length u) (length u)))%Z.

Lemma status_header u : unit_status u = InHeader ->
  bad_start_code u = false /\ length u < header_length u
  /\ (9 <= length u -> (packet_length u <> 0 -> 0 <= remaining_of u)%Z).
Proof.
  unfold unit_status, remaining_of. destruct (bad_start_code u); [done|].
  destruct (Nat.ltb_spec (length u) 9).
  { intros _. split_and!; [done| |lia]. unfold header_length. lia. }
  cbn zeta. destruct (Z.eqb_spec (packet_length u) 0); cbn [negb andb].
  - destruct (Nat.ltb_spec (length u) (header_length u)); done.
  - destruct (Z.ltb_spec (packet_length u + 6) (Z.of_nat (header_length u))); [done|].
    destruct (Nat.ltb_spec (length u) (header_length u)).
    + intros _. split_and!; [done|done|]. rewrite Nat.max_l by lia. lia.
    + by destruct (_ ?= _)%Z.
Qed.

Lemma status_payload u hl : unit_status u = InPayload hl ->
  9 <= length u /\ hl = header_length u /\ hl <= length u
  /\ ((packet_length u = 0 /\ remaining_of u = -1) \/ (packet_length u <> 0 /\ 0 < remaining_of u))%Z.
Proof.
  unfold unit_status, remaining_of. destruct (bad_start_code u); [done|].
  destruct (Nat.ltb_spec (length u) 9); [done|]. cbn zeta.
  destruct (negb _ && _); [done|].
  destruct (Nat.ltb_spec (length u) (header_length u)); [done|].
  destruct (Z.eqb_spec (packet_length u) 0).
  - intros [= <-]. split_and!; [done..|]. by left.
  - destruct (Z.compare_spec (Z.of_nat (length u)) (packet_length u + 6)); try done.
    intros [= <-]. split_and!; [done..|]. right. rewrite Nat.max_r by lia. lia.
Qed.

Lemma status_complete u hl : unit_status u = Complete hl ->
  9 <= length u /\ hl = header_length u /\ hl <= length u
  /\ packet_length u <> 0%Z /\ remaining_of u = 0%Z.
Proof.
  unfold unit_status, remaining_of. destruct (bad_start_code u); [done|].
  destruct (Nat.ltb_spec (length u) 9); [done|]. cbn zeta.
  destruct (negb _ && _); [done|].
  destruct (Nat.ltb_spec (length u) (header_length u)); [done|].
  destruct (Z.eqb_spec (packet_length u) 0); [done|].
  destruct (Z.compare_spec (Z.of_nat (length u)) (packet_length u + 6)); try done.
  intros [= <-]. split_and!; [done..|]. rewrite Nat.max_r by lia. lia.
Qed.

(** ** The state and the bytes received *)
Definition grown (m : PESCollector) (u : list Z) : Prop :=
  active m = true /\ header m = take (header_length u) u
  /\ headerLength m = (if length u <? 9 then 0 else header_length u)
  /\ payloadRemaining m = (if length u <? 9 then (-1)%Z else remaining_of u)
  /\ (unit_status u = InHeader \/ exists hl, unit_status u = InPayload hl).

(** The unit being received, or none. *)
Definition collects (m : PESCollector) (st : option (list Z)) : Prop :=
  match st with
  | Some u => grown m u
  | None => active m = false
  end.

Lemma grown_header m u : grown m u -> unit_status u = InHeader ->
  header m = u /\ header_complete m = false.
Proof.
  intros (_ & Hh & Hl & _) Hs. destruct (status_header u Hs) as (_ & Hlt & _).
  rewrite take_ge in Hh by lia. split; [done|]. unfold header_complete.
  rewrite Hl, Hh. destruct (Nat.ltb_spec (length u) 9); [done|].
  rewrite (proj2 (Nat.ltb_lt _ _)) by done. by rewrite orb_true_r.
Qed.

Lemma grown_payload m u hl : grown m u -> unit_status u = InPayload hl ->
  header_complete m = true /\ payloadRemaining m = remaining_of u.
Proof.
  intros (_ & Hh & Hl & Hr & _) Hs. destruct (status_payload u hl Hs) as (H9 & -> & Hle & _).
  rewrite (proj2 (Nat.ltb_ge _ _)) in Hl, Hr by lia. split; [|done].
  unfold header_complete. rewrite Hl, Hh, length_take, Nat.min_l by lia.
  rewrite (proj2 (Nat.ltb_ge _ _)) by lia. rewrite orb_false_r.
  by rewrite (proj2 (Nat.eqb_neq _ _)) by (unfold header_length; lia).
Qed.

Lemma grown_start : grown {| active := true; header := []; headerLength := 0; payloadRemaining := -1 |} [].
Proof. split_and!; try done. by left. Qed.

Section Spec.
Context {W : Type} `{PESHandler W} `{PMTSignal W}.

(** Ending a unit. *)
Lemma finish_spec m u : grown m u ->
  emits (W := W) finish m
    (fun _ m' e => m' = idle /\ close_unit "new PES starts before previous PES header is complete"
       "new PES starts with bytes missing from previous PES" u = Ok e)
    (fun e _ _ => close_unit "new PES starts before previous PES header is complete"
       "new PES starts with bytes missing from previous PES" u = Fail (Err e)).
Proof.
  intros Hg. unfold finish, close_unit. apply emits_get_bind.
  assert (Hst : unit_status u = InHeader \/ exists hl, unit_status u = InPayload hl) by apply Hg.
  destruct Hst as [Hst|[hl Hst]]; rewrite Hst.
  - destruct (grown_header m u Hg Hst) as [_ ->]. by apply emits_check_bind.
  - destruct (grown_payload m u hl Hg Hst) as [-> ->].
    destruct (status_payload u hl Hst) as (_ & _ & _ & Hrem).
    apply emits_check_bind; [done|intros _]. apply emits_check_bind.
    + intros Hlt%Z.ltb_lt. by rewrite (proj2 (Z.eqb_neq _ _)) by lia.
    + intros Hge%Z.ltb_ge. apply emits_modify_bind. apply (emits_event EEnd).
      rewrite (proj2 (Z.eqb_eq _ _)) by lia. done.
Qed.

(** After the declared length. *)
Lemma finish_complete m u hl : active m = true -> header_complete m = true ->
  payloadRemaining m = 0%Z -> unit_status u = Complete hl ->
  emits (W := W) finish m (fun _ m' e => m' = idle /\ e = [EEnd]) (fun _ _ _ => False).
Proof.
  intros Ha Hc Hr Hst. unfold finish. apply emits_get_bind. rewrite Hc, Hr.
  apply emits_check_bind; [done|intros _]. apply emits_check_bind; [done|intros _].
  apply emits_modify_bind. by apply (emits_event EEnd).
Qed.

(** *** The header *)

(** The bytes of [p] that belong to the header. *)
Definition header_part (u p : list Z) : list Z :=
  take ((if length u <? 9 then 9 else header_length u) - length u) p.

(** The collector after [consumeHeader]. *)
Definition header_taken (u : list Z) : PESCollector :=
  {| active := true; header := u; headerLength := if length u <? 9 then 0 else header_length u;
     payloadRemaining := if length u <? 9 then (-1)%Z else remaining_of u |}.

Definition header_verdict (u p : list Z) (o : outcome nat * PESCollector) : Prop :=
  let u' := u ++ header_part u p in
  match unit_status u' with
  | Malformed msg => exists m', o = (Fail (Err (Errorf msg)), m')
  | _ => o = (Ok (length (header_part u p)), header_taken u')
  end.

Lemma length_header_part u p : unit_status u = InHeader -> 
  length (u ++ header_part u p) <= if length u <? 9 then 9 else header_length u.
Proof.
  intros (_ & Hlt & _)%status_header. unfold header_part. destruct (Nat.ltb_spec (length u) 9); llia.
Qed.

(** [consumeHeader] takes these bytes and looks at the header. *)
Lemma consumeHeader_takes m u p : grown m u -> unit_status u = InHeader ->
  let m1 := set_header (u ++ header_part u p) m in
  let n := length (header_part u p) in
  consumeHeader p m =
  (fail_if (bad_start_code (header m1)) "PES start code prefix missing";;
   if length (header m1) <? 9 then mret n
   else if headerLength m1 =? 0 then
     modify (set_headerLength (header_length (header m1)));;
     if (packet_length (header m1) =? 0)%Z then modify (set_remaining (-1));; mret n
     else
       let remaining := (packet_length (header m1) + 6 - Z.of_nat (header_length (header m1)))%Z in
       modify (set_remaining remaining);;
       fail_if (remaining <? 0)%Z "PES packet length shorter than header";; mret n
   else mret n) m1.
Proof.
  intros Hg Hst. destruct (grown_header m u Hg Hst) as [Hh _]. destruct Hg as (_ & _ & Hl & _).
  cbn zeta. unfold consumeHeader. rewrite (bind_ok get _ m m m) by done. rewrite Hl, Hh.
  assert (Hneed : (if 0 <? (if length u <? 9 then 0 else header_length u)
      then (if length u <? 9 then 0 else header_length u) else 9)
    = if length u <? 9 then 9 else header_length u) by by destruct (length u <? 9).
  rewrite Hneed. set (room := _ - length u).
  assert (Hpart : take (min (length p) room) p = header_part u p).
  { unfold header_part. fold room. destruct (Nat.le_ge_cases (length p) room).
    - by rewrite Nat.min_l, !take_ge by lia.
    - by rewrite Nat.min_r by lia. }
  assert (Hlen : min (length p) room = length (header_part u p)) by (rewrite <- Hpart; llia).
  rewrite Hlen. rewrite Hlen in Hpart. rewrite Hpart.
  rewrite (bind_ok (modify _) _ m tt (set_header (u ++ header_part u p) m))
    by (unfold modify; by rewrite Hh).
  rewrite (bind_ok get _ _ (set_header (u ++ header_part u p) m) (set_header (u ++ header_part u p) m))
    by done.
  done.
Qed.

Lemma consume_lead m u p : grown m u -> unit_status u = InHeader -> length u < 9 ->
  header_verdict u p (consumeHeader p m).
Proof.
  intros Hg Hst H9. rewrite (consumeHeader_takes m u p Hg Hst). cbn zeta.
  pose proof (length_header_part u p Hst) as Hle. unfold header_verdict.
  destruct Hg as (Ha & _ & Hl & Hr & _).
  rewrite (proj2 (Nat.ltb_lt _ _)) in Hl, Hr, Hle by done. set (u' := u ++ header_part u p) in *.
  unfold header_taken, set_header. rewrite Ha, Hl, Hr. cbn [header].
  unfold unit_status. destruct (bad_start_code u') eqn:Hb; [by eexists|].
  rewrite (bind_ok (fail_if _ _) _ _ tt _) by done. cbn [header headerLength].
  destruct (Nat.ltb_spec (length u') 9) as [Hlt|Hge]; [done|].
  cbn [Nat.eqb]. rewrite bind_unfold. cbn [modify set_headerLength header headerLength Nat.eqb active payloadRemaining].
  unfold remaining_of. destruct (Z.eqb_spec (packet_length u') 0) as [Hz|Hz]; cbn [negb andb].
  - destruct (length u' <? header_length u'); done.
  - rewrite bind_unfold. cbn [modify set_remaining header headerLength active payloadRemaining].
    rewrite Nat.max_l by (unfold header_length; lia).
    destruct (Z.ltb_spec (packet_length u' + 6) (Z.of_nat (header_length u'))).
    + rewrite (proj2 (Z.ltb_lt _ _)) by lia. by eexists.
    + rewrite (proj2 (Z.ltb_ge _ _)) by lia.
      destruct (Nat.ltb_spec (length u') (header_length u')); [done|].
      destruct (Z.compare_spec (Z.of_nat (length u')) (packet_length u' + 6)); [done..|].
      unfold header_length in *. lia.
Qed.

Lemma consume_rest m u p : grown m u -> unit_status u = InHeader -> 9 <= length u ->
  header_verdict u p (consumeHeader p m).
Proof.
  intros Hg Hst H9. rewrite (consumeHeader_takes m u p Hg Hst). cbn zeta.
  pose proof (length_header_part u p Hst) as Hle. unfold header_verdict.
  destruct (status_header u Hst) as (Hb & Hlt & Hrem).
  destruct Hg as (Ha & _ & Hl & Hr & _).
  rewrite (proj2 (Nat.ltb_ge _ _)) in Hl, Hr, Hle by done. set (u' := u ++ header_part u p) in *.
  destruct (header_fields_app u (header_part u p) H9) as [Ehl Epl].
  fold u' in Ehl, Epl. assert (Hlen : 9 <= length u') by (subst u'; llia).
  unfold header_taken, set_header. rewrite Ha, Hl, Hr. cbn [header headerLength].
  assert (Hb' : bad_start_code u' = false) by (unfold u'; by rewrite bad_start_app by lia).
  rewrite Hb', (bind_ok (fail_if _ _) _ _ tt _) by done.
  rewrite (proj2 (Nat.ltb_ge _ _)) by done.
  rewrite (proj2 (Nat.eqb_neq _ _)) by (unfold header_length; lia).
  assert (Erem : remaining_of u' = remaining_of u).
  { unfold remaining_of. rewrite Ehl, Epl. by rewrite !Nat.max_l by lia. }
  rewrite Erem, Ehl. unfold unit_status. rewrite Hb'.
  rewrite (proj2 (Nat.ltb_ge (length u') 9)) by done. cbn zeta. rewrite Ehl, Epl.
  unfold remaining_of in Hrem. rewrite Nat.max_l in Hrem by lia.
  destruct (Z.eqb_spec (packet_length u) 0); cbn [negb andb].
  - by destruct (length u' <? header_length u).
  - rewrite (proj2 (Z.ltb_ge (packet_length u + 6) _)) by lia.
    destruct (length u' <? header_length u); [done|].
    destruct (Z.compare_spec (Z.of_nat (length u')) (packet_length u + 6)); [done..|lia].
Qed.

Lemma consumeHeader_spec m u p : grown m u -> unit_status u = InHeader ->
  header_verdict u p (consumeHeader p m).
Proof.
  intros Hg Hst. destruct (Nat.lt_ge_cases (length u) 9); [by apply consume_lead|by apply consume_rest].
Qed.

(** *** The rounds of the loop *)
Lemma header_taken_complete u : 9 <= length u -> length u = header_length u ->
  header_complete (header_taken u) = true.
Proof.
  intros H9 Hl. unfold header_complete, header_taken. cbn [headerLength header].
  rewrite (proj2 (Nat.ltb_ge (length u) 9)) by done.
  rewrite (proj2 (Nat.eqb_neq _ _)) by lia. by rewrite (proj2 (Nat.ltb_ge _ _)) by lia.
Qed.

Lemma header_taken_grown u : unit_status u = InHeader -> grown (header_taken u) u.
Proof.
  intros Hst. destruct (status_header u Hst) as (_ & Hlt & _). unfold header_taken.
  split_and!; try done; [cbn [header]; by rewrite take_ge by lia|by left].
Qed.

(** The header has exactly been completed. *)
Lemma header_done u p hl : unit_status u = InHeader ->
  unit_status (u ++ header_part u p) = InPayload hl \/ unit_status (u ++ header_part u p) = Complete hl ->
  let u' := u ++ header_part u p in
  9 <= length u' /\ hl = header_length u' /\ length u' = hl /\ length u < hl
  /\ drop (hl - length u) (header_part u p) = [].
Proof.
  intros Hst Hst'. cbn zeta. pose proof (length_header_part u p Hst) as Hle.
  assert (Hf : 9 <= length (u ++ header_part u p) /\ hl = header_length (u ++ header_part u p)
    /\ hl <= length (u ++ header_part u p)).
  { destruct Hst' as [(? & ? & ? & _)%status_payload|(? & ? & ? & _)%status_complete]; done. }
  destruct Hf as (H9 & -> & Hhl). destruct (status_header u Hst) as (_ & Hlt & _).
  assert (Heq : length (u ++ header_part u p) = header_length (u ++ header_part u p)
    /\ length u < header_length (u ++ header_part u p)).
  { destruct (Nat.ltb_spec (length u) 9).
    - unfold header_length in *. llia.
    - destruct (header_fields_app u (header_part u p)) as [E _]; [lia|]. rewrite E in *. llia. }
  destruct Heq as [Heq Hlt']. split_and!; try done. apply drop_ge. llia.
Qed.

Definition takes (u p : list Z) (r : list Z + unit) (m' : PESCollector) (e : list event) : Prop :=
  exists d p' st, p = d ++ p' /\ d <> [] /\ e = growth_events u d /\ grow u d = Ok st
    /\ collects m' st
    /\ (r = inl p' \/ (r = inr tt /\ p' = []))
    /\ (p' = [] \/ st = None \/ unit_status (u ++ d) = InHeader
        \/ (unit_status (u ++ d) = InPayload (length (u ++ d)) /\ length u <= length (u ++ d))).

Lemma header_step m u p : grown m u -> unit_status u = InHeader -> p <> [] ->
  emits (W := W) (consume_step p) m (fun r m' e => takes u p r m' e)
    (fun e _ _ => exists d p', p = d ++ p' /\ grow u d = Fail (Err e)).
Proof.
  intros Hg Hst Hp. unfold consume_step. rewrite decide_False by done. apply emits_get_bind.
  destruct (grown_header m u Hg Hst) as [_ Hhc]. rewrite Hhc.
  apply emits_check_bind; [by destruct Hg as [-> _]|intros _]. cbn [negb].
  pose proof (consumeHeader_spec m u p Hg Hst) as Hv. unfold header_verdict in Hv.
  set (d := header_part u p) in *. set (u' := u ++ d) in *.
  assert (Hd : p = d ++ drop (length d) p).
  { subst d. unfold header_part. set (k := _ - length u).
    rewrite length_take. destruct (Nat.le_ge_cases k (length p)).
    - by rewrite Nat.min_l, take_drop by lia.
    - by rewrite Nat.min_r, drop_all, app_nil_r, take_ge by lia. }
  assert (Hdne : d <> []).
  { subst d. unfold header_part. destruct (status_header u Hst) as (_ & Hlt & _).
    destruct p; [done|]. destruct (Nat.ltb_spec (length u) 9).
    - replace (9 - length u) with (S (8 - length u)) by lia. done.
    - replace (header_length u - length u) with (S (header_length u - length u - 1)) by lia. done. }
  assert (Hgrow : grow u d = match unit_status u' with
    | Malformed msg => Fail (Err (Errorf msg)) | Complete _ => Ok None | _ => Ok (Some u') end) by done.
  destruct (unit_status u') as [|hl|hl|msg] eqn:Hst'.
  - eapply emits_fst_bind; [exact Hv|]. apply emits_get_bind.
    pose proof (header_taken_grown u' Hst') as Hg'.
    destruct (grown_header _ _ Hg' Hst') as [_ ->]. cbn [negb].
    assert (Ht : forall r, (r = inl (drop (length d) p) \/ (r = inr tt /\ drop (length d) p = [])) ->
      takes u p r (header_taken u') []).
    { intros r Hr. exists d, (drop (length d) p), (Some u'). split_and!; try done.
      - unfold growth_events. fold u'. by rewrite Hst'.
      - right; right; by left. }
    case_decide; apply emits_ret, Ht; auto.
  - destruct (header_done u p hl Hst (or_introl Hst')) as (H9 & Hhl & Hlen & Hlt & Hdrop).
    fold d in Hhl, Hlen, Hdrop, H9. fold u' in Hhl, Hlen, H9.
    eapply emits_fst_bind; [exact Hv|]. apply emits_get_bind.
    rewrite (header_taken_complete u') by congruence. cbn [negb].
    eapply (emits_bind _ _ _ (fun _ t1 e => t1 = header_taken u' /\ e = [EHeader u']));
      [by apply (emits_event (EHeader u'))|]. intros _ ? ? (-> & ->).
    apply emits_when_bind.
    { unfold header_taken. cbn [payloadRemaining]. rewrite (proj2 (Nat.ltb_ge (length u') 9)) by done.
      intros Hr%Z.eqb_eq. destruct (status_payload u' hl Hst') as (_ & _ & _ & Hrem). lia. }
    intros _. apply emits_ret. exists d, (drop (length d) p), (Some u'). split_and!; try done.
    + unfold growth_events. fold u'. rewrite Hst', (proj2 (Nat.ltb_lt _ _)) by done.
      by rewrite take_ge, Hdrop by lia.
    + cbn [collects]. unfold header_taken. split_and!; try done; [|by right; exists hl].
      cbn [header]. by rewrite take_ge by lia.
    + by left.
    + right; right; right. fold u'. rewrite Hst', Hlen. split; [done|lia].
  - destruct (header_done u p hl Hst (or_intror Hst')) as (H9 & Hhl & Hlen & Hlt & Hdrop).
    fold d in Hhl, Hlen, Hdrop, H9. fold u' in Hhl, Hlen, H9.
    eapply emits_fst_bind; [exact Hv|]. apply emits_get_bind.
    rewrite (header_taken_complete u') by congruence. cbn [negb].
    eapply (emits_bind _ _ _ (fun _ t1 e => t1 = header_taken u' /\ e = [EHeader u']));
      [by apply (emits_event (EHeader u'))|]. intros _ ? ? (-> & ->).
    destruct (status_complete u' hl Hst') as (_ & _ & _ & _ & Hrem).
    assert (Hr0 : payloadRemaining (header_taken u') = 0%Z).
    { unfold header_taken. cbn [payloadRemaining]. by rewrite (proj2 (Nat.ltb_ge (length u') 9)). }
    rewrite Hr0. cbn [Z.eqb when].
    eapply emits_bind.
    { eapply emits_weaken; [apply (finish_complete (header_taken u') u' hl); try done|done|done].
      apply header_taken_complete; congruence. }
    intros _ ? ? (-> & ->). apply emits_ret. exists d, (drop (length d) p), None. split_and!; try done.
    + unfold growth_events. fold u'. rewrite Hst', (proj2 (Nat.ltb_lt _ _)) by done.
      by rewrite take_ge, Hdrop by lia.
    + by left.
    + right; by left.
  - destruct Hv as [m' Hv]. eapply emits_fst_fail; [exact Hv|].
    exists d, (drop (length d) p). split; [done|]. by rewrite Hgrow.
Qed.

(** A round in the payload. *)
Lemma grow_payload u d hl : unit_status u = InPayload hl -> 
  unit_status (u ++ d) =
    if (packet_length u =? 0)%Z then InPayload hl
    else match (Z.of_nat (length d) ?= remaining_of u)%Z with
         | Lt => InPayload hl
         | Eq => Complete hl
         | Gt => Malformed "PES contains bytes after its declared length"
         end.
Proof.
  intros Hst. destruct (status_payload u hl Hst) as (H9 & Hhl & Hle & _).
  unfold unit_status in *. destruct (bad_start_code u) eqn:Hb; [done|].
  rewrite bad_start_app, Hb by lia. destruct (header_fields_app u d H9) as [-> ->].
  rewrite (proj2 (Nat.ltb_ge (length u) _)) in Hst by lia.
  rewrite (proj2 (Nat.ltb_ge (length (u ++ d)) _)) by llia. cbn zeta in *.
  destruct (negb _ && _); [done|]. rewrite (proj2 (Nat.ltb_ge (length (u ++ d)) _)) by llia.
  unfold remaining_of. rewrite <- Hhl. destruct (packet_length u =? 0)%Z; [done|].
  rewrite Nat.max_r by lia. rewrite length_app, Nat2Z.inj_add.
  destruct (Z.compare_spec (Z.of_nat (length d)) (packet_length u + 6 - Z.of_nat (length u)));
    destruct (Z.compare_spec (Z.of_nat (length u) + Z.of_nat (length d)) (packet_length u + 6));
    lia || done.
Qed.

Lemma payload_growth u d hl : unit_status u = InPayload hl -> d <> [] ->
  growth_events u d = match unit_status (u ++ d) with
                      | InPayload _ => [EPayload d]
                      | Complete _ => [EPayload d; EEnd]
                      | _ => []
                      end.
Proof.
  intros Hst Hd. destruct (status_payload u hl Hst) as (H9 & Hhl & Hle & _).
  unfold growth_events. rewrite (grow_payload u d hl Hst).
  assert (Hdr : payload_events (drop (hl - length u) d) = [EPayload d]).
  { replace (hl - length u) with 0 by lia. unfold payload_events. by rewrite decide_False. }
  assert (Hlt : (length u <? hl) = false) by by apply Nat.ltb_ge.
  destruct (packet_length u =? 0)%Z; [by rewrite Hlt, Hdr|].
  by destruct (_ ?= _)%Z; rewrite ?Hlt, ?Hdr.
Qed.

(** The collector after [d] more bytes of payload. *)
Lemma grown_more m u d hl : grown m u -> unit_status u = InPayload hl ->
  unit_status (u ++ d) = InPayload hl ->
  grown (set_remaining (if (packet_length u =? 0)%Z then -1 else remaining_of u - Z.of_nat (length d)) m)
    (u ++ d).
Proof.
  intros (Ha & Hh & Hl & Hr & _) Hst Hst'.
  destruct (status_payload u hl Hst) as (H9 & Hhl & Hle & _).
  destruct (header_fields_app u d H9) as [Ehl Epl].
  unfold set_remaining. split_and!; cbn [active header headerLength payloadRemaining].
  - done.
  - rewrite Ehl, take_app_le by lia. done.
  - rewrite Hl, Ehl. by rewrite !(proj2 (Nat.ltb_ge _ _)) by llia.
  - rewrite (proj2 (Nat.ltb_ge _ _)) by llia. unfold remaining_of. rewrite Ehl, Epl.
    destruct (packet_length u =? 0)%Z; [done|]. rewrite !Nat.max_r by llia. llia.
  - right. by exists hl.
Qed.

Lemma set_remaining_same m : set_remaining (payloadRemaining m) m = m.
Proof. by destruct m. Qed.

Lemma payload_step m u p hl : grown m u -> unit_status u = InPayload hl -> p <> [] ->
  emits (W := W) (consume_step p) m (fun r m' e => takes u p r m' e) (fun _ _ _ => False).
Proof.
  intros Hg Hst Hp. unfold consume_step. rewrite decide_False by done. apply emits_get_bind.
  destruct (grown_payload m u hl Hg Hst) as [Hhc Hr]. rewrite Hhc, Hr.
  destruct (status_payload u hl Hst) as (H9 & Hhl & Hle & Hrem).
  apply emits_check_bind; [by destruct Hg as [-> _]|intros _]. cbn [negb]. cbn zeta.
  set (n := if _ && _ then _ else _).
  assert (Hn : 0 < n <= length p /\ (packet_length u <> 0 -> Z.of_nat n <= remaining_of u)%Z
    /\ (n < length p -> packet_length u <> 0%Z /\ Z.of_nat n = remaining_of u)).
  { assert (0 < length p) by (destruct p; [done|cbn; lia]). subst n.
    destruct (Z.leb_spec 0 (remaining_of u)), (Z.ltb_spec (remaining_of u) (Z.of_nat (length p)));
      cbn [andb]; lia. }
  destruct Hn as (Hn & Hfit & Hrest). set (d := take n p).
  assert (Hlen : length d = n) by (subst d; rewrite length_take; lia).
  assert (Hd : d <> []) by (intros E; rewrite E in Hlen; cbn in Hlen; lia).
  apply emits_check_bind; [intros Hz%Nat.eqb_eq; lia|intros _].
  eapply (emits_bind _ _ _ (fun _ t1 e => t1 = m /\ e = [EPayload d]));
    [by apply (emits_event (EPayload d))|]. intros _ ? ? (-> & ->).
  pose proof (grow_payload u d hl Hst) as Hgp. pose proof (payload_growth u d hl Hst Hd) as Hev.
  assert (Hpd : p = d ++ drop n p) by (subst d; by rewrite take_drop).
  rewrite Hlen in Hgp.
  destruct (Z.eqb_spec (packet_length u) 0) as [Hz|Hz].
  - assert (Hr1 : remaining_of u = (-1)%Z) by lia.
    rewrite (proj2 (Z.leb_gt _ _)) by lia. cbn [when]. apply emits_ret. rewrite Hgp in Hev.
    exists d, (drop n p), (Some (u ++ d)). split_and!; try done.
    + unfold grow. by rewrite Hgp.
    + pose proof (grown_more m u d hl Hg Hst Hgp) as Hm. rewrite (proj2 (Z.eqb_eq _ _)) in Hm by done.
      rewrite <- Hr1, <- Hr, set_remaining_same in Hm. done.
    + by left.
    + left. apply drop_ge. destruct (Nat.lt_ge_cases n (length p)); [|done]. by destruct Hrest.
  - assert (Hpos : (0 < remaining_of u)%Z) by lia. specialize (Hfit Hz).
    rewrite (proj2 (Z.leb_le _ _)) by lia. cbn [when].
    apply emits_assoc_r, emits_modify_bind.
    pose proof (grown_more m u d hl Hg Hst) as Hm. rewrite (proj2 (Z.eqb_neq _ _)) in Hm by done.
    rewrite Hlen in Hm. set (m1 := set_remaining (remaining_of u - Z.of_nat n) m) in *.
    apply emits_when_bind.
    + intros Hr0%Z.eqb_eq. rewrite (proj2 (Z.compare_eq_iff _ _)) in Hgp by lia. rewrite Hgp in Hev.
      eapply emits_bind.
      { eapply emits_weaken; [apply (finish_complete m1 (u ++ d) hl); try done|done|done].
        by destruct Hg. }
      intros _ ? ? (-> & ->). apply emits_ret.
      exists d, (drop n p), None. split_and!; try done; [by unfold grow; rewrite Hgp|by left|].
      right; by left.
    + intros Hr0%Z.eqb_neq. rewrite (proj2 (Z.compare_lt_iff _ _)) in Hgp by lia. rewrite Hgp in Hev.
      apply emits_ret. exists d, (drop n p), (Some (u ++ d)).
      split_and!; try done; [by unfold grow; rewrite Hgp|by apply Hm|by left|].
      left. apply drop_ge. destruct (Nat.lt_ge_cases n (length p)); [|done]. lia.
Qed.

(** *** Consume *)
Lemma growth_nil u : (unit_status u = InHeader \/ exists hl, unit_status u = InPayload hl) ->
  growth_events u [] = [] /\ grow u [] = Ok (Some u).
Proof.
  unfold growth_events, grow. rewrite !app_nil_r. intros [->|[hl Hst]]; [done|]. rewrite Hst.
  destruct (status_payload u hl Hst) as (_ & _ & Hle & _).
  rewrite (proj2 (Nat.ltb_ge _ _)) by done. rewrite drop_nil. done.
Qed.

(** Growing in two steps, the first of which brings no payload. *)
Lemma growth_app u d d' st : grow (u ++ d) d' = Ok st ->
  unit_status (u ++ d) = InHeader \/
    (unit_status (u ++ d) = InPayload (length (u ++ d)) /\ length u <= length (u ++ d)) ->
  growth_events u (d ++ d') = growth_events u d ++ growth_events (u ++ d) d'.
Proof.
  intros Hok Hst. unfold growth_events, grow in *. rewrite !app_assoc.
  assert (Hhl : forall hl, unit_status ((u ++ d) ++ d') = InPayload hl
      \/ unit_status ((u ++ d) ++ d') = Complete hl ->
    match unit_status (u ++ d) with InHeader => length (u ++ d) < hl | _ => hl = length (u ++ d) end).
  { intros hl Hst'.
    assert (Hf : hl = header_length ((u ++ d) ++ d')).
    { destruct Hst' as [(? & ? & _)%status_payload|(? & ? & _)%status_complete]; done. }
    destruct Hst as [Hst|[Hst _]]; rewrite Hst.
    - destruct (status_header _ Hst) as (_ & Hlt & _). destruct (Nat.ltb_spec (length (u ++ d)) 9).
      + subst hl. unfold header_length. lia.
      + destruct (header_fields_app (u ++ d) d') as [E _]; [lia|]. by rewrite Hf, E.
    - destruct (status_payload _ _ Hst) as (H9 & Hhl & _).
      destruct (header_fields_app (u ++ d) d') as [E _]; [lia|]. by rewrite Hf, E. }
  assert (Hsplit : forall hl, unit_status ((u ++ d) ++ d') = InPayload hl
      \/ unit_status ((u ++ d) ++ d') = Complete hl ->
    (if length u <? hl then [EHeader (take hl ((u ++ d) ++ d'))] else [])
      ++ payload_events (drop (hl - length u) (d ++ d'))
    = match unit_status (u ++ d) with
      | InPayload k => (if length u <? k then [EHeader (take k (u ++ d))] else [])
          ++ payload_events (drop (k - length u) d)
      | _ => []
      end ++ (if length (u ++ d) <? hl then [EHeader (take hl ((u ++ d) ++ d'))] else [])
      ++ payload_events (drop (hl - length (u ++ d)) d')).
  { intros hl Hst'. specialize (Hhl hl Hst'). destruct Hst as [Hst|[Hst Hle]]; rewrite Hst in Hhl |- *.
    - rewrite !(proj2 (Nat.ltb_lt _ _)) by llia. cbn [app]. rewrite drop_app_ge by llia.
      do 3 f_equal. llia.
    - subst hl. rewrite (proj2 (Nat.ltb_ge (length (u ++ d)) _)) by lia.
      rewrite (drop_ge d) by llia. rewrite drop_app_ge by llia. rewrite (take_app_le _ d') by lia.
      cbn [payload_events]. rewrite app_nil_l, app_nil_r. do 3 f_equal. llia. }
  destruct (unit_status ((u ++ d) ++ d')) as [|hl|hl|msg] eqn:Hst'; [|..|done].
  - destruct Hst as [->|[Hst _]]; [done|]. rewrite (grow_payload _ d' _ Hst) in Hst'.
    destruct (packet_length _ =? 0)%Z; [done|]. by destruct (_ ?= _)%Z.
  - rewrite (Hsplit hl (or_introl eq_refl)). by destruct Hst as [->|[-> _]].
  - rewrite (app_assoc (if length u <? hl then _ else _)), (Hsplit hl (or_intror eq_refl)).
    destruct Hst as [->|[-> _]]; by rewrite <- ?app_assoc.
Qed.

Lemma grow_app u d d' : grow u d = Ok (Some (u ++ d)) -> grow u (d ++ d') = grow (u ++ d) d'.
Proof. unfold grow. by rewrite app_assoc. Qed.

Lemma grow_cases u d st : grow u d = Ok st ->
  (st = None /\ exists hl, unit_status (u ++ d) = Complete hl)
  \/ (st = Some (u ++ d) /\ (unit_status (u ++ d) = InHeader \/ exists hl, unit_status (u ++ d) = InPayload hl)).
Proof.
  unfold grow. destruct (unit_status (u ++ d)) as [|hl|hl|]; intros [= <-]; [right|right|left]; eauto.
Qed.

Lemma grow_error u d d' e : grow u d = Fail (Err e) -> grow u (d ++ d') = Fail (Err e).
Proof.
  unfold grow. destruct (unit_status (u ++ d)) as [| | |msg] eqn:Hst; try done.
  intros [= <-]. by rewrite app_assoc, (malformed_app _ _ _ Hst).
Qed.

Lemma step_takes m u p : grown m u -> p <> [] ->
  emits (W := W) (consume_step p) m (fun r m' e => takes u p r m' e)
    (fun e _ _ => exists d p', p = d ++ p' /\ grow u d = Fail (Err e)).
Proof.
  intros Hg Hp. pose proof Hg as (_ & _ & _ & _ & [Hst|[hl Hst]]).
  - by apply header_step.
  - eapply emits_weaken; [by eapply payload_step|done|done].
Qed.

(** After the bytes [d] of [p], of which [p1] are left. *)
Definition consumed (u p p1 : list Z) (m : PESCollector) (e : list event) : Prop :=
  exists d st, p = d ++ p1 /\ e = growth_events u d /\ grow u d = Ok st /\ collects m st
    /\ (p1 = [] \/ st = None \/ d = [] \/ unit_status (u ++ d) = InHeader
        \/ (unit_status (u ++ d) = InPayload (length (u ++ d)) /\ length u <= length (u ++ d))).

Lemma consumed_step u p p1 m e : consumed u p p1 m e ->
  emits (W := W) (consume_step p1) m
    (fun r m' e' => match r with
       | inl p2 => consumed u p p2 m' (e ++ e') /\ length p2 < length p1
       | inr _ => consumed u p [] m' (e ++ e')
       end)
    (fun err _ _ => grow u p = Fail (Err err)).
Proof.
  intros (d & st & Hp & He & Hgr & Hc & Hk). destruct (decide (p1 = [])) as [->|Hp1].
  { apply emits_ret. rewrite app_nil_r. exists d, st. split_and!; auto. }
  destruct (grow_cases u d st Hgr) as [[-> [hl Hst]]|[-> Hst]].
  - (* the unit is complete *)
    unfold consume_step. rewrite decide_False by done. apply emits_get_bind.
    rewrite Hc. apply emits_check_bind; [intros _|done].
    unfold grow. subst p. by rewrite app_assoc, (complete_more _ p1 hl).
  - eapply emits_weaken; [by apply (step_takes m (u ++ d) p1 Hc)|..]; cbn beta.
    + intros r m' e' (d1 & p2 & st1 & Hp2 & Hd1 & -> & Hgr1 & Hc1 & Hr & Hk1).
      assert (Happ : growth_events u d ++ growth_events (u ++ d) d1 = growth_events u (d ++ d1)).
      { destruct Hk as [?|[?|[->|Hk]]]; [done|done| |].
        - rewrite app_nil_r in *. by destruct (growth_nil u Hst) as [-> _].
        - by erewrite growth_app. }
      assert (Hcon : consumed u p p2 m' (e ++ growth_events (u ++ d) d1)).
      { exists (d ++ d1), st1. rewrite He, Happ, (grow_app u d) by done. split_and!; try done.
        - by rewrite Hp, Hp2, app_assoc.
        - rewrite app_assoc. destruct Hk1 as [?|[?|[?|[? ?]]]]; auto.
          right; right; right; right. split; [done|llia]. }
      destruct Hr as [->|[-> ->]]; [split; [done|]|done].
      rewrite Hp2, length_app. destruct d1; [done|cbn; lia].
    + intros err _ _ (d1 & p2 & -> & Hgr1). subst p. rewrite (grow_app u d) by done.
      by apply grow_error.
Qed.

Lemma loop_spec m u p : grown m u ->
  emits (W := W) (iter (length p + 1) consume_step p) m
    (fun _ m' e => exists st, grow u p = Ok st /\ e = growth_events u p /\ collects m' st)
    (fun e _ _ => grow u p = Fail (Err e)).
Proof.
  intros Hg. pose proof Hg as (_ & _ & _ & _ & Hst). destruct (growth_nil u Hst) as [E1 E2].
  eapply emits_weaken;
    [apply (emits_loop consume_step (consumed u p) (fun p1 _ => length p1)
      (fun _ m' e => consumed u p [] m' e) (fun e _ _ => grow u p = Fail (Err e)))|..]; cbn beta.
  - intros p1 m1 e1 Hcon. eapply emits_weaken; [by apply consumed_step|done|done].
  - exists [], (Some u). split_and!; auto.
  - lia.
  - intros _ m' e (d & st & Hp & -> & Hgr & Hc & _). rewrite app_nil_r in Hp. subst d. by exists st.
  - done.
Qed.

(** What a call of [Consume] amounts to, from the unit [st]. *)
Definition consume_ref (pusi : bool) (payload : list Z) (st : option (list Z)) :
    outcome (list event * option (list Z)) :=
  '(ended, u) ← (if pusi then
      ended ← match st with
              | Some u => close_unit "new PES starts before previous PES header is complete"
                            "new PES starts with bytes missing from previous PES" u
              | None => Ok []
              end;
      Ok (ended, Some [])
    else Ok ([], st));
  match u with
  | Some u => st' ← grow u payload; Ok (ended ++ growth_events u payload, st')
  | None => Ok (ended, None)
  end.

Lemma Consume_spec m st pusi payload : collects m st ->
  emits (W := W) (Consume pusi payload) m
    (fun _ m' e => exists st', consume_ref pusi payload st = Ok (e, st') /\ collects m' st')
    (fun e _ _ => consume_ref pusi payload st = Fail (Err e)).
Proof.
  intros Hc. unfold Consume, consume_ref.
  assert (Hloop : forall m u ended, grown m u ->
    emits (W := W) (if active m then iter (length payload + 1) consume_step payload else mret tt) m
      (fun _ m' e => exists st', (st' ← grow u payload; Ok (ended ++ growth_events u payload, st'))
         = Ok (ended ++ e, st') /\ collects m' st')
      (fun e _ _ => (st' ← grow u payload; Ok (ended ++ growth_events u payload, st')) = Fail (Err e))).
  { intros m1 u ended Hg. pose proof Hg as [-> _]. eapply emits_weaken; [by apply loop_spec|..]; cbn beta.
    - intros _ m' e (st' & -> & -> & Hc'). by exists st'.
    - intros e _ _ ->. done. }
  destruct pusi; cbn [when]; last first.
  { eapply (emits_bind _ _ _ (fun _ t1 e => t1 = m /\ e = [])); [by apply emits_ret|].
    intros _ ? ? (-> & ->). apply emits_get_bind. destruct st as [u|].
    - by apply (Hloop m u []).
    - rewrite Hc. apply emits_ret. by exists None. }
  apply emits_assoc_r, emits_get_bind, emits_assoc_r.
  destruct st as [u|]; cbn [collects] in Hc.
  - pose proof Hc as [-> _]. cbn [when]. eapply emits_bind.
    { eapply emits_weaken; [by apply (finish_spec m u)|done|].
      cbn beta. intros e _ _ ->. done. }
    intros _ m1 ended (-> & ->). apply emits_modify_bind, emits_get_bind.
    apply (Hloop _ [] ended), grown_start.
  - rewrite Hc. eapply (emits_bind _ _ _ (fun _ t1 e => t1 = m /\ e = [])); [by apply emits_ret|].
    intros _ ? ? (-> & ->). apply emits_modify_bind, emits_get_bind.
    apply (Hloop _ [] []), grown_start.
Qed.

Definition flush_ref (st : option (list Z)) : outcome (list event) :=
  match st with
  | Some u => close_unit "truncated PES header" "truncated PES payload" u
  | None => Ok []
  end.

Lemma Flush_spec m st : collects m st ->
  emits (W := W) Flush m (fun _ _ e => flush_ref st = Ok e) (fun e _ _ => flush_ref st = Fail (Err e)).
Proof.
  intros Hc. unfold Flush, flush_ref. apply emits_get_bind. destruct st as [u|]; cbn [collects] in Hc.
  - pose proof Hc as (-> & _ & _ & _ & Hst). unfold close_unit.
    destruct Hst as [Hst|[hl Hst]]; rewrite Hst.
    + destruct (grown_header m u Hc Hst) as [_ ->]. by apply emits_check_bind.
    + destruct (grown_payload m u hl Hc Hst) as [E1 E2]. rewrite E1, E2.
      destruct (status_payload u hl Hst) as (_ & _ & _ & Hrem).
      apply emits_check_bind; [done|intros _]. apply emits_check_bind.
      * intros Hlt%Z.ltb_lt. by rewrite (proj2 (Z.eqb_neq _ _)) by lia.
      * intros Hge%Z.ltb_ge. rewrite (proj2 (Z.eqb_eq _ _)) by lia.
        eapply emits_weaken; [by apply (finish_spec m u)|..]; unfold close_unit; rewrite Hst;
          rewrite (proj2 (Z.eqb_eq _ _)) by lia; [|done].
        by intros _ m' e (_ & [= <-]).
  - rewrite Hc. by apply emits_ret.
Qed.
End Spec.

(** ** A whole stream *)

(** The payloads of a stream, cut at the start indicators: the bytes of each
    unit; what comes before the first one is dropped. *)
Fixpoint groups (inputs : list (bool * list Z)) (gs : list (list Z)) : list (list Z) :=
  match inputs with
  | [] => gs
  | (true, p) :: inputs => groups inputs (gs ++ [p])
  | (false, p) :: inputs => groups inputs (alter_last (fun g => g ++ p) gs)
  end.

(** The PES packet at the start of a unit: its declared length, or all of it. *)
Definition trim (u : list Z) : list Z :=
  if (packet_length u =? 0)%Z then u else take (Z.to_nat (packet_length u + 6)) u.

Definition unit_frame (u : list Z) : frame :=
  MkFrame (take (header_length u) u) (length u - header_length u) true.
Definition unit_body (u : list Z) : list Z := drop (header_length u) u.

(** What has been sent of the unit [u]. *)
Definition sent_frame (u : list Z) : list frame :=
  match unit_status u with
  | InPayload hl => [MkFrame (take hl u) (length u - hl) false]
  | Complete hl => [MkFrame (take hl u) (length u - hl) true]
  | _ => []
  end.

Definition sent_body (u : list Z) : list Z :=
  match unit_status u with InPayload hl | Complete hl => drop hl u | _ => [] end.

Definition growing (u : list Z) : Prop :=
  unit_status u = InHeader \/ exists hl, unit_status u = InPayload hl.

Lemma take_app_short {A} n (u d : list A) : n <= length u -> take n (u ++ d) = take n u.
Proof. intros. by rewrite take_app_le. Qed.

(** The header of a unit that grows. *)
Lemma growth_header u d hl : growing u ->
  unit_status (u ++ d) = InPayload hl \/ unit_status (u ++ d) = Complete hl ->
  9 <= hl <= length (u ++ d) /\
  match unit_status u with
  | InPayload k => k = hl /\ hl <= length u
  | _ => length u < hl
  end.
Proof.
  intros Hg Hst.
  assert (Hf : 9 <= length (u ++ d) /\ hl = header_length (u ++ d) /\ hl <= length (u ++ d)).
  { destruct Hst as [(? & ? & ? & _)%status_payload|(? & ? & ? & _)%status_complete]; done. }
  destruct Hf as (H9 & -> & Hle). split; [unfold header_length in *; lia|].
  destruct Hg as [Hs|[k Hs]]; rewrite Hs.
  - destruct (status_header u Hs) as (_ & Hlt & _). destruct (Nat.ltb_spec (length u) 9).
    + unfold header_length. lia.
    + by destruct (header_fields_app u d) as [-> _].
  - destruct (status_payload u k Hs) as (H9' & -> & Hle' & _).
    by destruct (header_fields_app u d) as [-> _].
Qed.

Lemma payload_events_payloads d : payloads (payload_events d) = d.
Proof. unfold payload_events. case_decide; [by subst|]. cbn. by rewrite app_nil_r. Qed.

Lemma payload_events_frames d fs h n : all_ended fs ->
  frame_events (payload_events d) (fs ++ [MkFrame h n false])
  = Some (fs ++ [MkFrame h (n + length d) false]).
Proof.
  intros Hfs. unfold payload_events. case_decide; [subst d; cbn [frame_events length]; by rewrite Nat.add_0_r|].
  cbn [frame_events frame_event]. by rewrite open_last_sent, alter_last_snoc.
Qed.

(** The header and the payload of [growth_events]. *)
Definition lead_events (u d : list Z) (hl : nat) : list event :=
  (if length u <? hl then [EHeader (take hl (u ++ d))] else []) ++ payload_events (drop (hl - length u) d).

Lemma lead_frames u d hl fs : all_ended fs -> growing u ->
  unit_status (u ++ d) = InPayload hl \/ unit_status (u ++ d) = Complete hl ->
  frame_events (lead_events u d hl) (fs ++ sent_frame u)
    = Some (fs ++ [MkFrame (take hl (u ++ d)) (length (u ++ d) - hl) false])
  /\ sent_body u ++ payloads (lead_events u d hl) = drop hl (u ++ d)
  /\ Forall header_ok (lead_events u d hl).
Proof.
  intros Hfs Hg Hst. destruct (growth_header u d hl Hg Hst) as [Hhl Hu].
  unfold lead_events, sent_frame, sent_body. destruct Hg as [Hs|[k Hs]]; rewrite Hs in Hu |- *.
  - rewrite (proj2 (Nat.ltb_lt _ _)) by done. rewrite app_nil_r. cbn [app]. split_and!.
    + cbn [frame_events frame_event]. rewrite all_ended_closed by done. cbn [mbind option_bind].
      unfold new_frame. rewrite payload_events_frames by done. do 4 f_equal. llia.
    + cbn [payloads]. rewrite payload_events_payloads, drop_app_ge by lia. done.
    + constructor.
      * cbn [header_ok]. apply Is_true_true, Nat.leb_le. llia.
      * unfold payload_events. case_decide; by repeat constructor.
  - destruct Hu as [-> Hle]. rewrite (proj2 (Nat.ltb_ge _ _)) by done. cbn [app].
    replace (hl - length u) with 0 by lia. rewrite drop_0. split_and!.
    + rewrite payload_events_frames by done. rewrite take_app_short by done. do 4 f_equal. llia.
    + by rewrite payload_events_payloads, drop_app_le by lia.
    + unfold payload_events. case_decide; by repeat constructor.
Qed.

(** Growing a unit extends what has been sent. *)
Lemma growth_frames u d st fs : all_ended fs -> growing u -> grow u d = Ok st ->
  frame_events (growth_events u d) (fs ++ sent_frame u) = Some (fs ++ sent_frame (u ++ d))
  /\ sent_body u ++ payloads (growth_events u d) = sent_body (u ++ d)
  /\ Forall header_ok (growth_events u d).
Proof.
  intros Hfs Hg Hok. unfold grow in Hok. unfold growth_events. unfold sent_body at 2, sent_frame at 2.
  destruct (unit_status (u ++ d)) as [|hl|hl|] eqn:Hst; [| | |done].
  - assert (Hs : unit_status u = InHeader).
    { destruct Hg as [?|[k Hs]]; [done|]. rewrite (grow_payload u d k Hs) in Hst.
      destruct (packet_length u =? 0)%Z; [done|]. by destruct (_ ?= _)%Z. }
    unfold sent_frame, sent_body. by rewrite Hs, !app_nil_r.
  - apply (lead_frames u d hl fs Hfs Hg). auto.
  - destruct (lead_frames u d hl fs Hfs Hg (or_intror Hst)) as (E1 & E2 & E3).
    unfold lead_events in *. rewrite app_assoc, payloads_app. cbn [payloads]. rewrite app_nil_r. split_and!.
    + eapply frame_events_trans; [done|]. cbn [frame_events frame_event].
      by rewrite open_last_sent, alter_last_snoc.
    + done.
    + apply Forall_app. split; [done|]. by repeat constructor.
Qed.

(** The transport packets of a PID, then the end of the stream. *)
Definition collect {W : Type} `{PESHandler W} (inputs : list (bool * list Z)) :
    M (PESCollector * W) unit :=
  for_each (fun '(pusi, p) => Consume pusi p) inputs;; Flush.

Fixpoint collect_ref (inputs : list (bool * list Z)) (st : option (list Z)) : outcome (list event) :=
  match inputs with
  | [] => flush_ref st
  | (pusi, p) :: inputs =>
      '(e, st) ← consume_ref pusi p st;
      evs ← collect_ref inputs st;
      Ok (e ++ evs)
  end.

Lemma collect_emits {W : Type} `{PESHandler W} `{PMTSignal W} inputs m st : collects m st ->
  emits (W := W) (collect inputs) m (fun _ _ evs => collect_ref inputs st = Ok evs)
    (fun e _ _ => collect_ref inputs st = Fail (Err e)).
Proof.
  unfold collect. revert m st. induction inputs as [|[pusi p] inputs IH]; intros m st Hc.
  { eapply (emits_bind _ _ _ (fun _ t1 e => t1 = m /\ e = [])); [by apply emits_ret|].
    intros _ ? ? (-> & ->). by apply Flush_spec. }
  cbn [for_each collect_ref]. apply emits_assoc_r. eapply emits_bind.
  { eapply emits_weaken; [by apply (Consume_spec m st)|done|]. cbn beta. by intros e _ _ ->. }
  intros _ m1 e1 (st1 & -> & Hc1).
  eapply emits_weaken; [by apply IH|..]; cbn [mbind outcome_bind]; by intros ? ? ? ->.
Qed.

(** *** The units of a stream *)
Lemma groups_app l1 l2 gs : groups (l1 ++ l2) gs = groups l2 (groups l1 gs).
Proof. revert gs. induction l1 as [|[[] p] l1 IH]; intros gs; cbn; auto. Qed.

(** More bytes than declared have been received. *)
Definition full (g : list Z) : Prop :=
  9 <= length g /\ packet_length g <> 0%Z /\ (0 <= packet_length g + 6 <= Z.of_nat (length g))%Z.

Lemma trim_full g d : full g -> trim (g ++ d) = trim g.
Proof.
  intros (H9 & Hz & Hle). unfold trim. destruct (header_fields_app g d H9) as [_ ->].
  rewrite (proj2 (Z.eqb_neq _ _)) by done. apply take_app_le. lia.
Qed.

Lemma full_app g d : full g -> full (g ++ d).
Proof.
  intros (H9 & Hz & Hle). destruct (header_fields_app g d H9) as [_ E].
  unfold full. rewrite E. split_and!; [llia|done|lia|llia].
Qed.

Lemma complete_full u hl : unit_status u = Complete hl ->
  full u /\ trim u = u /\ sent_frame u = [unit_frame u] /\ sent_body u = unit_body u.
Proof.
  intros Hst. destruct (status_complete u hl Hst) as (H9 & Hhl & Hle & Hz & Hrem).
  unfold remaining_of in Hrem. rewrite (proj2 (Z.eqb_neq _ _)) in Hrem by done.
  rewrite Nat.max_r in Hrem by lia. unfold full, trim, sent_frame, sent_body, unit_frame, unit_body.
  rewrite Hst, <- Hhl, (proj2 (Z.eqb_neq _ _)) by done. split_and!; try done; [lia..|].
  apply take_ge. lia.
Qed.

Definition frames_of (us : list (list Z)) : list frame := (fun g => unit_frame (trim g)) <$> us.
Definition bodies_of (us : list (list Z)) : list Z := concat ((fun g => unit_body (trim g)) <$> us).

Lemma frames_of_ended us : all_ended (frames_of us).
Proof. apply Forall_fmap, Forall_true. done. Qed.

(** The events so far account for the units [gs], of which the last is open in
    the state [Some u]. *)
Definition accounts (gs : list (list Z)) (st : option (list Z)) (evs : list event) : Prop :=
  Forall header_ok evs /\
  match st with
  | Some u => exists pre, gs = pre ++ [u] /\ growing u
      /\ frame_events evs [] = Some (frames_of pre ++ sent_frame u)
      /\ payloads evs = bodies_of pre ++ sent_body u
  | None => (forall g, list.last gs = Some g -> full g)
      /\ frame_events evs [] = Some (frames_of gs) /\ payloads evs = bodies_of gs
  end.

Lemma bodies_of_snoc us u : bodies_of (us ++ [u]) = bodies_of us ++ unit_body (trim u).
Proof. unfold bodies_of. rewrite fmap_app, concat_app. cbn. by rewrite app_nil_r. Qed.

Lemma frames_of_snoc us u : frames_of (us ++ [u]) = frames_of us ++ [unit_frame (trim u)].
Proof. unfold frames_of. by rewrite fmap_app. Qed.

(** Closing the open unit. *)
Lemma close_accounts gs u evs short missing e : accounts gs (Some u) evs ->
  close_unit short missing u = Ok e ->
  Forall header_ok (evs ++ e) /\ frame_events (evs ++ e) [] = Some (frames_of gs)
  /\ payloads (evs ++ e) = bodies_of gs.
Proof.
  intros (Hh & pre & -> & _ & Hf & Hp) Hcl. unfold close_unit in Hcl.
  destruct (unit_status u) as [|hl|hl|] eqn:Hst; try done.
  destruct (Z.eqb_spec (packet_length u) 0) as [Hz|]; [|done]. injection Hcl as <-.
  destruct (status_payload u hl Hst) as (_ & Hhl & _ & _).
  assert (Ht : trim u = u) by (unfold trim; by rewrite Hz).
  unfold sent_frame in Hf. unfold sent_body in Hp. rewrite Hst in Hf, Hp.
  rewrite frames_of_snoc, bodies_of_snoc, payloads_app, Ht. split_and!.
  - apply Forall_app. split; [done|]. by repeat constructor.
  - eapply frame_events_trans; [done|]. cbn [frame_events frame_event].
    rewrite open_last_sent, alter_last_snoc. unfold unit_frame. by rewrite <- Hhl.
  - cbn [payloads]. rewrite app_nil_r, Hp. unfold unit_body. by rewrite <- Hhl.
Qed.

Lemma grow_accounts pre u d st evs : accounts (pre ++ [u]) (Some u) evs -> grow u d = Ok st ->
  accounts (pre ++ [u ++ d]) st (evs ++ growth_events u d).
Proof.
  intros (Hh & pre' & Hpre & Hg & Hf & Hp) Hok. apply app_inj_tail in Hpre as [<- _].
  destruct (growth_frames u d st _ (frames_of_ended pre) Hg Hok) as (E1 & E2 & E3).
  assert (Hf' : frame_events (evs ++ growth_events u d) [] = Some (frames_of pre ++ sent_frame (u ++ d)))
    by by eapply frame_events_trans.
  assert (Hp' : payloads (evs ++ growth_events u d) = bodies_of pre ++ sent_body (u ++ d))
    by by rewrite payloads_app, Hp, <- app_assoc, E2.
  split; [by apply Forall_app|].
  destruct (grow_cases u d st Hok) as [[-> [hl Hst]]|[-> Hst]].
  - destruct (complete_full _ hl Hst) as (Hfull & Ht & Hsf & Hsb).
    rewrite Hsf in Hf'. rewrite Hsb in Hp'. rewrite frames_of_snoc, bodies_of_snoc, Ht.
    split_and!; [|done..]. intros g. rewrite last_snoc. by intros [= <-].
  - by exists pre.
Qed.

Lemma accounts_open gs evs : Forall header_ok evs -> frame_events evs [] = Some (frames_of gs) ->
  payloads evs = bodies_of gs -> accounts (gs ++ [[]]) (Some []) evs.
Proof.
  intros Hh Hf Hp. split; [done|]. exists gs. split_and!; try done; [by left|..];
    by rewrite app_nil_r.
Qed.

Lemma consume_accounts gs st evs pusi p e st' : accounts gs st evs ->
  consume_ref pusi p st = Ok (e, st') -> accounts (groups [(pusi, p)] gs) st' (evs ++ e).
Proof.
  intros Ha Hc. unfold consume_ref in Hc. destruct pusi; cbn [groups].
  - assert (Hstart : exists ended, (match st with
        | Some u => close_unit "new PES starts before previous PES header is complete"
                      "new PES starts with bytes missing from previous PES" u
        | None => Ok [] end) = Ok ended
      /\ (st'' ← grow [] p; Ok (ended ++ growth_events [] p, st'')) = Ok (e, st')).
    { destruct st as [u|]; [|by exists []]. destruct (close_unit _ _ u) as [ended|]; [|done].
      by exists ended. }
    destruct Hstart as (ended & Hcl & Hgr).
    destruct (grow [] p) as [st''|] eqn:Hok; [|done]. injection Hgr as <- <-.
    rewrite app_assoc. change p with ([] ++ p) at 1. apply grow_accounts; [|done].
    destruct st as [u|].
    + destruct (close_accounts _ _ _ _ _ _ Ha Hcl) as (? & ? & ?). by apply accounts_open.
    + injection Hcl as <-. rewrite app_nil_r. destruct Ha as (? & _ & ? & ?). by apply accounts_open.
  - cbn [mbind outcome_bind] in Hc. destruct st as [u|].
    + destruct (grow u p) as [st''|] eqn:Hok; [|done]. injection Hc as <- <-. cbn [app].
      pose proof Ha as (_ & pre & -> & _). rewrite alter_last_snoc. by apply grow_accounts.
    + injection Hc as <- <-. rewrite app_nil_r. destruct Ha as (Hh & Hfull & Hf & Hp). split; [done|].
      destruct gs as [|g gs _] using rev_ind; [done|]. rewrite alter_last_snoc.
      specialize (Hfull g). rewrite last_snoc in Hfull. specialize (Hfull eq_refl).
      rewrite frames_of_snoc, bodies_of_snoc in *. rewrite trim_full by done. split_and!; [|done..].
      intros g'. rewrite last_snoc. intros [= <-]. by apply full_app.
Qed.

Lemma collect_accounts inputs gs st evs0 evs : accounts gs st evs0 ->
  collect_ref inputs st = Ok evs ->
  Forall header_ok (evs0 ++ evs) /\ frame_events (evs0 ++ evs) [] = Some (frames_of (groups inputs gs))
  /\ payloads (evs0 ++ evs) = bodies_of (groups inputs gs).
Proof.
  revert gs st evs0 evs. induction inputs as [|[pusi p] inputs IH]; intros gs st evs0 evs Ha Hc.
  - cbn [collect_ref groups] in *. unfold flush_ref in Hc. destruct st as [u|].
    + by eapply close_accounts.
    + injection Hc as <-. rewrite app_nil_r. by destruct Ha as (? & _ & ?).
  - cbn [collect_ref] in Hc. destruct (consume_ref pusi p st) as [[e st1]|] eqn:Hr; [|done].
    cbn [mbind outcome_bind] in Hc. destruct (collect_ref inputs st1) as [evs1|] eqn:Hr1; [|done].
    injection Hc as <-. rewrite app_assoc.
    change (groups ((pusi, p) :: inputs) gs) with (groups ([(pusi, p)] ++ inputs) gs).
    rewrite groups_app. eapply IH; [|done]. by eapply consume_accounts.
Qed.

Lemma collect_units_emits {W : Type} `{PESHandler W} `{PMTSignal W} inputs :
  emits (W := W) (collect inputs) new_collector
    (fun _ _ evs => well_formed evs
       /\ frame_events evs [] = Some (frames_of (groups inputs []))
       /\ payloads evs = bodies_of (groups inputs []))
    (fun e _ _ => collect_ref inputs None = Fail (Err e)).
Proof.
  eapply emits_weaken; [by apply (collect_emits inputs new_collector None)|..|done]. cbn beta. intros _ _ evs Hr.
  assert (Ha : accounts [] None []) by (split; [by constructor|by split_and!]).
  destruct (collect_accounts inputs [] None [] evs Ha Hr) as (Hh & Hf & Hp).
  by split_and!.
Qed.

(** ** Streams of whole units *)

(** A PES packet with its header, of its declared length if it has one. *)
Definition whole_pes (u : list Z) : Prop :=
  bad_start_code u = false /\ 9 <= length u /\ header_length u <= length u
  /\ (packet_length u = 0 \/ Z.of_nat (length u) = packet_length u + 6)%Z.

Lemma whole_status u : whole_pes u ->
  if (packet_length u =? 0)%Z then unit_status u = InPayload (header_length u)
  else unit_status u = Complete (header_length u).
Proof.
  intros (Hb & H9 & Hh & Hl). unfold unit_status. rewrite Hb.
  destruct (Nat.ltb_spec (length u) 9); [lia|]. cbn zeta.
  destruct (Z.eqb_spec (packet_length u) 0); cbn [negb andb].
  - by destruct (Nat.ltb_spec (length u) (header_length u)); [lia|].
  - destruct Hl as [?|Hl]; [done|]. destruct (Z.ltb_spec (packet_length u + 6) (Z.of_nat (header_length u))); [lia|].
    destruct (Nat.ltb_spec (length u) (header_length u)); [lia|]. by rewrite Hl, Z.compare_refl.
Qed.

(** The start of a whole unit never makes the collector fail. *)
Lemma whole_prefix u d : whole_pes (u ++ d) -> growing u \/ exists hl, unit_status u = Complete hl.
Proof.
  intros Hw%whole_status. destruct (unit_status u) as [|hl|hl|msg] eqn:E; [left; by left|left; right; eauto|right; eauto|].
  rewrite (malformed_app _ _ _ E) in Hw. by destruct (_ =? _)%Z.
Qed.

Lemma groups_extend inputs : forall gs u, exists d rest, groups inputs (gs ++ [u]) = gs ++ (u ++ d) :: rest.
Proof.
  induction inputs as [|[pusi p] inputs IH]; intros gs u; cbn [groups].
  - exists [], []. by rewrite app_nil_r.
  - destruct pusi.
    + destruct (IH (gs ++ [u]) p) as (d & rest & E). exists [], ((p ++ d) :: rest). by rewrite E, <- app_assoc, app_nil_r.
    + rewrite alter_last_snoc. destruct (IH gs (u ++ p)) as (d & rest & E). exists (p ++ d), rest. by rewrite E, <- app_assoc.
Qed.

Lemma whole_last inputs gs u : Forall whole_pes (groups inputs (gs ++ [u])) ->
  exists d, whole_pes (u ++ d) /\ Forall whole_pes gs.
Proof.
  destruct (groups_extend inputs gs u) as (d & rest & ->). intros [Hgs Hw]%Forall_app.
  apply Forall_cons in Hw as [Hw _]. by exists d.
Qed.

Lemma whole_close short missing u : whole_pes u -> growing u -> close_unit short missing u = Ok [EEnd].
Proof.
  intros Hw%whole_status Hg. unfold close_unit. destruct (packet_length u =? 0)%Z; rewrite Hw; [done|].
  destruct Hg as [Hg|[hl Hg]]; by rewrite Hw in Hg.
Qed.

Lemma whole_grow u p d : whole_pes ((u ++ p) ++ d) ->
  exists st, grow u p = Ok st /\ (st = None \/ st = Some (u ++ p) /\ growing (u ++ p)).
Proof.
  intros Hw. unfold grow. destruct (whole_prefix _ _ Hw) as [[E|[hl E]]|[hl E]]; rewrite E; eexists; (split; [done|]).
  - right. split; [done|]. by left.
  - right. split; [done|]. right. by exists hl.
  - by left.
Qed.

(** The collector never fails on whole units. *)
Lemma collect_whole inputs : forall gs st,
  (match st with Some u => growing u /\ exists gs0, gs = gs0 ++ [u] | None => True end) ->
  Forall whole_pes (groups inputs gs) -> is_ok (collect_ref inputs st) = true.
Proof.
  induction inputs as [|[pusi p] inputs IH]; intros gs st Hst Hw; cbn [collect_ref groups] in *.
  { unfold flush_ref. destruct st as [u|]; [|done]. destruct Hst as [Hg [gs0 ->]].
    apply Forall_app in Hw as [_ [Hw _]%Forall_cons]. by rewrite whole_close. }
  assert (Hnext : forall gs u, growing u -> Forall whole_pes (groups inputs (gs ++ [u ++ p])) ->
    exists st', grow u p = Ok st' /\ is_ok (collect_ref inputs st') = true).
  { intros gs1 u Hg Hw1. destruct (whole_last _ _ _ Hw1) as (d & Hd & _).
    destruct (whole_grow u p d Hd) as (st' & E & Hst'). exists st'. split; [done|].
    apply (IH (gs1 ++ [u ++ p])); [|done]. destruct Hst' as [->|[-> ?]]; [done|]. split; [done|]. by exists gs1. }
  unfold consume_ref. destruct pusi.
  - destruct (Hnext gs [] ltac:(by left) Hw) as (st' & E & Hok). cbn [app] in E.
    assert (exists ended, match st with Some u => close_unit "new PES starts before previous PES header is complete"
                "new PES starts with bytes missing from previous PES" u | None => Ok [] end = Ok ended) as [ended Ee].
    { destruct st as [u|]; [|by eexists]. destruct Hst as [Hg [gs0 ->]]. exists [EEnd]. apply whole_close; [|done].
      destruct (whole_last _ _ _ Hw) as (_ & _ & [_ [Hu _]%Forall_cons]%Forall_app). done. }
    rewrite Ee. cbn [mbind outcome_bind]. rewrite E. cbn [mbind outcome_bind]. by destruct (collect_ref inputs st').
  - destruct st as [u|].
    + destruct Hst as [Hg [gs0 ->]]. rewrite alter_last_snoc in Hw. destruct (Hnext gs0 u Hg Hw) as (st' & E & Hok).
      cbn [mbind outcome_bind]. rewrite E. cbn [mbind outcome_bind]. by destruct (collect_ref inputs st').
    + cbn [mbind outcome_bind]. specialize (IH _ None Logic.I Hw). by destruct (collect_ref inputs None).
Qed.

(** C18: the collector sends exactly the events of the reference, which decides
    from all the bytes of a unit, or fails with its error, whatever the
    splitting of the units into transport packets; the loop always ends. *)
Theorem collect_refines {W : Type} `{PESHandler W} `{PMTSignal W} inputs :
  emits (W := W) (collect inputs) new_collector
    (fun _ _ evs => collect_ref inputs None = Ok evs)
    (fun e _ _ => collect_ref inputs None = Fail (Err e)).
Proof. by apply collect_emits. Qed.

(** C19: on success the collector has called its handler in proper nesting, one
    PES packet for each unit of the stream: its header, and the bytes after it up
    to the declared length, if there is one. *)
Theorem collect_units {W : Type} `{PESHandler W} `{PMTSignal W} inputs :
  emits (W := W) (collect inputs) new_collector
    (fun _ _ evs => well_formed evs
       /\ frame_events evs [] = Some (frames_of (groups inputs []))
       /\ payloads evs = bodies_of (groups inputs []))
    (fun e _ _ => collect_ref inputs None = Fail (Err e)).
Proof. apply collect_units_emits. Qed.

Import Recorder.

(** A unit of declared length split over two packets, then one without. *)
Example collect_two_units :
  collect (W := list event)
    [(false, [9]); (true, [0; 0; 1; 0xC0; 0; 5]); (false, [0; 0; 0; 7; 8]); (false, [1]);
     (true, [0; 0; 1; 0xE0; 0; 0; 0; 0; 1; 2; 3; 4])]%Z (new_collector, [])
  = (Ok tt, (idle, [EHeader [0; 0; 1; 0xC0; 0; 5; 0; 0; 0]; EPayload [7; 8]; EEnd;
                    EHeader [0; 0; 1; 0xE0; 0; 0; 0; 0; 1; 2]; EPayload [3; 4]; EEnd]%Z)).
Proof. vm_compute. reflexivity. Qed.
