(* ===== verification/Packetizer.v ===== *)
(** * ts/internal/mux/ts_packetizer.go: the TS packetizer

    [TSPacketizer] cuts the PES bytes of one PID into transport packets of 188
    bytes, with continuity counters, start indicators and stuffing, and carries
    the adaptation fields scheduled for them.  Format arguments of the error
    messages are not kept. *)

From S2P Require Import Prelude Packet.

Definition TSPacketPayloadCapacity : nat := Z.to_nat (MpegTsPacketSize - 4).

(** ** State *)
Record pendingTSPacket := MkPending {
  payload : list Z;
  payloadLen : nat;
  pusi : bool;
  adaptation : option PacketAdaptationField;
}.

Definition empty_pending : pendingTSPacket :=
  {| payload := replicate TSPacketPayloadCapacity 0%Z; payloadLen := 0; pusi := false;
     adaptation := None |}.

Record TSPacketizer := MkPacketizer {
  pid : Z;
  cc : Z;
  current : pendingTSPacket;
  pesOpen : bool;
  packets : list Packet;
}.

Definition NewTSPacketizer (pid : Z) : TSPacketizer :=
  {| pid := pid; cc := 0; current := empty_pending; pesOpen := false; packets := [] |}.

Definition set_cc (c : Z) (w : TSPacketizer) : TSPacketizer :=
  {| pid := pid w; cc := c; current := current w; pesOpen := pesOpen w; packets := packets w |}.
Definition set_current (p : pendingTSPacket) (w : TSPacketizer) : TSPacketizer :=
  {| pid := pid w; cc := cc w; current := p; pesOpen := pesOpen w; packets := packets w |}.
Definition set_pesOpen (b : bool) (w : TSPacketizer) : TSPacketizer :=
  {| pid := pid w; cc := cc w; current := current w; pesOpen := b; packets := packets w |}.
Definition set_packets (l : list Packet) (w : TSPacketizer) : TSPacketizer :=
  {| pid := pid w; cc := cc w; current := current w; pesOpen := pesOpen w; packets := l |}.

Definition set_pusi (b : bool) (p : pendingTSPacket) : pendingTSPacket :=
  {| payload := payload p; payloadLen := payloadLen p; pusi := b; adaptation := adaptation p |}.
Definition set_adaptation (a : option PacketAdaptationField) (p : pendingTSPacket) : pendingTSPacket :=
  {| payload := payload p; payloadLen := payloadLen p; pusi := pusi p; adaptation := a |}.
Definition append_payload (d : list Z) (p : pendingTSPacket) : pendingTSPacket :=
  {| payload := copy_at (payload p) (payloadLen p) d; payloadLen := payloadLen p + length d;
     pusi := pusi p; adaptation := adaptation p |}.

Definition SetContinuityCounter (c : Z) : M TSPacketizer unit := modify (set_cc c).

(** ** Methods *)
Definition payloadCapacity (adaptation : option PacketAdaptationField) : outcome nat :=
  match adaptation with
  | None => Ok TSPacketPayloadCapacity
  | Some _ =>
      size ← AdaptationFieldSizeWithoutStuffing adaptation;
      if (Z.of_nat TSPacketPayloadCapacity <? size)%Z then
        Fail (Err (Errorf "adaptation field requires more bytes than the maximum"))
      else Ok (Z.to_nat (Z.of_nat TSPacketPayloadCapacity - size))
  end.

Definition next_cc (c : Z) : Z := Z.land (u8 (c + 1)) 0x0F.
Definition previous_cc (c : Z) : Z := Z.land (u8 (c + 15)) 0x0F.

Definition flushPayloadPacket : M TSPacketizer unit :=
  w ← get;
  let cur := current w in
  fail_if (payloadLen cur =? 0) "TS packetizer: no payload to flush";;
  let remaining := TSPacketPayloadCapacity - payloadLen cur in
  field ← optionally (0 <? remaining)
    (wrap_err "TS packetizer: prepare adaptation field" (lift (
      match adaptation cur with
      | None => NewStuffingAdaptationField (Z.of_nat remaining)
      | Some _ => AdaptationFieldWithSize (adaptation cur) (Z.of_nat remaining)
      end)));
  let packet := {|
    AdaptationField := field;
    Header := {| ContinuityCounter := cc w; HasAdaptationField := 0 <? remaining;
      HasPayload := true; PayloadUnitStartIndicator := pusi cur; PID := pid w;
      TransportErrorIndicator := false; TransportPriority := false;
      TransportScramblingControl := 0 |};
    Payload := take (payloadLen cur) (payload cur) |} in
  modify (fun w => set_current empty_pending (set_cc (next_cc (cc w))
    (set_packets (packets w ++ [packet]) w))).

Definition writeAdaptationOnly (field : option PacketAdaptationField) : M TSPacketizer unit :=
  adaptation ← wrap_err "TS packetizer: prepare adaptation-only field"
    (lift (AdaptationFieldWithSize field (Z.of_nat TSPacketPayloadCapacity)));
  modify (fun w => set_packets (packets w ++ [{|
    AdaptationField := Some adaptation;
    Header := {| ContinuityCounter := previous_cc (cc w); HasAdaptationField := true;
      HasPayload := false; PayloadUnitStartIndicator := false; PID := pid w;
      TransportErrorIndicator := false; TransportPriority := false;
      TransportScramblingControl := 0 |};
    Payload := [] |}]) w).

Definition flushPendingAdaptationOnly : M TSPacketizer unit :=
  w ← get;
  writeAdaptationOnly (adaptation (current w));;
  modify (fun w => set_current (set_adaptation None (current w)) w).

(** A round of the loop of [writePESBytes]; slicing with a negative bound panics. *)
Definition writePESBytes_step (data : list Z) : M TSPacketizer (list Z + unit) :=
  if decide (data = []) then mret (inr tt)
  else
    w ← get;
    capacity ← wrap_err "TS packetizer" (lift (payloadCapacity (adaptation (current w))));
    fail_if (capacity =? 0) "TS packetizer: adaptation field leaves no payload capacity";;
    if payloadLen (current w) =? capacity then
      flushPayloadPacket;; mret (inl data)
    else if capacity <? payloadLen (current w) then panic
    else
      let n := min (length data) (capacity - payloadLen (current w)) in
      modify (fun w => set_current (append_payload (take n data) (current w)) w);;
      w ← get;
      when (payloadLen (current w) =? capacity) flushPayloadPacket;;
      mret (inl (drop n data)).

(** The fuel: a round takes bytes, or empties the full packet so that the next
    one does. *)
Definition writePESBytes (data : list Z) : M TSPacketizer unit :=
  iter (2 * length data + 2) writePESBytes_step data.

Definition BeginPES (header : list Z) : M TSPacketizer unit :=
  w ← get;
  fail_if (pesOpen w) "TS packetizer: previous PES is still open";;
  fail_if (length header <? 6) "TS packetizer: PES header is too short";;
  fail_if (negb ((byte_at header 0 =? 0) && (byte_at header 1 =? 0) && (byte_at header 2 =? 1))%Z)
    "TS packetizer: PES start code prefix missing";;
  fail_if ((0 <? payloadLen (current w)) || pusi (current w))
    "TS packetizer: pending payload outside PES";;
  modify (fun w => set_pesOpen true (set_current (set_pusi true (current w)) w));;
  writePESBytes header.

Definition WritePESPayload (payload : list Z) : M TSPacketizer unit :=
  w ← get;
  fail_if (negb (pesOpen w)) "TS packetizer: write outside PES";;
  writePESBytes payload.

Definition EndPES : M TSPacketizer unit :=
  w ← get;
  fail_if (negb (pesOpen w)) "TS packetizer: no open PES";;
  if 0 <? payloadLen (current w) then
    flushPayloadPacket;;
    modify (set_pesOpen false)
  else
    modify (fun w => set_current (set_pusi false (current w)) w);;
    w ← get;
    when (bool_decide (is_Some (adaptation (current w)))) flushPendingAdaptationOnly;;
    modify (set_pesOpen false).

Definition TakePackets : M TSPacketizer (list Packet) :=
  w ← get;
  modify (set_packets []);;
  mret (packets w).

Definition SetNextPacketAdaptationField (field : option PacketAdaptationField) :
    M TSPacketizer unit :=
  if negb (HasAdaptationFieldData field) then mret tt
  else
    w ← get;
    when (bool_decide (is_Some (adaptation (current w))))
      (if 0 <? payloadLen (current w) then flushPayloadPacket else flushPendingAdaptationOnly);;
    capacity ← (match payloadCapacity field with
                | Ok 0 | Fail (Err _) =>
                    errorf "TS packetizer: adaptation field leaves no payload capacity"
                | o => lift o
                end);
    w ← get;
    when (capacity <=? payloadLen (current w)) flushPayloadPacket;;
    modify (fun w => set_current (set_adaptation field (current w)) w).

Definition WriteAdaptationOnly (field : option PacketAdaptationField) : M TSPacketizer unit :=
  if negb (HasAdaptationFieldData field) then mret tt
  else
    w ← get;
    (if 0 <? payloadLen (current w) then flushPayloadPacket
     else when (bool_decide (is_Some (adaptation (current w)))) flushPendingAdaptationOnly);;
    writeAdaptationOnly field.

Definition Flush : M TSPacketizer unit :=
  w ← get;
  fail_if (pesOpen w || (0 <? payloadLen (current w)) || pusi (current w))
    "TS packetizer: PES is still open";;
  when (bool_decide (is_Some (adaptation (current w)))) flushPendingAdaptationOnly.
