(* ===== verification/PacketizerSpec.v ===== *)
(** * What the TS packetizer promises

    A specification of the packetizer that only remembers the PES packets begun,
    whether one is open and the adaptation fields scheduled; the packets emitted
    are described by what a receiver reads from them. *)

From S2P Require Import Prelude Packet Pmt PesHandler PesQueue PesCollector Packetizer.

(** ** What a receiver reads from packets *)

(** The transport payloads, as [PESCollector] takes them. *)
Definition wire (p : Packet) : list (bool * list Z) :=
  if HasPayload (Header p) then [(PayloadUnitStartIndicator (Header p), Payload p)] else [].
Definition wires (pk : list Packet) : list (bool * list Z) := concat (wire <$> pk).

(** The adaptation fields, up to stuffing. *)
Definition meta_of (field : option PacketAdaptationField) : list PacketAdaptationField :=
  match field with
  | Some f => if HasAdaptationFieldData (Some f) then [clone_without_stuffing f] else []
  | None => []
  end.
Definition metas (pk : list Packet) : list PacketAdaptationField :=
  concat ((fun p => meta_of (AdaptationField p)) <$> pk).

(** Continuity counters: from [c], the next one expected. *)
Fixpoint cc_run (c : Z) (pk : list Packet) : option Z :=
  match pk with
  | [] => Some c
  | p :: pk =>
      if HasPayload (Header p) then
        if (ContinuityCounter (Header p) =? c)%Z then cc_run ((c + 1) mod 16) pk else None
      else
        if (ContinuityCounter (Header p) =? (c - 1) mod 16)%Z then cc_run c pk else None
  end.

(** The body has exactly 184 bytes. *)
Definition fits (p : Packet) : Prop :=
  match AdaptationField p with
  | None => HasAdaptationField (Header p) = false /\ Z.of_nat (length (Payload p)) = 184%Z
  | Some a => HasAdaptationField (Header p) = true
      /\ exists n, wire_size a = Ok n /\ (n + Z.of_nat (length (Payload p)))%Z = 184%Z
  end.

Lemma wires_app l1 l2 : wires (l1 ++ l2) = wires l1 ++ wires l2.
Proof. unfold wires. by rewrite fmap_app, concat_app. Qed.
Lemma metas_app l1 l2 : metas (l1 ++ l2) = metas l1 ++ metas l2.
Proof. unfold metas. by rewrite fmap_app, concat_app. Qed.

Lemma cc_run_app c l1 l2 : cc_run c (l1 ++ l2) = c' ← cc_run c l1; cc_run c' l2.
Proof.
  revert c. induction l1 as [|p l1 IH]; intros c; [done|]. cbn [app cc_run].
  destruct (HasPayload (Header p)), (_ =? _)%Z; done || apply IH.
Qed.

(** ** The state *)
Definition pending (w : TSPacketizer) : bool * list Z :=
  (pusi (current w), take (payloadLen (current w)) (payload (current w))).

Record wf (w : TSPacketizer) : Prop := Wf {
  wf_len : length (payload (current w)) = TSPacketPayloadCapacity;
  wf_cap : exists cap, payloadCapacity (adaptation (current w)) = Ok cap
             /\ payloadLen (current w) < cap;
  wf_cc : (0 <= cc w < 16)%Z;
  wf_data : forall f, adaptation (current w) = Some f -> HasAdaptationFieldData (Some f) = true;
}.

(** The packets [pk] emitted so far carry the PES packets [hist] and the fields
    [ms], with what is pending in [w]. *)
Record carries (c0 : Z) (pk : list Packet) (w : TSPacketizer) (hist : list (list Z))
    (ms : list PacketAdaptationField) : Prop := Carries {
  c_fits : Forall fits pk;
  c_pid : Forall (fun p => PID (Header p) = pid w) pk;
  c_cc : cc_run c0 pk = Some (cc w);
  c_pes : groups (wires pk ++ [pending w]) [] = hist;
  c_metas : metas pk ++ meta_of (adaptation (current w)) = ms;
}.

Lemma capacity_184 : TSPacketPayloadCapacity = 184.
Proof. reflexivity. Qed.

Lemma capacity_none : payloadCapacity None = Ok TSPacketPayloadCapacity.
Proof. done. Qed.

(** The capacity left by a field of which [n] bytes are not stuffing. *)
Lemma capacity_some f cap : payloadCapacity (Some f) = Ok cap ->
  exists n, base_length (clone_without_stuffing f) = Ok n
    /\ (Z.of_nat cap = 183 - n)%Z /\ (0 <= n)%Z /\ cap <= 183.
Proof.
  unfold payloadCapacity. rewrite size_of_field.
  destruct (base_length (clone_without_stuffing f)) as [n|] eqn:Hn; [|done].
  cbn [mbind outcome_bind]. rewrite capacity_184. pose proof (base_range _ _ Hn).
  destruct (Z.ltb_spec (Z.of_nat 184) (1 + n)); [done|]. intros [= <-]. exists n.
  split_and!; lia || done.
Qed.

Lemma capacity_le field cap : payloadCapacity field = Ok cap -> cap <= TSPacketPayloadCapacity.
Proof.
  destruct field as [f|]; [|by intros [= <-]]. rewrite capacity_184.
  intros (n & _ & _ & _ & ?)%capacity_some. lia.
Qed.

Lemma next_cc_mod c : (0 <= c < 16)%Z -> next_cc c = ((c + 1) mod 16)%Z.
Proof.
  intros. unfold next_cc. rewrite u8_small by lia. change 0x0F%Z with (Z.ones 4).
  by rewrite Z.land_ones by lia.
Qed.

Lemma previous_cc_mod c : (0 <= c < 16)%Z -> previous_cc c = ((c - 1) mod 16)%Z.
Proof.
  intros. unfold previous_cc. rewrite u8_small by lia. change 0x0F%Z with (Z.ones 4).
  rewrite Z.land_ones by lia. change (2 ^ 4)%Z with 16%Z.
  rewrite <- (Z_mod_plus_full (c - 1) 1 16). f_equal. change (Z.ones 4) with 15%Z. lia.
Qed.

(** ** Groups of transport payloads *)
Lemma groups_snoc l b x : groups (l ++ [(b, x)]) [] =
  if b then groups l [] ++ [x] else alter_last (fun g => g ++ x) (groups l []).
Proof. rewrite groups_app. by destruct b. Qed.

Lemma alter_last_id {A} (f : A -> A) l : (forall x, f x = x) -> alter_last f l = l.
Proof.
  intros Hf. destruct l as [|x l _] using rev_ind; [done|]. by rewrite alter_last_snoc, Hf.
Qed.

Lemma groups_nothing l : groups (l ++ [(false, [])]) [] = groups l [].
Proof. rewrite groups_snoc. apply alter_last_id. intros x. apply app_nil_r. Qed.

(** More bytes in the last payload. *)
Lemma groups_more l b x d : groups (l ++ [(b, x ++ d)]) [] =
  alter_last (fun g => g ++ d) (groups (l ++ [(b, x)]) []).
Proof.
  rewrite !groups_snoc. destruct b; [by rewrite alter_last_snoc|].
  rewrite alter_last_twice. apply alter_last_ext. intros g. by rewrite app_assoc.
Qed.

(** ** The methods *)
Section Methods.
Context (c0 : Z).

Lemma empty_wf w : (0 <= cc w < 16)%Z -> current w = empty_pending -> wf w.
Proof.
  intros Hc E. split; rewrite ?E; try done. exists TSPacketPayloadCapacity. split; [done|].
  rewrite capacity_184. cbn. lia.
Qed.

(** What the stuffing of a payload packet amounts to. *)
Lemma stuffed w cap : payloadCapacity (adaptation (current w)) = Ok cap ->
  0 < payloadLen (current w) <= cap ->
  (forall f, adaptation (current w) = Some f -> HasAdaptationFieldData (Some f) = true) ->
  let remaining := TSPacketPayloadCapacity - payloadLen (current w) in
  exists field, optionally (0 <? remaining)
      (wrap_err "TS packetizer: prepare adaptation field" (lift (
        match adaptation (current w) with
        | None => NewStuffingAdaptationField (Z.of_nat remaining)
        | Some _ => AdaptationFieldWithSize (adaptation (current w)) (Z.of_nat remaining)
        end))) w = (Ok field, w)
    /\ meta_of field = meta_of (adaptation (current w))
    /\ match field with
       | None => (0 <? remaining) = false /\ payloadLen (current w) = 184
       | Some a => (0 <? remaining) = true
           /\ exists n, wire_size a = Ok n /\ (n + Z.of_nat (payloadLen (current w)) = 184)%Z
       end.
Proof.
  intros Hcap Hlen Hdata. cbn zeta. pose proof (capacity_le _ _ Hcap) as Hle. rewrite capacity_184 in *.
  destruct (adaptation (current w)) as [f|] eqn:Ha.
  - destruct (capacity_some f cap Hcap) as (n & Hn & Hc & Hn0 & Hc183).
    rewrite (proj2 (Nat.ltb_lt _ _)) by lia.
    pose proof (with_size_spec f n (Z.of_nat (184 - payloadLen (current w))) Hn) as Hw.
    rewrite (proj2 (Z.leb_le _ _)) in Hw by lia. destruct Hw as (a & Ea & Hs & Hm); [lia|].
    exists (Some a). split; [unfold optionally; rewrite bind_unfold; unfold wrap_err, lift; by rewrite Ea|split].
    + unfold meta_of. rewrite <- (has_data_clone a), Hm, has_data_clone. done.
    + split; [done|]. exists (Z.of_nat (184 - payloadLen (current w))). split; [done|lia].
  - destruct (Nat.ltb_spec 0 (184 - payloadLen (current w))).
    + destruct (new_stuffing_spec (Z.of_nat (184 - payloadLen (current w)))) as (a & Ea & Hs & Hd); [lia|].
      exists (Some a). split; [unfold optionally; rewrite bind_unfold; unfold wrap_err, lift; by rewrite Ea|split].
      * cbn [meta_of]. by rewrite Hd.
      * split; [done|]. exists (Z.of_nat (184 - payloadLen (current w))). split; [done|lia].
    + exists None. split_and!; try done. lia.
Qed.

(** Emitting the pending payload packet. *)
Lemma flush_payload pk hist ms w cap : carries c0 pk w hist ms ->
  payloadCapacity (adaptation (current w)) = Ok cap -> 0 < payloadLen (current w) <= cap ->
  length (payload (current w)) = TSPacketPayloadCapacity -> (0 <= cc w < 16)%Z ->
  (forall f, adaptation (current w) = Some f -> HasAdaptationFieldData (Some f) = true) ->
  exists w' p, flushPayloadPacket w = (Ok tt, w') /\ packets w' = packets w ++ [p]
    /\ carries c0 (pk ++ [p]) w' hist ms /\ wf w' /\ current w' = empty_pending
    /\ pesOpen w' = pesOpen w /\ pid w' = pid w.
Proof.
  intros [Hf Hp Hc Hpes Hm] Hcap Hlen Hpl Hcc Hdata.
  destruct (stuffed w cap Hcap Hlen Hdata) as (field & Efield & Hmeta & Hfield).
  unfold flushPayloadPacket. rewrite (bind_ok get _ w w w) by done. cbn zeta.
  rewrite (proj2 (Nat.eqb_neq _ _)) by lia. rewrite (bind_ok (fail_if _ _) _ w tt w) by done.
  rewrite (bind_ok _ _ w field w Efield). do 2 eexists. split; [done|].
  cbn [packets set_current set_cc set_packets]. split; [done|].
  split; [|split_and!; try done; apply empty_wf; [|done]; cbn [cc set_current set_cc];
    rewrite next_cc_mod by done; by apply Z.mod_pos_bound].
  assert (Htk : length (take (payloadLen (current w)) (payload (current w))) = payloadLen (current w)).
  { rewrite length_take, Hpl. apply capacity_le in Hcap. lia. }
  split; cbn [pid cc current set_current set_cc set_packets].
  - apply Forall_app. split; [done|]. constructor; [|done]. unfold fits.
    cbn [AdaptationField Header HasAdaptationField Payload]. rewrite Htk.
    destruct field as [a|]; destruct Hfield as [-> Hfield]; [done|]. split; [done|lia].
  - apply Forall_app. split; [done|]. by constructor.
  - rewrite cc_run_app, Hc. cbn [mbind option_bind cc_run HasPayload Header ContinuityCounter].
    by rewrite Z.eqb_refl, next_cc_mod.
  - rewrite wires_app. unfold pending. cbn [current pusi payloadLen payload empty_pending take].
    rewrite groups_nothing. done.
  - rewrite metas_app. cbn [adaptation empty_pending meta_of]. rewrite app_nil_r, <- Hm. f_equal.
    unfold metas. cbn. by rewrite app_nil_r.
Qed.

(** A packet made of an adaptation field alone. *)
Lemma adaptation_only f n w : base_length (clone_without_stuffing f) = Ok n ->
  HasAdaptationFieldData (Some f) = true -> (0 <= cc w < 16)%Z ->
  if (1 + n <=? 184)%Z then
    exists p, writeAdaptationOnly (Some f) w = (Ok tt, set_packets (packets w ++ [p]) w)
      /\ fits p /\ PID (Header p) = pid w /\ HasPayload (Header p) = false
      /\ ContinuityCounter (Header p) = ((cc w - 1) mod 16)%Z
      /\ meta_of (AdaptationField p) = [clone_without_stuffing f]
  else writeAdaptationOnly (Some f) w =
    (Fail (Err (Wrapf "TS packetizer: prepare adaptation-only field"
       (Errorf "astits: adaptation field does not fit the target size"))), w).
Proof.
  intros Hn Hd Hcc. pose proof (with_size_spec f n 184 Hn) as Hw. unfold writeAdaptationOnly.
  rewrite capacity_184. change (Z.of_nat 184) with 184%Z. rewrite bind_unfold. unfold wrap_err, lift.
  destruct (Z.leb_spec (1 + n) 184); last by rewrite Hw.
  destruct Hw as (a & -> & Hs & Hm); [done|]. eexists. split; [done|].
  cbn [Header PID HasPayload ContinuityCounter AdaptationField]. split_and!; try done.
  - split; [done|]. by exists 184%Z.
  - by apply previous_cc_mod.
  - unfold meta_of. by rewrite <- (has_data_clone a), Hm, has_data_clone, Hd.
Qed.

Lemma carries_only pk w hist ms p : carries c0 pk w hist ms ->
  fits p -> PID (Header p) = pid w -> HasPayload (Header p) = false ->
  ContinuityCounter (Header p) = ((cc w - 1) mod 16)%Z -> adaptation (current w) = None ->
  carries c0 (pk ++ [p]) w hist (ms ++ meta_of (AdaptationField p)).
Proof.
  intros [Hf Hp Hc Hpes Hm] H1 H2 H3 H4 H5. split.
  - apply Forall_app. split; [done|]. by constructor.
  - apply Forall_app. split; [done|]. by constructor.
  - rewrite cc_run_app, Hc. cbn [mbind option_bind cc_run]. by rewrite H3, H4, Z.eqb_refl.
  - rewrite wires_app. unfold wires at 2. cbn [fmap list_fmap concat]. unfold wire. rewrite H3.
    by rewrite app_nil_r.
  - rewrite H5 in *. cbn [meta_of] in *. rewrite app_nil_r in *. subst ms.
    rewrite metas_app. f_equal. unfold metas. cbn. by rewrite app_nil_r.
Qed.

(** Scheduled metadata that no payload followed. *)
Lemma flush_adaptation pk hist ms w f : carries c0 pk w hist ms -> wf w ->
  adaptation (current w) = Some f ->
  exists w' p, flushPendingAdaptationOnly w = (Ok tt, w') /\ packets w' = packets w ++ [p]
    /\ carries c0 (pk ++ [p]) w' hist ms /\ wf w' /\ pesOpen w' = pesOpen w /\ pid w' = pid w
    /\ current w' = set_adaptation None (current w).
Proof.
  intros Hcar [Hl (cap & Hcap & Hlt) Hcc Hdata] Ha.
  rewrite Ha in Hcap. destruct (capacity_some f cap Hcap) as (n & Hn & Hc & Hn0 & _).
  pose proof (adaptation_only f n w Hn (Hdata f Ha) Hcc) as Ho.
  rewrite (proj2 (Z.leb_le _ _)) in Ho by lia. destruct Ho as (p & Ew & Hf & Hp & Hnp & Hpc & Hm).
  unfold flushPendingAdaptationOnly. rewrite (bind_ok get _ w w w) by done.
  rewrite Ha, (bind_ok _ _ _ _ _ Ew). do 2 eexists. split; [done|].
  cbn [packets set_current set_packets]. split; [done|].
  assert (Hcar' : carries c0 pk (set_current (set_adaptation None (current w)) w) hist (metas pk)).
  { destruct Hcar as [? ? ? Hpes ?]. split; try done. cbn. by rewrite app_nil_r. }
  split.
  { pose proof (carries_only pk _ hist _ p Hcar' Hf Hp Hnp Hpc eq_refl) as [? ? ? ? Hms].
    split; try done. rewrite Hm in Hms. destruct Hcar as [_ _ _ _ Hms0].
    rewrite Ha in Hms0. unfold meta_of in Hms0 at 1. rewrite (Hdata f Ha) in Hms0.
    cbn [current set_current set_packets] in *. congruence. }
  split_and!; try done. split; try done. exists TSPacketPayloadCapacity. split; [done|].
  apply capacity_le in Hcap. cbn. lia.
Qed.

(** *** Writing PES bytes *)
Definition pending_ok (w : TSPacketizer) : Prop :=
  pusi (current w) = true -> 0 < payloadLen (current w).

(** What has been achieved since [w0], whose packets were [pk0], when [hist] and
    [ms] are carried now. *)
Definition achieved (pk0 : list Packet) (w0 w : TSPacketizer) (hist : list (list Z))
    (ms : list PacketAdaptationField) : Prop :=
  exists more, packets w = packets w0 ++ more /\ carries c0 (pk0 ++ more) w hist ms
    /\ wf w /\ pid w = pid w0.

Lemma achieved_trans pk0 w0 w1 w2 hist ms more : packets w1 = packets w0 ++ more ->
  pid w1 = pid w0 -> achieved (pk0 ++ more) w1 w2 hist ms -> achieved pk0 w0 w2 hist ms.
Proof.
  intros Hp Hpid (more' & Hp' & Hc & Hw & Hpid'). exists (more ++ more').
  rewrite Hp', Hp, app_assoc. rewrite <- app_assoc in Hc. split_and!; try done. congruence.
Qed.

Lemma append_pending w d cap : length (payload (current w)) = TSPacketPayloadCapacity ->
  payloadCapacity (adaptation (current w)) = Ok cap -> payloadLen (current w) + length d <= cap ->
  pending (set_current (append_payload d (current w)) w)
  = ((pending w).1, (pending w).2 ++ d).
Proof.
  intros Hl Hcap Hle. apply capacity_le in Hcap.
  unfold pending. cbn [current set_current append_payload pusi payload payloadLen fst snd]. f_equal.
  rewrite take_copy_at by lia. f_equal. apply take_ge. lia.
Qed.

Lemma write_step pk hist ms w data : carries c0 pk w hist ms -> wf w -> data <> [] ->
  exists n w', writePESBytes_step data w = (Ok (inl (drop n data)), w') /\ 0 < n <= length data
    /\ achieved pk w w' (alter_last (fun g => g ++ take n data) hist) ms
    /\ pesOpen w' = pesOpen w /\ pending_ok w'.
Proof.
  intros Hcar [Hl (cap & Hcap & Hlt) Hcc Hdata] Hd. unfold writePESBytes_step.
  rewrite decide_False by done. rewrite (bind_ok get _ w w w) by done.
  rewrite Hcap. rewrite (bind_ok (wrap_err _ _) _ w cap w) by done.
  rewrite (proj2 (Nat.eqb_neq cap 0)) by lia. rewrite (bind_ok (fail_if _ _) _ w tt w) by done.
  rewrite (proj2 (Nat.eqb_neq (payloadLen (current w)) cap)) by lia.
  rewrite (proj2 (Nat.ltb_ge cap _)) by lia. cbn zeta.
  set (n := min (length data) (cap - payloadLen (current w))).
  assert (Hn : 0 < n <= length data) by (destruct data; [done|cbn [length] in *; subst n; lia]).
  assert (Hle : payloadLen (current w) + length (take n data) <= cap) by (subst n; llia).
  assert (Htn : length (take n data) = n) by (rewrite length_take; lia).
  set (w1 := set_current (append_payload (take n data) (current w)) w).
  rewrite (bind_ok (modify _) _ w tt w1) by done. rewrite (bind_ok get _ w1 w1 w1) by done.
  assert (Hcar1 : carries c0 pk w1 (alter_last (fun g => g ++ take n data) hist) ms).
  { destruct Hcar as [? ? ? Hpes ?]. split; try done. subst w1.
    rewrite (append_pending w _ cap Hl Hcap Hle), groups_more. rewrite <- Hpes.
    by destruct (pending w). }
  assert (Hpl1 : length (payload (current w1)) = TSPacketPayloadCapacity).
  { subst w1. cbn [current set_current append_payload payload]. apply capacity_le in Hcap.
    rewrite length_copy_at by lia. done. }
  assert (Hlen1 : payloadLen (current w1) = payloadLen (current w) + n)
    by (subst w1; cbn [current set_current append_payload payloadLen]; lia).
  exists n. destruct (Nat.eqb_spec (payloadLen (current w1)) cap) as [Heq|Hne]; cbn [when].
  - destruct (flush_payload pk _ ms w1 cap Hcar1 Hcap) as (w' & p & Ew & Hpk & Hcar' & Hwf & Hcur & Ho & Hpid);
      [lia|done..|].
    exists w'. rewrite (bind_ok _ _ _ _ _ Ew). split_and!; try done; [lia..| |].
    + exists [p]. by split_and!.
    + unfold pending_ok. by rewrite Hcur.
  - exists w1. split_and!; try done; [lia..| |].
    + exists []. rewrite !app_nil_r. split_and!; try done. split; try done. exists cap. split; [done|lia].
    + intros _. lia.
Qed.

Lemma write_bytes pk hist ms w data : carries c0 pk w hist ms -> wf w ->
  exists w', writePESBytes data w = (Ok tt, w')
    /\ achieved pk w w' (alter_last (fun g => g ++ data) hist) ms
    /\ pesOpen w' = pesOpen w /\ (data <> [] \/ pending_ok w -> pending_ok w').
Proof.
  intros Hcar Hwf. unfold writePESBytes.
  pose (I := fun d1 w1 => exists d0, data = d0 ++ d1
    /\ achieved pk w w1 (alter_last (fun g => g ++ d0) hist) ms
    /\ pesOpen w1 = pesOpen w /\ (d0 <> [] \/ pending_ok w -> pending_ok w1)).
  pose (Q := fun (r : outcome unit) w1 => r = Ok tt /\ I [] w1).
  assert (Hloop : let '(r, w') := iter (2 * length data + 2) writePESBytes_step data w in Q r w').
  { apply (iter_rule I (fun d1 _ => length d1) Q); [| |lia].
    - intros d1 w1 (d0 & Hd & Hach & Ho & Hok). destruct (decide (d1 = [])) as [->|Hd1].
      { unfold writePESBytes_step. cbn. split; [done|]. by exists d0. }
      pose proof Hach as (more & Hp1 & Hcar1 & Hwf1 & Hpid1).
      destruct (write_step _ _ _ _ d1 Hcar1 Hwf1 Hd1) as (n & w2 & -> & Hn & Hach2 & Ho2 & Hok2).
      split; [|llia]. exists (d0 ++ take n d1). split_and!.
      + by rewrite <- app_assoc, take_drop.
      + eapply achieved_trans; [exact Hp1|exact Hpid1|]. rewrite alter_last_twice in Hach2.
        erewrite alter_last_ext; [exact Hach2|]. intros g. cbn. by rewrite app_assoc.
      + congruence.
      + done.
    - exists []. split_and!; try done; [|by intros [?|?]].
      exists []. rewrite !app_nil_r. rewrite alter_last_id by (intros; apply app_nil_r). by split_and!. }
  destruct (iter _ _ _ w) as [r w']. destruct Hloop as (-> & d0 & Hd & Hach & Ho & Hok).
  rewrite app_nil_r in Hd. subst d0. exists w'. by split_and!.
Qed.

(** ** The specification *)
Record stream := MkStream {
  s_pes : list (list Z);
  s_open : bool;
  s_metas : list PacketAdaptationField;
}.

Definition new_stream : stream := {| s_pes := []; s_open := false; s_metas := [] |}.

Definition add_metas (l : list PacketAdaptationField) (s : stream) : stream :=
  {| s_pes := s_pes s; s_open := s_open s; s_metas := s_metas s ++ l |}.

Inductive op :=
  | OBegin (header : list Z)
  | OWrite (payload : list Z)
  | OEnd
  | OSet (field : option PacketAdaptationField)
  | OOnly (field : option PacketAdaptationField)
  | OTake.

(** The calls, the packets taken being collected. *)
Definition run_op (o : op) : M (TSPacketizer * list Packet) unit :=
  match o with
  | OBegin h => on_fst (BeginPES h)
  | OWrite d => on_fst (WritePESPayload d)
  | OEnd => on_fst EndPES
  | OSet f => on_fst (SetNextPacketAdaptationField f)
  | OOnly f => on_fst (WriteAdaptationOnly f)
  | OTake => pk ← on_fst TakePackets; on_snd (modify (fun out => out ++ pk))
  end.

Definition run_ops (ops : list op) : M (TSPacketizer * list Packet) unit :=
  for_each run_op ops;; on_fst Flush;; run_op OTake.

Definition spec_op (o : op) (s : stream) : outcome stream :=
  match o with
  | OBegin h =>
      if s_open s then Fail (Err (Errorf "TS packetizer: previous PES is still open"))
      else if length h <? 6 then Fail (Err (Errorf "TS packetizer: PES header is too short"))
      else if negb ((byte_at h 0 =? 0) && (byte_at h 1 =? 0) && (byte_at h 2 =? 1))%Z then
        Fail (Err (Errorf "TS packetizer: PES start code prefix missing"))
      else Ok {| s_pes := s_pes s ++ [h]; s_open := true; s_metas := s_metas s |}
  | OWrite d =>
      if s_open s then
        Ok {| s_pes := alter_last (fun g => g ++ d) (s_pes s); s_open := true; s_metas := s_metas s |}
      else Fail (Err (Errorf "TS packetizer: write outside PES"))
  | OEnd =>
      if s_open s then Ok {| s_pes := s_pes s; s_open := false; s_metas := s_metas s |}
      else Fail (Err (Errorf "TS packetizer: no open PES"))
  | OSet field =>
      if HasAdaptationFieldData field then
        match payloadCapacity field with
        | Ok 0 | Fail (Err _) =>
            Fail (Err (Errorf "TS packetizer: adaptation field leaves no payload capacity"))
        | Fail f => Fail f
        | Ok _ => Ok (add_metas (meta_of field) s)
        end
      else Ok s
  | OOnly field =>
      if HasAdaptationFieldData field then
        match AdaptationFieldWithSize field 184 with
        | Fail (Err e) => Fail (Err (Wrapf "TS packetizer: prepare adaptation-only field" e))
        | Fail f => Fail f
        | Ok _ => Ok (add_metas (meta_of field) s)
        end
      else Ok s
  | OTake => Ok s
  end.

Fixpoint spec_ops (ops : list op) (s : stream) : outcome stream :=
  match ops with
  | [] => if s_open s then Fail (Err (Errorf "TS packetizer: PES is still open")) else Ok s
  | o :: ops => s ← spec_op o s; spec_ops ops s
  end.

(** ** The simulation *)
Record rel (id : Z) (w : TSPacketizer) (out : list Packet) (s : stream) : Prop := Rel {
  r_carries : carries c0 (out ++ packets w) w (s_pes s) (s_metas s);
  r_wf : wf w;
  r_open : pesOpen w = s_open s;
  r_pending : pending_ok w;
  r_closed : s_open s = false -> payloadLen (current w) = 0 /\ pusi (current w) = false;
  r_pid : pid w = id;
}.

Lemma rel_achieved id w w' out s s' : rel id w out s ->
  achieved (out ++ packets w) w w' (s_pes s') (s_metas s') -> pesOpen w' = s_open s' ->
  pending_ok w' -> (s_open s' = false -> payloadLen (current w') = 0 /\ pusi (current w') = false) ->
  rel id w' out s'.
Proof.
  intros [_ _ _ _ _ Hid] (more & Hp & Hc & Hw & Hpid) Ho Hok Hcl. split; try done.
  - rewrite Hp, app_assoc. done.
  - congruence.
Qed.

(** The two outcomes agree. *)
Definition agrees (id : Z) (out : list Packet) (r : outcome unit * TSPacketizer) (o : outcome stream) : Prop :=
  match r, o with
  | (Ok _, w'), Ok s' => rel id w' out s'
  | (Fail f, _), Fail f' => f = f'
  | _, _ => False
  end.

Lemma begin_sim id w out s h : rel id w out s -> agrees id out (BeginPES h w) (spec_op (OBegin h) s).
Proof.
  intros Hr. pose proof Hr as [Hc Hw Ho Hp Hcl Hid]. unfold BeginPES. cbn [spec_op].
  rewrite (bind_ok get _ w w w) by done. rewrite Ho.
  destruct (s_open s) eqn:Hso; [done|]. rewrite (bind_ok (fail_if _ _) _ w tt w) by done.
  destruct (length h <? 6) eqn:Hlen; [done|]. rewrite (bind_ok (fail_if _ _) _ w tt w) by done.
  destruct (negb _); [done|]. rewrite (bind_ok (fail_if _ _) _ w tt w) by done.
  destruct (Hcl eq_refl) as [Hl Hpu]. rewrite Hl, Hpu. cbn [Nat.ltb Nat.leb orb].
  rewrite (bind_ok (fail_if _ _) _ w tt w) by done.
  set (w1 := set_pesOpen true (set_current (set_pusi true (current w)) w)).
  rewrite (bind_ok (modify _) _ w tt w1) by done.
  assert (Hc1 : carries c0 (out ++ packets w) w1 (s_pes s ++ [[]]) (s_metas s)).
  { destruct Hc as [? ? ? Hpes ?]. split; try done. unfold pending in *. subst w1. 
    cbn [current set_pesOpen set_current set_pusi pusi payloadLen payload] in *.
    rewrite Hl, Hpu in *. cbn [take] in *. rewrite groups_nothing in Hpes.
    by rewrite groups_snoc, Hpes. }
  assert (Hw1 : wf w1) by by destruct Hw; split.
  destruct (write_bytes _ _ _ w1 h Hc1 Hw1) as (w' & Ew & Hach & Ho' & Hok). rewrite Ew. cbn [agrees].
  apply (rel_achieved id w w' out s); try done.
  - rewrite alter_last_snoc in Hach. destruct Hach as (more & ? & ? & ? & ?). by exists more.
  - apply Hok. left. intros ->. done.
Qed.

Lemma write_sim id w out s d : rel id w out s ->
  agrees id out (WritePESPayload d w) (spec_op (OWrite d) s).
Proof.
  intros Hr. pose proof Hr as [Hc Hw Ho Hp Hcl Hid]. unfold WritePESPayload. cbn [spec_op].
  rewrite (bind_ok get _ w w w) by done. rewrite Ho.
  destruct (s_open s) eqn:Hso; [|done]. rewrite (bind_ok (fail_if _ _) _ w tt w) by done.
  destruct (write_bytes _ _ _ w d Hc Hw) as (w' & Ew & Hach & Ho' & Hok). rewrite Ew. cbn [agrees].
  apply (rel_achieved id w w' out s); try done; [cbn; congruence|]. apply Hok. by right.
Qed.

Lemma wf_pending_flush w : wf w -> 0 < payloadLen (current w) ->
  forall pk hist ms, carries c0 pk w hist ms ->
  exists w', flushPayloadPacket w = (Ok tt, w') /\ achieved pk w w' hist ms
    /\ current w' = empty_pending /\ pesOpen w' = pesOpen w.
Proof.
  intros [Hl (cap & Hcap & Hlt) Hcc Hd] Hpl pk hist ms Hc.
  destruct (flush_payload pk hist ms w cap Hc Hcap) as (w' & p & Ew & Hpk & Hc' & Hw' & Hcur & Ho & Hid);
    [lia|done..|]. exists w'. split_and!; try done. exists [p]. by split_and!.
Qed.

Lemma set_pesOpen_achieved pk w0 w hist ms b :
  achieved pk w0 w hist ms -> achieved pk w0 (set_pesOpen b w) hist ms.
Proof.
  intros (more & Hp & [? ? ? ? ?] & [? ? ? ?] & Hpid). exists more. split_and!; done.
Qed.

Lemma end_sim id w out s : rel id w out s -> agrees id out (EndPES w) (spec_op OEnd s).
Proof.
  intros Hr. pose proof Hr as [Hc Hw Ho Hp Hcl Hid]. unfold EndPES. cbn [spec_op].
  rewrite (bind_ok get _ w w w) by done. rewrite Ho.
  destruct (s_open s) eqn:Hso; [|done]. rewrite (bind_ok (fail_if _ _) _ w tt w) by done.
  destruct (Nat.ltb_spec 0 (payloadLen (current w))) as [Hlt|Hlt].
  - destruct (wf_pending_flush w Hw Hlt _ _ _ Hc) as (w' & Ew & Hach & Hcur & Ho').
    rewrite (bind_ok _ _ _ _ _ Ew). cbn [modify agrees].
    apply (rel_achieved id w _ out s); try done.
    + by apply set_pesOpen_achieved.
    + unfold pending_ok. cbn. by rewrite Hcur.
    + intros _. cbn. by rewrite Hcur.
  - assert (Hpu : pusi (current w) = false).
    { destruct (pusi (current w)) eqn:E; [|done]. specialize (Hp E). lia. }
    assert (Hsame : set_current (set_pusi false (current w)) w = w).
    { rewrite <- Hpu. by destruct w as [? ? []]. }
    rewrite (bind_ok (modify _) _ w tt w) by by unfold modify; rewrite Hsame.
    rewrite (bind_ok get _ w w w) by done.
    destruct (adaptation (current w)) as [f|] eqn:Ha.
    + rewrite bool_decide_eq_true_2 by by eexists. cbn [when].
      destruct (flush_adaptation _ _ _ w f Hc Hw Ha) as (w' & p & Ew & Hpk & Hc' & Hw' & Ho' & Hid' & Hcur).
      rewrite (bind_ok _ _ _ _ _ Ew). cbn [modify agrees].
      apply (rel_achieved id w _ out s); try done.
      * apply set_pesOpen_achieved. exists [p]. by split_and!.
      * unfold pending_ok. cbn. rewrite Hcur. cbn. by rewrite Hpu.
      * intros _. cbn. rewrite Hcur. cbn. split; [lia|done].
    + rewrite bool_decide_eq_false_2 by by intros []. cbn [when modify agrees].
      apply (rel_achieved id w _ out s); try done.
      * apply set_pesOpen_achieved. exists []. rewrite !app_nil_r. by split_and!.
      * intros _. cbn. split; [lia|done].
Qed.

(** What holds of the state between the steps of [SetNextPacketAdaptationField]
    and [WriteAdaptationOnly]. *)
Record between (pk : list Packet) (w0 w : TSPacketizer) (s : stream) : Prop := Between {
  b_achieved : achieved pk w0 w (s_pes s) (s_metas s);
  b_open : pesOpen w = s_open s;
  b_pending : pending_ok w;
  b_closed : s_open s = false -> payloadLen (current w) = 0 /\ pusi (current w) = false;
}.

Lemma rel_between id w out s : rel id w out s -> between (out ++ packets w) w w s.
Proof.
  intros [? ? ? ? ? ?]. split; try done. exists []. rewrite !app_nil_r. by split_and!.
Qed.

Lemma between_rel id w w' out s : rel id w out s -> between (out ++ packets w) w w' s -> rel id w' out s.
Proof. intros Hr [? ? ? ?]. by apply (rel_achieved id w w' out s). Qed.

Lemma between_flush pk w0 w s : between pk w0 w s -> 0 < payloadLen (current w) ->
  exists w', flushPayloadPacket w = (Ok tt, w') /\ between pk w0 w' s /\ current w' = empty_pending.
Proof.
  intros [(more & Hp & Hc & Hw & Hid) Ho Hpe Hcl] Hlt.
  destruct (wf_pending_flush w Hw Hlt _ _ _ Hc) as (w' & Ew & Hach & Hcur & Ho').
  exists w'. split; [done|]. split; [|done]. split.
  - by eapply achieved_trans.
  - congruence.
  - unfold pending_ok. by rewrite Hcur.
  - by rewrite Hcur.
Qed.

Lemma between_flush_adaptation pk w0 w s : between pk w0 w s -> is_Some (adaptation (current w)) ->
  exists w', flushPendingAdaptationOnly w = (Ok tt, w') /\ between pk w0 w' s
    /\ current w' = set_adaptation None (current w).
Proof.
  intros [(more & Hp & Hc & Hw & Hid) Ho Hpe Hcl] [f Ha].
  destruct (flush_adaptation _ _ _ w f Hc Hw Ha) as (w' & p & Ew & Hpk & Hc' & Hw' & Ho' & Hid' & Hcur).
  exists w'. split; [done|]. split; [|done]. split.
  - eapply achieved_trans; [exact Hp|exact Hid|]. exists [p]. by split_and!.
  - congruence.
  - unfold pending_ok. rewrite Hcur. exact Hpe.
  - rewrite Hcur. exact Hcl.
Qed.

(** Older metadata goes out first. *)
Lemma between_older pk w0 w s : between pk w0 w s ->
  exists w', when (bool_decide (is_Some (adaptation (current w))))
      (if 0 <? payloadLen (current w) then flushPayloadPacket else flushPendingAdaptationOnly) w
    = (Ok tt, w') /\ between pk w0 w' s /\ adaptation (current w') = None.
Proof.
  intros Hb. destruct (adaptation (current w)) as [f|] eqn:Ha.
  - rewrite bool_decide_eq_true_2 by by eexists. cbn [when].
    destruct (Nat.ltb_spec 0 (payloadLen (current w))) as [Hlt|Hlt].
    + destruct (between_flush _ _ _ _ Hb Hlt) as (w' & Ew & Hb' & Hcur). exists w'. by rewrite Hcur.
    + destruct (between_flush_adaptation _ _ _ _ Hb) as (w' & Ew & Hb' & Hcur); [by rewrite Ha|].
      exists w'. by rewrite Hcur.
  - rewrite bool_decide_eq_false_2 by by intros []. by exists w.
Qed.

Lemma set_sim id w out s field : rel id w out s ->
  agrees id out (SetNextPacketAdaptationField field w) (spec_op (OSet field) s).
Proof.
  intros Hr. unfold SetNextPacketAdaptationField. cbn [spec_op].
  destruct (HasAdaptationFieldData field) eqn:Hd; [|done]. cbn [negb].
  rewrite (bind_ok get _ w w w) by done.
  destruct (between_older _ _ _ _ (rel_between _ _ _ _ Hr)) as (w1 & E1 & Hb1 & Ha1).
  rewrite (bind_ok _ _ _ _ _ E1).
  destruct (payloadCapacity field) as [cap|fl] eqn:Hcap; [|by destruct fl].
  destruct (decide (cap = 0)) as [->|Hcap0]; [done|].
  rewrite (bind_ok _ _ w1 cap w1) by by destruct cap.
  rewrite (bind_ok get _ w1 w1 w1) by done.
  assert (Hflush : exists w2, when (cap <=? payloadLen (current w1)) flushPayloadPacket w1 = (Ok tt, w2)
    /\ between (out ++ packets w) w w2 s /\ adaptation (current w2) = None
    /\ payloadLen (current w2) < cap).
  { destruct (Nat.leb_spec cap (payloadLen (current w1))) as [Hle|Hlt]; cbn [when].
    - destruct (between_flush _ _ _ _ Hb1) as (w2 & E2 & Hb2 & Hcur); [lia|].
      exists w2. rewrite Hcur. split_and!; try done. cbn. lia.
    - by exists w1. }
  destruct Hflush as (w2 & E2 & [(more & Hp & Hc & Hw & Hid) Ho Hpe Hcl] & Ha2 & Hlt2).
  rewrite (bind_ok _ _ _ _ _ E2). cbn [modify].
  assert (Hgoal : rel id (set_current (set_adaptation field (current w2)) w2) out (add_metas (meta_of field) s)).
  { apply (rel_achieved id w _ out s); try done. exists more. split_and!; try done.
    - destruct Hc as [? ? ? ? Hm]. split; try done. rewrite Ha2 in Hm. cbn [meta_of] in Hm.
      rewrite app_nil_r in Hm. cbn [add_metas s_metas]. by rewrite <- Hm.
    - destruct Hw as [? ? ? ?]. split; try done; [by exists cap|]. intros f E. cbn in E. by subst field. }
  by destruct cap.
Qed.

Lemma only_sim id w out s field : rel id w out s ->
  agrees id out (WriteAdaptationOnly field w) (spec_op (OOnly field) s).
Proof.
  intros Hr. unfold WriteAdaptationOnly. cbn [spec_op].
  destruct (HasAdaptationFieldData field) eqn:Hd; [|done]. cbn [negb].
  destruct field as [f|]; [|done]. rewrite (bind_ok get _ w w w) by done.
  assert (Hfirst : exists w1, (if 0 <? payloadLen (current w) then flushPayloadPacket
      else when (bool_decide (is_Some (adaptation (current w)))) flushPendingAdaptationOnly) w = (Ok tt, w1)
    /\ between (out ++ packets w) w w1 s /\ adaptation (current w1) = None).
  { pose proof (rel_between _ _ _ _ Hr) as Hb. destruct (Nat.ltb_spec 0 (payloadLen (current w))) as [Hlt|Hlt].
    - destruct (between_flush _ _ _ _ Hb Hlt) as (w' & Ew & Hb' & Hcur). exists w'. by rewrite Hcur.
    - destruct (adaptation (current w)) as [g|] eqn:Ha.
      + rewrite bool_decide_eq_true_2 by by eexists.
        destruct (between_flush_adaptation _ _ _ _ Hb) as (w' & Ew & Hb' & Hcur); [by rewrite Ha|].
        exists w'. by rewrite Hcur.
      + rewrite bool_decide_eq_false_2 by by intros []. by exists w. }
  destruct Hfirst as (w1 & E1 & [(more & Hp & Hc & Hw & Hid) Ho Hpe Hcl] & Ha1).
  rewrite (bind_ok _ _ _ _ _ E1). destruct (base_length (clone_without_stuffing f)) as [n|fl] eqn:Hn.
  - pose proof (with_size_spec f n 184 Hn) as Hs.
    pose proof (adaptation_only f n w1 Hn Hd (wf_cc _ Hw)) as Hw1.
    destruct (Z.leb_spec (1 + n) 184) as [Hle|Hgt].
    + destruct Hs as (a & -> & _); [done|]. destruct Hw1 as (p & -> & Hf & Hpid & Hnp & Hpc & Hm).
      cbn [agrees]. apply (rel_achieved id w _ out s); try done. exists (more ++ [p]). split_and!; try done.
      * cbn [packets set_packets]. by rewrite Hp, app_assoc.
      * rewrite app_assoc. pose proof (carries_only _ _ _ _ _ Hc Hf Hpid Hnp Hpc Ha1) as [? ? ? ? Hms].
        split; try done. cbn [add_metas s_metas meta_of]. rewrite Hd, <- Hm. done.
      * by destruct Hw; split.
    + rewrite Hw1, Hs by done. done.
  - assert (Hsz : AdaptationFieldWithSize (Some f) 184 = Fail fl).
    { unfold AdaptationFieldWithSize. rewrite size_of_field, clone_clone, Hn. done. }
    unfold writeAdaptationOnly. rewrite capacity_184. change (Z.of_nat 184) with 184%Z.
    rewrite bind_unfold. unfold wrap_err, lift. rewrite Hsz. by destruct fl.
Qed.

(** Any call: the states agree, or both fail alike. *)
Lemma op_sim id w out s o : rel id w out s ->
  match run_op o (w, out), spec_op o s with
  | (Ok _, (w', out')), Ok s' => rel id w' out' s'
  | (Fail f, _), Fail f' => f = f'
  | _, _ => False
  end.
Proof.
  intros Hr. assert (Hfst : forall m o', agrees id out (m w) o' ->
    match on_fst m (w, out), o' with
    | (Ok _, (w', out')), Ok s' => rel id w' out' s'
    | (Fail f, _), Fail f' => f = f'
    | _, _ => False
    end).
  { intros m o'. unfold on_fst, agrees. destruct (m w) as [[|] w']; [|by destruct o'].
    by destruct o'. }
  destruct o; cbn [run_op]; try apply Hfst.
  - by apply begin_sim.
  - by apply write_sim.
  - by apply end_sim.
  - by apply set_sim.
  - by apply only_sim.
  - cbn. destruct Hr as [[? ? ? ? ?] [? ? ? ?] ? ? ? ?]. split; try done.
    split; try done; cbn; by rewrite app_nil_r.
Qed.

Lemma flush_sim id w out s : rel id w out s ->
  if s_open s then Flush w = (Fail (Err (Errorf "TS packetizer: PES is still open")), w)
  else exists w', Flush w = (Ok tt, w') /\ rel id w' out s /\ current w' = set_adaptation None (current w).
Proof.
  intros Hr. pose proof Hr as [Hc Hw Ho Hp Hcl Hid]. unfold Flush.
  rewrite (bind_ok get _ w w w) by done. rewrite Ho. destruct (s_open s) eqn:Hso; [done|].
  destruct (Hcl eq_refl) as [Hl Hpu]. rewrite Hl, Hpu. cbn [Nat.ltb Nat.leb orb].
  rewrite (bind_ok (fail_if _ _) _ w tt w) by done.
  destruct (adaptation (current w)) as [f|] eqn:Ha.
  - rewrite bool_decide_eq_true_2 by by eexists. cbn [when].
    destruct (between_flush_adaptation _ _ _ _ (rel_between _ _ _ _ Hr)) as (w' & Ew & Hb & Hcur);
      [by rewrite Ha|]. exists w'. split_and!; try done. by eapply between_rel.
  - rewrite bool_decide_eq_false_2 by by intros []. exists w. split_and!; try done.
    rewrite <- Ha. by destruct (current w).
Qed.

(** The packets of a whole run. *)
Record carried (id : Z) (pk : list Packet) (s : stream) : Prop := Carried {
  d_fits : Forall fits pk;
  d_pid : Forall (fun p => PID (Header p) = id) pk;
  d_cc : is_Some (cc_run c0 pk);
  d_pes : groups (wires pk) [] = s_pes s;
  d_metas : metas pk = s_metas s;
}.

Lemma rel_new id : (0 <= c0 < 16)%Z -> rel id (set_cc c0 (NewTSPacketizer id)) [] new_stream.
Proof.
  intros Hc. split; try done. by apply empty_wf.
Qed.

Lemma rel_carried id w out s : rel id w out s -> s_open s = false -> adaptation (current w) = None ->
  carried id (out ++ packets w) s.
Proof.
  intros [[Hf Hp Hc Hpes Hm] _ _ _ Hcl Hid] Hso Ha. destruct (Hcl Hso) as [Hl Hpu]. split; try done.
  - by rewrite Hid in Hp.
  - unfold pending in Hpes. rewrite Hl, Hpu in Hpes. cbn [take] in Hpes. by rewrite groups_nothing in Hpes.
  - rewrite Ha in Hm. cbn [meta_of] in Hm. by rewrite app_nil_r in Hm.
Qed.

Lemma run_sim id ops w out s : rel id w out s ->
  match run_ops ops (w, out), spec_ops ops s with
  | (Ok _, (_, pk)), Ok s' => carried id pk s'
  | (Fail f, _), Fail f' => f = f'
  | _, _ => False
  end.
Proof.
  unfold run_ops. revert w out s. induction ops as [|o ops IH]; intros w out s Hr.
  - cbn [for_each spec_ops]. rewrite (bind_ok (mret tt) _ _ tt (w, out)) by done.
    pose proof (flush_sim id w out s Hr) as Hf. destruct (s_open s) eqn:Hso.
    { rewrite bind_unfold. unfold on_fst. by rewrite Hf. }
    destruct Hf as (w' & Ew & Hr' & Hcur).
    rewrite (bind_ok _ _ _ tt (w', out)) by (unfold on_fst; by rewrite Ew).
    apply (rel_carried id w' out s Hr' Hso). by rewrite Hcur.
  - cbn [for_each spec_ops]. rewrite bind_assoc, bind_unfold.
    pose proof (op_sim id w out s o Hr) as Ho.
    destruct (run_op o (w, out)) as [[[]|f] [w1 out1]], (spec_op o s) as [s1|f1]; try done.
    by apply IH.
Qed.
End Methods.

(** C20: any sequence of calls on a new packetizer, flushed at the end, succeeds
    exactly when the specification does and fails with its error otherwise. On
    success every packet has a body of exactly 184 bytes, its adaptation field
    included, and the PID of the packetizer; the continuity counters follow one
    another, with adaptation-only packets repeating the last one; a receiver that
    cuts the payloads at the start indicators reads the PES packets written, and
    the adaptation fields arrive in order, each once. *)
Theorem packetizer_refines id c ops : (0 <= c < 16)%Z ->
  match run_ops ops (set_cc c (NewTSPacketizer id), []), spec_ops ops new_stream with
  | (Ok _, (_, pk)), Ok s => carried c id pk s
  | (Fail f, _), Fail f' => f = f'
  | _, _ => False
  end.
Proof. intros Hc. by apply run_sim, rel_new. Qed.

Import Recorder.

Definition example_ops : list op :=
  [OSet (Some (with_layout None 0 0 0 false zero_af)); OBegin [0; 0; 1; 0xE0; 0; 0; 0x80; 0; 0]%Z;
   OWrite (replicate 200 7%Z); OEnd; OBegin [0; 0; 1; 0xC0; 0; 0]%Z; OEnd].

Lemma packetizer_refines_witness : (0 <= 15 < 16)%Z /\
  match run_ops example_ops (set_cc 15 (NewTSPacketizer 256), []), spec_ops example_ops new_stream with
  | (Ok _, (_, pk)), Ok s => carried 15 256 pk s
  | (Fail f, _), Fail f' => f = f'
  | _, _ => False
  end.
Proof. split; [lia|]. apply packetizer_refines. lia. Defined.

(** The packets of the example: two for the first PES, one for the second. *)
Example packetizer_example :
  match run_ops example_ops (set_cc 15 (NewTSPacketizer 256), []) with
  | (Ok _, (_, pk)) =>
      ((fun p => (ContinuityCounter (Header p), PayloadUnitStartIndicator (Header p), length (Payload p))) <$> pk)
      = [(15, true, 184%nat); (0, false, 25%nat); (1, true, 6%nat)]%Z
  | _ => False
  end.
Proof. vm_compute. reflexivity. Qed.

(** *** Packetizing and collecting *)

(** C21: what the packetizer has made of PES packets, the collector of
    packets/pes.go turns back into calls of its handler, properly nested, one
    packet for each PES written, with its header and its payload.  When every PES
    written is whole - a start code, a complete header and, if a length is
    declared, that many bytes - the collector does not fail by itself: with a
    handler that accepts every call, it succeeds. *)
Theorem packetize_collect {W : Type} `{PESHandler W} `{PMTSignal W} id c ops s w pk :
  (0 <= c < 16)%Z -> spec_ops ops new_stream = Ok s ->
  run_ops ops (set_cc c (NewTSPacketizer id), []) = (Ok tt, (w, pk)) ->
  emits (W := W) (collect (wires pk)) new_collector
    (fun _ _ evs => well_formed evs /\ frame_events evs [] = Some (frames_of (s_pes s))
       /\ payloads evs = bodies_of (s_pes s))
    (fun e _ _ => collect_ref (wires pk) None = Fail (Err e) /\ ~ Forall whole_pes (s_pes s))
  /\ (Forall whole_pes (s_pes s) -> (forall ev (x : W), is_ok (run_event ev x).1 = true) ->
      forall x : W, exists m' x' evs, collect (wires pk) (new_collector, x) = (Ok tt, (m', x'))
        /\ run_events evs x = (Ok tt, x') /\ well_formed evs
        /\ frame_events evs [] = Some (frames_of (s_pes s)) /\ payloads evs = bodies_of (s_pes s)).
Proof.
  intros Hc Hs Hrun. pose proof (run_sim c id ops _ [] _ (rel_new c id Hc)) as Hsim.
  rewrite Hrun, Hs in Hsim. pose proof (collect_units_emits (W := W) (wires pk)) as Hu.
  rewrite (d_pes _ _ _ _ Hsim) in Hu.
  assert (forall e, collect_ref (wires pk) None = Fail (Err e) -> ~ Forall whole_pes (s_pes s)) as Hfail.
  { intros e E Hw. rewrite <- (d_pes _ _ _ _ Hsim) in Hw.
    pose proof (collect_whole (wires pk) [] None Logic.I Hw) as Hok. by rewrite E in Hok. }
  split; [eapply emits_weaken; [exact Hu|done|]; intros e ? ? E; exact (conj E (Hfail e E))|].
  intros Hw Hacc x. specialize (Hu x).
  assert (forall evs y f y', run_events evs y <> (Fail f, y')) as Hrun_ok.
  { clear -Hacc. induction evs as [|ev evs IH]; intros y f y'; [done|]. unfold run_events. cbn [for_each].
    rewrite bind_unfold. specialize (Hacc ev y). destruct (run_event ev y) as [[u|] y1]; [apply IH|done]. }
  destruct (collect (wires pk) (new_collector, x)) as [[[]|f] [m' x']].
  - destruct Hu as (evs & Hevs & Hwf & Hf & Hp). by exists m', x', evs.
  - destruct Hu as [[evs E]|(e & evs & _ & _ & E)]; [by apply Hrun_ok in E|destruct (Hfail e E Hw)].
Qed.

(** Two PES packets: of 214 bytes without a declared length, and of 12 bytes. *)
Definition whole_ops : list op :=
  [OSet (Some (with_layout None 0 0 0 false zero_af)); OBegin [0; 0; 1; 0xE0; 0; 0; 0x80; 0; 0]%Z;
   OWrite (replicate 205 7%Z); OEnd; OBegin [0; 0; 1; 0xC0; 0; 6; 0x80; 0; 1; 9]%Z; OWrite [1; 2]%Z; OEnd].

Lemma packetize_collect_witness :
  exists w pk m' evs, run_ops whole_ops (set_cc 15 (NewTSPacketizer 256), []) = (Ok tt, (w, pk))
  /\ collect (wires pk) (new_collector, []) = (Ok tt, (m', evs : list event))
  /\ frame_events evs [] = Some [MkFrame [0; 0; 1; 0xE0; 0; 0; 0x80; 0; 0]%Z 205 true;
                                 MkFrame [0; 0; 1; 0xC0; 0; 6; 0x80; 0; 1; 9]%Z 2 true]
  /\ payloads evs = replicate 205 7%Z ++ [1; 2]%Z.
Proof.
  destruct (run_ops whole_ops (set_cc 15 (NewTSPacketizer 256), [])) as [r [w pk]] eqn:Hrun.
  destruct (spec_ops whole_ops new_stream) as [s|] eqn:Hs; [|by vm_compute in Hs].
  destruct r as [[]|]; [|by vm_compute in Hrun].
  assert (s_pes s = [[0; 0; 1; 0xE0; 0; 0; 0x80; 0; 0] ++ replicate 205 7; [0; 0; 1; 0xC0; 0; 6; 0x80; 0; 1; 9; 1; 2]]%Z) as Hp
    by (vm_compute in Hs; injection Hs as <-; vm_compute; reflexivity).
  destruct (packetize_collect (W := list event) 256 15 whole_ops s w pk ltac:(lia) Hs Hrun) as [_ Hw].
  destruct (Hw ltac:(rewrite Hp; repeat constructor; by_decide) ltac:(by intros [] x) []) as (m' & x' & evs & E & Er & _ & Hf & Hb).
  rewrite run_record in Er. injection Er as <-. exists w, pk, m', evs. split; [reflexivity|]. split; [exact E|].
  rewrite Hf, Hb, Hp. split; vm_compute; reflexivity.
Defined.
