(* ===== verification/Output.v ===== *)
(** * ts/output.go: aligning and assembling the output

    An [outputAligner] gives the packets that a PID's packetizer makes to the
    slots of the input packets of that PID, and the [outputAssembler] writes the
    slots of all PIDs in input order.  The aligner is the next handler of the
    PID's codec transformer, an instance of [PESHandler]. *)

From S2P Require Import Prelude CommitQueue Packet Astikit PacketCodec Pmt PesHandler PesQueue Packetizer.

(** ** Data *)
Record packetMetadata := MkMeta {
  meta_cc : Z;
  hasPayload : bool;
  meta_adaptation : option PacketAdaptationField;
}.

Record completedSlot := MkSlot { token : Z; slot_packets : list Packet }.

Record pendingPESMetadata := MkPendingPES {
  startAdaptation : option PacketAdaptationField;
  events : list packetMetadata;
}.

Record outputAligner := MkAligner {
  packetizer : TSPacketizer;
  pendingPES : list pendingPESMetadata;
  ccInitialized : bool;
  tokens : list Z;
  pending : option completedSlot;
}.

Definition newOutputAligner (pid : Z) : outputAligner :=
  {| packetizer := NewTSPacketizer pid; pendingPES := []; ccInitialized := false;
     tokens := []; pending := None |}.

Definition set_packetizer (w : TSPacketizer) (a : outputAligner) : outputAligner :=
  {| packetizer := w; pendingPES := pendingPES a; ccInitialized := ccInitialized a;
     tokens := tokens a; pending := pending a |}.
Definition set_pendingPES (l : list pendingPESMetadata) (a : outputAligner) : outputAligner :=
  {| packetizer := packetizer a; pendingPES := l; ccInitialized := ccInitialized a;
     tokens := tokens a; pending := pending a |}.
Definition set_ccInitialized (b : bool) (a : outputAligner) : outputAligner :=
  {| packetizer := packetizer a; pendingPES := pendingPES a; ccInitialized := b;
     tokens := tokens a; pending := pending a |}.
Definition set_tokens (l : list Z) (a : outputAligner) : outputAligner :=
  {| packetizer := packetizer a; pendingPES := pendingPES a; ccInitialized := ccInitialized a;
     tokens := l; pending := pending a |}.
Definition set_pending (p : option completedSlot) (a : outputAligner) : outputAligner :=
  {| packetizer := packetizer a; pendingPES := pendingPES a; ccInitialized := ccInitialized a;
     tokens := tokens a; pending := p |}.

(** A call on the packetizer of the aligner. *)
Definition on_packetizer {A} (m : M TSPacketizer A) : M outputAligner A := fun a =>
  let '(r, w) := m (packetizer a) in (r, set_packetizer w a).

(** ** The aligner *)
Definition clonePacketMetadata (packet : Packet) : packetMetadata := {|
  meta_cc := Z.land (ContinuityCounter (Header packet)) 0x0F;
  hasPayload := HasPayload (Header packet);
  meta_adaptation :=
    if HasAdaptationFieldData (AdaptationField packet)
    then CloneAdaptationFieldWithoutStuffing (AdaptationField packet) else None;
|}.

Definition add_event (meta : packetMetadata) (p : pendingPESMetadata) : pendingPESMetadata :=
  {| startAdaptation := startAdaptation p; events := events p ++ [meta] |}.

Definition registerInputPacket (token : Z) (packet : Packet) : M outputAligner unit :=
  let meta := clonePacketMetadata packet in
  a ← get;
  when (negb (ccInitialized a))
    (let cc := if hasPayload meta then meta_cc meta else next_cc (meta_cc meta) in
     on_packetizer (SetContinuityCounter cc);;
     modify (set_ccInitialized true));;
  a ← get;
  (if hasPayload meta && PayloadUnitStartIndicator (Header packet) then
     modify (set_pendingPES (pendingPES a
       ++ [{| startAdaptation := meta_adaptation meta; events := [] |}]))
   else if (0 <? length (pendingPES a)) && bool_decide (is_Some (meta_adaptation meta)) then
     modify (set_pendingPES (PesQueue.alter_last (add_event meta) (pendingPES a)))
   else if negb (hasPayload meta) then
     on_packetizer (WriteAdaptationOnly (meta_adaptation meta))
   else
     on_packetizer (SetNextPacketAdaptationField (meta_adaptation meta)));;
  modify (fun a => set_tokens (tokens a ++ [token]) a).

(** Schedules the metadata of one source packet. *)
Definition replay (event : packetMetadata) : M outputAligner unit :=
  if negb (hasPayload event) then on_packetizer (WriteAdaptationOnly (meta_adaptation event))
  else on_packetizer (SetNextPacketAdaptationField (meta_adaptation event)).

Definition PESHeader (header : list Z) : M outputAligner unit :=
  a ← get;
  pending ← must (list.head (pendingPES a));
  modify (set_pendingPES (tail (pendingPES a)));;
  on_err (fun a => set_pendingPES (pending :: pendingPES a) a)
    (on_packetizer (SetNextPacketAdaptationField (startAdaptation pending)));;
  on_packetizer (BeginPES header);;
  for_each replay (events pending).

Definition PESPayload (payload : list Z) : M outputAligner unit :=
  on_packetizer (WritePESPayload payload).

Definition PESEnd : M outputAligner unit := on_packetizer EndPES.

#[export] Instance aligner_handler : PESHandler outputAligner := {
  PesHandler.PESHeader := PESHeader;
  PesHandler.PESPayload := PESPayload;
  PesHandler.PESEnd := PESEnd;
}.

(** Slot [i] of the [count] slots matched: the last one takes the surplus. *)
Definition matched_slot (packets : list Packet) (count i : nat) (token : Z) (packet : Packet) :
    completedSlot :=
  {| token := token;
     slot_packets := [packet] ++ (if (count <? length packets) && (i =? count - 1)
                                  then drop count packets else []) |}.

Definition match_slots (packets : list Packet) (tokens : list Z) : list completedSlot :=
  let count := min (length packets) (length tokens) in
  imap (fun i '(t, p) => matched_slot packets count i t p) (zip tokens packets).

(** The slots completed; the last one matched is kept back in [pending]. *)
Definition align : M outputAligner (list completedSlot) :=
  packets ← on_packetizer TakePackets;
  a ← get;
  match pending a, tokens a with
  | Some p, [] =>
      modify (set_pending (Some {| token := token p; slot_packets := slot_packets p ++ packets |}));;
      mret []
  | old, _ =>
      let completed := match old with Some p => [p] | None => [] end in
      modify (set_pending None);;
      if decide (packets = []) then mret completed
      else
        let count := min (length packets) (length (tokens a)) in
        let completed := completed ++ match_slots packets (tokens a) in
        modify (set_tokens (drop count (tokens a)));;
        if 0 <? count then
          pending ← must (list.last completed);
          modify (set_pending (Some pending));;
          mret (take (length completed - 1) completed)
        else mret completed
  end.

Definition flush : M outputAligner (list completedSlot) :=
  on_packetizer Flush;;
  completed ← align;
  a ← get;
  let completed := completed ++ match pending a with Some p => [p] | None => [] end in
  modify (set_pending None);;
  let completed := completed
    ++ ((fun t => {| token := t; slot_packets := [] |}) <$> tokens a) in
  modify (set_tokens []);;
  mret completed.

(** ** The assembler *)
Section Assembler.
Context {W : Type} `{BitsWriter W}.

(** [queue] holds one slot for each input packet; the muxer writes to [W]. *)
Definition outputAssembler : Type := CommitQueue (T := list Packet) * W.

Definition assembler_Reserve : M outputAssembler Z := on_fst (CommitQueue.Reserve []).

(** Muxer.WritePacket *)
Definition WritePacket (p : Packet) : M W Z := writePacket p MpegTsPacketSize.

Definition write_packets (packets : list Packet) : M W unit :=
  for_each (fun p => wrap_err "assembler: write output" (WritePacket p);; mret tt) packets.

(** The check for a nil writer is left out: the assembler always has one. *)
Definition assembler_Drain : M outputAssembler unit := Drain [] write_packets.

Definition assembler_Commit (slot : completedSlot) : M outputAssembler unit :=
  wrap_err "assembler: commit token"
    (on_fst (CommitQueue.Commit (token slot) (slot_packets slot)));;
  assembler_Drain.

Definition CommitOriginal (token : Z) (packet : Packet) : M outputAssembler unit :=
  assembler_Commit {| token := token; slot_packets := [ClonePacket packet] |}.

Definition assembler_Flush : M outputAssembler unit :=
  assembler_Drain;;
  n ← gets (fun a => CommitQueue.Len a.1);
  fail_if (negb (n =? 0)) "assembler: output slots remain unresolved".

Definition assembler_Len (a : outputAssembler) : nat := CommitQueue.Len a.1.
End Assembler.
