(* ===== verification/OutputSpec.v ===== *)
(** * What the output aligner promises

    The aligner as a client sees it: input packets are registered with the token
    of their slot, PES events arrive from the codec transformer, and from time to
    time the completed slots are collected.  The specification keeps the stream
    of [PacketizerSpec] and the metadata that waits for a PES header. *)

From S2P Require Import Prelude Packet Pmt PesHandler PesQueue Packetizer PacketizerSpec Output.

(** ** Slots *)
Definition slots_tokens (l : list completedSlot) : list Z := token <$> l.
Definition slots_packets (l : list completedSlot) : list Packet := concat (slot_packets <$> l).
Definition held (a : outputAligner) : list completedSlot := option_list (Output.pending a).

Lemma slots_packets_app l1 l2 : slots_packets (l1 ++ l2) = slots_packets l1 ++ slots_packets l2.
Proof. unfold slots_packets. by rewrite fmap_app, concat_app. Qed.
Lemma slots_tokens_app l1 l2 : slots_tokens (l1 ++ l2) = slots_tokens l1 ++ slots_tokens l2.
Proof. unfold slots_tokens. apply fmap_app. Qed.

Lemma matched_packets pk l : l <> [] ->
  slots_packets (imap (fun i '(t, p) => matched_slot pk (length l) i t p) l)
  = l.*2 ++ drop (length l) pk.
Proof.
  destruct l as [|[t p] l _] using rev_ind; [done|]. intros _.
  rewrite imap_app, slots_packets_app. cbn [imap length]. rewrite fmap_app, length_app. cbn [length fmap list_fmap].
  rewrite <- app_assoc. f_equal.
  - unfold slots_packets. transitivity (concat ((fun q : Z * Packet => [q.2]) <$> l)).
    + f_equal. apply list_eq. intros i. rewrite list_lookup_fmap, list_lookup_imap, list_lookup_fmap.
      destruct (l !! i) as [[t' p']|] eqn:Hi; [|done]. cbn. apply lookup_lt_Some in Hi.
      rewrite (proj2 (Nat.eqb_neq _ _)) by lia. by rewrite andb_false_r.
    + clear. induction l as [|[] l IH]; [done|]. cbn. by f_equal.
  - unfold slots_packets, matched_slot. cbn [fmap list_fmap concat slot_packets snd app].
    rewrite app_nil_r. f_equal. rewrite (proj2 (Nat.eqb_eq _ _)), andb_true_r by lia.
    destruct (Nat.ltb_spec (length l + 1) (length pk)); [done|]. by rewrite drop_ge by lia.
Qed.

Lemma matched_tokens pk n (l : list (Z * Packet)) :
  slots_tokens (imap (fun i '(t, p) => matched_slot pk n i t p) l) = l.*1.
Proof.
  unfold slots_tokens. apply list_eq. intros i.
  rewrite !list_lookup_fmap, list_lookup_imap. by destruct (l !! i) as [[]|].
Qed.

(** Every packet is in a slot, in order; the oldest tokens are used. *)
Lemma match_slots_spec pk toks : 0 < min (length pk) (length toks) ->
  slots_packets (match_slots pk toks) = pk
  /\ slots_tokens (match_slots pk toks) = take (min (length pk) (length toks)) toks
  /\ match_slots pk toks <> [].
Proof.
  intros Hn. unfold match_slots. cbn zeta. set (n := min (length pk) (length toks)) in *.
  assert (Hz : zip toks pk = zip (take n toks) (take n pk)).
  { subst n. symmetry. apply zip_with_take_both'; lia. }
  assert (Hl : length (zip toks pk) = n) by (rewrite length_zip_with; lia).
  split_and!.
  - pose proof (matched_packets pk (zip toks pk)) as E. rewrite Hl in E.
    rewrite E, Hz, snd_zip by (llia || (intros E'; rewrite E' in Hl; cbn in Hl; lia)).
    apply take_drop.
  - rewrite matched_tokens, Hz. apply fst_zip. llia.
  - intros E. apply (f_equal length) in E. rewrite length_imap, Hl in E. cbn in E. lia.
Qed.

(** ** Aligning *)

(** Packets only wait where a slot can take them. *)
Definition sound (a : outputAligner) : Prop :=
  Output.pending a = None -> tokens a = [] -> packets (packetizer a) = [].

Lemma last_split {A} (l : list A) x : list.last l = Some x -> l = take (length l - 1) l ++ [x].
Proof.
  intros (l' & ->)%last_Some. rewrite length_app. cbn [length].
  by rewrite Nat.add_sub, take_app_length.
Qed.

(** The last slot matched is the one kept back. *)
Lemma match_slots_last pk toks old : pk <> [] -> toks <> [] ->
  let l := old ++ match_slots pk toks in
  exists q, list.last l = Some q
    /\ slots_packets (take (length l - 1) l ++ [q]) = slots_packets old ++ pk
    /\ slots_tokens (take (length l - 1) l ++ [q]) ++ drop (min (length pk) (length toks)) toks
       = slots_tokens old ++ toks.
Proof.
  intros Hpk Htk l. destruct (match_slots_spec pk toks) as (Hp & Ht & Hne).
  { destruct pk, toks; done || (cbn; lia). }
  destruct (list.last l) as [q|] eqn:Hq.
  - exists q. rewrite <- (last_split l q Hq). unfold l.
    rewrite slots_packets_app, slots_tokens_app, Hp, Ht, <- app_assoc, take_drop. done.
  - apply last_None in Hq. by apply app_nil in Hq as [_ ?].
Qed.

(** The two outcomes of [align] once the held slot is dealt with. *)
Lemma align_rest old pk a : tokens a <> [] -> Output.pending a = None -> exists done a',
  (if decide (pk = []) then mret old
   else
     let count := min (length pk) (length (tokens a)) in
     let completed := old ++ match_slots pk (tokens a) in
     modify (set_tokens (drop count (tokens a)));;
     if 0 <? count then
       pending ← must (list.last completed);
       modify (set_pending (Some pending));;
       mret (take (length completed - 1) completed)
     else mret completed) a = (Ok done, a')
  /\ slots_packets (done ++ held a') = slots_packets old ++ pk
  /\ slots_tokens (done ++ held a') ++ tokens a' = slots_tokens old ++ tokens a
  /\ packetizer a' = packetizer a /\ pendingPES a' = pendingPES a
  /\ ccInitialized a' = ccInitialized a
  /\ (Output.pending a' = None -> tokens a' <> []).
Proof.
  intros Htk Hpe. case_decide as Hpk.
  { exists old, a. unfold held. rewrite Hpe, Hpk. cbn. by rewrite !app_nil_r. }
  cbn zeta. destruct (match_slots_last pk (tokens a) old Hpk Htk) as (q & Hq & Hp & Ht).
  set (l := old ++ match_slots pk (tokens a)) in *.
  rewrite (bind_ok (modify _) _ _ tt _) by done.
  rewrite (proj2 (Nat.ltb_lt _ _)) by (destruct pk, (tokens a); done || (cbn; lia)).
  rewrite Hq. do 2 eexists. split; [done|]. unfold held. cbn. by split_and!.
Qed.

(** Nothing is lost or reordered by aligning. *)
Lemma align_spec a : sound a -> exists done a',
  align a = (Ok done, a')
  /\ slots_packets (done ++ held a') = slots_packets (held a) ++ packets (packetizer a)
  /\ slots_tokens (done ++ held a') ++ tokens a' = slots_tokens (held a) ++ tokens a
  /\ packetizer a' = set_packets [] (packetizer a) /\ pendingPES a' = pendingPES a
  /\ ccInitialized a' = ccInitialized a
  /\ (Output.pending a' = None -> tokens a' = [] -> Output.pending a = None /\ tokens a = []).
Proof.
  intros Hs. unfold align. set (a1 := set_packetizer (set_packets [] (packetizer a)) a).
  rewrite (bind_ok (on_packetizer TakePackets) _ a (packets (packetizer a)) a1) by done.
  rewrite (bind_ok get _ a1 a1 a1) by done.
  change (Output.pending a1) with (Output.pending a). change (tokens a1) with (tokens a).
  set (a2 := set_pending None a1). unfold sound, held in *.
  destruct (decide (tokens a = [])) as [Htk|Htk].
  - rewrite Htk in *. destruct (Output.pending a) as [p|] eqn:Hpe.
    + do 2 eexists. split; [done|]. cbn. rewrite Htk. split_and!; try done.
      unfold slots_packets. cbn. by rewrite !app_nil_r.
    + rewrite (bind_ok (modify _) _ _ tt a2) by done. rewrite Hs by done. do 2 eexists.
      split; [by rewrite decide_True|]. cbn. by rewrite Htk.
  - destruct (align_rest (option_list (Output.pending a)) (packets (packetizer a)) a2 Htk eq_refl)
      as (done & a' & E & Hp & Ht & Hw & Hpes & Hcc & Hn). exists done, a'. split.
    { rewrite <- E. change (tokens a2) with (tokens a).
      destruct (Output.pending a), (tokens a); done. }
    unfold held in *. rewrite Hw, Hpes, Hcc. split_and!; try done. intros H1 H2. by destruct (Hn H1).
Qed.

(** ** The specification *)

(** The metadata a source packet carries. *)
Definition event_metas (e : packetMetadata) : list PacketAdaptationField := meta_of (meta_adaptation e).
Definition pes_metas (p : pendingPESMetadata) : list PacketAdaptationField :=
  meta_of (startAdaptation p) ++ concat (event_metas <$> events p).
Definition queue_metas (q : list pendingPESMetadata) : list PacketAdaptationField :=
  concat (pes_metas <$> q).

Inductive call :=
  | CRegister (token : Z) (packet : Packet)
  | CHeader (header : list Z)
  | CPayload (payload : list Z)
  | CEnd
  | CAlign.

(** The calls, the completed slots being collected. *)
Definition run_call (c : call) : M (outputAligner * list completedSlot) unit :=
  match c with
  | CRegister t p => on_fst (registerInputPacket t p)
  | CHeader h => on_fst (PESHeader h)
  | CPayload d => on_fst (PESPayload d)
  | CEnd => on_fst PESEnd
  | CAlign => slots ← on_fst align; on_snd (modify (fun done => done ++ slots))
  end.

Definition run_calls (cs : list call) : M (outputAligner * list completedSlot) unit :=
  for_each run_call cs;;
  slots ← on_fst flush; on_snd (modify (fun done => done ++ slots)).

(** The stream sent and the metadata that waits for PES headers. *)
Definition aligned : Type := stream * list pendingPESMetadata.

Definition spec_event (e : packetMetadata) (s : stream) : outcome stream :=
  spec_op (if negb (hasPayload e) then OOnly (meta_adaptation e) else OSet (meta_adaptation e)) s.

Fixpoint spec_events (es : list packetMetadata) (s : stream) : outcome stream :=
  match es with
  | [] => Ok s
  | e :: es => s ← spec_event e s; spec_events es s
  end.

Definition spec_call (c : call) (s : aligned) : outcome aligned :=
  let '(s, q) := s in
  match c with
  | CRegister _ packet =>
      let meta := clonePacketMetadata packet in
      if hasPayload meta && PayloadUnitStartIndicator (Header packet) then
        Ok (s, q ++ [{| startAdaptation := meta_adaptation meta; events := [] |}])
      else if bool_decide (q <> []) && bool_decide (is_Some (meta_adaptation meta)) then
        Ok (s, alter_last (add_event meta) q)
      else
        s ← spec_event meta s; Ok (s, q)
  | CHeader h =>
      match q with
      | [] => Fail Panic
      | p :: q =>
          s ← spec_op (OSet (startAdaptation p)) s;
          s ← spec_op (OBegin h) s;
          s ← spec_events (events p) s;
          Ok (s, q)
      end
  | CPayload d => s ← spec_op (OWrite d) s; Ok (s, q)
  | CEnd => s ← spec_op OEnd s; Ok (s, q)
  | CAlign => Ok (s, q)
  end.

Fixpoint spec_calls (cs : list call) (s : aligned) : outcome aligned :=
  match cs with
  | [] => if s_open s.1 then Fail (Err (Errorf "TS packetizer: PES is still open")) else Ok s
  | c :: cs => s ← spec_call c s; spec_calls cs s
  end.

(** What the calls ask for: the slots, the metadata and the PES packets. *)
Definition registered (cs : list call) : list (Z * Packet) :=
  omap (fun c => match c with CRegister t p => Some (t, p) | _ => None end) cs.

Definition add_call (pes : list (list Z)) (c : call) : list (list Z) :=
  match c with
  | CHeader h => pes ++ [h]
  | CPayload d => alter_last (fun g => g ++ d) pes
  | _ => pes
  end.
Definition pes_of (cs : list call) : list (list Z) := foldl add_call [] cs.

(** The continuity counter that the first input packet asks for. *)
Definition first_cc (cs : list call) : Z :=
  match registered cs with
  | [] => 0%Z
  | (_, p) :: _ =>
      let meta := clonePacketMetadata p in
      if hasPayload meta then meta_cc meta else next_cc (meta_cc meta)
  end.

(** ** Metadata and PES packets are conserved *)
Lemma clone_metas p : event_metas (clonePacketMetadata p) = meta_of (AdaptationField p).
Proof.
  unfold event_metas, clonePacketMetadata. cbn [meta_adaptation].
  destruct (AdaptationField p) as [f|]; [|done]. unfold CloneAdaptationFieldWithoutStuffing, meta_of.
  destruct (HasAdaptationFieldData (Some f)) eqn:Hd; [|done]. cbn [fmap option_fmap option_map].
  by rewrite has_data_clone, Hd, clone_clone.
Qed.

Lemma meta_of_nothing field : HasAdaptationFieldData field = false -> meta_of field = [].
Proof. unfold meta_of. destruct field as [f|]; [|done]. by intros ->. Qed.

Lemma spec_set_metas field s s' : spec_op (OSet field) s = Ok s' ->
  s_pes s' = s_pes s /\ s_metas s' = s_metas s ++ meta_of field.
Proof.
  cbn. destruct (HasAdaptationFieldData field) eqn:Hd.
  - destruct (payloadCapacity field) as [[]|[]]; try done. by intros [= <-].
  - intros [= <-]. by rewrite meta_of_nothing, app_nil_r.
Qed.

Lemma spec_only_metas field s s' : spec_op (OOnly field) s = Ok s' ->
  s_pes s' = s_pes s /\ s_metas s' = s_metas s ++ meta_of field.
Proof.
  cbn [spec_op]. destruct (HasAdaptationFieldData field) eqn:Hd.
  - destruct (AdaptationFieldWithSize field 184) as [|[]]; try done. by intros [= <-].
  - intros [= <-]. by rewrite meta_of_nothing, app_nil_r.
Qed.

Lemma spec_event_metas e s s' : spec_event e s = Ok s' ->
  s_pes s' = s_pes s /\ s_metas s' = s_metas s ++ event_metas e.
Proof.
  unfold spec_event. destruct (hasPayload e); [apply spec_set_metas|apply spec_only_metas].
Qed.

Lemma spec_events_metas es s s' : spec_events es s = Ok s' ->
  s_pes s' = s_pes s /\ s_metas s' = s_metas s ++ concat (event_metas <$> es).
Proof.
  revert s. induction es as [|e es IH]; intros s.
  { intros [= <-]. by rewrite app_nil_r. }
  cbn [spec_events]. destruct (spec_event e s) as [s1|] eqn:E; [|done].
  intros [-> ->]%IH. apply spec_event_metas in E as [-> ->]. by rewrite <- app_assoc.
Qed.

Lemma queue_metas_app q1 q2 : queue_metas (q1 ++ q2) = queue_metas q1 ++ queue_metas q2.
Proof. unfold queue_metas. by rewrite fmap_app, concat_app. Qed.

Lemma queue_metas_event e q : q <> [] ->
  queue_metas (alter_last (add_event e) q) = queue_metas q ++ event_metas e.
Proof.
  destruct q as [|p q _] using rev_ind; [done|]. intros _.
  rewrite alter_last_snoc, !queue_metas_app, <- app_assoc. f_equal.
  unfold queue_metas. cbn. rewrite !app_nil_r. unfold pes_metas. cbn.
  by rewrite fmap_app, concat_app, app_assoc; cbn; rewrite app_nil_r.
Qed.

Lemma spec_register_metas t p s q s1 q1 : spec_call (CRegister t p) (s, q) = Ok (s1, q1) ->
  s_metas s1 ++ queue_metas q1 = s_metas s ++ queue_metas q ++ meta_of (AdaptationField p)
  /\ s_pes s1 = s_pes s.
Proof.
  rewrite <- clone_metas. cbn [spec_call]. set (m := clonePacketMetadata p). cbn zeta.
  destruct (hasPayload m && _).
  { intros [= <- <-]. split; [|done]. f_equal. rewrite queue_metas_app. f_equal.
    unfold queue_metas, pes_metas. cbn. by rewrite !app_nil_r. }
  destruct (bool_decide (q <> [])) eqn:Hq, (bool_decide (is_Some (meta_adaptation m))) eqn:Hm; cbn [andb].
  { intros [= <- <-]. split; [|done]. by rewrite queue_metas_event by by apply bool_decide_eq_true in Hq. }
  all: destruct (spec_event m s) as [s2|] eqn:E; [|done]; intros [= <- <-];
    apply spec_event_metas in E as [-> ->]; split; [|done]; rewrite <- app_assoc; f_equal.
  - apply bool_decide_eq_false, eq_None_not_Some in Hm. unfold event_metas. rewrite Hm.
    cbn. by rewrite app_nil_r.
  - apply bool_decide_eq_false, dec_stable in Hq. subst q. cbn. by rewrite app_nil_r.
  - apply bool_decide_eq_false, dec_stable in Hq. subst q. cbn. by rewrite app_nil_r.
Qed.

Lemma spec_header_metas h s q s1 q1 : spec_call (CHeader h) (s, q) = Ok (s1, q1) ->
  s_metas s1 ++ queue_metas q1 = s_metas s ++ queue_metas q /\ s_pes s1 = s_pes s ++ [h].
Proof.
  cbn [spec_call]. destruct q as [|p q]; [done|].
  destruct (spec_op (OSet _) s) as [s2|] eqn:E2; [|done]. cbn [mbind outcome_bind].
  destruct (spec_op (OBegin h) s2) as [s3|] eqn:E3; [|done]. cbn [mbind outcome_bind].
  destruct (spec_events _ s3) as [s4|] eqn:E4; [|done]. intros [= <- <-].
  apply spec_events_metas in E4 as [-> ->]. apply spec_set_metas in E2 as [E2 E2'].
  cbn [spec_op] in E3. destruct (s_open s2); [done|]. destruct (length h <? 6); [done|].
  destruct (negb _); [done|].
  injection E3 as <-. cbn [s_pes s_metas]. rewrite E2, E2'. split; [|done].
  unfold queue_metas at 2. cbn [fmap list_fmap concat]. unfold pes_metas at 1.
  by rewrite <- !app_assoc.
Qed.

Lemma spec_call_conserves c s q s1 q1 : spec_call c (s, q) = Ok (s1, q1) ->
  s_metas s1 ++ queue_metas q1 = s_metas s ++ queue_metas q ++ metas (registered [c]).*2
  /\ s_pes s1 = add_call (s_pes s) c.
Proof.
  destruct c as [t p|h|d| |].
  - intros [-> ->]%spec_register_metas. split; [|done]. do 2 f_equal.
    unfold metas. cbn. by rewrite app_nil_r.
  - intros [-> ->]%spec_header_metas. unfold metas. cbn. by rewrite app_nil_r.
  - cbn. rewrite app_nil_r. destruct (s_open s); [|done]. by intros [= <- <-].
  - cbn. rewrite app_nil_r. destruct (s_open s); [|done]. by intros [= <- <-].
  - cbn. rewrite app_nil_r. by intros [= <- <-].
Qed.

Lemma registered_cons c cs : registered (c :: cs) = registered [c] ++ registered cs.
Proof. by destruct c. Qed.

Lemma spec_calls_conserve cs s q s1 q1 : spec_calls cs (s, q) = Ok (s1, q1) ->
  s_metas s1 ++ queue_metas q1 = s_metas s ++ queue_metas q ++ metas (registered cs).*2
  /\ s_pes s1 = foldl add_call (s_pes s) cs.
Proof.
  revert s q. induction cs as [|c cs IH]; intros s q.
  { cbn. rewrite app_nil_r. destruct (s_open s); [done|]. by intros [= <- <-]. }
  cbn [spec_calls]. destruct (spec_call c (s, q)) as [[s2 q2]|] eqn:E; [|done].
  intros [-> ->]%IH. apply spec_call_conserves in E as [E ->]. split; [|done].
  by rewrite registered_cons, fmap_app, metas_app, app_assoc, E, <- !app_assoc.
Qed.

(** ** The simulation *)
Section Simulation.
Context (c id : Z).

(** A call on the packetizer alone. *)
Definition steps (out : list Packet) (a : outputAligner) (r : outcome unit * outputAligner)
    (o : outcome stream) : Prop :=
  match r, o with
  | (Ok _, a'), Ok s' => rel c id (packetizer a') out s' /\ a' = set_packetizer (packetizer a') a
  | (Fail f, _), Fail f' => f = f'
  | _, _ => False
  end.

Lemma steps_on out a m o : agrees c id out (m (packetizer a)) o ->
  steps out a (on_packetizer m a) o.
Proof. unfold agrees, steps, on_packetizer. by destruct (m (packetizer a)) as [[] ?], o. Qed.

Lemma steps_bind out a (m : M outputAligner unit) (o : outcome stream)
    (k : unit -> M outputAligner unit) (h : stream -> outcome stream) : steps out a (m a) o ->
  (forall w s, rel c id w out s ->
    steps out (set_packetizer w a) (k tt (set_packetizer w a)) (h s)) ->
  steps out a ((m ≫= k) a) (o ≫= h).
Proof.
  intros Hm Hk. rewrite bind_unfold. unfold steps in Hm. destruct (m a) as [[[]|f] a1], o as [s|]; try done.
  destruct Hm as [Hr Ha]. specialize (Hk _ _ Hr). rewrite <- Ha in Hk. rewrite Ha in Hk at 1.
  unfold steps in *. change (Ok s ≫= h) with (h s). by destruct (k tt a1) as [[] ?], (h s).
Qed.

Lemma replay_steps out a s e : rel c id (packetizer a) out s ->
  steps out a (replay e a) (spec_event e s).
Proof.
  intros Hr. unfold replay, spec_event. destruct (hasPayload e); apply steps_on.
  - by apply set_sim.
  - by apply only_sim.
Qed.

Lemma replay_all_steps out es a s : rel c id (packetizer a) out s ->
  steps out a (for_each replay es a) (spec_events es s).
Proof.
  revert a s. induction es as [|e es IH]; intros a s Hr; [by destruct a|].
  cbn [for_each spec_events]. apply steps_bind; [by apply replay_steps|].
  intros w s' Hr'. by apply IH.
Qed.

(** The state between calls, once a packet has been registered. *)
Record agree (a : outputAligner) (done : list completedSlot) (toks : list Z) (s : aligned) : Prop :=
  Agree {
    a_rel : rel c id (packetizer a) (slots_packets (done ++ held a)) s.1;
    a_tokens : slots_tokens (done ++ held a) ++ tokens a = toks;
    a_queue : pendingPES a = s.2;
    a_started : ccInitialized a = true;
  }.

(** Something to give packets to. *)
Definition busy (a : outputAligner) : Prop := Output.pending a = None -> tokens a <> [].

Definition follows (done : list completedSlot) (toks : list Z) (r : outcome unit * outputAligner)
    (o : outcome aligned) : Prop :=
  match r, o with
  | (Ok _, a'), Ok s' => agree a' done toks s' /\ busy a'
  | (Fail f, _), Fail f' => f = f'
  | _, _ => False
  end.

(** A call on the packetizer, and the new queue. *)
Lemma steps_follows a done toks s q q' r o : agree a done toks (s, q) -> busy a ->
  steps (slots_packets (done ++ held a)) (set_pendingPES q' a) r o ->
  follows done toks r (s ← o; Ok (s, q')).
Proof.
  intros [Hr Ht Hq Hc] Hb. destruct r as [[[]|f] a'], o as [s'|]; cbn; try done.
  intros [Hr' ->]. split; [|done]. by split.
Qed.

Lemma set_pendingPES_same a : set_pendingPES (pendingPES a) a = a.
Proof. by destruct a. Qed.

Lemma on_err_fail {S A} (f : S -> S) (m : M S A) s :
  on_err f m s = match m s with (Fail (Err e), s') => (Fail (Err e), f s') | r => r end.
Proof. done. Qed.

Lemma header_follows a done toks s h : agree a done toks s -> busy a ->
  follows done toks (PESHeader h a) (spec_call (CHeader h) s).
Proof.
  destruct s as [s q]. intros Ha Hb. pose proof Ha as [Hr Ht Hq Hc]. cbn in Hr, Hq.
  unfold PESHeader. cbn [spec_call]. rewrite (bind_ok get _ a a a) by done. rewrite Hq.
  destruct q as [|p q]; [done|]. cbn [list.head tail].
  rewrite (bind_ok (must _) _ a p a) by done.
  rewrite (bind_ok (modify _) _ a tt (set_pendingPES q a)) by done.
  match goal with |- follows _ _ ?r ?o =>
    cut (steps (slots_packets (done ++ held a)) (set_pendingPES q a) r
      (s ← spec_op (OSet (startAdaptation p)) s; s ← spec_op (OBegin h) s; spec_events (events p) s)) end.
  { intros Hst. pose proof (steps_follows a done toks s (p :: q) q _ _ Ha Hb Hst) as Hf.
    rewrite outcome_assoc in Hf. erewrite outcome_ext in Hf; [exact Hf|].
    intros s2. apply outcome_assoc. }
  apply steps_bind.
  - assert (Hst : steps (slots_packets (done ++ held a)) (set_pendingPES q a)
      (on_packetizer (SetNextPacketAdaptationField (startAdaptation p)) (set_pendingPES q a))
      (spec_op (OSet (startAdaptation p)) s)) by by apply steps_on, set_sim.
    rewrite on_err_fail. destruct (on_packetizer _ _) as [[[]|[]] ?]; done.
  - intros w s2 Hr2. apply steps_bind; [by apply steps_on, begin_sim|].
    intros w' s3 Hr3. by apply replay_all_steps.
Qed.

Lemma payload_follows a done toks s d : agree a done toks s -> busy a ->
  follows done toks (PESPayload d a) (spec_call (CPayload d) s).
Proof.
  destruct s as [s q]. intros Ha Hb. pose proof Ha as [Hr Ht Hq Hc]. cbn in Hr, Hq.
  apply (steps_follows a done toks s q q _ _ Ha Hb). rewrite <- Hq, set_pendingPES_same.
  by apply steps_on, write_sim.
Qed.

Lemma end_follows a done toks s : agree a done toks s -> busy a ->
  follows done toks (PESEnd a) (spec_call CEnd s).
Proof.
  destruct s as [s q]. intros Ha Hb. pose proof Ha as [Hr Ht Hq Hc]. cbn in Hr, Hq.
  apply (steps_follows a done toks s q q _ _ Ha Hb). rewrite <- Hq, set_pendingPES_same.
  by apply steps_on, end_sim.
Qed.

(** The token of a registered packet is remembered. *)
Lemma add_token a done toks s t : agree a done toks s ->
  agree (set_tokens (tokens a ++ [t]) a) done (toks ++ [t]) s /\ busy (set_tokens (tokens a ++ [t]) a).
Proof.
  intros [Hr Ht Hq Hc]. split; [split; try done|].
  - cbn. by rewrite app_assoc, <- Ht.
  - intros _. cbn. by intros []%app_nil.
Qed.

Lemma register_follows a done toks s t p : agree a done toks s ->
  follows done (toks ++ [t]) (registerInputPacket t p a) (spec_call (CRegister t p) s).
Proof.
  destruct s as [s q]. intros Ha. pose proof Ha as [Hr Ht Hq Hc]. cbn in Hr, Hq.
  unfold registerInputPacket. cbn [spec_call]. set (m := clonePacketMetadata p). cbn zeta.
  rewrite (bind_ok get _ a a a) by done. rewrite Hc. cbn [negb when].
  rewrite (bind_ok (mret tt) _ a tt a) by done. rewrite (bind_ok get _ a a a) by done. rewrite Hq.
  assert (Hdone : forall q', follows done (toks ++ [t])
    ((modify (set_pendingPES q');; modify (fun a => set_tokens (tokens a ++ [t]) a)) a) (Ok (s, q'))).
  { intros q'. apply (add_token (set_pendingPES q' a) done toks (s, q') t). by split. }
  destruct (hasPayload m && _); [apply Hdone|].
  replace (0 <? length q) with (bool_decide (q <> [])) by by destruct q.
  destruct (bool_decide (q <> []) && _); [apply Hdone|].
  assert (Hst : steps (slots_packets (done ++ held a)) a (replay m a) (spec_event m s))
    by by apply replay_steps.
  assert (Heq : (if negb (hasPayload m) then on_packetizer (WriteAdaptationOnly (meta_adaptation m))
    else on_packetizer (SetNextPacketAdaptationField (meta_adaptation m))) a = replay m a) by done.
  rewrite bind_unfold, Heq. unfold steps in Hst.
  destruct (replay m a) as [[[]|f] a'], (spec_event m s) as [s'|]; try done.
  destruct Hst as [Hr' E]. apply (add_token a' done toks (s', q) t). rewrite E. by split.
Qed.

Lemma align_follows a done toks s : agree a done toks s -> busy a -> exists slots a',
  align a = (Ok slots, a') /\ agree a' (done ++ slots) toks s /\ busy a'.
Proof.
  intros [Hr Ht Hq Hc] Hb.
  destruct (align_spec a) as (slots & a' & E & Hp & Htk & Hw & Hpes & Hcc & Hn).
  { intros H1 H2. by destruct (Hb H1). }
  exists slots, a'. split; [done|]. split; [split|].
  - rewrite <- app_assoc, slots_packets_app, Hp, Hw, app_assoc, <- slots_packets_app.
    destruct Hr as [[? ? ? ? ?] [? ? ? ?] ? ? ? ?]. split; try done.
    split; try done; cbn; by rewrite app_nil_r.
  - rewrite <- app_assoc, slots_tokens_app, <- app_assoc, Htk, app_assoc, <- slots_tokens_app. done.
  - by rewrite Hpes.
  - by rewrite Hcc.
  - intros H1 H2. destruct (Hn H1 H2) as [H3 H4]. by apply (Hb H3).
Qed.

Lemma empty_slots toks : slots_packets ((fun t => {| token := t; slot_packets := [] |}) <$> toks) = []
  /\ slots_tokens ((fun t => {| token := t; slot_packets := [] |}) <$> toks) = toks.
Proof.
  unfold slots_packets, slots_tokens. induction toks as [|t toks [IH1 IH2]]; [done|].
  cbn. by rewrite IH1, IH2.
Qed.

Lemma flush_follows a done toks s : agree a done toks s -> busy a ->
  if s_open s.1 then (flush a).1 = Fail (Err (Errorf "TS packetizer: PES is still open"))
  else exists slots a', flush a = (Ok slots, a') /\ slots_tokens (done ++ slots) = toks
    /\ carried c id (slots_packets (done ++ slots)) s.1.
Proof.
  intros [Hr Ht Hq Hc] Hb. pose proof (flush_sim c id _ _ _ Hr) as Hf. unfold flush.
  destruct (s_open s.1) eqn:Hso.
  { rewrite bind_unfold. unfold on_packetizer. by rewrite Hf. }
  destruct Hf as (w & Ew & Hrw & Hcur).
  rewrite (bind_ok _ _ a tt (set_packetizer w a)) by (unfold on_packetizer; by rewrite Ew).
  destruct (align_spec (set_packetizer w a)) as (slots & a' & E & Hp & Htk & Hw & Hpes & Hcc & Hn).
  { intros H1 H2. by destruct (Hb H1). }
  rewrite (bind_ok _ _ _ _ _ E). do 2 eexists. split; [done|].
  destruct (empty_slots (tokens a')) as [E1 E2]. change (held (set_packetizer w a)) with (held a) in *.
  cbn [tokens set_packetizer packetizer] in Htk, Hp. cbn [tokens set_pending].
  change (match Output.pending a' with Some p => [p] | None => [] end) with (held a').
  rewrite (app_assoc done), slots_tokens_app, slots_packets_app, E1, E2, app_nil_r. split.
  - by rewrite slots_tokens_app, <- app_assoc, Htk, app_assoc, <- slots_tokens_app.
  - rewrite slots_packets_app, Hp, app_assoc, <- slots_packets_app.
    apply (rel_carried c id w _ _ Hrw Hso). by rewrite Hcur.
Qed.

(** One call. *)
Definition follows_call (toks : list Z) (r : outcome unit * (outputAligner * list completedSlot))
    (o : outcome aligned) : Prop :=
  match r, o with
  | (Ok _, (a', done')), Ok s' => agree a' done' toks s' /\ busy a'
  | (Fail f, _), Fail f' => f = f'
  | _, _ => False
  end.

Lemma follows_fst a done toks m o : follows done toks (m a) o ->
  follows_call toks (on_fst m (a, done)) o.
Proof. unfold follows, follows_call, on_fst. by destruct (m a) as [[] ?], o. Qed.

Lemma call_follows k a done toks s : agree a done toks s -> busy a ->
  follows_call (toks ++ (registered [k]).*1) (run_call k (a, done)) (spec_call k s).
Proof.
  intros Ha Hb. destruct k as [t p|h|d| |]; cbn [run_call];
    try (rewrite app_nil_r); try apply follows_fst.
  - by apply register_follows.
  - by apply header_follows.
  - by apply payload_follows.
  - by apply end_follows.
  - destruct (align_follows a done toks s Ha Hb) as (slots & a' & E & Ha' & Hb').
    rewrite bind_unfold. unfold on_fst. rewrite E. by destruct s.
Qed.

(** A run of calls. *)
Definition delivered (cs : list call) (toks : list Z)
    (r : outcome unit * (outputAligner * list completedSlot)) (o : outcome aligned) : Prop :=
  match r, o with
  | (Ok _, (_, slots)), Ok s' =>
      slots_tokens slots = toks ++ (registered cs).*1 /\ carried c id (slots_packets slots) s'.1
  | (Fail f, _), Fail f' => f = f'
  | _, _ => False
  end.

Lemma calls_follow cs a done toks s : agree a done toks s -> busy a ->
  delivered cs toks (run_calls cs (a, done)) (spec_calls cs s).
Proof.
  unfold run_calls. revert a done toks s. induction cs as [|k cs IH]; intros a done toks s Ha Hb.
  { cbn [for_each spec_calls]. rewrite (bind_ok (mret tt) _ _ tt (a, done)) by done.
    pose proof (flush_follows a done toks s Ha Hb) as Hf. rewrite bind_unfold. unfold on_fst.
    destruct (s_open s.1); [by destruct (flush a) as [[]]; cbn in Hf; simplify_eq|].
    destruct Hf as (slots & a' & -> & Ht & Hcar). cbn. by rewrite app_nil_r. }
  cbn [for_each spec_calls]. rewrite bind_assoc, bind_unfold.
  pose proof (call_follows k a done toks s Ha Hb) as Hk. unfold follows_call in Hk.
  destruct (run_call k (a, done)) as [[[]|f] [a1 done1]], (spec_call k s) as [s1|]; try done.
  destruct Hk as [Ha1 Hb1]. specialize (IH a1 done1 _ s1 Ha1 Hb1). revert IH. unfold delivered.
  change (Ok s1 ≫= spec_calls cs) with (spec_calls cs s1).
  by rewrite (registered_cons k cs), fmap_app, app_assoc.
Qed.
End Simulation.

(** *** Before the first packet *)
Lemma first_cc_range cs : (0 <= first_cc cs < 16)%Z.
Proof.
  assert (H : forall x, (0 <= Z.land x 15 < 16)%Z).
  { intros x. change 15%Z with (Z.ones 4). rewrite Z.land_ones by lia. by apply Z.mod_pos_bound. }
  unfold first_cc. destruct (registered cs) as [|[t p] l]; [lia|]. cbn zeta.
  destruct (hasPayload _); apply H.
Qed.

(** The first packet sets the continuity counter. *)
Lemma register_first id t p : let m := clonePacketMetadata p in
  let cc := if hasPayload m then meta_cc m else next_cc (meta_cc m) in
  registerInputPacket t p (newOutputAligner id) =
  registerInputPacket t p (set_ccInitialized true
    (set_packetizer (set_cc cc (NewTSPacketizer id)) (newOutputAligner id))).
Proof. done. Qed.

Lemma calls_from_new id cs :
  delivered (first_cc cs) id cs [] (run_calls cs (newOutputAligner id, [])) (spec_calls cs (new_stream, [])).
Proof.
  induction cs as [|k cs IH]; [done|]. destruct k as [t p|h|d| |]; [|done..|].
  - set (c := first_cc (CRegister t p :: cs)).
    set (a := set_ccInitialized true (set_packetizer (set_cc c (NewTSPacketizer id)) (newOutputAligner id))).
    assert (Ha : agree c id a [] [] (new_stream, [])).
    { split; try done. apply rel_new, first_cc_range. }
    pose proof (register_follows c id a [] [] (new_stream, []) t p Ha) as Hr.
    unfold run_calls. cbn [for_each spec_calls run_call]. rewrite bind_assoc, bind_unfold.
    unfold on_fst at 1. rewrite register_first. change (registerInputPacket t p _) with (registerInputPacket t p a).
    unfold follows in Hr.
    destruct (registerInputPacket t p a) as [[[]|f] a1], (spec_call (CRegister t p) _) as [s1|]; try done.
    destruct Hr as [Ha1 Hb1]. by apply (calls_follow c id cs a1 [] [t] s1).
  - apply IH.
Qed.

(** C23: whatever the input packets and the PES events, the aligner answers with
    exactly one slot for each input packet registered, in their order; the packets
    in the slots, in that order, carry the PES packets of the events and the
    adaptation fields of the input packets, each once and in order, save those
    that wait for a PES header that never came; continuity counters follow on
    from the first input packet.  Errors are those of the packetizer. *)
Theorem aligner_refines id cs :
  match run_calls cs (newOutputAligner id, []), spec_calls cs (new_stream, []) with
  | (Ok _, (_, slots)), Ok (s, q) =>
      slots_tokens slots = (registered cs).*1
      /\ carried (first_cc cs) id (slots_packets slots) s
      /\ s_pes s = pes_of cs
      /\ s_metas s ++ queue_metas q = metas (registered cs).*2
  | (Fail f, _), Fail f' => f = f'
  | _, _ => False
  end.
Proof.
  pose proof (calls_from_new id cs) as Hd. unfold delivered in Hd.
  destruct (run_calls cs _) as [[[]|f] [a slots]], (spec_calls cs _) as [[s q]|] eqn:Hs; try done.
  destruct Hd as [Ht Hc]. apply spec_calls_conserve in Hs as [Hm Hp]. by split_and!.
Qed.

(** Three input packets of which the PES arrives late: the first two slots stay
    empty until there are packets for them. *)
Definition example_calls : list call :=
  let packet n pusi := {| AdaptationField := None;
    Header := {| ContinuityCounter := n; HasAdaptationField := false; HasPayload := true;
      PayloadUnitStartIndicator := pusi; PID := 256; TransportErrorIndicator := false;
      TransportPriority := false; TransportScramblingControl := 0 |};
    Payload := [] |}%Z in
  [CRegister 10 (packet 7 true); CAlign; CRegister 11 (packet 8 false);
   CHeader [0; 0; 1; 0xE0; 0; 0; 0x80; 0; 0]; CPayload (replicate 200 7); CEnd; CAlign;
   CRegister 12 (packet 9 false); CAlign]%Z.

Example aligner_example :
  match run_calls example_calls (newOutputAligner 256, []) with
  | (Ok _, (_, slots)) =>
      ((fun s => (token s, (fun p => ContinuityCounter (Header p)) <$> slot_packets s)) <$> slots)
      = [(10, [7]); (11, [8]); (12, [])]%Z
  | _ => False
  end.
Proof. vm_compute. reflexivity. Qed.
