(* ===== verification/PsiCollector.v ===== *)
(** * ts/internal/packets: collecting PSI sections, the PAT and the PMT

    [psiSectionCollector] (psi.go) reassembles sections from transport payloads;
    [PATCollector] (pat.go) and [PMTCollector] (pmt.go) parse them. *)

From S2P Require Import Prelude Astikit Pmt Tables Psi.

(** ** psi.go *)

(** [buf] *)
Definition psiSectionCollector : Type := list Z.

(** A round of the loop of [append]: the sections so far. *)
Definition append_step (sections : list (list Z)) :
    M psiSectionCollector (list (list Z) + list (list Z)) :=
  buf ← get;
  if length buf =? 0 then mret (inr sections)
  else
    b0 ← index buf 0;
    if (b0 =? 0xFF)%Z then modify (fun _ => []);; mret (inr sections)
    else if length buf <? 3 then mret (inr sections)
    else
      b1 ← index buf 1;
      b2 ← index buf 2;
      let sectionLength := Z.lor (Z.shiftl (Z.land b1 0x0F) 8) b2 in
      fail_if (1021 <? sectionLength)%Z "invalid PSI section length";;
      let totalLength := 3 + Z.to_nat sectionLength in
      if length buf <? totalLength then mret (inr sections)
      else
        section ← subslice buf 0 totalLength;
        rest ← subslice buf totalLength (length buf);
        modify (fun _ => rest);;
        mret (inl (sections ++ [section])).

(** The fuel: every round but the last takes a section from the buffer. *)
Definition append_sections (payload : list Z) : M psiSectionCollector (list (list Z)) :=
  modify (fun buf => buf ++ payload);;
  buf ← get;
  iter (length buf + 1) append_step [].

Definition psi_Consume (pusi : bool) (payload : list Z) : M psiSectionCollector (list (list Z)) :=
  if negb pusi then append_sections payload
  else
    fail_if (length payload =? 0) "PSI payload starts without pointer field";;
    b0 ← index payload 0;
    let pointerField := b0 in
    fail_if (Z.of_nat (length payload) - 1 <? pointerField)%Z "PSI pointer field exceeds payload size";;
    buf ← get;
    sections ← (if 0 <? length buf then
                  ending ← subslice payload 1 (1 + Z.to_nat pointerField);
                  completed ← append_sections ending;
                  modify (fun _ => []);;
                  mret completed
                else mret []);
    rest ← subslice payload (1 + Z.to_nat pointerField) (length payload);
    completed ← append_sections rest;
    mret (sections ++ completed).

(** ** pat.go and pmt.go *)
Record SectionCollector := MkSections { programNumber : Z; sections : psiSectionCollector }.
Definition PATCollector : Type := SectionCollector.
Definition PMTCollector : Type := SectionCollector.

Definition NewPATCollector (programNumber : Z) : PATCollector :=
  {| programNumber := programNumber; sections := [] |}.
Definition NewPMTCollector (programNumber : Z) : PMTCollector :=
  {| programNumber := programNumber; sections := [] |}.

Definition on_sections {A} (m : M psiSectionCollector A) : M SectionCollector A := fun c =>
  let '(r, s) := m (sections c) in (r, {| programNumber := programNumber c; sections := s |}).

Section Collect.
Context (I : Type) `{BytesIterator I}.

(** The syntax header and the PAT of a section that has both. *)
Definition pat_of (s : PSISection) : option (PSISectionSyntaxHeader * PATData) :=
  if (TableID (section_Header s) =? PSITableIDPAT)%Z then
    syntax ← Syntax s; h ← syntax_Header syntax; d ← PAT (Data syntax); Some (h, d)
  else None.

Definition pmt_of (s : PSISection) : option (PSISectionSyntaxHeader * PMTData) :=
  if (TableID (section_Header s) =? PSITableIDPMT)%Z then
    syntax ← Syntax s; h ← syntax_Header syntax; d ← PMT (Data syntax); Some (h, d)
  else None.

(** The PID of the program map of [programNumber], when the section has it. *)
Definition parseSection (programNumber : Z) (section : list Z) : outcome (option Z) :=
  match ParsePSISection (I := I) section with
  | Ok s =>
      match pat_of s with
      | Some (h, d) =>
          Ok (if CurrentNextIndicator h then
                ProgramMapID <$> list.head (filter (fun p => pat_ProgramNumber p = programNumber) (Programs d))
              else None)
      | None => Fail (Err (Errorf "PSI section is not a PAT"))
      end
  | Fail (Err e) => Fail (Err (Wrapf "parse PAT PSI section" e))
  | Fail f => Fail f
  end.

(** The first section with a result, or with an error. *)
Fixpoint first_found {A} (parse : list Z -> outcome (option A)) (l : list (list Z)) : outcome (option A) :=
  match l with
  | [] => Ok None
  | s :: l =>
      match parse s with
      | Ok None => first_found parse l
      | r => r
      end
  end.

Definition pat_Consume (pusi : bool) (payload : list Z) : M PATCollector (option Z) :=
  ss ← on_sections (psi_Consume pusi payload);
  c ← get;
  lift (first_found (parseSection (programNumber c)) ss).

Definition parse_pmt (programNumber : Z) (section : list Z) : outcome (option PSISection) :=
  match ParsePSISection (I := I) section with
  | Ok s =>
      match pmt_of s with
      | Some (h, d) =>
          Ok (if CurrentNextIndicator h && (ProgramNumber d =? programNumber)%Z then Some s else None)
      | None => Fail (Err (Errorf "PSI section is not a PMT"))
      end
  | Fail (Err e) => Fail (Err (Wrapf "parse PMT PSI section" e))
  | Fail f => Fail f
  end.

Definition pmt_Consume (pusi : bool) (payload : list Z) : M PMTCollector (option PSISection) :=
  ss ← on_sections (psi_Consume pusi payload);
  c ← get;
  lift (first_found (parse_pmt (programNumber c)) ss).
End Collect.
