(* ===== verification/PmtTransformer.v ===== *)
(** * ts/pmt_transformer.go: holding back, patching and rewriting the PMT

    The transformer keeps the PMT packets until every supported stream has
    signalled its patch, then patches their sections and completes their slots
    through a callback on the rest of the program, [A]. *)

From S2P Require Import Prelude Packet Astikit Descriptor Pmt PesHandler Tables Psi PsiCollector Output.

(** ts/internal/transformer/factory.go *)
Definition SupportedMediaType (streamType : Z) (inputEncrypted : bool) : bool :=
  (streamType =? StreamTypeH264Video)%Z
  || negb inputEncrypted
     && ((streamType =? StreamTypeADTS) || (streamType =? StreamTypeAC3Audio)
         || (streamType =? StreamTypeEAC3Audio))%Z.

(** ** State *)
Record pendingPMT := MkPendingPMT {
  pmt_token : Z;
  pmt_packet : Packet;
  pmt_section : PSISection;
}.

Record pmtTransformer := MkPmtTransformer {
  collector : PMTCollector;
  inputEncrypted : bool;
  patches : gmap Z (option Patch);
  pending : list pendingPMT;
  initialized : bool;
}.

Definition newPMTTransformer (encrypted : bool) : pmtTransformer :=
  {| collector := NewPMTCollector 1; inputEncrypted := encrypted; patches := ∅; pending := [];
     initialized := false |}.

Definition set_collector (c : PMTCollector) (p : pmtTransformer) : pmtTransformer :=
  {| collector := c; inputEncrypted := inputEncrypted p; patches := patches p;
     pending := pending p; initialized := initialized p |}.
Definition set_patches (m : gmap Z (option Patch)) (p : pmtTransformer) : pmtTransformer :=
  {| collector := collector p; inputEncrypted := inputEncrypted p; patches := m;
     pending := pending p; initialized := initialized p |}.
Definition set_pending (l : list pendingPMT) (p : pmtTransformer) : pmtTransformer :=
  {| collector := collector p; inputEncrypted := inputEncrypted p; patches := patches p;
     pending := l; initialized := initialized p |}.
Definition set_initialized (p : pmtTransformer) : pmtTransformer :=
  {| collector := collector p; inputEncrypted := inputEncrypted p; patches := patches p;
     pending := pending p; initialized := true |}.

Definition on_collector {A} (m : M PMTCollector A) : M pmtTransformer A := fun p =>
  let '(r, c) := m (collector p) in (r, set_collector c p).

(** ** Sections *)

(** The elementary streams of a section that [PMTCollector] has returned. *)
Definition section_pmt (s : PSISection) : option PMTData := snd <$> pmt_of s.

Definition with_streams (ss : list PMTElementaryStream) (d : PMTData) : PMTData :=
  {| ElementaryStreams := ss; PCRPID := PCRPID d; ProgramDescriptors := ProgramDescriptors d;
     ProgramNumber := ProgramNumber d |}.

(** Every patch applied in place. *)
Definition patch_stream (m : gmap Z (option Patch)) (s : PMTElementaryStream) : PMTElementaryStream :=
  match m !! ElementaryPID s with Some (Some patch) => patch s | _ => s end.

(** The PMT of a section, and its version, changed. *)
Definition map_pmt (f : PMTData -> PMTData) (v : Z -> Z) (s : PSISection) : PSISection :=
  {| CRC32 := CRC32 s; section_Header := section_Header s;
     Syntax := (fun syntax =>
       {| Data := {| EIT := EIT (Data syntax); NIT := NIT (Data syntax); PAT := PAT (Data syntax);
                     PMT := f <$> PMT (Data syntax); SDT := SDT (Data syntax);
                     TOT := TOT (Data syntax) |};
          syntax_Header := (fun h =>
            {| CurrentNextIndicator := CurrentNextIndicator h;
               LastSectionNumber := LastSectionNumber h; SectionNumber := SectionNumber h;
               TableIDExtension := TableIDExtension h;
               VersionNumber := v (VersionNumber h) |}) <$> syntax_Header syntax |}) <$> Syntax s |}.

Definition patch_section (m : gmap Z (option Patch)) : PSISection -> PSISection :=
  map_pmt (fun d => with_streams (patch_stream m <$> ElementaryStreams d) d) id.

Definition next_version (v : Z) : Z := Z.land (u8 (v + 1)) 0x1F.

Definition bump_version : PSISection -> PSISection := map_pmt id next_version.

(** Some patch is still missing. *)
Definition waiting (m : gmap Z (option Patch)) : bool :=
  existsb (fun kv => match kv.2 with None => true | Some _ => false end) (map_to_list m).

Definition no_patches (m : gmap Z (option Patch)) : bool := size m =? 0.

Section Transform.
Context (I B : Type) `{BytesIterator I} `{BufferWriter B}.
Context {A : Type} (complete : completedSlot -> M A unit).

(** [collectPMT]: only PMT sections that fill one packet are supported. *)
Definition collectPMT (packet : Packet) : M pmtTransformer (option PSISection) :=
  let payload := Payload packet in
  if negb (HasPayload (Header packet)) then mret None
  else
    fail_if (negb (PayloadUnitStartIndicator (Header packet))) "split PMT is unsupported";;
    fail_if (length payload <? 4) "incomplete PMT payload";;
    b0 ← index payload 0;
    fail_if (negb (b0 =? 0)%Z) "PMT pointer field is unsupported";;
    b2 ← index payload 2;
    b3 ← index payload 3;
    let sectionLength := Z.lor (Z.shiftl (Z.land b2 0x0F) 8) b3 in
    let sectionEnd := 4 + Z.to_nat sectionLength in
    fail_if (length payload <? sectionEnd) "split PMT is unsupported";;
    rest ← subslice payload sectionEnd (length payload);
    fail_if (existsb (fun b => negb (b =? 0xFF)%Z) rest)
      "multiple PMT sections in one packet are unsupported";;
    on_collector (pmt_Consume I (PayloadUnitStartIndicator (Header packet)) payload).

(** One pending PMT, patched in place, then completed. *)
Definition complete_one (i : nat) : M (pmtTransformer * A) unit :=
  p ← on_fst get;
  x ← on_fst (must (pending p !! i));
  let section := patch_section (patches p) (pmt_section x) in
  let section' := if no_patches (patches p) then section else bump_version section in
  let x' := {| pmt_token := pmt_token x; pmt_packet := pmt_packet x; pmt_section := section' |} in
  on_fst (modify (fun p => set_pending (<[i := x']> (pending p)) p));;
  output ← (if no_patches (patches p) then mret (pmt_packet x)
            else wrap_err "packetize PMT"
              (lift (PacketizePSISection (W := B) (pmt_packet x) section')));
  on_snd (complete {| token := pmt_token x; slot_packets := [output] |}).

Definition completeReady : M (pmtTransformer * A) unit :=
  p ← on_fst get;
  if waiting (patches p) then mret tt
  else
    for_each complete_one (seq 0 (length (pending p)));;
    on_fst (modify (set_pending [])).

(** The streams of a new PMT whose media are supported wait for a patch. *)
Definition init_patches (streams : list PMTElementaryStream) (p : pmtTransformer) : pmtTransformer :=
  if initialized p then p
  else set_initialized (set_patches
    (foldl (fun m s =>
       if SupportedMediaType (StreamType s) (inputEncrypted p)
          && negb (bool_decide (is_Some (m !! ElementaryPID s)))
       then <[ElementaryPID s := None]> m else m) (patches p) streams) p).

(** The streams returned are shared with the pending section, which is patched
    when nothing is missing. *)
Definition pmtTransformer_Consume (token : Z) (packet : Packet) :
    M (pmtTransformer * A) (list PMTElementaryStream) :=
  found ← on_fst (collectPMT packet);
  match found with
  | None =>
      on_snd (complete {| token := token; slot_packets := [ClonePacket packet] |});;
      mret []
  | Some section =>
      d ← on_fst (must (section_pmt section));
      on_fst (modify (init_patches (ElementaryStreams d)));;
      on_fst (modify (fun p => set_pending (pending p ++
        [{| pmt_token := token; pmt_packet := ClonePacket packet; pmt_section := section |}]) p));;
      p ← on_fst get;
      completeReady;;
      mret (if waiting (patches p) then ElementaryStreams d
            else patch_stream (patches p) <$> ElementaryStreams d)
  end.

Definition Signal (pid : Z) (patch : Patch) : M (pmtTransformer * A) unit :=
  on_fst (modify (fun p => set_patches (<[pid := Some patch]> (patches p)) p));;
  completeReady.

Definition pmtTransformer_Flush : M (pmtTransformer * A) unit :=
  p ← on_fst get;
  fail_if (0 <? length (pending p)) "PMT transformer: PMT packets remain unresolved: stream metadata not found before EOF".
End Transform.
