(* ===== verification/MediaStream.v ===== *)
(** * ts/media_stream.go and ts/internal/transformer/factory.go: media pipelines

    A media stream sends the PES bytes of a PID from its collector through a codec
    transformer to its output aligner.  The transformer also signals to the PMT
    transformer, which may complete slots of the assembler; both are part of the
    environment [E] of the pipeline. *)

From S2P Require Import Prelude SampleAes Packet Pmt PesHandler PesCollector Output PmtTransformer.
From S2P Require Audio Aac Ac3 Eac3 Avc.

(** ** The transformer interface: codecs.MediaTransformer *)
Section Media.
Context {C : Type} `{BlockCryptor C}.

(** The dynamic types behind the interface. *)
Inductive MediaTransformer :=
  | MAvc (t : Avc.Transformer C)
  | MAac (t : Audio.Transformer C)
  | MAc3 (t : Audio.Transformer C)
  | MEac3 (t : Audio.Transformer C).

Section Methods.
Context {X : Type} `{PESHandler X} `{PMTSignal X}.

(** A method of a dynamic type, on the interface value. *)
Definition call {T A} (mk : T -> MediaTransformer) (m : M (T * X) A) (t : T) (x : X) :
    outcome A * (MediaTransformer * X) :=
  let '(r, (t', x')) := m (t, x) in (r, (mk t', x')).

Definition media_PESHeader (h : list Z) : M (MediaTransformer * X) unit := fun '(t, x) =>
  match t with
  | MAvc t => call MAvc (Avc.PESHeader h) t x
  | MAac t => call MAac (Aac.PESHeader h) t x
  | MAc3 t => call MAc3 (Ac3.PESHeader h) t x
  | MEac3 t => call MEac3 (Eac3.PESHeader h) t x
  end.

Definition media_PESPayload (d : list Z) : M (MediaTransformer * X) unit := fun '(t, x) =>
  match t with
  | MAvc t => call MAvc (Avc.PESPayload d) t x
  | MAac t => call MAac (Aac.PESPayload d) t x
  | MAc3 t => call MAc3 (Ac3.PESPayload d) t x
  | MEac3 t => call MEac3 (Eac3.PESPayload d) t x
  end.

Definition media_PESEnd : M (MediaTransformer * X) unit := fun '(t, x) =>
  match t with
  | MAvc t => call MAvc Avc.PESEnd t x
  | MAac t => call MAac Aac.PESEnd t x
  | MAc3 t => call MAc3 Ac3.PESEnd t x
  | MEac3 t => call MEac3 Eac3.PESEnd t x
  end.

Definition media_Flush : M (MediaTransformer * X) unit := fun '(t, x) =>
  match t with
  | MAvc t => call MAvc Avc.Flush t x
  | MAac t => call MAac Aac.Flush t x
  | MAc3 t => call MAc3 Ac3.Flush t x
  | MEac3 t => call MEac3 Eac3.Flush t x
  end.

#[export] Instance media_handler : PESHandler (MediaTransformer * X) := {
  PESHeader := media_PESHeader;
  PESPayload := media_PESPayload;
  PESEnd := media_PESEnd;
}.
End Methods.
End Media.
Arguments MediaTransformer : clear implicits.

(** ** The stream *)
Section Stream.
Context (aes : list Z -> list Z -> list Z).
#[local] Instance stream_cryptor : BlockCryptor CBCEncryptor := cbc_cryptor aes.

Record mediaStream := MkMediaStream {
  pid : Z;
  streamType : Z;
  sink : outputAligner;
  pes : PESCollector;
  transformer : MediaTransformer CBCEncryptor;
}.

Definition newMediaStream (pid streamType : Z) (sink : outputAligner)
    (transformer : MediaTransformer CBCEncryptor) : mediaStream :=
  {| pid := pid; streamType := streamType; sink := sink; pes := new_collector;
     transformer := transformer |}.

Definition stream_Active (s : mediaStream) : bool := PesCollector.Active (pes s).

(** The rest of the program, with the signal of each PID. *)
Context {E : Type} (Signal : Z -> Patch -> M E unit).

#[local] Instance sink_handler : PESHandler (outputAligner * E) := {
  PESHeader h := on_fst (Output.PESHeader h);
  PESPayload d := on_fst (Output.PESPayload d);
  PESEnd := on_fst Output.PESEnd;
}.
#[local] Instance sink_signal (id : Z) : PMTSignal (outputAligner * E) := {
  signal p := on_snd (Signal id p);
}.

(** NewTransformer: the AVC constructor signals at once. *)
Definition NewTransformer (id streamType : Z) (cfg : Config) :
    M (outputAligner * E) (MediaTransformer CBCEncryptor) :=
  let _ := sink_signal id in
  if (streamType =? StreamTypeH264Video)%Z then
    e ← lift (NewCBCEncryptor cfg); t ← Avc.NewTransformer (Some e); mret (MAvc t)
  else if (streamType =? StreamTypeADTS)%Z then
    e ← lift (NewCBCEncryptor cfg); mret (MAac (Audio.NewTransformer e))
  else if (streamType =? StreamTypeAC3Audio)%Z then
    e ← lift (NewCBCEncryptor cfg); mret (MAc3 (Audio.NewTransformer e))
  else if (streamType =? StreamTypeEAC3Audio)%Z then
    e ← lift (NewCBCEncryptor cfg); mret (MEac3 (Audio.NewTransformer e))
  else errorf "unsupported media stream type".

(** A call on the parts of the stream that make the pipeline. *)
Definition on_pipeline {A} (m : M (PESCollector * (MediaTransformer CBCEncryptor * (outputAligner * E))) A) :
    M (mediaStream * E) A := fun '(s, e) =>
  let '(r, (c, (t, (a, e')))) := m (pes s, (transformer s, (sink s, e))) in
  (r, ({| pid := pid s; streamType := streamType s; sink := a; pes := c; transformer := t |}, e')).

Definition on_sink {A} (m : M outputAligner A) : M (mediaStream * E) A :=
  on_pipeline (on_snd (on_snd (on_fst m))).

Definition stream_Consume (token : Z) (packet : Packet) : M (mediaStream * E) (list completedSlot) :=
  s ← on_fst get;
  fail_if (negb (PID (Header packet) =? pid s)%Z) "media stream: received packet for another PID";;
  on_sink (registerInputPacket token packet);;
  (let _ := sink_signal (pid s) in
   on_pipeline (PesCollector.Consume (PayloadUnitStartIndicator (Header packet)) (Payload packet)));;
  on_sink align.

Definition stream_Flush : M (mediaStream * E) (list completedSlot) :=
  s ← on_fst get;
  (let _ := sink_signal (pid s) in
   on_pipeline PesCollector.Flush;;
   on_pipeline (on_snd media_Flush));;
  on_sink flush.
End Stream.
