(* ===== verification/Remuxer.v ===== *)
(** * ts/remuxer.go and ts/encrypt.go: routing packets

    The remuxer gives every input packet a slot of the assembler and routes it by
    PID: PAT, PMT, a media stream, or straight through.  Go visits the entries of
    a map in an unspecified order, so the visits that matter go through a
    parameter, [order]. *)

From S2P Require Import Prelude CommitQueue SampleAes Packet Astikit PacketCodec Pmt PesHandler Psi PsiCollector Output PmtTransformer MediaStream Demuxer.

Definition PIDPAT : Z := 0.

Section Remuxer.
Context (I B : Type) `{BytesIterator I} `{BufferWriter B} {W : Type} `{BitsWriter W}.
Context (aes : list Z -> list Z -> list Z) (order : list Z -> list Z).

(** What the media streams share: the PMT transformer and the assembler. *)
Definition shared : Type := pmtTransformer * outputAssembler (W := W).

Record remuxer := MkRemuxer {
  pat : PATCollector;
  shared_parts : shared;
  streams : option (gmap Z mediaStream);
  pmtPID : Z;
  remuxer_encrypted : bool;
  cfg : Config;
}.

Definition newRemuxer (writer : W) (inputEncrypted : bool) (cfg : Config) : remuxer :=
  {| pat := NewPATCollector 1;
     shared_parts := (newPMTTransformer inputEncrypted, (empty_queue, writer));
     streams := None; pmtPID := 0; remuxer_encrypted := inputEncrypted; cfg := cfg |}.

Definition set_shared (x : shared) (r : remuxer) : remuxer :=
  {| pat := pat r; shared_parts := x; streams := streams r; pmtPID := pmtPID r;
     remuxer_encrypted := remuxer_encrypted r; cfg := cfg r |}.
Definition set_pat (c : PATCollector) (r : remuxer) : remuxer :=
  {| pat := c; shared_parts := shared_parts r; streams := streams r; pmtPID := pmtPID r;
     remuxer_encrypted := remuxer_encrypted r; cfg := cfg r |}.
Definition set_pmtPID (id : Z) (r : remuxer) : remuxer :=
  {| pat := pat r; shared_parts := shared_parts r; streams := streams r; pmtPID := id;
     remuxer_encrypted := remuxer_encrypted r; cfg := cfg r |}.
Definition set_streams (m : gmap Z mediaStream) (r : remuxer) : remuxer :=
  {| pat := pat r; shared_parts := shared_parts r; streams := Some m; pmtPID := pmtPID r;
     remuxer_encrypted := remuxer_encrypted r; cfg := cfg r |}.

Definition on_shared {A} (m : M shared A) : M remuxer A := fun r =>
  let '(o, x) := m (shared_parts r) in (o, set_shared x r).
Definition on_output {A} (m : M (outputAssembler (W := W)) A) : M remuxer A := on_shared (on_snd m).
Definition on_pat {A} (m : M PATCollector A) : M remuxer A := fun r =>
  let '(o, c) := m (pat r) in (o, set_pat c r).

Definition shared_Signal : Z -> Patch -> M shared unit := Signal B assembler_Commit.

(** A method of the media stream of [id]; [r.streams] holds a pointer to it. *)
Definition on_stream {A} (id : Z) (m : M (mediaStream * shared) A) : M remuxer A := fun r =>
  match streams r ≫= (.!! id) with
  | Some s =>
      let '(o, (s', x)) := m (s, shared_parts r) in
      (o, set_streams (<[id := s']> (default ∅ (streams r))) (set_shared x r))
  | None => (Fail Panic, r)
  end.

Definition commit (completed : list completedSlot) : M remuxer unit :=
  for_each (fun slot => on_output (assembler_Commit slot)) completed.

(** The first stream type announced for each supported PID. *)
Definition supported_types (encrypted : bool) (l : list PMTElementaryStream) : gmap Z Z :=
  foldl (fun m s =>
    if SupportedMediaType (StreamType s) encrypted && negb (bool_decide (is_Some (m !! ElementaryPID s)))
    then <[ElementaryPID s := StreamType s]> m else m) ∅ l.

(** The keys of a map, in the order of a visit. *)
Definition visit {A} (m : gmap Z A) : list Z := order (fst <$> map_to_list m).

Definition create_stream (types : gmap Z Z) (id : Z) : M (remuxer) unit :=
  t ← must (types !! id);
  '(sink, media) ← wrap_err "remuxer: create media PID" (fun r =>
    match NewTransformer shared_Signal id t (cfg r) (newOutputAligner id, shared_parts r) with
    | (Ok media, (sink, x)) => (Ok (sink, media), set_shared x r)
    | (Fail f, (_, x)) => (Fail f, set_shared x r)
    end);
  modify (fun r => set_streams
    (<[id := newMediaStream id t sink media]> (default ∅ (streams r))) r).

Definition updateMediaStreams (l : list PMTElementaryStream) : M remuxer unit :=
  r ← get;
  match streams r with
  | Some _ => mret tt
  | None =>
      let types := supported_types (remuxer_encrypted r) l in
      modify (set_streams ∅);;
      for_each (create_stream types) (visit types)
  end.

(** ** A packet *)
Definition route_PAT (token : Z) (packet : Packet) : M remuxer unit :=
  found ← wrap_err "remuxer: collect PAT"
    (on_pat (pat_Consume I (PayloadUnitStartIndicator (Header packet)) (Payload packet)));
  (match found with Some id => modify (set_pmtPID id) | None => mret tt end);;
  on_output (CommitOriginal token packet).

Definition route_PMT (token : Z) (packet : Packet) : M remuxer unit :=
  l ← wrap_err "remuxer: process PMT"
    (on_shared (pmtTransformer_Consume I B assembler_Commit token packet));
  when (0 <? length l) (updateMediaStreams l).

Definition route_media (s : mediaStream) (id token : Z) (packet : Packet) : M remuxer unit :=
  if negb (stream_Active s) && HasPayload (Header packet)
     && negb (PayloadUnitStartIndicator (Header packet))
  then on_output (CommitOriginal token packet)
  else
    completed ← wrap_err "remuxer: media PID"
      (on_stream id (stream_Consume aes shared_Signal token packet));
    commit completed.

Definition remuxer_Consume (packet : Packet) : M remuxer unit :=
  token ← on_output assembler_Reserve;
  r ← get;
  let id := PID (Header packet) in
  if (id =? PIDPAT)%Z then route_PAT token packet
  else if (id =? pmtPID r)%Z then route_PMT token packet
  else
    match streams r ≫= (.!! id) with
    | Some s => route_media s id token packet
    | None => on_output (CommitOriginal token packet)
    end.

(** ** The end of the stream *)
Definition flush_stream (id : Z) : M remuxer unit :=
  wrap_err "remuxer: flush media PID"
    (completed ← on_stream id (stream_Flush aes shared_Signal); commit completed).

Definition remuxer_Flush : M remuxer unit :=
  r ← get;
  for_each flush_stream (visit (default ∅ (streams r)));;
  wrap_err "remuxer: flush PMT" (on_shared pmtTransformer_Flush);;
  on_output assembler_Flush.

(** ** encrypt.go *)
Context {R : Type} `{Input R}.

(** A round of the loop of [process]: another packet, or the end of the input. *)
Definition process_step (_ : unit) : M (R * remuxer) (unit + unit) :=
  e ← on_fst ctx_Err;
  match e with
  | Some e => fail_with e
  | None => fun '(x, r) =>
      match NextPacket I (Z.to_nat MpegTsPacketSize) x with
      | (Ok packet, x) => (on_snd (remuxer_Consume packet);; mret (inl tt)) (x, r)
      | (Fail (Err e), x) =>
          if decide (e = ErrNoMorePackets) then (Ok (inr tt), (x, r))
          else
            match ctx_Err x with
            | (Ok (Some ctxErr), x) => (Fail (Err ctxErr), (x, r))
            | (Ok None, x) => (Fail (Err (Wrapf "ts: demux" e)), (x, r))
            | (Fail f, x) => (Fail f, (x, r))
            end
      | (Fail f, x) => (Fail f, (x, r))
      end
  end.

(** [fuel] bounds the packets of the input. *)
Definition process (fuel : nat) (cfg : Config) (encrypt : bool) (x : R) (w : W) :
    outcome unit * W :=
  match Validate cfg with
  | None =>
      let '(o, (_, r)) :=
        (iter fuel process_step tt;; on_snd remuxer_Flush) (x, newRemuxer w (negb encrypt) cfg) in
      (o, (shared_parts r).2.2)
  | Some e => (Fail (Err e), w)
  end.

Definition Encrypt (fuel : nat) (cfg : Config) (x : R) (w : W) : outcome unit * W :=
  process fuel cfg true x w.
End Remuxer.
