(* ===== verification/Sample.v ===== *)
(** * A transport stream to run the program on

    A PAT, a PMT with one AAC stream, a null packet and an AAC frame, with the
    reference instances of the interfaces and a cipher that is the identity.  The
    program is evaluated on it, and on streams that make it fail. *)

From S2P Require Import Prelude CommitQueue SampleAes Packet Astikit PacketCodec PacketSpec Crc32 Psi PsiCollector Output PmtTransformer MediaStream Demuxer Remuxer.
Import Reference.
Local Open Scope Z_scope.

(** ** The input *)
Definition crc_bytes (l : list Z) : list Z := be32_bytes (computeCRC32 l).
Definition pad_payload (l : list Z) : list Z := l ++ replicate (184 - length l) 0xff.

(** The program 1 with its map on the PID 0x100. *)
Definition pat_section : list Z :=
  let l := [0; 0xb0; 13; 0; 1; 0xc1; 0; 0; 0; 1; 0xe1; 0] in l ++ crc_bytes l.
(** AAC on the PID 0x101, without descriptors. *)
Definition pmt_section : list Z :=
  let l := [2; 0xb0; 18; 0; 1; 0xc1; 0; 0; 0xe1; 1; 0xf0; 0; 0x0f; 0xe1; 1; 0xf0; 0] in l ++ crc_bytes l.

Definition sample_packet (pid : Z) (pusi : bool) (cc : Z) (payload : list Z) : Packet :=
  {| AdaptationField := None;
     Header := {| ContinuityCounter := cc; HasAdaptationField := false; HasPayload := true;
       PayloadUnitStartIndicator := pusi; PID := pid; TransportErrorIndicator := false;
       TransportPriority := false; TransportScramblingControl := 0 |};
     Payload := payload |}.

Definition pat_packet : Packet := sample_packet 0 true 0 (pad_payload (0 :: pat_section)).
Definition pmt_packet : Packet := sample_packet 0x100 true 0 (pad_payload (0 :: pmt_section)).
Definition null_packet : Packet := sample_packet 0x1fff false 0 (replicate 184 0).

(** An ADTS frame of 175 bytes in a PES packet of 184. *)
Definition aac_pes (data : Z -> Z) : list Z :=
  [0; 0; 1; 0xc0; 0; 178; 0x80; 0; 0] ++ [0xff; 0xf1; 0x4c; 0x80; 0x15; 0xff; 0xfc]
  ++ ((fun i => data (Z.of_nat i)) <$> seq 0 168).
Definition aac_packet : Packet := sample_packet 0x101 true 5 (aac_pes id).

Definition sample_stream : list Packet := [pat_packet; pmt_packet; null_packet; aac_packet].

Lemma sample_packet_wire pid pusi cc payload : 0 <= pid < 2 ^ 13 -> 0 <= cc < 2 ^ 4 ->
  bytes_ok payload -> length payload = 184%nat -> wire_packet (sample_packet pid pusi cc payload).
Proof. intros. unfold wire_packet, wire_header, packet_af. cbn. split_and!; (done || lia). Qed.

Lemma sample_wire : Forall wire_packet sample_stream.
Proof.
  repeat (constructor; [apply sample_packet_wire; [lia|lia| |reflexivity]|]); [..|constructor];
    vm_compute; repeat (constructor; [vm_compute; split; congruence|]); constructor.
Qed.

Definition sample_config : Config := {| Key := replicate 16 1; IV := replicate 16 2 |}.

(** A cipher for examples. *)
Definition no_cipher (key b : list Z) : list Z := b.

Definition remux (ps : list Packet) : outcome unit * remuxer (W := bits) :=
  (for_each (remuxer_Consume iterator bits no_cipher id) ps;; remuxer_Flush bits no_cipher id)
    (newRemuxer ([], None) false sample_config).

Definition encrypt_bytes (input : list Z) : outcome unit * list Z :=
  let '(o, w) := Encrypt iterator bits no_cipher id (length input / 188 + 1) sample_config
                   (input : bytes_reader) (([], None) : bits) in
  (o, bytes_of_bits w.1).

(** ** The output *)

(** The PMT announces the encrypted stream, with a new version. *)
Definition pmt_out_section : list Z :=
  let l := [2; 0xb0; 40; 0; 1; 0xc3; 0; 0; 0xe1; 1; 0xf0; 0; 0xcf; 0xe1; 1; 0xf0; 22;
            15; 4; 97; 97; 99; 100; 5; 14; 97; 112; 97; 100; 122; 97; 97; 99; 0; 0; 1; 2;
            0x11; 0x90] in l ++ crc_bytes l.

(** CBC with a cipher that is the identity xors with the IV, then with the data; the
    first 16 bytes after the ADTS header and the last partial block are clear. *)
Definition aac_cipher (i : Z) : Z :=
  if (i <? 16) || (160 <=? i) then i
  else foldl Z.lxor 2 ((fun k => 16 * Z.of_nat k + i mod 16) <$> seq 1 (Z.to_nat (i / 16))).

Definition sample_output : list Packet :=
  [pat_packet; sample_packet 0x100 true 0 (pad_payload (0 :: pmt_out_section)); null_packet;
   sample_packet 0x101 true 5 (aac_pes aac_cipher)].

Definition stream_bytes (ps : list Packet) : list Z := concat (packet_bytes <$> ps).

Example sample_encrypted : encrypt_bytes (stream_bytes sample_stream) = (Ok tt, stream_bytes sample_output).
Proof. vm_compute. reflexivity. Qed.

(** ** Inputs that fail *)

(** A packet cut short at the end is dropped. *)
Example sample_cut : encrypt_bytes (stream_bytes sample_stream ++ [0x47; 0; 0])
  = (Ok tt, stream_bytes sample_output).
Proof. vm_compute. reflexivity. Qed.

(** Bytes out of step with the packets. *)
Example sample_misaligned : encrypt_bytes (0 :: stream_bytes sample_stream)
  = (Fail (Err (Wrapf "ts: demux" (Wrapf "astits: fetching next packet from buffer failed"
      (Wrapf "astits: building packet failed" ErrPacketMustStartWithASyncByte)))), []).
Proof. vm_compute. reflexivity. Qed.

(** A payload unit start on a packet without payload: the aligner registers no PES
    packet for it, and has none when the header arrives. *)
Definition start_without_payload : Packet :=
  {| AdaptationField := Some (with_layout None 0 183 182 false zero_af);
     Header := {| ContinuityCounter := 4; HasAdaptationField := true; HasPayload := false;
       PayloadUnitStartIndicator := true; PID := 0x101; TransportErrorIndicator := false;
       TransportPriority := false; TransportScramblingControl := 0 |};
     Payload := [] |}.

Example start_without_payload_panics :
  (encrypt_bytes (stream_bytes [pat_packet; pmt_packet; start_without_payload;
                                sample_packet 0x101 false 5 (aac_pes id)])).1 = Fail Panic.
Proof. vm_compute. reflexivity. Qed.

(** ** Descriptors that change when the PMT is written again *)
Definition reencode (l : list Z) : option (list Z) :=
  match (DescriptorParse.parseDescriptors (I := iterator) (NewBytesIterator l)).1 with
  | Ok ds => match DescriptorWrite.writeDescriptorsWithLength ds (([], None) : bits) with
             | (Ok _, w) => Some (bytes_of_bits w.1)
             | _ => None
             end
  | _ => None
  end.

(** Of several languages the first is kept. *)
Example languages_lost :
  reencode [0xf0; 10; 0x0a; 8; 101; 110; 103; 0; 102; 114; 97; 3]
  = Some [0xf0; 6; 0x0a; 4; 101; 110; 103; 3].
Proof. vm_compute. reflexivity. Qed.

(** A service with two lines of data is written in 4 bytes and announced as 3. *)
Example data_lines_overrun :
  reencode [0xf0; 6; 0x45; 4; 0x01; 2; 0xe1; 0xe2] = Some [0xf0; 5; 0x45; 3; 0x01; 2; 0xe1; 0xe2].
Proof. vm_compute. reflexivity. Qed.
