(* ===== verification/Effects.v ===== *)
(** * What a transformer can do to the rest of the program

    A collector or a codec transformer only acts on the rest of the program
    through the calls of [PESHandler] and [PMTSignal].  So a relation that each of
    those calls respects is respected by every method, whatever its state: the
    frame property used to reason about all media pipelines at once. *)

From S2P Require Import Prelude Astikit SampleAes Pmt PesHandler PesQueue PesCollector.
From S2P Require Audio Aac Ac3 Eac3 Avc Output PmtTransformer MediaStream.

(** ** Calls that respect a relation *)
Section Keeps.
Context {W : Type} (R : relation W) `{!PreOrder R}.

(** A call that succeeds relates the states before and after. *)
Definition respects {A} (m : M W A) : Prop := forall w a w', m w = (Ok a, w') -> R w w'.

(** The same for a method with a state of its own. *)
Definition keeps {T A} (m : M (T * W) A) : Prop :=
  forall t w a t' w', m (t, w) = (Ok a, (t', w')) -> R w w'.

Lemma respects_ret {A} (a : A) : respects (mret a).
Proof. intros w a' w' [= _ <-]. reflexivity. Qed.

Lemma respects_bind {A B} (m : M W A) (k : A -> M W B) :
  respects m -> (forall a, respects (k a)) -> respects (m ≫= k).
Proof.
  intros Hm Hk w b w' E. apply bind_Ok_inv in E as (a & w1 & E1 & E2).
  transitivity w1; [by eapply Hm|by eapply Hk].
Qed.

Lemma respects_fail {A} f : respects (A := A) (fail f).
Proof. by intros w a w' [=]. Qed.

Lemma respects_wrap {A} msg (m : M W A) : respects m -> respects (wrap_err msg m).
Proof. intros Hm w a w' E. apply wrap_err_ok in E. by eapply Hm. Qed.

Lemma respects_for_each {A} (f : A -> M W unit) l : (forall x, respects (f x)) -> respects (for_each f l).
Proof.
  intros Hf. induction l as [|x l IH]; [apply respects_ret|]. cbn [for_each]. by apply respects_bind.
Qed.

(** A call that leaves alone what the relation is about. *)
Lemma respects_gets {A} (f : W -> A) : respects (gets f).
Proof. intros w a w' [= _ <-]. reflexivity. Qed.

Lemma respects_must {A} (o : option A) : respects (must o).
Proof. destruct o; [apply respects_ret|apply respects_fail]. Qed.

Context {T : Type}.

Lemma keeps_wrap {A} msg (m : M (T * W) A) : keeps m -> keeps (wrap_err msg m).
Proof. intros Hm t w a t' w' E. apply wrap_err_ok in E. by eapply Hm. Qed.

Lemma keeps_ret {A} (a : A) : keeps (T := T) (mret a).
Proof. intros t w a' t' w' [= _ _ <-]. done. Qed.

Lemma keeps_bind {A B} (m : M (T * W) A) (k : A -> M (T * W) B) :
  keeps m -> (forall a, keeps (k a)) -> keeps (m ≫= k).
Proof.
  intros Hm Hk t w b t' w' E. apply bind_Ok_inv in E as (a & [t1 w1] & E1 & E2).
  transitivity w1; [by eapply Hm|by eapply Hk].
Qed.

Lemma keeps_fail {A} f : keeps (T := T) (A := A) (fail f).
Proof. by intros t w a t' w' [=]. Qed.

Lemma keeps_errorf {A} msg : keeps (T := T) (A := A) (errorf msg).
Proof. apply keeps_fail. Qed.

Lemma keeps_panic {A} : keeps (T := T) (A := A) panic.
Proof. apply keeps_fail. Qed.

Lemma keeps_fst {A} (m : M T A) : keeps (on_fst m).
Proof. intros t w a t' w'. unfold on_fst. destruct (m t). by intros [= _ _ <-]. Qed.

Lemma keeps_lift {A} (o : outcome A) : keeps (T := T) (lift o).
Proof. intros t w a t' w'. unfold lift. by intros [= _ _ <-]. Qed.

Lemma keeps_snd {A} (m : M W A) : respects m -> keeps (T := T) (on_snd m).
Proof. intros Hm t w a t' w'. unfold on_snd. destruct (m w) eqn:E. intros [= -> _ ->]. by eapply Hm. Qed.

Lemma keeps_iter {A B} n (step : A -> M (T * W) (A + B)) a :
  (forall a, keeps (step a)) -> keeps (iter n step a).
Proof.
  intros Hs. revert a. induction n as [|n IH]; intros a; [apply keeps_fail|].
  cbn [iter]. apply keeps_bind; [done|]. intros [a'|b]; [done|apply keeps_ret].
Qed.

Lemma keeps_for_each {A} (f : A -> M (T * W) unit) l : (forall x, keeps (f x)) -> keeps (for_each f l).
Proof.
  intros Hf. induction l as [|x l IH]; [apply keeps_ret|]. cbn [for_each]. by apply keeps_bind.
Qed.

Lemma keeps_when b (m : M (T * W) unit) : keeps m -> keeps (when b m).
Proof. intros Hm. destruct b; [done|apply keeps_ret]. Qed.

Lemma keeps_fail_if b msg : keeps (T := T) (fail_if b msg).
Proof. destruct b; [apply keeps_fail|apply keeps_ret]. Qed.

(** A call whose text depends on the state, as its fuel does. *)
Lemma keeps_at {A} (m : T * W -> M (T * W) A) : (forall s, keeps (m s)) -> keeps (fun s => m s s).
Proof. intros Hm t w a t' w'. apply Hm. Qed.
End Keeps.

Create HintDb effects.
#[export] Hint Resolve keeps_ret keeps_fail keeps_errorf keeps_panic keeps_fst keeps_lift keeps_fail_if : effects.

(** Follows the text of a method. *)
Ltac effects :=
  intros;
  repeat first
  [ progress auto with effects
  | apply (keeps_bind _); [|intros]
  | apply (keeps_when _)
  | apply (keeps_iter _); intros
  | apply (keeps_for_each _); intros
  | apply (keeps_snd _)
  | match goal with
    | |- keeps _ (match ?x with _ => _ end) => destruct x
    | |- keeps _ (let _ := ?x in _) => cbv zeta
    end ].

(** ** The transformers *)
Section Methods.
Context {W : Type} `{PESHandler W} `{PMTSignal W} (R : relation W) `{!PreOrder R}.

(** Each call that a pipeline makes respects the relation. *)
Hypothesis header_respects : forall h, respects R (PESHeader h).
Hypothesis payload_respects : forall d, respects R (PESPayload d).
Hypothesis end_respects : respects R PESEnd.
Hypothesis signal_respects : forall p, respects R (signal p).
#[local] Hint Resolve header_respects payload_respects end_respects signal_respects : effects.

Section Queue.
Context {T : Type} `{HasPES T}.
Lemma keeps_update f : keeps R (update_pes (T := T) f).
Proof. unfold update_pes. effects. Qed.
#[local] Hint Resolve keeps_update : effects.

Lemma keeps_finishPES : keeps R (finishPES (T := T) (W := W)).
Proof.
  unfold finishPES. apply (keeps_at R (fun s => iter (length (pes_of s.1) + 1) finish_step tt)).
  unfold finish_step. effects.
Qed.
#[local] Hint Resolve keeps_finishPES : effects.

Lemma keeps_write msg encode d : keeps R (PesQueue.write (T := T) msg encode d).
Proof. unfold PesQueue.write, write_step. effects. Qed.
End Queue.
#[local] Hint Resolve keeps_update keeps_finishPES keeps_write : effects.

Section Audio.
Context {C : Type} `{BlockCryptor C} (prefix truncated missing : string).
Context (frames : M (Audio.Transformer C * W) unit) (Hframes : keeps R frames).

Lemma keeps_on_block {A} (m : M C A) : keeps R (Audio.on_block (W := W) m).
Proof. intros t w a t' w'. unfold Audio.on_block. destruct (m _). by intros [= _ _ <-]. Qed.

Lemma keeps_crypt_range off size : keeps R (Audio.crypt_range (C := C) (W := W) off size).
Proof. unfold Audio.crypt_range. effects. apply keeps_on_block. Qed.

Lemma keeps_write_frame d : keeps R (Audio.write_frame (C := C) (W := W) prefix missing d).
Proof. unfold Audio.write_frame. effects. Qed.

Lemma keeps_header_call h : keeps R (Audio.header_call (C := C) (W := W) prefix h).
Proof. unfold Audio.header_call. effects. Qed.

Lemma keeps_payload_call d : keeps R (Audio.payload_call prefix frames d).
Proof. unfold Audio.payload_call. effects. Qed.

Lemma keeps_end_call : keeps R (Audio.end_call (C := C) (W := W) prefix).
Proof. unfold Audio.end_call. effects. Qed.

Lemma keeps_flush_call : keeps R (Audio.flush_call prefix truncated frames).
Proof. unfold Audio.flush_call. effects. Qed.
End Audio.
#[local] Hint Resolve keeps_on_block keeps_crypt_range keeps_write_frame keeps_header_call
  keeps_payload_call keeps_end_call keeps_flush_call : effects.

Section Codecs.
Context {C : Type} `{BlockCryptor C}.

Lemma keeps_aac_frames : keeps R (Aac.processFrames (C := C) (W := W)).
Proof.
  apply (keeps_at R (fun s => iter (length (Audio.buffer s.1) + 1) Aac.frame_step tt)).
  unfold Aac.frame_step. effects.
Qed.

Lemma keeps_ac3_frames : keeps R (Ac3.processFrames (C := C) (W := W)).
Proof.
  apply (keeps_at R (fun s => iter (length (Audio.buffer s.1) + 1) Ac3.frame_step tt)).
  unfold Ac3.frame_step. effects.
Qed.

Lemma keeps_eac3_frames : keeps R (Eac3.processFrames (C := C) (W := W)).
Proof.
  apply (keeps_at R (fun s => iter (length (Audio.buffer s.1) + 1) Eac3.frame_step tt)).
  unfold Eac3.frame_step. effects.
Qed.
#[local] Hint Resolve keeps_aac_frames keeps_ac3_frames keeps_eac3_frames : effects.

Lemma keeps_avc_new (c : option C) : respects R (Avc.NewTransformer (W := W) c).
Proof.
  intros w t w' E. unfold Avc.NewTransformer in E. apply bind_Ok_inv in E as ([] & w1 & E1 & E2).
  injection E2 as _ <-. by eapply signal_respects.
Qed.

(** The AVC transformer. *)
Lemma keeps_avc_block {A} (m : M C A) : keeps R (Avc.on_block (W := W) m).
Proof.
  intros t w a t' w'. unfold Avc.on_block. destruct (Avc.block t); [|done].
  destruct (m _). by intros [= _ _ <-].
Qed.

Lemma keeps_avc_write d e : keeps R (Avc.write (C := C) (W := W) d e).
Proof. unfold Avc.write. effects. Qed.

Lemma keeps_crypt_pattern n : keeps R (Avc.crypt_pattern (C := C) (W := W) n).
Proof. unfold Avc.crypt_pattern. effects. apply keeps_avc_block. Qed.
#[local] Hint Resolve keeps_avc_block keeps_avc_write keeps_crypt_pattern : effects.

Lemma keeps_writeNAL d : keeps R (Avc.writeNAL (C := C) (W := W) d).
Proof. unfold Avc.writeNAL, Avc.probe, Avc.islands, Avc.island_step. effects. Qed.
#[local] Hint Resolve keeps_writeNAL : effects.

Lemma keeps_zeros f n : (forall d, keeps R (f d)) -> keeps R (Avc.zeros_loop (C := C) (W := W) f n).
Proof. unfold Avc.zeros_loop. effects. Qed.

Lemma keeps_writeNALZeros n : keeps R (Avc.writeNALZeros (C := C) (W := W) n).
Proof. apply keeps_zeros. effects. Qed.

Lemma keeps_writeZeros n e : keeps R (Avc.writeZeros (C := C) (W := W) n e).
Proof. apply keeps_zeros. effects. Qed.

Lemma keeps_beginNAL : keeps R (Avc.beginNAL (C := C) (W := W)).
Proof. unfold Avc.beginNAL. effects. Qed.

Lemma keeps_finish_open : keeps R (Avc.finish_open (C := C) (W := W)).
Proof. unfold Avc.finish_open, Avc.finishNAL. effects. Qed.
#[local] Hint Resolve keeps_writeNALZeros keeps_writeZeros keeps_beginNAL keeps_finish_open : effects.

Lemma keeps_resolve_zeros d : keeps R (Avc.resolve_zeros (C := C) (W := W) d).
Proof. unfold Avc.resolve_zeros. effects. Qed.

Lemma keeps_payload_step d : keeps R (Avc.payload_step (C := C) (W := W) d).
Proof. unfold Avc.payload_step. effects. Qed.
#[local] Hint Resolve keeps_resolve_zeros keeps_payload_step : effects.

(** ** A dynamic transformer *)
Lemma keeps_call {T A} (mk : T -> MediaStream.MediaTransformer C) (m : M (T * W) A) t x a t' x' :
  keeps R m -> MediaStream.call mk m t x = (Ok a, (t', x')) -> R x x'.
Proof.
  intros Hm. unfold MediaStream.call. destruct (m (t, x)) as [r [t1 x1]] eqn:E.
  intros [= -> _ <-]. by eapply Hm.
Qed.

Lemma keeps_media_header h : keeps R (MediaStream.media_PESHeader (C := C) (X := W) h).
Proof.
  intros [t|t|t|t] w a t' w' E; (eapply keeps_call; [|exact E]).
  - unfold Avc.PESHeader. effects.
  - apply keeps_header_call.
  - apply keeps_header_call.
  - apply keeps_header_call.
Qed.

Lemma keeps_media_payload d : keeps R (MediaStream.media_PESPayload (C := C) (X := W) d).
Proof.
  intros [t|t|t|t] w a t' w' E; (eapply keeps_call; [|exact E]).
  - unfold Avc.PESPayload. effects.
  - by apply keeps_payload_call, keeps_aac_frames.
  - by apply keeps_payload_call, keeps_ac3_frames.
  - by apply keeps_payload_call, keeps_eac3_frames.
Qed.

Lemma keeps_media_end : keeps R (MediaStream.media_PESEnd (C := C) (X := W)).
Proof.
  intros [t|t|t|t] w a t' w' E; (eapply keeps_call; [|exact E]).
  - unfold Avc.PESEnd. effects.
  - apply keeps_end_call.
  - apply keeps_end_call.
  - apply keeps_end_call.
Qed.

Lemma keeps_media_flush : keeps R (MediaStream.media_Flush (C := C) (X := W)).
Proof.
  intros [t|t|t|t] w a t' w' E; (eapply keeps_call; [|exact E]).
  - unfold Avc.Flush. effects.
  - by apply keeps_flush_call, keeps_aac_frames.
  - by apply keeps_flush_call, keeps_ac3_frames.
  - by apply keeps_flush_call, keeps_eac3_frames.
Qed.
End Codecs.
End Methods.

(** ** The collector *)
Section Collector.
Context {W : Type} `{PESHandler W} (R : relation W) `{!PreOrder R}.
Hypothesis header_respects : forall h, respects R (PESHeader h).
Hypothesis payload_respects : forall d, respects R (PESPayload d).
Hypothesis end_respects : respects R PESEnd.
#[local] Hint Resolve header_respects payload_respects end_respects : effects.

Lemma keeps_finish : keeps R (PesCollector.finish (W := W)).
Proof. unfold PesCollector.finish. effects. Qed.
#[local] Hint Resolve keeps_finish : effects.

Lemma keeps_collect pusi d : keeps R (PesCollector.Consume (W := W) pusi d).
Proof. unfold PesCollector.Consume, PesCollector.consume_step. effects. Qed.

Lemma keeps_collect_flush : keeps R (PesCollector.Flush (W := W)).
Proof. unfold PesCollector.Flush. effects. Qed.
End Collector.

(** ** Media streams *)
Section Stream.
Import MediaStream.
Context (aes : list Z -> list Z -> list Z) {E : Type} (Signal : Z -> Patch -> M E unit).
Context (R : relation E) `{!PreOrder R}.
Hypothesis Signal_respects : forall id p, respects R (Signal id p).

(** The relation at the two levels of the pipeline. *)
Definition behind {T} : relation (T * E) := fun x y => R x.2 y.2.
#[local] Instance behind_preorder {T} : PreOrder (@behind T).
Proof. split; [intros x; unfold behind; reflexivity|]. intros x y z. unfold behind. by etransitivity. Qed.

Lemma respects_behind {T A} (m : M (T * E) A) : keeps R m -> respects behind m.
Proof. intros Hm [t w] a [t' w'] H. by eapply Hm. Qed.

#[local] Existing Instance stream_cryptor.
#[local] Existing Instance sink_handler.
#[local] Existing Instance sink_signal.

Lemma sink_respects {A} (m : M Output.outputAligner A) : respects behind (on_fst (W := E) m).
Proof. apply respects_behind. effects. Qed.

Lemma keeps_new_transformer id t cfg : keeps R (NewTransformer Signal id t cfg).
Proof.
  unfold NewTransformer. cbv zeta. effects.
Qed.

(** The relation where the collector runs. *)
Definition far : relation (MediaTransformer CBCEncryptor * (Output.outputAligner * E)) :=
  fun x y => R x.2.2 y.2.2.
#[local] Instance far_preorder : PreOrder far.
Proof. split; [intros x; unfold far; reflexivity|]. intros x y z. unfold far. by etransitivity. Qed.

Lemma keeps_pipeline {A} (m : M (PESCollector * (MediaTransformer CBCEncryptor * (Output.outputAligner * E))) A) :
  keeps far m -> keeps R (on_pipeline m).
Proof.
  intros Hm s e a s' e' H. unfold on_pipeline in H.
  destruct (m _) as [r [c [t [al e1]]]] eqn:Em. injection H as -> _ <-.
  exact (Hm _ _ _ _ _ Em).
Qed.

#[local] Instance stream_blocks : BlockCryptor CBCEncryptor := stream_cryptor aes.

Section Pipeline.
Context (id : Z).
#[local] Instance pipeline_signal : PMTSignal (Output.outputAligner * E) := sink_signal Signal id.

Lemma pipeline_signals p : respects behind (signal (W := Output.outputAligner * E) p).
Proof. intros [a e] u [a' e']. cbn. unfold on_snd. destruct (Signal id p e) eqn:Es.
  intros [= -> _ <-]. by eapply Signal_respects.
Qed.

Lemma far_respects {A} (m : M (MediaTransformer CBCEncryptor * (Output.outputAligner * E)) A) :
  keeps behind m -> respects far m.
Proof. intros Hm [t x] a [t' x'] H. by eapply (Hm t x a t' x'). Qed.

Lemma keeps_stream_collect pusi d : keeps far (PesCollector.Consume (W := MediaTransformer CBCEncryptor * (Output.outputAligner * E)) pusi d).
Proof.
  apply (keeps_collect far); intros; apply far_respects.
  - apply (keeps_media_header behind); intros; (apply pipeline_signals || apply sink_respects).
  - apply (keeps_media_payload behind); intros; (apply pipeline_signals || apply sink_respects).
  - apply (keeps_media_end behind); intros; apply sink_respects.
Qed.

Lemma keeps_stream_collect_flush : keeps far (PesCollector.Flush (W := MediaTransformer CBCEncryptor * (Output.outputAligner * E))).
Proof.
  apply (keeps_collect_flush far); intros; apply far_respects.
  apply (keeps_media_end behind); intros; apply sink_respects.
Qed.

Lemma keeps_stream_media_flush : respects far (media_Flush (X := Output.outputAligner * E)).
Proof. apply far_respects, (keeps_media_flush behind); intros; (apply pipeline_signals || apply sink_respects). Qed.
End Pipeline.

Lemma keeps_on_sink {A} (m : M Output.outputAligner A) : keeps R (on_sink m).
Proof.
  apply keeps_pipeline. apply (keeps_snd far). intros [t [a e]] x [t' [a' e']] H.
  unfold on_snd, on_fst in H. destruct (m a). injection H as _ _ _ <-. unfold far. reflexivity.
Qed.

Lemma keeps_stream_Consume token packet : keeps R (stream_Consume aes Signal token packet).
Proof.
  unfold stream_Consume. effects; try apply keeps_on_sink.
  apply keeps_pipeline, keeps_stream_collect.
Qed.

Lemma keeps_stream_Flush : keeps R (stream_Flush aes Signal).
Proof.
  unfold stream_Flush. effects; try apply keeps_on_sink; apply keeps_pipeline.
  - apply keeps_stream_collect_flush.
  - apply (keeps_snd far), keeps_stream_media_flush.
Qed.
End Stream.

(** ** The PMT transformer *)
Section Pmt.
Import PmtTransformer.
Context (I B : Type) `{BytesIterator I} `{BufferWriter B} {E : Type} (complete : Output.completedSlot -> M E unit).
Context (R : relation E) `{!PreOrder R}.
Hypothesis complete_respects : forall slot, respects R (complete slot).
#[local] Hint Resolve complete_respects : effects.

Lemma keeps_complete_one i : keeps R (complete_one B complete i).
Proof. unfold complete_one. effects. apply keeps_wrap. effects. Qed.
#[local] Hint Resolve keeps_complete_one : effects.

Lemma keeps_completeReady : keeps R (completeReady B complete).
Proof. unfold completeReady. effects. Qed.
#[local] Hint Resolve keeps_completeReady : effects.

Lemma keeps_pmt_Consume token packet : keeps R (pmtTransformer_Consume I B complete token packet).
Proof. unfold pmtTransformer_Consume. effects. Qed.

Lemma keeps_Signal id patch : keeps R (Signal B complete id patch).
Proof. unfold Signal. effects. Qed.

Lemma keeps_pmt_Flush : keeps R (pmtTransformer_Flush (A := E)).
Proof. unfold pmtTransformer_Flush. effects. Qed.
End Pmt.
