(* ===== verification/RemuxerSpec.v ===== *)
(** * What the remuxer promises: one slot per packet, written in input order

    Whatever the codec transformers delay and whenever the PMT is completed, the
    packets written are those of the slots of the input packets, in input order,
    and an input packet that is not rewritten fills its slot by itself. *)

From S2P Require Import Prelude CommitQueue SampleAes Packet Astikit Pmt PesHandler Psi PsiCollector Output PmtTransformer MediaStream Demuxer Remuxer Effects Sample.

(** ** The assembler *)
Section Assembler.
Context {W : Type} `{BitsWriter W} (w0 : W).

(** From the writer [w0], the slots written are [log]; [h] has every value that a
    slot has been given, the slots written included. *)
Definition in_order (o : outputAssembler (W := W)) (log : list (list Packet))
    (h : gmap Z (list Packet)) : Prop :=
  history o.1 log h /\ write_packets (concat log) w0 = (Ok tt, o.2).

Lemma write_packets_app ps qs w :
  write_packets (ps ++ qs) w = (write_packets ps;; write_packets qs) w.
Proof. apply for_each_app. Qed.

Lemma write_slots l w : for_each write_packets l w = write_packets (concat l) w.
Proof.
  revert w. induction l as [|ps l IH]; intros w; [done|]. cbn [for_each concat].
  rewrite write_packets_app. apply bind_ext. intros [] w'. apply IH.
Qed.

Lemma drain_in_order o o' u log h : in_order o log h -> assembler_Drain o = (Ok u, o') ->
  exists log', in_order o' log' h /\ next o'.1 = next o.1
    /\ CommitQueue.Len o'.1 + length log' = CommitQueue.Len o.1 + length log.
Proof.
  destruct o as [q w]. intros [Hh Hw] E. unfold assembler_Drain in E.
  pose proof (Drain_cases [] write_packets q w (hist_wf _ _ _ Hh)) as Hd. cbn zeta in Hd.
  rewrite E in Hd. destruct o' as [q' w'].
  destruct Hd as (k & w1 & Hwr & Hwf & Hv & [(_ & Hk & ->)|(v & f & _ & _ & [=])]).
  set (p := ready_prefix (spending (view q))) in *.
  assert (Hp : length p <= length (spending (view q))).
  { subst p. clear. induction (spending (view q)) as [|s l IH]; cbn; [lia|].
    destruct (ready s); cbn; lia. }
  pose proof (history_drop q log h k q' Hh Hwf Hv ltac:(fold p; lia)) as Hh'.
  fold p in Hh'. exists (log ++ take k p).
  assert (HL : CommitQueue.Len q' = CommitQueue.Len q - k) by (rewrite !Len_view, Hv; cbn; by rewrite length_drop).
  assert (Hk' : k <= CommitQueue.Len q) by (rewrite Len_view; lia).
  split_and!.
  - split; [done|]. cbn [snd] in *. rewrite concat_app, write_packets_app.
    by rewrite (bind_ok _ _ _ _ _ Hw), <- write_slots.
  - cbn [fst]. rewrite (wf_next q' Hwf), (wf_next q (hist_wf _ _ _ Hh)).
    fold (CommitQueue.Len q') (CommitQueue.Len q). assert (first q' = first q + Z.of_nat k)%Z as -> by (by injection Hv). lia.
  - cbn [fst]. rewrite length_app, length_take. lia.
Qed.

(** A slot that is committed keeps its value for ever. *)
Lemma commit_in_order slot o o' u log h : in_order o log h -> assembler_Commit slot o = (Ok u, o') ->
  exists log', in_order o' log' (<[token slot := slot_packets slot]> h)
    /\ h !! token slot = None /\ next o'.1 = next o.1.
Proof.
  destruct o as [q w]. intros [Hh Hw] E. unfold assembler_Commit in E.
  apply bind_Ok_inv in E as ([] & [q1 w1] & E1 & E2). apply wrap_err_ok in E1.
  rewrite on_fst_unfold in E1. injection E1 as E1 Eq <-.
  pose proof (Commit_cases (token slot) (slot_packets slot) q (hist_wf _ _ _ Hh)) as Hc.
  destruct (spec_lookup (token slot) (view q)) as [s|] eqn:Hs;
    [destruct (ready s) eqn:Hr|]; [by rewrite Hc in E1| |by rewrite Hc in E1].
  destruct Hc as (q2 & Hc & Hwf & Hv). rewrite Hc in Eq. cbn in Eq. subst q2.
  pose proof (history_commit _ _ _ _ _ _ _ Hh Hwf Hs Hv) as Hh1.
  destruct (drain_in_order (q1, w) o' u log _ (conj Hh1 Hw) E2) as (log' & Ho & Hn & _).
  exists log'. split_and!; [done| |].
  - apply spec_lookup_pending in Hs as (Ht & _ & Hs). pose proof (hist_slot _ _ _ Hh _ _ Hs) as Hx.
    rewrite Hr in Hx. change (first (q, w).1) with (first q) in Hx.
    rewrite Z2Nat.id in Hx by lia. by rewrite <- Hx, Zplus_minus.
  - rewrite Hn. cbn [fst]. rewrite (wf_next q1 Hwf), (wf_next q (hist_wf _ _ _ Hh)).
    fold (CommitQueue.Len q1) (CommitQueue.Len q). rewrite !Len_view, Hv. cbn. rewrite length_insert.
    assert (first q1 = first q) as -> by (by injection Hv). done.
Qed.

Lemma reserve_in_order o o' t log h : in_order o log h -> (next o.1 + 1 < 2 ^ 64)%Z ->
  assembler_Reserve o = (Ok t, o') ->
  in_order o' log h /\ t = next o.1 /\ next o'.1 = (next o.1 + 1)%Z.
Proof.
  destruct o as [q w]. intros [Hh Hw] Hlt E. unfold assembler_Reserve in E.
  rewrite on_fst_unfold in E. cbn [fst] in Hlt.
  destruct (push_refines (CommitSlot [] false) q (hist_wf _ _ _ Hh) Hlt) as (q' & Hq & Hwf & Hv).
  unfold Reserve in E. rewrite Hq in E. injection E as <- <-. split_and!; [|done|].
  - split; [|done]. exact (history_push q log h _ q' Hh Hwf Hv).
  - cbn [fst]. destruct Hwf as (_ & _ & -> & _). rewrite Hv.
    destruct (hist_wf _ _ _ Hh) as (_ & _ & Hn & _). cbn [fst] in Hn. rewrite Hn.
    unfold spec_next, spec_push. cbn [spending sfirst]. rewrite length_app. cbn [length]. lia.
Qed.

(** What every call leaves true of the assembler. *)
Definition orderly (o o' : outputAssembler (W := W)) : Prop := forall log h, in_order o log h ->
  exists log' h', in_order o' log' h' /\ h ⊆ h' /\ next o'.1 = next o.1.

#[export] Instance orderly_preorder : PreOrder orderly.
Proof.
  split.
  - intros o log h Ho. by exists log, h.
  - intros o1 o2 o3 H12 H23 log h Ho. destruct (H12 log h Ho) as (log2 & h2 & Ho2 & Hs2 & Hn2).
    destruct (H23 log2 h2 Ho2) as (log3 & h3 & Ho3 & Hs3 & Hn3). exists log3, h3.
    split_and!; [done|by transitivity h2|by rewrite Hn3].
Qed.

Lemma commit_orderly slot : respects orderly (assembler_Commit slot).
Proof.
  intros o u o' E log h Ho. destruct (commit_in_order slot o o' u log h Ho E) as (log' & Ho' & Hf & Hn).
  exists log', (<[token slot := slot_packets slot]> h). split_and!; [done|by apply insert_subseteq|done].
Qed.
End Assembler.

(** ** The remuxer *)
Section Remuxer.
Context (I B : Type) `{BytesIterator I} `{BufferWriter B} {W : Type} `{BitsWriter W}.
Context (aes : list Z -> list Z -> list Z) (order : list Z -> list Z) (w0 : W).

Definition asm (r : remuxer (W := W)) : outputAssembler := (shared_parts r).2.

(** The relation on what the media streams share, and on the remuxer. *)
Definition shared_orderly : relation (shared (W := W)) := fun x y => orderly w0 x.2 y.2.
Definition rem_orderly : relation (remuxer (W := W)) := fun r r' => orderly w0 (asm r) (asm r').

#[local] Instance shared_preorder : PreOrder shared_orderly.
Proof. split; [intros x; unfold shared_orderly; reflexivity|]. intros x y z. unfold shared_orderly. by etransitivity. Qed.
#[local] Instance rem_preorder : PreOrder rem_orderly.
Proof. split; [intros x; unfold rem_orderly; reflexivity|]. intros x y z. unfold rem_orderly. by etransitivity. Qed.

Lemma respects_same {A} (m : M remuxer A) :
  (forall r a r', m r = (Ok a, r') -> asm r' = asm r) -> respects rem_orderly m.
Proof. intros Hm r a r' E. unfold rem_orderly. by rewrite (Hm r a r' E). Qed.

Lemma respects_shared {A} (m : M shared A) : respects shared_orderly m -> respects rem_orderly (on_shared m).
Proof.
  intros Hm r a r' E. unfold on_shared in E. destruct (m _) eqn:Em. injection E as -> <-.
  exact (Hm _ _ _ Em).
Qed.

Lemma respects_output {A} (m : M outputAssembler A) : respects (orderly w0) m -> respects rem_orderly (on_output m).
Proof.
  intros Hm. apply respects_shared. intros [t o] a [t' o'] E.
  exact (keeps_snd (orderly w0) m Hm t o a t' o' E).
Qed.

Lemma respects_on_pat {A} (m : M PATCollector A) : respects rem_orderly (on_pat m).
Proof. apply respects_same. intros r a r' E. unfold on_pat in E. destruct (m _). by injection E as _ <-. Qed.

Lemma respects_stream {A} id (m : M (mediaStream * shared) A) :
  keeps shared_orderly m -> respects rem_orderly (on_stream id m).
Proof.
  intros Hm r a r' E. unfold on_stream in E. destruct (_ ≫= _) as [s|]; [|done].
  destruct (m _) as [o [s' x]] eqn:Em. injection E as -> <-. exact (Hm _ _ _ _ _ Em).
Qed.

Lemma shared_Signal_respects id p : respects shared_orderly (shared_Signal B id p).
Proof.
  intros [t o] u [t' o'] E. apply (keeps_Signal B assembler_Commit (orderly w0) (commit_orderly w0) id p t o u t' o' E).
Qed.

Lemma respects_commit l : respects rem_orderly (commit l).
Proof. apply (respects_for_each _). intros s. apply respects_output, commit_orderly. Qed.

Lemma respects_original t p : respects rem_orderly (on_output (CommitOriginal t p)).
Proof. apply respects_output, commit_orderly. Qed.

Lemma respects_modify (f : remuxer -> remuxer) : (forall r, asm (f r) = asm r) -> respects rem_orderly (modify f).
Proof. intros Hf. apply respects_same. intros r a r' [= _ <-]. apply Hf. Qed.

Lemma respects_create types id : respects rem_orderly (create_stream B types id).
Proof.
  unfold create_stream. apply (respects_bind _); [apply (respects_must _)|intros t].
  apply (respects_bind _).
  - apply respects_wrap. intros r [sink media] r' E.
    destruct (NewTransformer _ _ _ _ _) as [[m|f] [a x]] eqn:Em; [|done]. injection E as -> -> <-.
    exact (keeps_new_transformer _ shared_orderly shared_Signal_respects id t (cfg r) _ _ _ _ _ Em).
  - intros [a m]. by apply respects_modify.
Qed.

Lemma respects_update l : respects rem_orderly (updateMediaStreams B order l).
Proof.
  unfold updateMediaStreams. apply (respects_bind _); [apply (respects_gets _ id)|intros r].
  destruct (streams r); [apply (respects_ret _)|].
  apply (respects_bind _); [by apply respects_modify|intros []].
  apply (respects_for_each _). apply respects_create.
Qed.

Lemma respects_PMT t p : respects rem_orderly (route_PMT I B order t p).
Proof.
  unfold route_PMT. apply (respects_bind _).
  - apply respects_wrap, respects_shared. intros [m o] l [m' o'] E.
    exact (keeps_pmt_Consume I B assembler_Commit (orderly w0) (commit_orderly w0) t p m o l m' o' E).
  - intros l. destruct (0 <? length l); [apply respects_update|apply (respects_ret _)].
Qed.

Lemma respects_route_media s id t p : respects rem_orderly (route_media B aes s id t p).
Proof.
  unfold route_media. destruct (_ && _); [apply respects_original|].
  apply (respects_bind _); [|apply respects_commit].
  apply respects_wrap, respects_stream, keeps_stream_Consume; [apply _|apply shared_Signal_respects].
Qed.

Lemma respects_flush_stream id : respects rem_orderly (flush_stream B aes id).
Proof.
  apply respects_wrap, (respects_bind _); [|apply respects_commit].
  apply respects_stream, keeps_stream_Flush; [apply _|apply shared_Signal_respects].
Qed.

(** The packets that the remuxer does not change: the PAT, the PIDs that are not
    media streams, and a media packet that continues no PES packet. *)
Definition pass_through (r : remuxer (W := W)) (p : Packet) : bool :=
  let id := PID (Header p) in
  (id =? PIDPAT)%Z
  || negb (id =? pmtPID r)%Z
     && match streams r ≫= (.!! id) with
        | None => true
        | Some s => negb (stream_Active s) && HasPayload (Header p)
                    && negb (PayloadUnitStartIndicator (Header p))
        end.

Definition routed (token : Z) (p : Packet) : M (remuxer (W := W)) unit :=
  r ← get;
  if (PID (Header p) =? PIDPAT)%Z then route_PAT I token p
  else if (PID (Header p) =? pmtPID r)%Z then route_PMT I B order token p
  else match streams r ≫= (.!! PID (Header p)) with
       | Some s => route_media B aes s (PID (Header p)) token p
       | None => on_output (CommitOriginal token p)
       end.

Lemma remuxer_Consume_routed p :
  remuxer_Consume I B aes order p = (token ← on_output assembler_Reserve; routed token p).
Proof. reflexivity. Qed.

Lemma respects_routed t p : respects rem_orderly (routed t p).
Proof.
  unfold routed. apply (respects_bind _); [apply (respects_gets _ id)|intros r].
  destruct (_ =? _)%Z.
  - unfold route_PAT. apply (respects_bind _); [apply respects_wrap, respects_on_pat|intros found].
    apply (respects_bind _); [|intros; apply respects_original].
    destruct found; [by apply respects_modify|apply (respects_ret _)].
  - destruct (_ =? _)%Z; [apply respects_PMT|]. destruct (_ ≫= _);
      [apply respects_route_media|apply respects_original].
Qed.

Lemma original_fills t p r u r' log h : in_order w0 (asm r) log h ->
  on_output (CommitOriginal t p) r = (Ok u, r') ->
  exists log', in_order w0 (asm r') log' (<[t := [ClonePacket p]]> h) /\ h !! t = None
    /\ next (asm r').1 = next (asm r).1.
Proof.
  intros Hr E. unfold on_output, on_shared, on_snd in E. unfold asm in *.
  destruct (shared_parts r) as [m o]. destruct (CommitOriginal t p o) as [a o'] eqn:Eo.
  injection E as -> <-. exact (commit_in_order w0 _ _ _ _ _ _ Hr Eo).
Qed.

Lemma pat_passes t p r u r' log h : in_order w0 (asm r) log h -> route_PAT I t p r = (Ok u, r') ->
  exists log', in_order w0 (asm r') log' (<[t := [ClonePacket p]]> h) /\ h !! t = None
    /\ next (asm r').1 = next (asm r).1.
Proof.
  intros Hr E. unfold route_PAT in E. apply bind_Ok_inv in E as (found & r1 & E1 & E).
  apply wrap_err_ok in E1. unfold on_pat in E1. destruct (pat_Consume _ _ _ _) as [o c].
  injection E1 as -> <-. apply bind_Ok_inv in E as ([] & r2 & E2 & E3).
  assert (asm r2 = asm r) as Ha by (destruct found; by injection E2 as <-).
  rewrite <- Ha in *.
  exact (original_fills t p r2 u r' log h Hr E3).
Qed.

(** A packet takes the next token, and fills its slot when it passes through. *)
Lemma Consume_step p r u r' log h : in_order w0 (asm r) log h -> (next (asm r).1 + 1 < 2 ^ 64)%Z ->
  remuxer_Consume I B aes order p r = (Ok u, r') ->
  exists log' h', in_order w0 (asm r') log' h' /\ h ⊆ h' /\ next (asm r').1 = (next (asm r).1 + 1)%Z
    /\ (pass_through r p = true -> h' !! next (asm r).1 = Some [ClonePacket p]).
Proof.
  intros Hr Hn E. rewrite remuxer_Consume_routed in E.
  apply bind_Ok_inv in E as (t & r1 & E1 & E). unfold on_output, on_shared, on_snd in E1.
  destruct (shared_parts r) as [m o] eqn:Es.
  assert (asm r = o) as Ha by (by unfold asm; rewrite Es). rewrite Ha in *.
  destruct (assembler_Reserve o) as [a o1] eqn:Eo. injection E1 as -> E1.
  destruct (reserve_in_order w0 o o1 t log h Hr Hn Eo) as (Ho1 & -> & Hn1).
  assert (asm r1 = o1) as Ha1 by (by rewrite <- E1). rewrite <- Ha1 in Ho1, Hn1.
  destruct (pass_through r p) eqn:Hp.
  2: { destruct (respects_routed _ _ _ _ _ E log h Ho1) as (log' & h' & Ho' & Hs & Hn').
       exists log', h'. split_and!; [done..|by rewrite Hn'|done]. }
  assert (exists log', in_order w0 (asm r') log' (<[next o.1 := [ClonePacket p]]> h)
    /\ h !! next o.1 = None /\ next (asm r').1 = next (asm r1).1) as (log' & Ho' & Hf & Hn').
  { apply bind_Ok_inv in E as (? & ? & [= <- <-] & E). revert Hp E. unfold pass_through.
    assert (pmtPID r1 = pmtPID r /\ streams r1 = streams r) as [-> ->] by (by rewrite <- E1).
    destruct (_ =? _)%Z; [intros _; by eapply pat_passes|]. cbn [orb].
    destruct (_ =? _)%Z; [done|]. cbn [negb andb].
    destruct (_ ≫= _) as [s|]; [|intros _; by eapply original_fills].
    unfold route_media. intros ->. by eapply original_fills. }
  exists log', (<[next o.1 := [ClonePacket p]]> h).
  split_and!; [done|by apply insert_subseteq|by rewrite Hn', Hn1|intros _; apply lookup_insert_eq].
Qed.

(** The slots of the packets that pass through. *)
Definition filled (ps : list Packet) (r0 : remuxer) (n0 : Z) (h : gmap Z (list Packet)) : Prop :=
  forall i p u r, ps !! i = Some p ->
    for_each (remuxer_Consume I B aes order) (take i ps) r0 = (Ok u, r) ->
    pass_through r p = true -> h !! (n0 + Z.of_nat i)%Z = Some [ClonePacket p].

Lemma Consume_all ps r u r' log h : in_order w0 (asm r) log h ->
  (next (asm r).1 + Z.of_nat (length ps) < 2 ^ 64)%Z ->
  for_each (remuxer_Consume I B aes order) ps r = (Ok u, r') ->
  exists log' h', in_order w0 (asm r') log' h' /\ h ⊆ h'
    /\ next (asm r').1 = (next (asm r).1 + Z.of_nat (length ps))%Z
    /\ filled ps r (next (asm r).1) h'.
Proof.
  revert r log h. induction ps as [|p ps IH]; intros r log h Hr Hn E.
  - injection E as _ <-. exists log, h. split_and!; [done..|cbn [length]; lia|].
    intros i p' u' r' Hi. by destruct i.
  - cbn [for_each length] in *. apply bind_Ok_inv in E as ([] & r1 & E1 & E2).
    destruct (Consume_step p r tt r1 log h Hr ltac:(lia) E1) as (log1 & h1 & Ho1 & Hs1 & Hn1 & Hp1).
    destruct (IH r1 log1 h1 Ho1 ltac:(lia) E2) as (log2 & h2 & Ho2 & Hs2 & Hn2 & Hf).
    exists log2, h2. split_and!; [done|by transitivity h1|lia|].
    intros i p' u' ri Hi Ei Hpass. destruct i as [|i]; cbn [take for_each] in Ei.
    + injection Ei as _ <-. injection Hi as <-. rewrite Z.add_0_r.
      exact (lookup_weaken _ _ _ _ (Hp1 Hpass) Hs2).
    + apply bind_Ok_inv in Ei as ([] & r1' & E1' & Ei). rewrite E1 in E1'. injection E1' as <-.
      replace (next (asm r).1 + Z.of_nat (S i))%Z with (next (asm r1).1 + Z.of_nat i)%Z by lia.
      by apply (Hf i p' u' ri).
Qed.

Lemma respects_Flush_streams (r0 : remuxer (W := W)) : respects rem_orderly
  (for_each (flush_stream B aes) (visit order (default ∅ (streams r0)));;
   wrap_err "remuxer: flush PMT" (on_shared pmtTransformer_Flush)).
Proof.
  apply (respects_bind _); [apply (respects_for_each _), respects_flush_stream|intros _].
  apply respects_wrap, respects_shared. intros [m o] a [m' o'] E.
  exact (keeps_pmt_Flush (orderly w0) m o a m' o' E).
Qed.

(** At the end every slot has been written. *)
Lemma assembler_Flush_done (o : outputAssembler (W := W)) u o' log h : in_order w0 o log h ->
  assembler_Flush o = (Ok u, o') ->
  exists log', in_order w0 o' log' h /\ next o'.1 = next o.1 /\ Z.of_nat (length log') = next o'.1.
Proof.
  intros Ho E. unfold assembler_Flush in E. apply bind_Ok_inv in E as ([] & o1 & E1 & E).
  apply bind_Ok_inv in E as (n & o2 & [= <- <-] & E). destruct (Nat.eqb_spec (CommitQueue.Len o1.1) 0) as [HL|HL];
    [|done]. injection E as _ <-.
  destruct (drain_in_order w0 o o1 tt log h Ho E1) as (log' & Ho1 & Hn & _). exists log'.
  split_and!; [done..|]. destruct Ho1 as [Hh _]. rewrite (wf_next _ (hist_wf _ _ _ Hh)).
  fold (CommitQueue.Len o1.1). rewrite HL, (hist_first _ _ _ Hh). lia.
Qed.

Lemma new_in_order encrypted c : in_order w0 (asm (newRemuxer w0 encrypted c)) [] ∅.
Proof.
  split; [|done]. split; [apply wf_empty|done| |done|done]. intros i. right. cbn. lia.
Qed.

(** C1: whatever the transformers hold back and whenever the PMT is completed, a
    run that succeeds has written one slot for each input packet, in input order,
    and the slot of a packet that passes through in the state it meets holds that
    packet alone. *)
Theorem remuxer_in_order ps encrypted c u r' : (Z.of_nat (length ps) < 2 ^ 64)%Z ->
  (for_each (remuxer_Consume I B aes order) ps;; remuxer_Flush B aes order)
    (newRemuxer w0 encrypted c) = (Ok u, r') ->
  exists slots, length slots = length ps
    /\ write_packets (concat slots) w0 = (Ok tt, (asm r').2)
    /\ forall i p v r, ps !! i = Some p ->
         for_each (remuxer_Consume I B aes order) (take i ps) (newRemuxer w0 encrypted c) = (Ok v, r) ->
         pass_through r p = true -> slots !! i = Some [ClonePacket p].
Proof.
  intros Hn E. apply bind_Ok_inv in E as ([] & r1 & E1 & E).
  destruct (Consume_all ps _ _ _ [] ∅ (new_in_order encrypted c) ltac:(cbn; lia) E1)
    as (log1 & h1 & Ho1 & _ & Hn1 & Hf).
  apply bind_Ok_inv in E as (r0 & ? & [= <- <-] & E). rewrite <- bind_assoc in E.
  apply bind_Ok_inv in E as ([] & r2 & E2 & E3).
  destruct (respects_Flush_streams r1 r1 tt r2 E2 log1 h1 Ho1) as (log2 & h2 & Ho2 & Hs & Hn2).
  unfold on_output, on_shared, on_snd in E3. destruct (shared_parts r2) as [m o] eqn:Es.
  assert (asm r2 = o) as Ha by (by unfold asm; rewrite Es). rewrite Ha in *.
  destruct (assembler_Flush o) as [a o'] eqn:Eo. injection E3 as -> <-.
  destruct (assembler_Flush_done o u o' log2 h2 Ho2 Eo) as (log3 & [Hh Hw] & Hn3 & HL).
  change (next (asm (newRemuxer w0 encrypted c)).1) with 0%Z in *.
  assert (length log3 = length ps) as HL' by lia.
  exists log3. split_and!; [done|exact Hw|]. intros i p v r Hi Ei Hp.
  destruct (hist_log _ _ _ Hh i) as [->|Hge]; [|apply lookup_lt_Some in Hi; lia].
  exact (lookup_weaken _ _ _ _ (Hf i p v r Hi Ei Hp) Hs).
Qed.
End Remuxer.

Import Reference.

Lemma remuxer_in_order_witness : exists slots,
  length slots = 4 /\ write_packets (concat slots) ([], None) = (Ok tt, (asm (remux sample_stream).2).2)
  /\ slots !! 0 = Some [pat_packet] /\ slots !! 2 = Some [null_packet].
Proof.
  destruct (remuxer_in_order iterator bits no_cipher id (([], None) : bits) sample_stream false sample_config tt
    (remux sample_stream).2 ltac:(vm_compute; reflexivity) ltac:(vm_compute; reflexivity)) as (slots & Hl & Hw & Hs).
  exists slots. split; [exact Hl|]. split; [exact Hw|]. split.
  - apply (Hs 0 pat_packet tt (newRemuxer ([], None) false sample_config)); reflexivity.
  - apply (Hs 2 null_packet tt (for_each (remuxer_Consume iterator bits no_cipher id) (take 2 sample_stream)
      (newRemuxer (W := bits) ([], None) false sample_config)).2); vm_compute; reflexivity.
Defined.
