(* ===== verification/Safety.v ===== *)
(** * Reading arbitrary bytes

    A small calculus of weakest preconditions for the parsers: [from bs o m Q]
    says that [m], started over the slice [bs] at offset [o], either returns an
    error, or returns a value and stops at an offset that satisfy [Q]; it neither
    panics nor exhausts the fuel of a loop.  With it every parser of packets,
    descriptors and PSI sections is shown safe on whatever bytes arrive. *)

From S2P Require Import Prelude Packet Astikit PacketCodec DvbTime Descriptor DescriptorParse Pmt Crc32 Tables Psi PsiCollector Demuxer Sample.
Local Open Scope Z_scope.

(** ** The calculus *)
Definition any : goerror -> Prop := fun _ => True.

Section From.
Context {I : Type} `{BytesIteratorLaws I} (bs : list Z).

(** [E] are the errors allowed. *)
Definition from {A} (E : goerror -> Prop) (o : Z) (m : M I A) (Q : A -> Z -> Prop) : Prop :=
  forall i, at_offset i bs o ->
  match m i with
  | (Ok a, i') => exists o', at_offset i' bs o' /\ Q a o'
  | (Fail (Err e), _) => E e
  | (Fail _, _) => False
  end.

Lemma from_weaken {A} E o (m : M I A) (Q Q' : A -> Z -> Prop) :
  from E o m Q -> (forall a o', Q a o' -> Q' a o') -> from E o m Q'.
Proof.
  intros Hm HQ i Hi. specialize (Hm i Hi). destruct (m i) as [[a|[]] i']; [|done..].
  destruct Hm as (o' & ? & ?). exists o'. auto.
Qed.

Lemma from_ret {A} E o (a : A) (Q : A -> Z -> Prop) : Q a o -> from E o (mret a) Q.
Proof. intros HQ i Hi. cbn. eauto. Qed.

Lemma from_bind {A B} E o (m : M I A) (k : A -> M I B) Q :
  from E o m (fun a o' => from E o' (k a) Q) -> from E o (m ≫= k) Q.
Proof.
  intros Hm i Hi. specialize (Hm i Hi). rewrite bind_unfold.
  destruct (m i) as [[a|[]] i']; [|done..]. destruct Hm as (o' & Hi' & Hk). exact (Hk i' Hi').
Qed.

Lemma from_wrap {A} (E : goerror -> Prop) o msg (m : M I A) Q : (forall e, E (Wrapf msg e)) ->
  from any o m Q -> from E o (wrap_err msg m) Q.
Proof.
  intros HE Hm i Hi. specialize (Hm i Hi). unfold wrap_err. destruct (m i) as [[a|[]] i']; auto.
Qed.

Lemma from_set_err {A} (E : goerror -> Prop) o msg (m : M I A) Q : E (Errorf msg) ->
  from any o m Q -> from E o (set_err msg m) Q.
Proof.
  intros HE Hm i Hi. specialize (Hm i Hi). unfold set_err. destruct (m i) as [[a|[]] i']; auto.
Qed.

Lemma from_fail {A} (E : goerror -> Prop) o e (Q : A -> Z -> Prop) : E e -> from E o (fail_with e) Q.
Proof. intros He i Hi. exact He. Qed.

Lemma from_optionally {A} E o (b : bool) (m : M I A) (Q : option A -> Z -> Prop) :
  (b = true -> from E o m (fun a => Q (Some a))) -> (b = false -> Q None o) -> from E o (optionally b m) Q.
Proof.
  intros Ht Hf. destruct b; [|by apply from_ret, Hf].
  apply from_bind. eapply from_weaken; [by apply Ht|]. intros a o' HQ. by apply from_ret.
Qed.

Lemma from_optionally_forward {A} E o (b : bool) (m : M I A) (Q : option A -> Z -> Prop) :
  (b = true -> from E o m (fun _ o' => o <= o')) -> (forall x o', o <= o' -> Q x o') ->
  from E o (optionally b m) Q.
Proof.
  intros Hm HQ. apply from_optionally; [|intros _; apply HQ; lia].
  intros Hb. eapply from_weaken; [by apply Hm|]. intros. by apply HQ.
Qed.

Lemma from_must {A} E o (x : option A) (a : A) (Q : A -> Z -> Prop) : x = Some a -> Q a o -> from E o (must x) Q.
Proof. intros -> HQ. by apply from_ret. Qed.

Lemma from_last {A} E o (l : list A) (Q : A -> Z -> Prop) : 0 < Z.of_nat (length l) ->
  (forall a, Q a o) -> from E o (must (list.last l)) Q.
Proof.
  intros Hl HQ. destruct l as [|x l]; [cbn in Hl; lia|]. destruct (list.last (x :: l)) as [a|] eqn:Ea.
  - by apply from_ret.
  - by apply last_None in Ea.
Qed.

Lemma from_offset E o (Q : Z -> Z -> Prop) : Q o o -> from E o (gets Offset) Q.
Proof. intros HQ i Hi. cbn. destruct (at_observe i bs o Hi) as (-> & _). eauto. Qed.

Lemma from_len E o (Q : Z -> Z -> Prop) : Q (Z.of_nat (length bs)) o -> from E o (gets Len) Q.
Proof. intros HQ i Hi. cbn. destruct (at_observe i bs o Hi) as (_ & -> & _). eauto. Qed.

Lemma from_left E o (Q : bool -> Z -> Prop) :
  Q (o <? Z.of_nat (length bs)) o -> from E o (gets HasBytesLeft) Q.
Proof. intros HQ i Hi. cbn. destruct (at_observe i bs o Hi) as (_ & _ & ->). eauto. Qed.

Lemma from_seek E o n (Q : unit -> Z -> Prop) : Q tt n -> from E o (Seek n) Q.
Proof. intros HQ i Hi. destruct (at_seek i bs o n Hi) as (i' & -> & ?). eauto. Qed.

Lemma from_skip E o n (Q : unit -> Z -> Prop) : Q tt (o + n) -> from E o (Skip n) Q.
Proof. intros HQ i Hi. destruct (at_skip i bs o n Hi) as (i' & -> & ?). eauto. Qed.

Lemma from_dump E o (Q : list Z -> Z -> Prop) : 0 <= o ->
  Q (drop (Z.to_nat o) bs) (Z.max o (Z.of_nat (length bs))) -> from E o Dump Q.
Proof. intros Ho HQ i Hi. destruct (at_dump i bs o Hi Ho) as (i' & -> & ?). eauto. Qed.

(** ** Reading bytes *)
Context (Hbs : bytes_ok bs).

Lemma slice_bytes i j : bytes_ok (slice bs i j).
Proof. unfold slice. by apply Forall_take, Forall_drop. Qed.

(** A slice read: [n] bytes of the input. *)
Definition read_slice (o n : Z) (l : list Z) : Prop :=
  l = slice bs (Z.to_nat o) (Z.to_nat (o + n)) /\ Z.of_nat (length l) = n /\ bytes_ok l
  /\ o + n <= Z.of_nat (length bs).

Lemma slice_read o n : 0 <= o -> 0 <= n -> o + n <= Z.of_nat (length bs) ->
  read_slice o n (slice bs (Z.to_nat o) (Z.to_nat (o + n))).
Proof. intros Ho Hn Hl. split_and!; [done| |apply slice_bytes|done]. rewrite length_slice by lia. lia. Qed.

Lemma from_NextByte o (Q : Z -> Z -> Prop) : 0 <= o ->
  (forall b, is_byte b -> bs !! Z.to_nat o = Some b -> Q b (o + 1)) -> from any o NextByte Q.
Proof.
  intros Ho HQ i Hi. pose proof (at_next_byte i bs o Hi Ho) as Hn.
  destruct (bs !! Z.to_nat o) as [b|] eqn:Eb.
  - destruct Hn as (i' & -> & ?). exists (o + 1). split; [done|]. apply HQ; [|done].
    exact (proj1 (Forall_lookup _ _) Hbs _ _ Eb).
  - destruct Hn as (e & i' & ->). exact Logic.I.
Qed.

Lemma from_byte (E : goerror -> Prop) o (Q : Z -> Z -> Prop) : 0 <= o ->
  (forall e, E (Wrapf "astits: fetching next byte failed" e)) ->
  (forall b, is_byte b -> bs !! Z.to_nat o = Some b -> Q b (o + 1)) -> from E o next_byte Q.
Proof. intros Ho HE HQ. apply from_wrap; [done|]. by apply from_NextByte. Qed.

Lemma from_bytes (E : goerror -> Prop) o n (Q : list Z -> Z -> Prop) : 0 <= o -> 0 <= n ->
  (forall e, E (Wrapf "astits: fetching next bytes failed" e)) ->
  (forall l, read_slice o n l -> Q l (o + n)) -> from E o (next_bytes n) Q.
Proof.
  intros Ho Hn HE HQ. apply from_wrap; [done|]. intros i Hi.
  pose proof (at_next_bytes i bs o n Hi Ho Hn) as Hb. case_decide.
  - destruct Hb as (i' & -> & ?). exists (o + n). split; [done|]. by apply HQ, slice_read.
  - destruct Hb as (e & i' & ->). exact Logic.I.
Qed.

Lemma from_bytes_no_copy (E : goerror -> Prop) o n (Q : list Z -> Z -> Prop) : 0 <= o -> 0 <= n ->
  (forall e, E (Wrapf "astits: fetching next bytes failed" e)) ->
  (forall l, read_slice o n l -> Q l (o + n)) -> from E o (next_bytes_no_copy n) Q.
Proof.
  intros Ho Hn HE HQ. apply from_wrap; [done|]. intros i Hi.
  pose proof (at_next_bytes_no_copy i bs o n Hi Ho Hn) as Hb. case_decide.
  - destruct Hb as (i' & -> & ?). exists (o + n). split; [done|]. by apply HQ, slice_read.
  - destruct Hb as (e & i' & ->). exact Logic.I.
Qed.

Lemma from_bytes_until (E : goerror -> Prop) o e (Q : list Z -> Z -> Prop) : 0 <= o ->
  (forall e, E (Wrapf "astits: fetching next bytes failed" e)) ->
  (forall l, bytes_ok l -> Q l (Z.max o e)) -> from E o (bytes_until e) Q.
Proof.
  intros Ho HE HQ. unfold bytes_until. apply from_bind, from_offset.
  destruct (Z.ltb_spec o e).
  - apply from_bytes; [lia..|done|]. intros l Hl. replace (o + (e - o)) with (Z.max o e) by lia.
    apply HQ, Hl.
  - apply from_ret. specialize (HQ [] ltac:(constructor)). by rewrite Z.max_l in HQ by lia.
Qed.

(** A loop whose rounds move on is bounded by the bytes before its end. *)
Lemma from_iter {A B} (E : goerror -> Prop) (step : A -> M I (A + B)) (Inv : A -> Z -> Prop) e n a o (Q : B -> Z -> Prop) :
  Inv a o -> (Z.to_nat (e - o) < n)%nat ->
  (forall a o, Inv a o -> from E o (step a) (fun r o' => match r with
     | inl a' => Inv a' o' /\ o < o' /\ o < e | inr b => Q b o' end)) ->
  from E o (iter n step a) Q.
Proof.
  intros Ha Hn Hs. revert a o Ha Hn. induction n as [|n IH]; intros a o Ha Hn; [lia|].
  apply from_bind. eapply from_weaken; [by apply Hs|]. intros [a'|b] o'; cbn.
  - intros (Ha' & Ho & He). apply IH; [done|lia].
  - by apply from_ret.
Qed.

Lemma from_items {A} (E : goerror -> Prop) o e (item : M I A) (P : A -> Prop) (Q : list A -> Z -> Prop) : 0 <= o ->
  (forall o, 0 <= o -> from E o item (fun a o' => o < o' /\ P a)) ->
  (forall l o', o <= o' -> e <= o' -> Forall P l -> Q l o') ->
  from E o (items_until e item) Q.
Proof.
  intros Ho Hi HQ i Hat. unfold items_until. destruct (at_observe i bs o Hat) as (-> & _).
  revert i Hat. change (from E o (iter (Z.to_nat (e - o) + 1) (fun xs =>
    o ← gets Offset; if o <? e then x ← item; mret (inl (xs ++ [x])) else mret (inr xs)) []) Q).
  apply from_iter with (Inv := fun l o' => o <= o' /\ Forall P l) (e := e); [by split|lia|].
  intros l o1 [Ho1 Hl]. apply from_bind, from_offset. destruct (Z.ltb_spec o1 e).
  - apply from_bind. eapply from_weaken; [apply Hi; lia|]. intros a o2 [? ?]. apply from_ret.
    split_and!; [lia| |lia..]. apply Forall_app. by repeat constructor.
  - apply from_ret. apply HQ; [lia..|done].
Qed.
End From.

Lemma any_error e : any e.
Proof. exact Logic.I. Qed.
#[export] Hint Resolve any_error : core.

Lemma byte_at_range l i : bytes_ok l -> is_byte (byte_at l i).
Proof.
  intros Hl. unfold byte_at. destruct (l !! i) eqn:E; [exact (proj1 (Forall_lookup _ _) Hl _ _ E)|].
  unfold is_byte. cbn. lia.
Qed.

(** ** Following the text of a parser *)
Create HintDb safe.

Ltac head_of m := lazymatch m with ?f _ => head_of f | _ => m end.

Ltac reading := cbv beta in *; unfold is_byte, read_slice in *; destruct_and?; try solve [done | lia | split_and?; lia].

Ltac from_step :=
  cbv beta zeta; cbv beta;
  lazymatch goal with
  | |- from _ _ _ (mret _) _ => apply from_ret
  | |- from _ _ _ (_ ≫= _) _ => apply from_bind
  | |- from _ _ _ (wrap_err _ _) _ => apply from_wrap; [reading|]
  | |- from _ _ _ (set_err _ _) _ => apply from_set_err; [reading|]
  | |- from _ _ _ (fail_with _) _ => apply from_fail
  | |- from _ _ _ (gets Offset) _ => apply from_offset
  | |- from _ _ _ (gets Len) _ => apply from_len
  | |- from _ _ _ (gets HasBytesLeft) _ => apply from_left
  | |- from _ _ _ (Seek _) _ => apply from_seek
  | |- from _ _ _ (Skip _) _ => apply from_skip
  | |- from _ _ _ Dump _ => apply from_dump; [reading|]
  | |- from _ _ _ NextByte _ => apply from_NextByte; [done|reading|intros ? ? ?]
  | |- from _ _ _ next_byte _ => apply from_byte; [done|reading|reading|intros ? ? ?]
  | |- from _ _ _ (next_bytes _) _ => apply from_bytes; [done|reading|reading|reading|intros ? ?]
  | |- from _ _ _ (next_bytes_no_copy _) _ =>
      apply from_bytes_no_copy; [done|reading|reading|reading|intros ? ?]
  | |- from _ _ _ (bytes_until _) _ => apply from_bytes_until; [done|reading|reading|intros ? ?]
  | |- from _ _ _ (items_until _ _) _ =>
      apply from_items with (P := fun _ => True); [reading|intros ? ?|intros ? ? ? ? _]
  | |- from _ _ _ (must (list.last _)) _ => apply from_last; [reading|intros ?]
  | |- from _ _ _ (optionally _ _) _ => apply from_optionally_forward; [intros|intros ? ? ?]
  | |- from _ _ _ (if ?b then _ else _) _ => destruct b eqn:?
  | |- from _ _ _ (match ?b with _ => _ end) _ => destruct b eqn:?
  end.

(** A lemma of the database, or the text of the definition. *)
Ltac from_call :=
  lazymatch goal with
  | |- from _ _ _ ?m _ =>
      first [ eapply from_weaken; [solve [eauto 2 with safe]|cbv beta; intros]
            | let h := head_of m in unfold h ]
  end.
#[export] Hint Extern 0 (_ <= _)%Z => reading : safe.
#[export] Hint Extern 0 (_ < _)%Z => reading : safe.
Ltac safe := intros; repeat first [from_step | progress from_call]; try solve [reading].

Section Parsers.
Context {I : Type} `{BytesIteratorLaws I} (bs : list Z) (Hbs : bytes_ok bs).

(** ** Packets *)
Lemma safe_pcr o : 0 <= o -> from bs any o (parsePCR (I := I)) (fun _ o' => o' = o + 6).
Proof. intros Ho. safe. Qed.
#[local] Hint Resolve safe_pcr : safe.

Lemma safe_pts o : 0 <= o -> from bs any o (parsePTSOrDTS (I := I)) (fun _ o' => o' = o + 5).
Proof. intros Ho. safe. Qed.
#[local] Hint Resolve safe_pts : safe.

Lemma safe_extension o : 0 <= o -> from bs any o (parse_extension (I := I)) (fun _ o' => o < o').
Proof. intros Ho. safe. Qed.
#[local] Hint Resolve safe_extension : safe.

Lemma safe_af o : 0 <= o -> from bs any o (parsePacketAdaptationField (I := I)) (fun a _ => 0 <= af_Length a).
Proof. safe; unfold with_stuffing, with_layout; cbn [af_Length]; reading. Qed.
#[local] Hint Resolve safe_af : safe.

Lemma safe_packet s o : (188 <= length bs)%nat -> 0 <= o ->
  from bs (fun e => e = errSkippedPacket -> exists f, s = Some f) o (parsePacket (I := I) s)
    (fun p _ => bytes_ok (Payload p)).
Proof.
  intros Hl Ho. unfold parsePacket, MpegTsPacketSize.
  do 4 from_step; [|by apply from_fail]. do 8 from_step. unfold parsePacketHeader. do 3 from_step.
  match goal with |- context [header_of_bytes ?l] => set (h := header_of_bytes l) end.
  set (o1 := _ + 3) in *. from_step.
  eapply from_weaken with (Q := fun x _ => match x with Some a => 0 <= af_Length a | None => HasAdaptationField h = false end).
  - apply from_optionally; [|done]. intros _. apply from_wrap; [done|]. apply safe_af.
    subst o1. lia.
  - intros x o' Hx. cbv beta. destruct s as [f|]; [destruct (f _); [apply from_fail; eauto|]|];
    (destruct (HasPayload h); [|apply from_ret; constructor]); from_step;
    intros i Hi; unfold payloadOffset; (destruct (HasAdaptationField h); [destruct x; [|done]|]); cbn [lift];
    eexists; (split; [exact Hi|]); repeat from_step; by apply Forall_drop.
Qed.

(** ** Descriptors *)
Lemma safe_byte_if b o : 0 <= o -> from bs any o (byte_if (I := I) b) (fun x o' => o <= o' /\ is_byte x).
Proof. intros Ho. unfold byte_if. safe. Qed.
#[local] Hint Resolve safe_byte_if : safe.

Lemma safe_body tag len o : 0 <= o -> 0 < len ->
  from bs any o (parse_body (I := I) tag len (o + len)) (fun _ _ => True).
Proof.
  intros Ho Hl. unfold parse_body.
  repeat (match goal with |- from _ _ _ (if ?b then _ else _) _ => destruct b end; [by safe|]). safe.
Qed.
#[local] Hint Resolve safe_body : safe.

Lemma safe_descriptor o : 0 <= o -> from bs any o (parseDescriptor (I := I)) (fun _ o' => o < o').
Proof.
  intros Ho. unfold parseDescriptor. do 2 from_step. cbv beta.
  pose proof (byte_at_range l 0 ltac:(reading)). pose proof (byte_at_range l 1 ltac:(reading)).
  safe.
Qed.
#[local] Hint Resolve safe_descriptor : safe.

Lemma safe_descriptors o : 0 <= o -> from bs any o (parseDescriptors (I := I)) (fun _ o' => o < o').
Proof. intros Ho. safe. Qed.
#[local] Hint Resolve safe_descriptors : safe.

(** ** PSI sections *)
Lemma safe_pat e t o : 0 <= o -> from bs any o (parsePATSection (I := I) e t) (fun _ o' => o <= o').
Proof. safe. Qed.

Lemma safe_stream o : 0 <= o -> from bs any o (parse_stream (I := I)) (fun _ o' => o < o').
Proof. safe. Qed.
#[local] Hint Resolve safe_stream : safe.

Lemma safe_pmt e t o : 0 <= o -> from bs any o (parsePMTSection (I := I) e t) (fun _ o' => o <= o').
Proof. safe. Qed.

Lemma safe_nit t o : 0 <= o -> from bs any o (parseNITSection (I := I) t) (fun _ o' => o <= o').
Proof. safe. Qed.

Lemma safe_sdt e t o : 0 <= o -> from bs any o (parseSDTSection (I := I) e t) (fun _ o' => o <= o').
Proof. safe. Qed.

Lemma safe_tot o : 0 <= o -> from bs any o (parseTOTSection (I := I)) (fun _ o' => o <= o').
Proof. safe. Qed.

Lemma safe_event o : 0 <= o -> from bs any o (parse_event (I := I)) (fun _ o' => o < o').
Proof. safe. Qed.
#[local] Hint Resolve safe_event : safe.

Lemma safe_eit e t o : 0 <= o -> from bs any o (parseEITSection (I := I) e t) (fun _ o' => o <= o').
Proof. safe. Qed.
#[local] Hint Resolve safe_pat safe_pmt safe_nit safe_sdt safe_tot safe_eit : safe.

Lemma syntax_header_tables t : is_nit t = true \/ (t =? PSITableIDPAT) = true \/ (t =? PSITableIDPMT) = true
  \/ is_sdt t = true \/ is_eit t = true -> hasPSISyntaxHeader t = true.
Proof. intros Ht. unfold hasPSISyntaxHeader. destruct_or! Ht; rewrite Ht, ?orb_true_r; done. Qed.

Lemma safe_data t sh e o : 0 <= o -> (hasPSISyntaxHeader t = true -> is_Some sh) ->
  from bs any o (parsePSISectionSyntaxData (I := I) t sh e) (fun _ _ => True).
Proof.
  intros Ho Hsh. pose proof (syntax_header_tables t) as Ht. unfold parsePSISectionSyntaxData.
  assert (Hm : forall o' Q, 0 <= o' -> hasPSISyntaxHeader t = true ->
    (forall h : PSISectionSyntaxHeader, Q h o') -> from bs any o' (must sh) Q).
  { intros o' Q Ho' Hh HQ. destruct (Hsh Hh) as [h ->]. by apply from_ret. }
  apply from_bind. eapply from_weaken with (Q := fun _ o' => o <= o').
  - repeat (match goal with |- from _ _ _ (if ?b then _ else _) _ => destruct b eqn:? end; [
      try (apply from_bind, Hm; [done|by auto 10|intros h; cbv beta]); by safe|]). safe.
  - intros d o' Ho'. cbv beta. destruct (is_eit t) eqn:?; [|by apply from_ret].
    apply from_bind, Hm; [lia|by auto 10|intros h; cbv beta]. safe.
Qed.

Lemma safe_syntax t e o : 0 <= o -> from bs any o (parsePSISectionSyntax (I := I) t e) (fun _ _ => True).
Proof.
  intros Ho. unfold parsePSISectionSyntax. apply from_bind.
  eapply from_weaken with (Q := fun sh o' => 0 <= o' /\ (hasPSISyntaxHeader t = true -> is_Some sh)).
  - apply from_optionally; [intros _; safe; split; [lia|by eauto]|by intros ->].
  - intros sh o' [Ho' Hsh]. cbv beta. apply from_bind, from_wrap; [done|].
    eapply from_weaken; [by apply safe_data|]. intros. by apply from_ret.
Qed.

(** The CRC of an accepted section is right. *)
Definition checked (o o' : Z) : Prop :=
  computeCRC32 (slice bs (Z.to_nat o) (Z.to_nat (o' - 4))) = be32 (slice bs (Z.to_nat (o' - 4)) (Z.to_nat o'))
  /\ o' <= Z.of_nat (length bs).

Lemma safe_crc o e o' : 0 <= o <= e -> from bs any o' (check_crc (I := I) o e) (fun _ _ => checked o (e + 4)).
Proof.
  intros Ho. unfold check_crc. unfold parseCRC32.
  repeat from_step; [|done]. unfold read_slice, checked in *. rewrite Z.add_simpl_r.
  destruct_and!. subst. replace (o + (e - o)) with e in * by lia. split; lia.
Qed.

Lemma twelve_bits l : bytes_ok l -> 0 <= Z.lor (Z.shiftl (Z.land (byte_at l 0) 0xf) 8) (byte_at l 1).
Proof.
  intros Hl. pose proof (byte_at_range l 0 Hl) as H1'. pose proof (byte_at_range l 1 Hl) as H2'.
  unfold is_byte in *. apply Z.lor_nonneg. split; [|lia]. apply Z.shiftl_nonneg, Z.land_nonneg. lia.
Qed.

Lemma safe_header o : 0 <= o -> from bs any o (parsePSISectionHeader (I := I)) (fun r o' =>
  let '(h, (s, e1, e2)) := r in
  if shouldStopPSIParsing (TableID h) then o' = o + 1
  else s = o /\ o' = o + 3 /\ 0 <= SectionLength h /\ e2 = o + 3 + SectionLength h
    /\ e1 = if hasCRC32 (TableID h) then e2 - 4 else e2).
Proof.
  intros Ho. unfold parsePSISectionHeader. repeat from_step; cbn [TableID SectionLength].
  - by rewrite Heqb0.
  - rewrite Heqb0. pose proof (twelve_bits l ltac:(reading)). split_and!; [lia..|done].
Qed.

Lemma safe_section o : 0 <= o -> from bs any o (parsePSISection (I := I)) (fun r o' =>
  if r.2 then o' = o + 1
  else o < o' /\ (hasCRC32 (TableID (section_Header r.1)) = true -> 0 < SectionLength (section_Header r.1) -> checked o o')).
Proof.
  intros Ho. unfold parsePSISection. do 2 from_step. eapply from_weaken; [by apply safe_header|].
  intros [h [[s e1] e2]] o' Hh. cbv beta. destruct (shouldStopPSIParsing (TableID h)); [by apply from_ret|].
  destruct Hh as (-> & -> & Hl & -> & ->). apply from_bind.
  eapply from_weaken with (Q := fun x _ => section_Header x = h /\
    (hasCRC32 (TableID h) = true -> 0 < SectionLength h -> checked o (o + 3 + SectionLength h))).
  - destruct (Z.ltb_spec 0 (SectionLength h)); [|apply from_ret; split; [done|lia]].
    do 2 from_step. eapply from_weaken; [apply safe_syntax; lia|]. intros x o' _. cbv beta.
    apply from_bind. destruct (hasCRC32 (TableID h)); [|by repeat from_step].
    eapply from_weaken; [apply safe_crc; lia|]. intros c o2 Hc. apply from_ret. split; [done|].
    intros _ _. by replace (o + 3 + SectionLength h) with (o + 3 + SectionLength h - 4 + 4) by lia.
  - intros x o' [Hx Hc]. repeat from_step. cbn [fst snd]. rewrite Hx. split; [lia|done].
Qed.
#[local] Hint Resolve safe_section : safe.

Lemma safe_sections o : 0 <= o -> from bs any o (parse_sections (I := I)) (fun _ _ => True).
Proof.
  intros Ho i Hi. unfold parse_sections. destruct (at_observe i bs o Hi) as (-> & -> & _).
  revert i Hi. match goal with |- forall i, _ -> match iter ?n ?f ?a i with _ => _ end =>
    change (from bs any o (iter n f a) (fun _ _ => True)) end.
  apply from_iter with (Inv := fun _ o' => 0 <= o') (e := Z.of_nat (length bs)); [lia..|].
  intros [ss stop] o' Ho'. do 2 from_step. destruct (Z.ltb_spec o' (Z.of_nat (length bs)));
    destruct stop; cbn [andb negb]; try by apply from_ret.
  do 2 from_step. eapply from_weaken; [by apply safe_section|]. intros [x stop] o2. cbn [fst snd].
  intros Hx. apply from_ret. split_and!; [destruct stop; lia..|done].
Qed.
#[local] Hint Resolve safe_sections : safe.

Lemma safe_psi o : 0 <= o -> from bs any o (parsePSIData (I := I)) (fun _ _ => True).
Proof. safe. Qed.
End Parsers.

(** ** Properties *)
Section Results.
Context (I : Type) `{BytesIteratorLaws I}.

Definition fails_cleanly {A} (o : outcome A) : Prop :=
  match o with Fail Panic | Fail OutOfFuel => False | _ => True end.

(** C34: parsing a transport packet never panics and never loops, whatever the 188
    bytes are; without a skipper it never reports a skipped packet. *)
Theorem parse_packet_safe s bs : bytes_ok bs -> length bs = 188%nat ->
  fails_cleanly (parse_buffer I s bs) /\ (s = None -> parse_buffer I s bs <> Fail (Err errSkippedPacket)).
Proof.
  intros Hb Hl. unfold parse_buffer.
  pose proof (safe_packet bs Hb s 0 ltac:(lia) ltac:(lia) _ (at_new bs)) as Hp.
  destruct (parsePacket s _) as [[p|[e| |]] i]; cbn in *; [by split|split; [done|]|done..].
  intros -> [= ->]. by destruct Hp as [f].
Qed.

Lemma section_result bs : bytes_ok bs ->
  fails_cleanly (ParsePSISection (I := I) bs)
  /\ forall x, ParsePSISection (I := I) bs = Ok x -> hasCRC32 (TableID (section_Header x)) = true ->
       0 < SectionLength (section_Header x) ->
       computeCRC32 (take (length bs - 4) bs) = be32 (drop (length bs - 4) bs).
Proof.
  intros Hb. unfold ParsePSISection, wrap_err.
  pose proof (safe_section bs Hb 0 ltac:(lia) _ (at_new bs)) as Hp.
  destruct (parsePSISection _) as [[[x stop]|[e| |]] i]; cbn in *; [|by split..].
  destruct Hp as (o' & Hi & Hp). destruct stop; cbn; [by split|].
  destruct (at_observe i bs o' Hi) as (_ & _ & ->).
  destruct (Z.ltb_spec o' (Z.of_nat (length bs))) as [Ho|Ho]; [by split|]. split; [done|].
  intros ? [= <-] Hc Hl. destruct (proj2 Hp Hc Hl) as [Hs Hle].
  replace (Z.to_nat (o' - 4)) with (length bs - 4)%nat in Hs by lia.
  replace (Z.to_nat o') with (length bs) in Hs by lia.
  unfold slice in Hs. rewrite Nat.sub_0_r, drop_0, (take_ge (drop _ _)) in Hs; [done|].
  rewrite length_drop. lia.
Qed.

Lemma section_safe bs : bytes_ok bs -> fails_cleanly (ParsePSISection (I := I) bs).
Proof. intros Hb. exact (proj1 (section_result bs Hb)). Qed.

(** C35: parsing PSI data never panics and never loops, whatever the bytes are.  A
    section that is accepted ends with the CRC-32 of the bytes before, if its table
    is one that has a CRC and its declared length is not zero (a section of length
    zero is accepted without one). *)
Theorem parse_psi_safe bs : bytes_ok bs ->
  fails_cleanly (parsePSIData (I := I) (NewBytesIterator bs)).1
  /\ fails_cleanly (ParsePSISection (I := I) bs)
  /\ forall x, ParsePSISection (I := I) bs = Ok x -> hasCRC32 (TableID (section_Header x)) = true ->
       0 < SectionLength (section_Header x) ->
       computeCRC32 (take (length bs - 4) bs) = be32 (drop (length bs - 4) bs).
Proof.
  intros Hb. split.
  { pose proof (safe_psi bs Hb 0 ltac:(lia) _ (at_new bs)) as Hp. by destruct (parsePSIData _) as [[|[]] i]. }
  by apply section_result.
Qed.
End Results.

Import Reference.

Lemma parse_packet_safe_witness : bytes_ok (0x47 :: replicate 187 0xff)
  /\ fails_cleanly (parse_buffer iterator None (0x47 :: replicate 187 0xff)).
Proof.
  assert (bytes_ok (0x47 :: replicate 187 0xff)) as Hb by (constructor; [done|by apply Forall_replicate]).
  split; [exact Hb|].
  exact (proj1 (parse_packet_safe iterator None (0x47 :: replicate 187 0xff) Hb eq_refl)).
Defined.

Lemma parse_psi_safe_witness : is_ok (ParsePSISection (I := iterator) pmt_section) = true
  /\ computeCRC32 (take 17 pmt_section) = be32 (drop 17 pmt_section).
Proof.
  assert (bytes_ok pmt_section) as Hb by (repeat constructor; vm_compute; congruence).
  destruct (parse_psi_safe iterator pmt_section Hb) as (_ & _ & Hc). split; [vm_compute; reflexivity|].
  destruct (ParsePSISection (I := iterator) pmt_section) as [x|f] eqn:E; [|vm_compute in E; discriminate].
  apply (Hc x eq_refl); vm_compute in E; injection E as <-; vm_compute; reflexivity.
Defined.
