(* ===== verification/EncryptSpec.v ===== *)
(** * What [Encrypt] does with the bytes of its input

    The loop over the demuxer is a fold over the blocks of 188 bytes of the input,
    and a transport stream without a PAT comes out byte for byte. *)

From S2P Require Import Prelude CommitQueue SampleAes Packet Astikit PacketCodec Codec PacketSpec Pmt PesHandler Psi Output PmtTransformer MediaStream Demuxer Remuxer RemuxerSpec Safety Sample.

(** ** Reading the input *)

(** The complete packets of a byte string; what is left over is ignored. *)
Fixpoint cut_blocks (n : nat) (l : list Z) : list (list Z) :=
  match n with
  | O => []
  | S n => take 188 l :: cut_blocks n (drop 188 l)
  end.
Definition blocks (l : list Z) : list (list Z) := cut_blocks (length l / 188) l.

Lemma blocks_short l : length l < 188 -> blocks l = [].
Proof. intros Hl. unfold blocks. by rewrite Nat.div_small. Qed.

Lemma blocks_step l : 188 <= length l -> blocks l = take 188 l :: blocks (drop 188 l).
Proof.
  intros Hl. unfold blocks. rewrite length_drop.
  replace (length l) with (length l - 188 + 1 * 188) at 1 by lia.
  rewrite Nat.div_add by done. by rewrite Nat.add_1_r.
Qed.

Section Encrypt.
Context (I B : Type) `{BytesIteratorLaws I} `{BufferWriter B} {W : Type} `{BitsWriter W}.
Context (aes : list Z -> list Z -> list Z) (order : list Z -> list Z).

(** How [Encrypt] reports a packet that does not parse. *)
Definition demux_error (e : goerror) : goerror :=
  Wrapf "ts: demux" (Wrapf "astits: fetching next packet from buffer failed"
    (Wrapf "astits: building packet failed" e)).

Definition consume_block (bs : list Z) : M (remuxer (W := W)) unit :=
  match parse_buffer I None bs with
  | Ok p => remuxer_Consume I B aes order p
  | Fail (Err e) => fail_with (demux_error e)
  | Fail f => fail f
  end.

Definition encrypt_blocks (l : list (list Z)) : M (remuxer (W := W)) unit :=
  for_each consume_block l;; remuxer_Flush B aes order.

Lemma NextPacket_end (x : bytes_reader) : length x < 188 ->
  NextPacket I 188 x = (Fail (Err ErrNoMorePackets), []).
Proof.
  intros Hx. unfold NextPacket. rewrite bind_unfold. cbn [ctx_Err bytes_input mret M_ret].
  unfold next_packet. rewrite iter_S. cbn [ReadFull bytes_input]. rewrite decide_False by lia.
  rewrite decide_True by (case_decide; auto). cbn zeta. by rewrite decide_True.
Qed.

Lemma NextPacket_block (x : bytes_reader) : bytes_ok x -> 188 <= length x ->
  NextPacket I 188 x = (match parse_buffer I None (take 188 x) with
    | Fail (Err e) => Fail (Err (Wrapf "astits: fetching next packet from buffer failed"
                                   (Wrapf "astits: building packet failed" e)))
    | o => o end, drop 188 x).
Proof.
  intros Hb Hx. unfold NextPacket. rewrite bind_unfold. cbn [ctx_Err bytes_input mret M_ret].
  unfold next_packet. rewrite iter_S. cbn [ReadFull bytes_input]. rewrite decide_True by lia.
  assert (parse_buffer I None (take 188 x) <> Fail (Err errSkippedPacket)) as Hs.
  { pose proof (safe_packet (take 188 x) ltac:(by apply Forall_take) None 0%Z
      ltac:(rewrite length_take; lia) ltac:(lia) _ (at_new _)) as Hp.
    unfold parse_buffer. destruct (parsePacket _ _) as [[p|[e| |]] i]; try done. cbn in *.
    intros [= ->]. by destruct Hp as [f]. }
  destruct (parse_buffer I None (take 188 x)) as [p|[e| |]]; [done| |done..].
  rewrite decide_False; [|congruence]. by rewrite decide_False.
Qed.

(** The loop, from any state of the remuxer. *)
Lemma process_loop fuel (x : bytes_reader) r : bytes_ok x -> length x < 188 * fuel ->
  let '(o, (_, r')) := (iter fuel (process_step I B aes order) tt;;
                        on_snd (remuxer_Flush B aes order)) (x, r) in
  (o, r') = encrypt_blocks (blocks x) r.
Proof.
  revert x r. induction fuel as [|fuel IH]; intros x r Hb Hx; [lia|].
  rewrite bind_unfold, iter_S. unfold process_step at 1. rewrite bind_unfold.
  cbn [on_fst ctx_Err bytes_input mret M_ret].
  change (Z.to_nat MpegTsPacketSize) with 188. unfold encrypt_blocks.
  destruct (decide (188 <= length x)) as [Hl|Hl].
  - rewrite NextPacket_block, (blocks_step x) by done. cbn [for_each]. rewrite bind_assoc, bind_unfold.
    unfold consume_block at 1. destruct (parse_buffer I None (take 188 x)) as [p|[e| |]]; [|by rewrite decide_False|done..].
    rewrite bind_unfold. cbn [on_snd]. destruct (remuxer_Consume I B aes order p r) as [[[]|f] r1]; [|done].
    cbn [mret M_ret]. specialize (IH (drop 188 x) r1 ltac:(by apply Forall_drop) ltac:(rewrite length_drop; lia)).
    rewrite bind_unfold in IH. exact IH.
  - rewrite NextPacket_end, blocks_short by lia. rewrite decide_True by done. cbn [for_each].
    rewrite bind_ret. cbn [on_snd]. by destruct (remuxer_Flush B aes order r).
Qed.

(** On bytes, with fuel for their packets, the key is checked, and the blocks of
    188 bytes go to the remuxer one by one until one fails; a last block that is
    not complete is ignored. *)
Lemma process_blocks fuel c (x : bytes_reader) w : bytes_ok x -> length x < 188 * fuel ->
  Encrypt I B aes order fuel c x w =
  match Validate c with
  | Some e => (Fail (Err e), w)
  | None => let '(o, r) := encrypt_blocks (blocks x) (newRemuxer w false c) in (o, (asm r).2)
  end.
Proof.
  intros Hb Hx. unfold Encrypt, process. destruct (Validate c); [done|].
  pose proof (process_loop fuel x (newRemuxer w false c) Hb Hx) as Hp. cbn [negb].
  destruct ((iter fuel _ tt ≫= _) _) as [o [x' r']]. by rewrite <- Hp.
Qed.

(** ** Streams without a PAT *)
Context `{!ReliableWriter W}.

(** The assembler holds nothing back. *)
Definition drained (o : outputAssembler (W := W)) (l : list bool) (c : option nat) : Prop :=
  wf o.1 /\ spending (view o.1) = [] /\ written o.2 l c.

Lemma original_written o p l c : wire_packet p -> drained o l c -> (next o.1 + 1 < 2 ^ 64)%Z ->
  exists o', (t ← assembler_Reserve; CommitOriginal t p) o = (Ok tt, o')
    /\ drained o' (l ++ byte_bits (packet_bytes p)) c /\ next o'.1 = (next o.1 + 1)%Z.
Proof.
  destruct o as [q w]. intros Hp (Hwf & Hs & Hw) Hn. cbn [fst snd] in *.
  destruct (push_refines (CommitSlot [] false) q Hwf Hn) as (q1 & E1 & Hwf1 & Hv1).
  rewrite bind_unfold. unfold assembler_Reserve. rewrite on_fst_unfold. unfold Reserve. rewrite E1.
  unfold spec_push in Hv1. rewrite Hs in Hv1. cbn [app] in Hv1.
  assert (first q1 = first q) as Hf1 by (by injection Hv1).
  pose proof (wf_next q Hwf) as Hnext. fold (CommitQueue.Len q) in Hnext. rewrite Len_view, Hs in Hnext.
  cbn [length] in Hnext. unfold CommitOriginal, assembler_Commit. cbn [token slot_packets].
  pose proof (Commit_cases (next q) [ClonePacket p] q1 Hwf1) as Hc.
  assert (next q = first q) as Hq by lia. rewrite Hv1, Hq in Hc. unfold spec_lookup, spec_commit in Hc.
  cbn [sfirst spending view] in Hc. rewrite decide_True, Z.sub_diag in Hc by lia. cbn in Hc.
  destruct Hc as (q2 & E2 & Hwf2 & Hv2). cbn [fst snd]. rewrite Hq.
  assert (wrap_err "assembler: commit token" (on_fst (W := W) (Commit (first q) [ClonePacket p])) (q1, w)
    = (Ok tt, (q2, w))) as E2' by (unfold wrap_err, on_fst; by rewrite E2).
  rewrite (bind_ok _ _ _ _ _ E2'). unfold assembler_Drain.
  destruct (writes_packet p Hp w l c Hw) as (w3 & E3 & Hw3).
  assert (write_packets [ClonePacket p] w = (Ok tt, w3)) as E4.
  { unfold write_packets. cbn [for_each]. rewrite ClonePacket_same. unfold WritePacket.
    rewrite !bind_unfold. unfold wrap_err. by rewrite E3. }
  pose proof (Drain_cases [] write_packets q2 w Hwf2) as Hd. cbn zeta in Hd. rewrite Hv2 in Hd.
  destruct (Drain [] write_packets (q2, w)) as [r [q3 w4]].
  cbn [spending ready_prefix ready value] in Hd.
  destruct Hd as (k & w5 & Hk & Hwf3 & Hv3 & Hr).
  assert (for_each write_packets [[ClonePacket p]] w = (Ok tt, w3)) as E5.
  { cbn [for_each]. by rewrite (bind_ok _ _ _ _ _ E4). }
  change (<[Z.to_nat 0:=CommitSlot [ClonePacket p] true]> [CommitSlot [] false])
    with [CommitSlot [ClonePacket p] true] in Hv3, Hr, Hk. cbn in Hk, Hr.
  destruct Hr as [(-> & -> & ->)|(v & f & Hl & Hf & _)].
  - cbn [take] in Hk. rewrite Hk in E5. injection E5 as ->. eexists. split_and!; [done|..].
    + split_and!; [done|cbn [fst]; by rewrite Hv3|done].
    + cbn [fst]. rewrite (wf_next q3 Hwf3). fold (CommitQueue.Len q3). rewrite Len_view, Hv3. cbn.
      assert (first q3 = first q + 1)%Z as -> by (by injection Hv3). lia.
  - destruct k; [|done]. injection Hl as <-. injection Hk as <-. by rewrite E4 in Hf.
Qed.

(** No PAT has been seen, and nothing is held back. *)
Definition idle (r : remuxer (W := W)) (l : list bool) (c : option nat) : Prop :=
  streams r = None /\ pmtPID r = 0%Z /\ PmtTransformer.pending (shared_parts r).1 = []
  /\ drained (asm r) l c.

Lemma idle_step p r l c : wire_packet p -> PID (Header p) <> 0%Z -> idle r l c ->
  (next (asm r).1 + 1 < 2 ^ 64)%Z ->
  exists r', remuxer_Consume I B aes order p r = (Ok tt, r')
    /\ idle r' (l ++ byte_bits (packet_bytes p)) c /\ next (asm r').1 = (next (asm r).1 + 1)%Z.
Proof.
  intros Hp Hid (Hs & Hm & Ht & Hd) Hn.
  destruct (original_written (asm r) p l c Hp Hd Hn) as (o' & E & Hd' & Hn').
  unfold asm in *. destruct (shared_parts r) as [m o] eqn:Er. cbn [fst snd] in *.
  rewrite bind_unfold in E. exists (set_shared (m, o') r). split; [|by split_and!].
  rewrite remuxer_Consume_routed. rewrite bind_unfold. unfold on_output, on_shared, on_snd. rewrite Er.
  destruct (assembler_Reserve o) as [[t|f] o1]; [|done]. unfold routed.
  rewrite bind_unfold. cbn [get]. change (pmtPID (set_shared _ r)) with (pmtPID r).
  change (streams (set_shared _ r)) with (streams r). rewrite Hs, Hm. unfold PIDPAT.
  apply Z.eqb_neq in Hid. rewrite Hid. cbn [mbind option_bind]. unfold on_output, on_shared, on_snd.
  cbn [set_shared shared_parts]. by rewrite E.
Qed.

Lemma consume_packet p : wire_packet p -> consume_block (packet_bytes p) = remuxer_Consume I B aes order p.
Proof. intros Hp. unfold consume_block. by rewrite (parse_packet_bytes p Hp). Qed.

Lemma idle_blocks ps r l c : Forall (fun p => wire_packet p /\ PID (Header p) <> 0%Z) ps -> idle r l c ->
  (next (asm r).1 + Z.of_nat (length ps) < 2 ^ 64)%Z ->
  exists r', for_each consume_block (packet_bytes <$> ps) r = (Ok tt, r')
    /\ idle r' (l ++ byte_bits (concat (packet_bytes <$> ps))) c.
Proof.
  intros Hps. revert r l. induction Hps as [|p ps [Hp Hid] Hps IH]; intros r l Hr Hn.
  - exists r. cbn. rewrite app_nil_r. by split_and!.
  - cbn [length] in Hn. destruct (idle_step p r l c Hp Hid Hr ltac:(lia)) as (r1 & E1 & Hr1 & Hn1).
    destruct (IH r1 _ Hr1 ltac:(lia)) as (r' & E' & Hr'). exists r'. rewrite fmap_cons. cbn [for_each concat].
    rewrite <- (consume_packet p Hp) in E1. rewrite (bind_ok _ _ _ _ _ E1). split; [done|].
    by rewrite byte_bits_app, app_assoc.
Qed.

Lemma drained_flush (o : outputAssembler (W := W)) l c : drained o l c ->
  exists o', assembler_Flush o = (Ok tt, o') /\ drained o' l c.
Proof.
  destruct o as [q w]. intros (Hwf & Hs & Hw). cbn [fst snd] in *. unfold assembler_Flush, assembler_Drain.
  pose proof (Drain_cases [] write_packets q w Hwf) as Hd. cbn zeta in Hd. rewrite bind_unfold.
  destruct (Drain [] write_packets (q, w)) as [r [q1 w1]]. rewrite Hs in Hd. cbn [ready_prefix] in Hd.
  destruct Hd as (k & w2 & Hk & Hwf1 & Hv1 & Hr). rewrite take_nil in Hk. injection Hk as <-.
  destruct Hr as [(-> & -> & ->)|(v & f & Hl & _)]; [|by rewrite lookup_nil in Hl].
  assert (spending (view q1) = []) as Hs1 by (rewrite Hv1; cbn [spec_drop spending]; by rewrite Hs).
  exists (q1, w). rewrite bind_unfold. cbn [gets]. rewrite Len_view. cbn [fst]. rewrite Hs1. by split_and!.
Qed.

Context (order_perm : forall l, order l ≡ₚ l).

Lemma idle_flush r l c : idle r l c ->
  exists r', remuxer_Flush B aes order r = (Ok tt, r') /\ written (asm r').2 l c.
Proof.
  intros (Hs & _ & Ht & Hd). unfold remuxer_Flush. rewrite bind_unfold. cbn [get]. rewrite Hs.
  cbn [default]. unfold visit. rewrite map_to_list_empty. cbn [fmap list_fmap].
  assert (order [] = []) as -> by (apply Permutation_nil_r, order_perm). cbn [for_each]. rewrite bind_ret.
  unfold asm in *. destruct (shared_parts r) as [m o] eqn:Er. cbn [fst snd] in *.
  assert (wrap_err "remuxer: flush PMT" (on_shared pmtTransformer_Flush) r = (Ok tt, set_shared (m, o) r)) as E.
  { unfold wrap_err, on_shared, pmtTransformer_Flush. rewrite Er, bind_unfold. cbn. by rewrite Ht. }
  rewrite (bind_ok _ _ _ _ _ E). destruct (drained_flush o l c Hd) as (o' & Eo & _ & _ & Hw).
  exists (set_shared (m, o') r). unfold on_output, on_shared, on_snd. cbn [set_shared shared_parts].
  rewrite Eo. by split.
Qed.

Lemma blocks_packets ps rest : Forall wire_packet ps -> length rest < 188 ->
  blocks (concat (packet_bytes <$> ps) ++ rest) = packet_bytes <$> ps.
Proof.
  intros Hps Hr. induction Hps as [|p ps Hp _ IH]; [by apply blocks_short|].
  rewrite fmap_cons. cbn [concat]. rewrite <- app_assoc.
  pose proof (length_packet_bytes p Hp) as Hl. rewrite blocks_step by (rewrite length_app; lia).
  by rewrite take_app_length', drop_app_length', IH by done.
Qed.

Lemma packets_bytes_ok ps : Forall wire_packet ps -> bytes_ok (concat (packet_bytes <$> ps)).
Proof.
  induction 1 as [|p ps Hp _ IH]; [constructor|]. rewrite fmap_cons. apply Forall_app.
  split; [by apply packet_bytes_ok|done].
Qed.

Lemma length_packets ps : Forall wire_packet ps -> length (concat (packet_bytes <$> ps)) = 188 * length ps.
Proof.
  induction 1 as [|p ps Hp _ IH]; [done|]. rewrite fmap_cons. cbn [concat length].
  rewrite length_app, IH, (length_packet_bytes p Hp). lia.
Qed.

(** The bytes of packets in a row. *)
Definition packet_stream (ps : list Packet) : list Z := concat (packet_bytes <$> ps).

(** C3: a transport stream without a PAT is written back byte for byte, whatever
    packets it is made of, adaptation fields included; a last packet that is cut
    short is dropped. *)
Theorem Encrypt_no_program fuel c ps rest w l k : Validate c = None ->
  Forall (fun p => wire_packet p /\ PID (Header p) <> 0%Z) ps -> bytes_ok rest -> length rest < 188 ->
  length ps < fuel -> (Z.of_nat (length ps) < 2 ^ 64)%Z -> written w l k ->
  exists w', Encrypt I B aes order fuel c (packet_stream ps ++ rest) w = (Ok tt, w')
    /\ written w' (l ++ byte_bits (packet_stream ps)) k.
Proof.
  intros Hc Hps Hr Hrl Hf Hn Hw. unfold packet_stream.
  assert (Forall wire_packet ps) as Hps' by (eapply Forall_impl; [exact Hps|by intros p [? _]]).
  assert (idle (newRemuxer w false c) l k) as Hi by (split_and!; try done; apply wf_empty).
  destruct (idle_blocks ps _ l k Hps Hi) as (r1 & E1 & Hr1); [cbn; lia|].
  destruct (idle_flush r1 _ k Hr1) as (r2 & E2 & Hw2). exists (asm r2).2.
  rewrite (process_blocks fuel c _ w).
  - rewrite Hc, (blocks_packets ps rest Hps' Hrl). unfold encrypt_blocks.
    rewrite (bind_ok _ _ _ _ _ E1). by rewrite E2.
  - apply Forall_app. split; [by apply packets_bytes_ok|done].
  - rewrite length_app, (length_packets ps Hps'). lia.
Qed.
End Encrypt.

Import Reference.

Lemma Encrypt_no_program_witness : exists w',
  Encrypt iterator bits no_cipher id 3 sample_config
    (stream_bytes [PacketExample.packet; null_packet] ++ [0x47%Z] : bytes_reader) (([], None) : bits) = (Ok tt, w')
  /\ w'.1 = byte_bits (stream_bytes [PacketExample.packet; null_packet]).
Proof.
  destruct (Encrypt_no_program iterator bits no_cipher id (fun l => Permutation_refl l) 3 sample_config
    [PacketExample.packet; null_packet] [0x47%Z] (([], None) : bits) [] None) as (w' & E & Hw).
  - reflexivity.
  - constructor; [split; [exact PacketExample.wire|done]|].
    constructor; [split; [exact (proj1 (Forall_lookup _ _) sample_wire 2 null_packet eq_refl)|done]|constructor].
  - constructor; [done|constructor].
  - cbn. lia.
  - cbn. lia.
  - cbn. lia.
  - reflexivity.
  - exists w'. split; [exact E|]. by rewrite Hw.
Defined.
