(* ===== verification/PsiSpec.v ===== *)
(** * What the PSI collectors promise: the sections, however they are cut

    A stream of sections followed by stuffing, cut into payloads at any byte, gives
    the sections back in order; and no payload makes a collector panic or loop. *)

From S2P Require Import Prelude Astikit Pmt Crc32 Tables Psi PsiCollector Safety Sample.

(** ** Sections on the wire *)

(** A section that announces its length, as [append] reads it. *)
Definition announced (l : list Z) : Z := Z.lor (Z.shiftl (Z.land (byte_at l 1) 0x0F) 8) (byte_at l 2).

Definition whole_section (s : list Z) : Prop :=
  3 <= length s /\ byte_at s 0 <> 0xFF%Z /\ (announced s <= 1021)%Z /\ length s = 3 + Z.to_nat (announced s).

Definition stuffing (n : nat) : list Z := replicate n 0xFF%Z.

Definition section_stream (ss : list (list Z)) (n : nat) : list Z := concat ss ++ stuffing n.

(** ** The loop *)

Lemma prefix_byte (l more s tail : list Z) i : l ++ more = s ++ tail -> i < length l -> i < length s ->
  byte_at l i = byte_at s i.
Proof. intros E Hl Hs. rewrite <- (byte_at_app l more i Hl), E. by apply byte_at_app. Qed.

Lemma stuffing_prefix (l more : list Z) n : l ++ more = stuffing n ->
  l = stuffing (length l) /\ more = stuffing (n - length l).
Proof.
  intros E. assert (length l <= n) as Hl by (apply (f_equal length) in E; unfold stuffing in E; rewrite length_app, length_replicate in E; lia).
  replace n with (length l + (n - length l)) in E by lia. unfold stuffing in E.
  rewrite replicate_add in E. by apply app_inj_1 in E; [|by rewrite length_replicate].
Qed.

(** What the buffer holds is the start of a section, or nothing. *)
Definition unfinished (buf : list Z) (rest : list (list Z)) : Prop :=
  match rest with [] => buf = [] | s :: _ => length buf < length s end.

Lemma append_stop k out buf : 0 < k -> append_step out buf = (Ok (inr out), buf) ->
  iter k append_step out buf = (Ok out, buf).
Proof. intros Hk E. destruct k; [lia|]. by rewrite iter_S, E. Qed.

(** A round on the start of a section. *)
Lemma append_step_section s ss out buf more n : whole_section s ->
  buf ++ more = section_stream (s :: ss) n ->
  append_step out buf =
    if decide (length buf < length s) then (Ok (inr out), buf)
    else (Ok (inl (out ++ [s])), drop (length s) buf).
Proof.
  intros (Hl & Hff & Ha & Hlen) E. unfold section_stream in E. cbn [concat] in E. rewrite <- app_assoc in E.
  unfold append_step. rewrite bind_unfold. cbn [get].
  destruct (Nat.eqb_spec (length buf) 0) as [Hn|Hn]; [by rewrite decide_True by lia|].
  rewrite (bind_ok _ _ _ _ _ (index_in buf 0 buf ltac:(lia))), (prefix_byte buf more s _ 0 E) by lia.
  apply Z.eqb_neq in Hff. rewrite Hff. clear Hff Hn.
  destruct (Nat.ltb_spec (length buf) 3) as [H3|H3]; [by rewrite decide_True by lia|].
  rewrite (bind_ok _ _ _ _ _ (index_in buf 1 buf ltac:(lia))), (bind_ok _ _ _ _ _ (index_in buf 2 buf ltac:(lia))).
  rewrite !(prefix_byte buf more s _ _ E) by lia. fold (announced s). rewrite bind_unfold. unfold fail_if.
  destruct (Z.ltb_spec 1021 (announced s)); [lia|]. cbn [mret M_ret]. rewrite <- Hlen.
  destruct (Nat.ltb_spec (length buf) (length s)); [by rewrite decide_True by lia|].
  rewrite decide_False by lia.
  rewrite (bind_ok _ _ _ _ _ (subslice_in buf 0 (length s) buf ltac:(lia) ltac:(done))).
  rewrite (bind_ok _ _ _ _ _ (subslice_in buf (length s) (length buf) buf ltac:(done) ltac:(lia))).
  rewrite slice_start, slice_end, bind_unfold. cbn [modify mret M_ret]. do 3 f_equal.
  rewrite <- (take_app_le _ more) by done. rewrite E. by rewrite take_app_length.
Qed.

Lemma append_loop ss : Forall whole_section ss -> forall k out buf more n,
  buf ++ more = section_stream ss n -> length buf < k ->
  exists done rest buf' m, ss = done ++ rest
    /\ iter k append_step out buf = (Ok (out ++ done), buf')
    /\ buf' ++ more = section_stream rest m /\ unfinished buf' rest.
Proof.
  induction 1 as [|s ss Hs Hss IH]; intros k out buf more n E Hk.
  - unfold section_stream in E. cbn [concat app] in E. destruct (stuffing_prefix _ _ _ E) as [Hb Hm].
    exists [], [], [], (n - length buf). rewrite (app_nil_r out). split_and!; [done| |done|done].
    destruct buf as [|b buf]; [by apply append_stop|]. destruct k; [lia|].
    rewrite iter_S. unfold append_step. cbn [length stuffing replicate] in Hb. injection Hb as -> _.
    by rewrite !bind_unfold.
  - pose proof (append_step_section s ss out buf more n Hs E) as Hstep. case_decide.
    + exists [], (s :: ss), buf, n. rewrite (app_nil_r out). split_and!; [done|apply append_stop; [lia|done]|done..].
    + destruct k; [lia|]. pose proof (proj1 Hs).
      assert (drop (length s) buf ++ more = section_stream ss n) as E'.
      { rewrite <- drop_app_le by lia. rewrite E. unfold section_stream. cbn [concat].
        by rewrite <- app_assoc, drop_app_length. }
      destruct (IH k (out ++ [s]) (drop (length s) buf) more n E') as (d & rest & buf' & m & -> & Ei & Em & Hu).
      { rewrite length_drop. lia. }
      exists (s :: d), rest, buf', m. split_and!; [done| |done|done].
      by rewrite iter_S, Hstep, Ei, <- app_assoc.
Qed.

Lemma append_sections_stream ss buf d more n : Forall whole_section ss ->
  buf ++ d ++ more = section_stream ss n ->
  exists done rest buf' m, ss = done ++ rest
    /\ append_sections d buf = (Ok done, buf')
    /\ buf' ++ more = section_stream rest m /\ unfinished buf' rest.
Proof.
  intros Hss E. rewrite app_assoc in E.
  destruct (append_loop ss Hss (length (buf ++ d) + 1) [] (buf ++ d) more n E) as (dn & rest & buf' & m & Hd & Ei & Hm & Hu); [lia|].
  exists dn, rest, buf', m. split_and!; [done| |done..].
  unfold append_sections. rewrite bind_unfold. cbn [modify]. by rewrite bind_unfold.
Qed.

(** ** Properties *)

(** The payloads of one unit: the pointer field of the first one skips the end of
    the unit before. *)
Fixpoint continue (l : list (list Z)) : M psiSectionCollector (list (list Z)) :=
  match l with
  | [] => mret []
  | d :: l => a ← psi_Consume false d; b ← continue l; mret (a ++ b)
  end.

Definition start_payload (ending first : list Z) : list Z := Z.of_nat (length ending) :: ending ++ first.

Definition collect_unit (ending first : list Z) (l : list (list Z)) : M psiSectionCollector (list (list Z)) :=
  a ← psi_Consume true (start_payload ending first); b ← continue l; mret (a ++ b).

Lemma continue_stream l : forall ss buf n, Forall whole_section ss ->
  buf ++ concat l = section_stream ss n -> unfinished buf ss ->
  continue l buf = (Ok ss, []).
Proof.
  induction l as [|d l IH]; intros ss buf n Hss E Hu.
  - cbn [concat continue] in *. rewrite app_nil_r in E. destruct ss as [|s ss]; [by rewrite Hu|].
    cbn [unfinished] in Hu. apply (f_equal length) in E. unfold section_stream in E. cbn [concat] in E.
    rewrite !length_app in E. lia.
  - cbn [concat continue] in *.
    destruct (append_sections_stream ss buf d (concat l) n Hss E) as (dn & rest & buf' & m & -> & Ea & Em & Hu').
    unfold psi_Consume at 1. cbn [negb]. rewrite (bind_ok _ _ _ _ _ Ea).
    apply Forall_app in Hss as [_ Hrest]. by rewrite (bind_ok _ _ _ _ _ (IH rest buf' m Hrest Em Hu')).
Qed.

(** What the bytes before the pointer complete. *)
Definition finish_sections (ending : list Z) : M psiSectionCollector (list (list Z)) :=
  buf ← get;
  if 0 <? length buf then
    completed ← append_sections ending; modify (fun _ => []);; mret completed
  else mret [].

(** The end of the sections of the unit before. *)
Lemma ending_sections before buf ending : Forall whole_section before ->
  (if decide (buf = []) then before = [] else buf ++ ending = concat before) ->
  finish_sections ending buf = (Ok before, []).
Proof.
  intros Hb Hend. unfold finish_sections. rewrite bind_unfold. cbn [get]. case_decide as Hbuf; [by subst|].
  destruct (Nat.ltb_spec 0 (length buf)); [|destruct buf; [done|cbn in *; lia]].
  destruct (append_sections_stream before buf ending [] 0 Hb) as (dn & rest & buf' & m & -> & Ea & Em & Hu).
  { rewrite app_nil_r, Hend. unfold section_stream. by rewrite app_nil_r. }
  rewrite (bind_ok _ _ _ _ _ Ea), bind_unfold. cbn [modify]. destruct rest as [|s rest]; [by rewrite app_nil_r|].
  cbn [unfinished] in Hu. apply (f_equal length) in Em. unfold section_stream in Em. cbn [concat] in Em.
  rewrite !length_app in Em. cbn [length] in Em. lia.
Qed.

(** A payload with a pointer, in range or not. *)
Lemma psi_Consume_start payload buf :
  psi_Consume true payload buf =
  match payload with
  | [] => (Fail (Err (Errorf "PSI payload starts without pointer field")), buf)
  | b :: rest =>
      if (Z.of_nat (length rest) <? b)%Z
      then (Fail (Err (Errorf "PSI pointer field exceeds payload size")), buf)
      else (sections ← finish_sections (take (Z.to_nat b) rest);
            completed ← append_sections (drop (Z.to_nat b) rest);
            mret (sections ++ completed)) buf
  end.
Proof.
  destruct payload as [|b rest]; [done|]. unfold psi_Consume. cbn [negb length Nat.eqb].
  rewrite (bind_ok _ _ _ tt buf) by done.
  rewrite (bind_ok _ _ _ _ _ (index_in (_ :: _) 0 buf ltac:(cbn; lia))).
  change (byte_at (b :: rest) 0) with b.
  replace (Z.of_nat (S (length rest)) - 1)%Z with (Z.of_nat (length rest)) by lia.
  rewrite bind_unfold. unfold fail_if. destruct (Z.ltb_spec (Z.of_nat (length rest)) b) as [|Hb]; [done|].
  cbn [mret M_ret]. rewrite bind_unfold. cbn [get]. unfold finish_sections. rewrite bind_assoc, (bind_ok get _ buf buf buf) by done. cbv beta.
  assert (forall s : psiSectionCollector, subslice (b :: rest) 1 (1 + Z.to_nat b) s = (Ok (take (Z.to_nat b) rest), s)) as E1.
  { intros s. rewrite subslice_in by (cbn; lia). unfold slice. cbn [drop]. by rewrite Nat.add_comm, Nat.add_sub. }
  assert (forall s : psiSectionCollector, subslice (b :: rest) (1 + Z.to_nat b) (S (length rest)) s = (Ok (drop (Z.to_nat b) rest), s)) as E2.
  { intros s. rewrite subslice_in by (cbn; lia). change (S (length rest)) with (length (b :: rest)). by rewrite slice_end. }
  assert (forall ss s, (rest0 ← subslice (b :: rest) (1 + Z.to_nat b) (S (length rest));
    completed ← append_sections rest0; mret (ss ++ completed)) s
    = (completed ← append_sections (drop (Z.to_nat b) rest); mret (ss ++ completed)) s) as E3.
  { intros ss s. by rewrite (bind_ok _ _ _ _ _ (E2 s)). }
  rewrite (bind_ext _ _ _ _ E3). destruct (0 <? length buf); [|done].
  rewrite bind_assoc. by rewrite (bind_ok _ _ _ _ _ (E1 buf)).
Qed.

(** One section behind a pointer field of 0, alone in its payload. *)
Lemma consume_alone s k ss buf : length s = 3 + Z.to_nat (announced s) ->
  psi_Consume true (0%Z :: s ++ stuffing k) [] = (Ok ss, buf) ->
  buf = [] /\ ss = if (byte_at s 0 =? 0xFF)%Z then [] else [s].
Proof.
  intros Hs. rewrite psi_Consume_start. cbn [length].
  destruct (Z.ltb_spec (Z.of_nat (length (s ++ stuffing k))) 0); [lia|].
  rewrite (bind_ok (finish_sections []) _ [] [] []) by done. intros E.
  apply bind_Ok_inv in E as (ss' & b & E & Er). injection Er as <- <-. cbn [app].
  change (append_sections (s ++ stuffing k) [] = (Ok ss', b)) in E.
  assert (append_sections (s ++ stuffing k) [] = iter (length (s ++ stuffing k) + 1) append_step [] (s ++ stuffing k)) as Ea by done.
  destruct (Z.eqb_spec (byte_at s 0) 0xFF) as [Hff|Hff]; [|destruct (decide (announced s <= 1021)%Z) as [Ha|Ha]].
  - rewrite Ea, Nat.add_1_r, iter_S in E. destruct s as [|b0 s]; [cbn in Hs; lia|]. change (b0 = 0xFF%Z) in Hff. subst b0.
    unfold append_step in E. rewrite !bind_unfold in E. by injection E as <- <-.
  - assert (whole_section s) as Hw by (split_and!; [lia|done..]).
    destruct (append_sections_stream [s] [] (s ++ stuffing k) [] k) as (dn & rest & b' & m & Hd & E' & Em & Hu);
      [by constructor|unfold section_stream; cbn; by rewrite !app_nil_r|].
    rewrite E in E'. injection E' as <- <-. destruct rest as [|s' rest]; [rewrite app_nil_r in Hd; by subst|].
    destruct ss' as [|? ss']; [|by destruct ss']. injection Hd as <- <-. cbn [unfinished] in Hu.
    apply (f_equal length) in Em. unfold section_stream in Em. cbn [concat] in Em. rewrite !length_app in Em. cbn in Em. lia.
  - exfalso. rewrite Ea, Nat.add_1_r, iter_S in E. set (l := s ++ stuffing k) in *.
    assert (length s <= length l) as Hl by (subst l; rewrite length_app; lia).
    assert (forall i, i < length s -> byte_at l i = byte_at s i) as Hb by (intros; by apply byte_at_app).
    unfold append_step in E. rewrite (bind_ok get _ l l l) in E by done.
    destruct (Nat.eqb_spec (length l) 0); [lia|]. rewrite (bind_ok _ _ _ _ _ (index_in l 0 l ltac:(lia))), Hb in E by lia.
    apply Z.eqb_neq in Hff. rewrite Hff in E. destruct (Nat.ltb_spec (length l) 3); [lia|].
    rewrite (bind_ok _ _ _ _ _ (index_in l 1 l ltac:(lia))), (bind_ok _ _ _ _ _ (index_in l 2 l ltac:(lia))), !Hb in E by lia.
    fold (announced s) in E. rewrite bind_unfold in E. unfold fail_if in E. by destruct (Z.ltb_spec 1021 (announced s)); [|lia].
Qed.

(** C25: sections that follow each other, with stuffing at the end, are collected in
    order, none lost, wherever the stream is cut into payloads, and the bytes
    before the pointer complete the sections that the collector was holding;
    nothing is left in the collector, the stuffing included. *)
Theorem sections_reassembled before ss n buf ending first l :
  Forall whole_section before -> Forall whole_section ss ->
  (if decide (buf = []) then before = [] else buf ++ ending = concat before) ->
  first ++ concat l = section_stream ss n ->
  collect_unit ending first l buf = (Ok (before ++ ss), []).
Proof.
  intros Hb Hss Hend E. unfold collect_unit.
  destruct (append_sections_stream ss [] first (concat l) n Hss E) as (dn & rest & buf' & m & -> & Ea & Em & Hu').
  assert (psi_Consume true (start_payload ending first) buf = (Ok (before ++ dn), buf')) as E1.
  { rewrite psi_Consume_start. unfold start_payload. rewrite length_app, Nat2Z.id, take_app_length, drop_app_length.
    destruct (Z.ltb_spec (Z.of_nat (length ending + length first)) (Z.of_nat (length ending))); [lia|].
    rewrite (bind_ok _ _ _ _ _ (ending_sections before buf ending Hb Hend)). by rewrite (bind_ok _ _ _ _ _ Ea). }
  rewrite (bind_ok _ _ _ _ _ E1). apply Forall_app in Hss as [_ Hrest].
  rewrite (bind_ok _ _ _ _ _ (continue_stream l rest buf' m Hrest Em Hu')). by rewrite <- app_assoc.
Qed.

(** ** Arbitrary payloads *)
Lemma append_round out buf : Forall bytes_ok out -> bytes_ok buf ->
  match append_step out buf with
  | (Ok (inl out'), buf') => Forall bytes_ok out' /\ bytes_ok buf' /\ length buf' < length buf
  | (Ok (inr out'), buf') => Forall bytes_ok out' /\ bytes_ok buf'
  | (Fail f, buf') => bytes_ok buf' /\ exists e, f = Err e
  end.
Proof.
  intros Ho Hb. unfold append_step. rewrite bind_unfold. cbn [get].
  destruct (Nat.eqb_spec (length buf) 0) as [|Hn]; [by split|].
  rewrite (bind_ok _ _ _ _ _ (index_in buf 0 buf ltac:(lia))).
  destruct (_ =? _)%Z; [split; [done|constructor]|]. destruct (Nat.ltb_spec (length buf) 3) as [|H3]; [by split|].
  rewrite (bind_ok _ _ _ _ _ (index_in buf 1 buf ltac:(lia))), (bind_ok _ _ _ _ _ (index_in buf 2 buf ltac:(lia))).
  fold (announced buf). rewrite bind_unfold. unfold fail_if. destruct (_ <? _)%Z; [by split; eauto|]. cbn [mret M_ret].
  set (n := 3 + Z.to_nat (announced buf)). destruct (Nat.ltb_spec (length buf) n) as [|Hl]; [by split|].
  rewrite (bind_ok _ _ _ _ _ (subslice_in buf 0 n buf ltac:(lia) Hl)).
  rewrite (bind_ok _ _ _ _ _ (subslice_in buf n (length buf) buf Hl ltac:(done))).
  rewrite slice_start, slice_end, bind_unfold. cbn [modify mret M_ret].
  split_and!; [|by apply Forall_drop|rewrite length_drop; subst n; lia].
  apply Forall_app. split; [done|]. constructor; [by apply Forall_take|constructor].
Qed.

Lemma append_sections_safe d buf : bytes_ok buf -> bytes_ok d ->
  let '(r, buf') := append_sections d buf in
  bytes_ok buf' /\ match r with Ok ss => Forall bytes_ok ss | Fail f => exists e, f = Err e end.
Proof.
  intros Hb Hd. unfold append_sections. rewrite !bind_unfold. cbn [modify get].
  apply (iter_rule (fun out b => Forall bytes_ok out /\ bytes_ok b) (fun _ b => length b)
    (fun r b => bytes_ok b /\ match r with Ok ss => Forall bytes_ok ss | Fail f => exists e, f = Err e end)).
  - intros out b [Ho Hb']. pose proof (append_round out b Ho Hb') as Hr.
    destruct (append_step out b) as [[[|]|] ?]; tauto.
  - split; [constructor|by apply Forall_app].
  - lia.
Qed.

Lemma psi_Consume_safe pusi d buf : bytes_ok buf -> bytes_ok d ->
  let '(r, buf') := psi_Consume pusi d buf in
  bytes_ok buf' /\ match r with Ok ss => Forall bytes_ok ss | Fail f => exists e, f = Err e end.
Proof.
  intros Hb Hd. destruct pusi; [|by apply append_sections_safe]. rewrite psi_Consume_start.
  destruct d as [|p d]; [by split; eauto|]. destruct (_ <? _)%Z; [by split; eauto|]. apply Forall_cons in Hd as [_ Hd].
  set (ending := take _ d). assert (bytes_ok ending) as He by (by apply Forall_take).
  set (first := drop _ d). assert (bytes_ok first) as Hf by (by apply Forall_drop).
  assert (forall ss b, Forall bytes_ok ss -> bytes_ok b ->
    let '(r, b') := (completed ← append_sections first; mret (ss ++ completed)) b in
    bytes_ok b' /\ match r with Ok ss => Forall bytes_ok ss | Fail f => exists e, f = Err e end) as Hlast.
  { intros ss b Hss Hb'. rewrite bind_unfold. pose proof (append_sections_safe first b Hb' Hf) as Ha.
    destruct (append_sections first b) as [[ss'|f] b']; [|done].
    destruct Ha as [Ha Hs']. split; [done|]. apply Forall_app. by split. }
  unfold finish_sections. rewrite bind_assoc, bind_unfold. cbn [get]. rewrite bind_unfold.
  destruct (0 <? length buf); [|by apply Hlast].
  rewrite bind_unfold. pose proof (append_sections_safe ending buf Hb He) as Ha.
  destruct (append_sections ending buf) as [[ss|f] b]; [|done]. rewrite bind_unfold. cbn [modify mret M_ret].
  apply Hlast; [easy|constructor].
Qed.

Section Collectors.
Context (I : Type) `{BytesIteratorLaws I}.

Lemma first_found_safe {A} (parse : list Z -> outcome (option A)) l :
  (forall s, bytes_ok s -> fails_cleanly (parse s)) -> Forall bytes_ok l -> fails_cleanly (first_found parse l).
Proof.
  intros Hp. induction 1 as [|s l Hs _ IH]; [done|]. cbn [first_found]. specialize (Hp s Hs).
  by destruct (parse s) as [[]|].
Qed.

Lemma parseSection_safe n s : bytes_ok s -> fails_cleanly (parseSection I n s).
Proof.
  intros Hs. pose proof (section_safe I s Hs) as Hp. unfold parseSection.
  destruct (ParsePSISection s) as [x|[]]; [|done..]. by destruct (pat_of x) as [[h d]|].
Qed.

Lemma parse_pmt_safe n s : bytes_ok s -> fails_cleanly (parse_pmt I n s).
Proof.
  intros Hs. pose proof (section_safe I s Hs) as Hp. unfold parse_pmt.
  destruct (ParsePSISection s) as [x|[]]; [|done..]. by destruct (pmt_of x) as [[h d]|].
Qed.

(** A call that gives a result or an error, and keeps bytes in its buffer. *)
Definition clean_step {A} (x : outcome A * SectionCollector) : Prop :=
  let '(r, c) := x in fails_cleanly r /\ bytes_ok (sections c).

Lemma collect_clean c pusi d : bytes_ok (sections c) -> bytes_ok d ->
  clean_step (pat_Consume I pusi d c) /\ clean_step (pmt_Consume I pusi d c).
Proof.
  intros Hc Hd. unfold clean_step, pat_Consume, pmt_Consume, on_sections. rewrite !bind_unfold.
  pose proof (psi_Consume_safe pusi d (sections c) Hc Hd) as Hp.
  destruct (psi_Consume pusi d (sections c)) as [[ss|f] b]; destruct Hp as [Hb Hss];
    [|destruct Hss as [e ->]; by split].
  rewrite !bind_unfold. cbn [get lift]. split; (split; [|done]); apply first_found_safe; try done;
    intros; by (apply parseSection_safe || apply parse_pmt_safe).
Qed.

(** C26: whatever payloads arrive, in any order, the collectors of the PAT and the
    PMT return a result or an error, and never panic or loop. *)
Theorem collectors_safe c pusi d : bytes_ok (sections c) -> bytes_ok d ->
  clean_step (pat_Consume I pusi d c) /\ clean_step (pmt_Consume I pusi d c).
Proof. apply collect_clean. Qed.
End Collectors.

(** ** Witnesses *)
Lemma sections_reassembled_witness :
  collect_unit (drop 9 pat_section) (take 20 (section_stream [pmt_section; pat_section] 30))
    [take 1 (drop 20 (section_stream [pmt_section; pat_section] 30)); drop 21 (section_stream [pmt_section; pat_section] 30)]
    (take 9 pat_section) = (Ok [pat_section; pmt_section; pat_section], []).
Proof.
  assert (whole_section pat_section /\ whole_section pmt_section) as [Hp Hm].
  { split; (split; [cbn; lia|split; [done|split; [|reflexivity]]]); vm_compute; congruence. }
  refine (sections_reassembled [pat_section] [pmt_section; pat_section] 30 _ _ _ _ _ _ _ _).
  - by repeat constructor.
  - by repeat constructor.
  - reflexivity.
  - reflexivity.
Defined.

Import Reference.

Lemma collectors_safe_witness :
  fails_cleanly (pat_Consume iterator true [0xff; 0; 0xb0]%Z (NewPATCollector 1)).1.
Proof.
  destruct (collectors_safe iterator (NewPATCollector 1) true [0xff; 0; 0xb0]%Z) as [Hp _].
  - constructor.
  - repeat (constructor; [vm_compute; split; congruence|]); constructor.
  - destruct (pat_Consume iterator true _ _) as [r c]. exact (proj1 Hp).
Defined.
