(* ===== verification/Halts.v ===== *)
(** * Calls that end

    A calculus for showing that no loop runs out of its fuel: [ends m s Q] says
    that [m], started in [s], answers - with a value and a state that satisfy [Q],
    an error or a panic - and [halts m] that it does in every state.  The calls of
    the code to what is not modelled (the cryptor, the writers) are assumed to
    return.  With it the collectors, the codec transformers, the packetizer, the
    aligner and the assembler are shown to end whatever they are given. *)

From S2P Require Import Prelude CommitQueue SampleAes Packet Astikit PacketCodec DvbTime Descriptor DescriptorWrite Pmt Tables Psi PesQueue PesCollector Packetizer Output PesHandler.
From S2P Require Audio Aac Ac3 Eac3 Ebsp Avc.

(** ** The calculus *)
Section Calculus.
Context {S : Type}.

Definition ends {A} (m : M S A) (s : S) (Q : A -> S -> Prop) : Prop :=
  match m s with
  | (Ok a, s') => Q a s'
  | (Fail f, _) => f <> OutOfFuel
  end.

Definition halts {A} (m : M S A) : Prop := forall s, ends m s (fun _ _ => True).

Lemma halts_answers {A} (m : M S A) s : halts m -> (m s).1 <> Fail OutOfFuel.
Proof. intros Hm. specialize (Hm s). unfold ends in Hm. destruct (m s) as [[|f] s']; [done|]. by intros [= ->]. Qed.

Lemma answers_halts {A} (m : M S A) : (forall s, (m s).1 <> Fail OutOfFuel) -> halts m.
Proof. intros Hm s. specialize (Hm s). unfold ends. destruct (m s) as [[|f] s']; [done|]. intros ->. by apply Hm. Qed.

Lemma ends_weaken {A} (m : M S A) s (Q Q' : A -> S -> Prop) :
  ends m s Q -> (forall a s', Q a s' -> Q' a s') -> ends m s Q'.
Proof. unfold ends. destruct (m s) as [[a|f] s']; auto. Qed.

Lemma ends_call {A} (m : M S A) s (Q : A -> S -> Prop) : halts m -> (forall a s', Q a s') -> ends m s Q.
Proof. intros Hm HQ. eapply ends_weaken; [apply Hm|auto]. Qed.

Lemma ends_ret {A} (a : A) s (Q : A -> S -> Prop) : Q a s -> ends (mret a) s Q.
Proof. done. Qed.

Lemma ends_fail {A} f s (Q : A -> S -> Prop) : f <> OutOfFuel -> ends (fail f) s Q.
Proof. done. Qed.

Lemma ends_fail_with {A} e s (Q : A -> S -> Prop) : ends (fail_with e) s Q.
Proof. done. Qed.

Lemma ends_errorf {A} msg s (Q : A -> S -> Prop) : ends (errorf msg) s Q.
Proof. done. Qed.

Lemma ends_panic {A} s (Q : A -> S -> Prop) : ends panic s Q.
Proof. done. Qed.

Lemma ends_bind {A B} (m : M S A) (k : A -> M S B) s Q :
  ends m s (fun a s' => ends (k a) s' Q) -> ends (m ≫= k) s Q.
Proof. unfold ends. rewrite bind_unfold. by destruct (m s) as [[a|f] s']. Qed.

Lemma ends_get s (Q : S -> S -> Prop) : Q s s -> ends get s Q.
Proof. done. Qed.

Lemma ends_gets {A} (f : S -> A) s (Q : A -> S -> Prop) : Q (f s) s -> ends (gets f) s Q.
Proof. done. Qed.

Lemma ends_modify f s (Q : unit -> S -> Prop) : Q tt (f s) -> ends (modify f) s Q.
Proof. done. Qed.

Lemma ends_must {A} (o : option A) s (Q : A -> S -> Prop) :
  (forall a, o = Some a -> Q a s) -> ends (must o) s Q.
Proof. destruct o; [|done]. intros HQ. by apply HQ. Qed.

Lemma ends_fail_if b msg s (Q : unit -> S -> Prop) : (b = false -> Q tt s) -> ends (fail_if b msg) s Q.
Proof. destruct b; [done|]. intros HQ. by apply HQ. Qed.

Lemma ends_when b (m : M S unit) s (Q : unit -> S -> Prop) :
  (b = true -> ends m s Q) -> (b = false -> Q tt s) -> ends (when b m) s Q.
Proof. destruct b; intros Ht Hf; [by apply Ht|by apply Hf]. Qed.

Lemma ends_optionally {A} b (m : M S A) s (Q : option A -> S -> Prop) :
  (b = true -> ends m s (fun a s' => Q (Some a) s')) -> (b = false -> Q None s) -> ends (optionally b m) s Q.
Proof. destruct b; intros Ht Hf; [|by apply Hf]. by apply ends_bind, Ht. Qed.

Lemma ends_wrap {A} msg (m : M S A) s Q : ends m s Q -> ends (wrap_err msg m) s Q.
Proof. unfold ends, wrap_err. by destruct (m s) as [[a|[]] s']. Qed.

Lemma ends_on_err {A} cleanup (m : M S A) s Q : ends m s Q -> ends (on_err cleanup m) s Q.
Proof. unfold ends, on_err. by destruct (m s) as [[a|[]] s']. Qed.

Lemma ends_lift {A} (o : outcome A) s (Q : A -> S -> Prop) :
  o <> Fail OutOfFuel -> (forall a, o = Ok a -> Q a s) -> ends (lift o) s Q.
Proof. unfold ends, lift. destruct o as [a|f]; [auto|]. intros Hf _ ->. by apply Hf. Qed.

Lemma ends_for_each {A} (f : A -> M S unit) l s (I : S -> Prop) :
  I s -> (forall x s, x ∈ l -> I s -> ends (f x) s (fun _ => I)) -> ends (for_each f l) s (fun _ => I).
Proof.
  revert s. induction l as [|x l IH]; intros s HI Hf; [done|]. cbn [for_each]. apply ends_bind.
  eapply ends_weaken; [apply Hf; [set_solver|done]|]. intros ? s' HI'. apply IH; [done|]. intros. apply Hf; set_solver.
Qed.

(** A loop with a variant below its fuel. *)
Lemma ends_iter {A B} (I : A -> S -> Prop) (var : A -> S -> nat) (step : A -> M S (A + B)) n a s Q :
  I a s -> var a s < n ->
  (forall a s, I a s -> ends (step a) s (fun r s' => match r with
     | inl a' => I a' s' /\ var a' s' < var a s | inr b => Q b s' end)) ->
  ends (iter n step a) s Q.
Proof.
  intros HI Hn Hs. revert a s HI Hn. induction n as [|n IH]; intros a s HI Hn; [lia|]. cbn [iter].
  apply ends_bind. eapply ends_weaken; [by apply Hs|]. intros [a'|b] s'; [|done].
  intros [HI' Hv]. apply IH; [done|lia].
Qed.

(** The same for calls that end in every state. *)
Lemma halts_for_each {A} (f : A -> M S unit) l : (forall x, halts (f x)) -> halts (for_each f l).
Proof. intros Hf s. apply (ends_for_each f l s (fun _ => True)); [done|]. intros. apply Hf. Qed.
End Calculus.

Lemma ends_fst {T W A} (m : M T A) (s : T * W) Q :
  ends m s.1 (fun a t => Q a (t, s.2)) -> ends (on_fst m) s Q.
Proof. destruct s as [t w]. unfold ends, on_fst. cbn. by destruct (m t) as [[a|f] t']. Qed.

Lemma ends_snd {T W A} (m : M W A) (s : T * W) Q :
  ends m s.2 (fun a w => Q a (s.1, w)) -> ends (on_snd m) s Q.
Proof. destruct s as [t w]. unfold ends, on_snd. cbn. by destruct (m w) as [[a|f] w']. Qed.

Create HintDb halts.

(** Follows the text of a call; what is left is the postcondition. *)
Ltac ends_step :=
  cbv beta zeta;
  lazymatch goal with
  | |- halts _ => intros ?
  | |- ends (mret _) _ _ => apply ends_ret
  | |- ends (fail_with _) _ _ => apply ends_fail_with
  | |- ends (errorf _) _ _ => apply ends_errorf
  | |- ends panic _ _ => apply ends_panic
  | |- ends (_ ≫= _) _ _ => apply ends_bind
  | |- ends get _ _ => apply ends_get
  | |- ends (gets _) _ _ => apply ends_gets
  | |- ends (modify _) _ _ => apply ends_modify
  | |- ends (must _) _ _ => apply ends_must; intros ? ?
  | |- ends (fail_if _ _) _ _ => apply ends_fail_if; intros ?
  | |- ends (when _ _) _ _ => apply ends_when; intros ?
  | |- ends (optionally _ _) _ _ => apply ends_optionally; intros ?
  | |- ends (wrap_err _ _) _ _ => apply ends_wrap
  | |- ends (on_err _ _) _ _ => apply ends_on_err
  | |- ends (lift _) _ _ => apply ends_lift; [|intros ? ?]
  | |- ends (on_fst _) _ _ => apply ends_fst
  | |- ends (on_snd _) _ _ => apply ends_snd
  | |- ends (if ?b then _ else _) _ _ => destruct b eqn:?
  | |- ends (match ?x with _ => _ end) _ _ => destruct x eqn:?
  end.

(** A call known to end, or the text of its definition. *)
Ltac halts_head m := lazymatch m with ?f _ => halts_head f | _ => m end.
Ltac ends_call_step :=
  lazymatch goal with
  | |- ends ?m _ _ =>
      first [ apply ends_call; [solve [auto 3 with halts]|intros ? ?]
            | apply (ends_call (for_each _ _)); [apply halts_for_each; intros ?|intros ? ?]
            | let h := halts_head m in unfold h ]
  end.
Ltac ends := repeat first [ends_step | ends_call_step]; try done.

(** Outcomes that are not those of a loop. *)
Ltac answers :=
  repeat first [ discriminate
    | lazymatch goal with |- context [match ?x with _ => _ end] => destruct x end
    | progress cbn ].

Lemma bind_answers {A B} (o : outcome A) (k : A -> outcome B) :
  o <> Fail OutOfFuel -> (forall a, k a <> Fail OutOfFuel) -> (o ≫= k) <> Fail OutOfFuel.
Proof. destruct o as [|[]]; cbn; auto; discriminate. Qed.

(** ** The writers *)

(** Every call of the writer returns, with an error or without. *)
Class WriterReturns (W : Type) `{BitsWriter W} : Prop := {
  write_returns v : halts (Write v);
  bwrite_returns v : halts (BWrite v);
  bwriten_returns x n : halts (BWriteN x n);
  bwritebytesn_returns l n pad : halts (BWriteBytesN l n pad);
  callback_returns on : halts (SetWriteCallback on);
}.
#[export] Hint Resolve write_returns bwrite_returns bwriten_returns bwritebytesn_returns callback_returns : halts.

Section Writers.
Context {W : Type} `{WriterReturns W}.

Lemma halts_batch_result {A} (x : A) : halts (batch_result x).
Proof. unfold batch_result. ends. Qed.
#[local] Hint Resolve halts_batch_result : halts.

Lemma halts_with_batch {A} (m : M (Batch * W) A) : halts m -> halts (with_batch m).
Proof.
  intros Hm w. specialize (Hm (NewBitsWriterBatch, w)). unfold ends, with_batch in *.
  by destruct (m (NewBitsWriterBatch, w)) as [[a|f] [b w']].
Qed.

Lemma ends_with_batch {A} (m : M (Batch * W) A) w (Q : A -> W -> Prop) :
  halts m -> (forall a w, Q a w) -> ends (with_batch m) w Q.
Proof. intros Hm HQ. apply ends_call; [by apply halts_with_batch|done]. Qed.

(** A writer's text, with its batches. *)
Ltac writer :=
  repeat first
  [ ends_step
  | lazymatch goal with
    | |- ends (with_batch _) _ _ => apply ends_with_batch; [|intros ? ?]
    | |- ends (for_each _ _) _ _ => apply (ends_call (for_each _ _)); [apply halts_for_each; intros ?|intros ? ?]
    end
  | ends_call_step ]; try done.

(** *** packet.go *)
Lemma length_answers f : calcPacketAdaptationFieldLength f <> Fail OutOfFuel.
Proof. unfold calcPacketAdaptationFieldLength. by destruct (HasAdaptationExtensionField f), (AdaptationExtensionField f). Qed.
#[local] Hint Resolve length_answers : halts.

Lemma halts_field a : halts (writePacketAdaptationField a).
Proof. writer; apply length_answers. Qed.
#[local] Hint Resolve halts_field : halts.

Lemma halts_padding written target : halts (write_padding written target).
Proof.
  intros w. unfold write_padding.
  apply (ends_iter (fun _ _ => True) (fun n _ => Z.to_nat (target - n))); [done|lia|].
  intros n w' _. destruct (Z.ltb_spec n target); [|done]. apply ends_bind, ends_call; [apply write_returns|].
  intros _ w1. apply ends_ret. split; [done|lia].
Qed.
#[local] Hint Resolve halts_padding : halts.

Lemma halts_packet p n : halts (writePacket p n).
Proof. writer. Qed.

(** *** descriptor.go and the tables *)
Lemma halts_body x : halts (write_body x).
Proof. intros w. unfold write_body. repeat (match goal with |- ends (if ?b then _ else _) _ _ => destruct b end; [by writer|]). writer. Qed.
#[local] Hint Resolve halts_body : halts.

Lemma halts_descriptor d : halts (writeDescriptor d).
Proof. writer. Qed.
#[local] Hint Resolve halts_descriptor : halts.

Lemma halts_descriptor_list ds : halts (writeDescriptors ds).
Proof. induction ds as [|d ds IH]; [done|]. cbn [writeDescriptors]. writer. Qed.
#[local] Hint Resolve halts_descriptor_list : halts.

Lemma halts_descriptors ds : halts (writeDescriptorsWithLength ds).
Proof. writer. Qed.
#[local] Hint Resolve halts_descriptors : halts.

Lemma halts_pat_section d : halts (writePATSection d).
Proof. writer. Qed.

Lemma halts_streams l : halts (write_streams l).
Proof. induction l as [|x l IH]; [done|]. cbn [write_streams]. writer. Qed.
#[local] Hint Resolve halts_streams : halts.

Lemma halts_pmt_section d : halts (writePMTSection d).
Proof. writer. Qed.
#[local] Hint Resolve halts_pat_section halts_pmt_section : halts.

Lemma section_length_answers s : calcPSISectionLength s <> Fail OutOfFuel.
Proof.
  unfold calcPSISectionLength. destruct (_ =? PSITableIDPAT)%Z; [|destruct (_ =? PSITableIDPMT)%Z; [|by destruct (hasCRC32 _)]].
  - destruct (Syntax s) as [x|]; [|done]. cbn. destruct (PAT (Data x)); [|done]. cbn. by destruct (hasCRC32 _).
  - destruct (Syntax s) as [x|]; [|done]. cbn. destruct (PMT (Data x)); [|done]. cbn. by destruct (hasCRC32 _).
Qed.

Lemma halts_write_section s n : halts (write_section s n).
Proof. writer. Qed.
#[local] Hint Resolve halts_write_section : halts.

Lemma halts_without_callback {A} (m : M W A) : halts m -> halts (without_callback m).
Proof.
  intros Hm w. specialize (Hm w). unfold ends, without_callback in *.
  destruct (m w) as [[a|f] w1]; by destruct (SetWriteCallback false w1).
Qed.

Lemma halts_psi_section s : halts (writePSISection s).
Proof.
  intros w. unfold writePSISection. do 4 ends_step; [apply section_length_answers|].
  ends_step; [|by apply halts_write_section]. apply halts_without_callback. ends.
Qed.
End Writers.

(** ** The assembler *)
Section Assembler.
Context {W : Type} `{WriterReturns W}.

Lemma halts_write_packets l : halts (write_packets l).
Proof. unfold write_packets, WritePacket. apply halts_for_each. intros p w. do 2 ends_step. apply ends_call; [apply halts_packet|done]. Qed.

Lemma halts_drain {T V} (zero : T) (write : T -> M V unit) : (forall v, halts (write v)) -> halts (Drain zero write).
Proof.
  intros Hw s. unfold Drain. change (ends (iter (CommitQueue.Len s.1 + 1) (Drain_step zero write) tt) s (fun _ _ => True)).
  apply (ends_iter (fun _ _ => True) (fun _ s => CommitQueue.Len s.1)); [done|lia|].
  intros [] [q w] _. unfold ends. rewrite Drain_step_unfold. cbn [fst].
  destruct (spending (view q)) as [|x l] eqn:Hs; [done|]. destruct (ready x); [|done].
  specialize (Hw (value x) w). unfold ends in Hw. destruct (write (value x) w) as [[u|[]] w']; [|done..].
  split; [done|]. pose proof (f_equal length Hs) as Hl. cbn [spending view length] in Hl. rewrite length_drop in Hl.
  unfold CommitQueue.Len, advance. cbn [slots head fst]. rewrite length_insert. lia.
Qed.

Lemma halts_commit slot : halts (assembler_Commit (W := W) slot).
Proof.
  intros s. unfold assembler_Commit. do 3 ends_step. apply ends_call; [unfold CommitQueue.Commit, pending_slot; ends|].
  intros. apply ends_call; [|done]. apply halts_drain, halts_write_packets.
Qed.

Lemma halts_assembler_flush : halts (assembler_Flush (W := W)).
Proof.
  intros s. unfold assembler_Flush. ends_step. apply ends_call; [apply halts_drain, halts_write_packets|]. intros ? ?. ends.
Qed.
End Assembler.

(** ** The queue of PES records *)
Section Queue.
Context {T W : Type} `{HasPES T} `{PESHandler W}.
Hypothesis header_halts : forall h, halts (PESHeader (W := W) h).
Hypothesis payload_halts : forall d, halts (PESPayload (W := W) d).
Hypothesis end_halts : halts (PESEnd (W := W)).
#[local] Hint Resolve header_halts payload_halts end_halts : halts.

Lemma finish_ends (s : T * W) : ends finishPES s (fun _ s' => exists q, s'.1 = with_pes q s.1).
Proof.
  unfold finishPES. change (ends (iter (length (pes_of s.1) + 1) finish_step tt) s (fun _ s' => exists q, s'.1 = with_pes q s.1)).
  apply (ends_iter (fun _ s' => exists q, s'.1 = with_pes q s.1) (fun _ s' => length (pes_of s'.1)));
    [exists (pes_of s.1); by rewrite with_pes_of|lia|].
  intros [] [t w] [q Hq]. cbn [fst] in Hq. subst t. unfold finish_step, update_pes. ends; cbn [fst snd] in *;
    rewrite ?pes_of_with, ?with_pes_with in *; subst; eauto; (split; [eauto|cbn; lia]).
Qed.

(** What the state keeps, whatever its queue. *)
Lemma write_ends (R : relation T) `{!PreOrder R} msg encode data (s : T * W) :
  (forall q t, R t (with_pes q t)) -> (forall d t, ends (encode d) t (fun _ t' => R t t')) ->
  ends (PesQueue.write msg encode data) s (fun _ s' => R s.1 s'.1).
Proof.
  intros HR He. unfold PesQueue.write.
  apply (ends_iter (fun _ s' => R s.1 s'.1) (fun d _ => length d)); [reflexivity|lia|].
  intros d [t w] HI. cbn [fst] in HI. unfold write_step, update_pes.
  destruct (decide (d = [])) as [->|Hd]; [by apply ends_ret|].
  do 3 ends_step. cbn [fst snd]. destruct (pes_of t) as [|p q] eqn:Ep; [done|].
  do 2 ends_step. match goal with Hb : (bytes p =? 0) = false |- _ => apply Nat.eqb_neq in Hb end.
  ends_step. apply (ends_weaken _ _ (fun _ s' => R t s'.1)).
  { destruct (started p); [by apply ends_ret|]. ends. cbn [fst snd]. apply HR. }
  intros _ [t1 w1] R1. cbn [fst] in R1. do 2 ends_step. eapply ends_weaken; [apply He|]. intros o t2 R2. cbn [fst snd] in *.
  do 2 ends_step. apply ends_call; [apply payload_halts|]. intros _ w2. do 4 ends_step. cbn [fst snd].
  eapply ends_weaken; [apply finish_ends|]. intros _ [t3 w3] [q3 R3]. cbn [fst] in R3. ends_step. cbn [fst]. subst t3. split.
  - rewrite with_pes_with. etransitivity; [exact HI|]. etransitivity; [exact R1|]. etransitivity; [exact R2|]. apply HR.
  - rewrite length_drop. destruct d; [done|cbn [length]; lia].
Qed.
End Queue.

(** ** The frame-based transformers *)

(** Every call of the cryptor returns. *)
Class CryptorReturns (C : Type) `{BlockCryptor C} : Prop := {
  reset_returns : halts Reset;
  crypt_returns d : halts (CryptBlocks d);
}.
#[export] Hint Resolve reset_returns crypt_returns : halts.

#[export] Instance cbc_returns aes : @CryptorReturns CBCEncryptor (cbc_cryptor aes).
Proof.
  split; [|intros d]; intros e; cbn [Reset CryptBlocks cbc_cryptor]; unfold cbc_Reset, cbc_CryptBlocks.
  - ends_step. apply ends_get. destruct (SampleAes.block e); [by apply ends_modify|done].
  - do 4 ends_step. destruct (SampleAes.block e), (mode e); done.
Qed.

Section Audio.
Context {C W : Type} `{CryptorReturns C} `{PESHandler W} `{PMTSignal W}.
Hypothesis header_halts : forall h, halts (PESHeader (W := W) h).
Hypothesis payload_halts : forall d, halts (PESPayload (W := W) d).
Hypothesis end_halts : halts (PESEnd (W := W)).
Hypothesis signal_halts : forall p, halts (signal (W := W) p).
#[local] Hint Resolve header_halts payload_halts end_halts signal_halts : halts.

Definition same_length : relation (Audio.Transformer C) :=
  fun t t' => length (Audio.buffer t') = length (Audio.buffer t).
#[local] Instance same_length_preorder : PreOrder same_length.
Proof. split; [done|]. intros t1 t2 t3 E1 E2. unfold same_length in *. congruence. Qed.

Lemma on_block_ends {A} (m : M C A) (s : Audio.Transformer C * W) Q : halts m ->
  (forall a c, Q a (Audio.set_block c s.1, s.2)) -> ends (Audio.on_block m) s Q.
Proof.
  intros Hm HQ. destruct s as [t w]. specialize (Hm (Audio.block t)). unfold ends, Audio.on_block in *.
  by destruct (m (Audio.block t)) as [[a|f] c].
Qed.

Lemma crypt_range_ends off size (s : Audio.Transformer C * W) : off <= length (Audio.buffer s.1) ->
  ends (Audio.crypt_range off size) s (fun _ s' => same_length s.1 s'.1).
Proof.
  intros Hoff. destruct s as [t w]. unfold Audio.crypt_range. do 4 ends_step.
  apply on_block_ends; [apply crypt_returns|]. intros d c. do 2 ends_step. cbn [fst snd].
  unfold same_length. cbn [Audio.set_buffer Audio.set_block Audio.buffer]. by apply length_copy_at.
Qed.

Lemma write_frame_ends prefix missing d (s : Audio.Transformer C * W) :
  ends (Audio.write_frame prefix missing d) s (fun _ s' => same_length s.1 s'.1).
Proof. unfold Audio.write_frame. apply write_ends; auto. all: try done. apply _. Qed.

(** A loop that follows a plan takes bytes from the buffer in every round. *)
Lemma plan_halts chained prefix missing pl `{!Audio.PlanLaws chained pl} :
  halts (Audio.run_plan (C := C) (W := W) prefix missing pl).
Proof.
  intros s. unfold Audio.run_plan.
  change (ends (iter (length (Audio.buffer s.1) + 1) (Audio.plan_step prefix missing pl) tt) s (fun _ _ => True)).
  apply (ends_iter (fun _ _ => True) (fun _ s => length (Audio.buffer s.1))); [done|lia|].
  intros [] [t w] _. unfold Audio.plan_step. do 4 ends_step. cbn [fst snd]. set (p := pl _ _).
  apply (ends_weaken _ _ (fun _ s' => same_length t s'.1)).
  { unfold Audio.signal_setup. ends. }
  intros _ [t1 w1] R1. cbn [fst] in R1. destruct (Audio.p_kind p) as [|e|size reset off len] eqn:Ek; [by ends|by ends|].
  apply Audio.plan_frame in Ek as (Hsize & Hoff & _). ends_step. apply (ends_weaken _ _ (fun _ s' => same_length t s'.1)).
  { ends_step; [|exact R1]. apply on_block_ends; [apply reset_returns|]. intros _ c. exact R1. }
  intros _ [t2 w2] R2. cbn [fst] in R2. ends_step. apply (ends_weaken _ _ (fun _ s' => same_length t s'.1)).
  { ends_step; [|exact R2]. eapply ends_weaken; [apply crypt_range_ends; unfold same_length in R2; cbn [fst]; lia|].
    intros ? s3 R3. cbn [fst] in R3. by etransitivity. }
  intros _ [t3 w3] R3. cbn [fst] in R3. do 4 ends_step. eapply ends_weaken; [apply write_frame_ends|].
  intros ? [t4 w4] R4. cbn [fst snd] in R4. do 4 ends_step. cbn [fst snd Audio.set_buffer Audio.buffer].
  split; [done|]. unfold same_length in *. rewrite length_drop. lia.
Qed.

#[local] Existing Instances Aac.adts_plan_laws Ac3.ac3_plan_laws Eac3.eac3_plan_laws Audio.transformer_pes.

Lemma aac_frames_halt : halts (Aac.processFrames (C := C) (W := W)).
Proof. apply answers_halts. intros s. rewrite Aac.adts_processFrames_plan. apply halts_answers, (plan_halts false _ _ Aac.adts_plan). Qed.
Lemma ac3_frames_halt : halts (Ac3.processFrames (C := C) (W := W)).
Proof. apply answers_halts. intros s. rewrite Ac3.ac3_processFrames_plan. apply halts_answers, (plan_halts false _ _ Ac3.ac3_plan). Qed.
Lemma eac3_frames_halt : halts (Eac3.processFrames (C := C) (W := W)).
Proof. apply answers_halts. intros s. rewrite Eac3.eac3_processFrames_plan. apply halts_answers, (plan_halts true _ _ Eac3.eac3_plan). Qed.

Section Calls.
Context (prefix truncated : string) (frames : M (Audio.Transformer C * W) unit) (Hframes : halts frames).
#[local] Hint Resolve Hframes : halts.

Lemma finish_halts : halts (PesQueue.finishPES (T := Audio.Transformer C) (W := W)).
Proof. intros s. by eapply ends_weaken; [apply finish_ends|]. Qed.
#[local] Hint Resolve finish_halts : halts.

Lemma header_call_halts h : halts (Audio.header_call (C := C) (W := W) prefix h).
Proof. unfold Audio.header_call. ends. Qed.
Lemma payload_call_halts d : halts (Audio.payload_call prefix frames d).
Proof. unfold Audio.payload_call, PesQueue.update_pes. ends. Qed.
Lemma end_call_halts : halts (Audio.end_call (C := C) (W := W) prefix).
Proof. unfold Audio.end_call, PesQueue.update_pes. ends. Qed.
Lemma flush_call_halts : halts (Audio.flush_call prefix truncated frames).
Proof. unfold Audio.flush_call. ends. Qed.
End Calls.
End Audio.

(** ** The AVC transformer *)
Lemma append_step_shrinks z b data :
  let '(_, _, rest) := Ebsp.Append_step z (b :: data) in length rest <= length data.
Proof.
  assert (Hd : forall z0, let '(_, _, rest) :=
    (match Ebsp.bytes_Index (b :: data) [0; 0]%Z with
     | None => (b :: data, if (default 0 (list.last (b :: data)) =? 0)%Z then 1 else z0, [])
     | Some i => (take (i + 2) (b :: data), 2, drop (i + 2) (b :: data))
     end) in length rest <= length data).
  { intros z0. destruct (Ebsp.bytes_Index _ _) as [i|]; [rewrite length_drop|]; cbn [length]; lia. }
  unfold Ebsp.Append_step. destruct z as [|[|[|z]]]; [apply Hd| |done|apply Hd].
  destruct b; [done|apply (Hd 0)..].
Qed.

Lemma append_loop_answers n : forall z dst data, length data < n ->
  Ebsp.Append_loop n z dst data <> Fail OutOfFuel.
Proof.
  induction n as [|n IH]; intros z dst data Hn; [lia|]. destruct data as [|b data]; [done|].
  cbn [Ebsp.Append_loop]. pose proof (append_step_shrinks z b data) as Hs.
  destruct (Ebsp.Append_step z (b :: data)) as [[out z'] rest]. apply IH. cbn [length] in Hn. lia.
Qed.

Lemma append_halts dst data : halts (Ebsp.Append dst data).
Proof. unfold Ebsp.Append. ends. apply append_loop_answers. lia. Qed.

Section Avc.
Context {C W : Type} `{CryptorReturns C} `{PESHandler W} `{PMTSignal W}.
Hypothesis header_halts : forall h, halts (PESHeader (W := W) h).
Hypothesis payload_halts : forall d, halts (PESPayload (W := W) d).
Hypothesis end_halts : halts (PESEnd (W := W)).
Hypothesis signal_halts : forall p, halts (signal (W := W) p).
#[local] Hint Resolve header_halts payload_halts end_halts signal_halts : halts.
#[local] Existing Instance Avc.avc_pes.

(** Where the encryption pattern stands. *)
Definition same_pattern : relation (Avc.Transformer C) :=
  fun t t' => Avc.patternLen t' = Avc.patternLen t /\ Avc.skip t' = Avc.skip t.
#[local] Instance same_pattern_preorder : PreOrder same_pattern.
Proof. split; [done|]. intros t1 t2 t3 [E1 E1'] [E2 E2']. unfold same_pattern. split; congruence. Qed.

Lemma avc_write_ends d e (s : Avc.Transformer C * W) :
  ends (Avc.write d e) s (fun _ s' => same_pattern s.1 s'.1).
Proof.
  unfold Avc.write. apply write_ends; auto; [apply _|done|]. intros d' t. unfold Avc.encode. destruct e; [|by ends].
  pose proof (append_halts [] d' (Avc.escaper t)) as Ha. unfold ends in *.
  by destruct (Ebsp.Append [] d' (Avc.escaper t)) as [[a|f] e'].
Qed.

Lemma avc_write_halts d e : halts (Avc.write (C := C) (W := W) d e).
Proof. intros s. by eapply ends_weaken; [apply avc_write_ends|]. Qed.
#[local] Hint Resolve avc_write_halts : halts.

Lemma avc_block_halts {A} (m : M C A) : halts m -> halts (Avc.on_block (W := W) m).
Proof.
  intros Hm [t w]. unfold ends, Avc.on_block. destruct (Avc.block t) as [c|]; [|done]. specialize (Hm c).
  unfold ends in Hm. by destruct (m c) as [[a|f] c'].
Qed.

Lemma crypt_pattern_halts off : halts (Avc.crypt_pattern (C := C) (W := W) off).
Proof.
  unfold Avc.crypt_pattern. do 5 ends_step. apply ends_call; [apply avc_block_halts, crypt_returns|]. intros ? ?. ends.
Qed.
#[local] Hint Resolve crypt_pattern_halts : halts.

Lemma islands_halt d : halts (Avc.islands (C := C) (W := W) d).
Proof.
  intros s. unfold Avc.islands.
  apply (ends_iter (fun _ _ => True) (fun d s => 2 * length d + if Avc.patternLen s.1 =? Avc.avcBlockSize then 1 else 0));
    [done|destruct (_ =? _); lia|].
  intros d1 [t w] _. unfold Avc.island_step. destruct (decide (d1 = [])) as [->|Hd]; [by apply ends_ret|].
  assert (0 < length d1) as Hl by (destruct d1; [done|cbn; lia]).
  do 3 ends_step. cbn [fst snd]. destruct (Nat.ltb_spec 0 (Avc.skip t)) as [Hsk|Hsk].
  { ends_step. eapply ends_weaken; [apply avc_write_ends|]. intros ? [t1 w1] [E1 E2]. cbn [fst snd] in *.
    do 4 ends_step. cbn [fst snd Avc.set_skip Avc.patternLen]. split; [done|].
    rewrite length_drop. do 2 destruct (_ =? _); lia. }
  destruct (Nat.eqb_spec (Avc.patternLen t) Avc.avcBlockSize) as [Hp|Hp].
  { ends_step. apply ends_call; [apply crypt_pattern_halts|]. intros ? [t1 w1].
    do 4 ends_step. apply ends_call; [apply avc_write_halts|]. intros ? [t2 w2]. do 4 ends_step.
    cbn [fst snd Avc.set_skip Avc.set_pattern Avc.patternLen]. split; [done|]. change (0 =? Avc.avcBlockSize) with false. cbv iota. lia. }
  destruct (Nat.ltb_spec Avc.avcBlockSize (Avc.patternLen t)); [done|].
  do 4 ends_step. cbn [fst snd Avc.set_pattern Avc.patternLen]. split; [done|]. rewrite length_drop.
  destruct (_ =? _); lia.
Qed.
#[local] Hint Resolve islands_halt : halts.

Lemma writeNAL_halts d : halts (Avc.writeNAL (C := C) (W := W) d).
Proof.
  unfold Avc.writeNAL, Avc.probe. repeat first [ends_step
    | lazymatch goal with |- ends (Avc.on_block _) _ _ => apply ends_call; [apply avc_block_halts, reset_returns|intros ? ?] end
    | ends_call_step ]; done.
Qed.
#[local] Hint Resolve writeNAL_halts : halts.

Lemma zeros_halt (f : list Z -> M (Avc.Transformer C * W) unit) n : (forall d, halts (f d)) -> halts (Avc.zeros_loop f n).
Proof.
  intros Hf s. unfold Avc.zeros_loop. apply (ends_iter (fun _ _ => True) (fun n _ => n)); [done|lia|].
  intros k s' _. destruct (Nat.eqb_spec k 0); [done|]. ends_step. apply ends_call; [apply Hf|].
  intros ? ?. ends_step. split; [done|]. assert (0 < length Avc.zeroBytes) by (vm_compute; lia). lia.
Qed.

Lemma finish_open_halts : halts (Avc.finish_open (C := C) (W := W)).
Proof. unfold Avc.finish_open, Avc.finishNAL. ends. Qed.
#[local] Hint Resolve finish_open_halts : halts.

Lemma writeZeros_halts n e : halts (Avc.writeZeros (C := C) (W := W) n e).
Proof. apply zeros_halt. intros d. apply avc_write_halts. Qed.
Lemma writeNALZeros_halts n : halts (Avc.writeNALZeros (C := C) (W := W) n).
Proof. apply zeros_halt, writeNAL_halts. Qed.
#[local] Hint Resolve writeZeros_halts writeNALZeros_halts : halts.

Lemma beginNAL_halts : halts (Avc.beginNAL (C := C) (W := W)).
Proof. unfold Avc.beginNAL. ends. Qed.
#[local] Hint Resolve beginNAL_halts : halts.

Lemma payload_loop_halts d : halts (iter (length d + 1) (Avc.payload_step (C := C) (W := W)) d).
Proof.
  intros s. apply (ends_iter (fun _ _ => True) (fun d _ => length d)); [done|lia|].
  intros d1 s1 _. unfold Avc.payload_step. destruct (decide (d1 = [])) as [->|Hd]; [by apply ends_ret|].
  destruct (Ebsp.bytes_Index d1 Avc.annexBStartCode) as [i|]; [|by ends].
  assert (0 < length Avc.annexBStartCode) by (vm_compute; lia).
  ends; (split; [done|]; rewrite length_drop; destruct d1; [done|cbn [length]; lia]).
Qed.
#[local] Hint Resolve payload_loop_halts : halts.

Lemma avc_finish_halts : halts (PesQueue.finishPES (T := Avc.Transformer C) (W := W)).
Proof. intros s. by eapply ends_weaken; [apply finish_ends|]. Qed.
#[local] Hint Resolve avc_finish_halts : halts.

Lemma avc_new_halts (c : option C) : halts (Avc.NewTransformer (W := W) c).
Proof. unfold Avc.NewTransformer. ends. Qed.
Lemma avc_header_halts h : halts (Avc.PESHeader (C := C) (W := W) h).
Proof. unfold Avc.PESHeader. ends. Qed.
Lemma avc_payload_halts d : halts (Avc.PESPayload (C := C) (W := W) d).
Proof. unfold Avc.PESPayload, Avc.resolve_zeros, PesQueue.update_pes. ends. Qed.
Lemma avc_end_halts : halts (Avc.PESEnd (C := C) (W := W)).
Proof. unfold Avc.PESEnd, PesQueue.update_pes. ends. Qed.
Lemma avc_flush_halts : halts (Avc.Flush (C := C) (W := W)).
Proof. unfold Avc.Flush. ends. Qed.
End Avc.
