(* ===== verification/StreamHalts.v ===== *)
(** * The streams end

    The PES collector, the packetizer, the aligner, the media streams and the PMT
    transformer end whatever they are given, with the calculus of [Halts].  Only
    the collector needs an invariant: a header that is not complete still misses
    bytes, so that every round of its loop takes some. *)

From S2P Require Import Prelude CommitQueue SampleAes Packet Astikit PacketCodec Pmt Tables Psi Halts.
From S2P Require PesHandler PesCollector Packetizer Output Audio Aac Ac3 Eac3 Avc MediaStream PsiCollector PmtTransformer.

(** ** The packetizer *)
Section Packetizer.
Import Packetizer.

Lemma size_answers f : AdaptationFieldSizeWithoutStuffing f <> Fail OutOfFuel.
Proof. destruct f as [f|]; [|done]. by apply bind_answers; [apply length_answers|]. Qed.

Lemma stuffing_answers n : NewStuffingAdaptationField n <> Fail OutOfFuel.
Proof. unfold NewStuffingAdaptationField. answers. Qed.

Lemma with_size_answers f n : AdaptationFieldWithSize f n <> Fail OutOfFuel.
Proof.
  destruct f as [f|]; [|apply stuffing_answers]. apply bind_answers; [apply size_answers|]. intros m. answers.
Qed.

Lemma capacity_answers a : payloadCapacity a <> Fail OutOfFuel.
Proof. destruct a as [a|]; [|done]. apply bind_answers; [apply size_answers|]. intros m. answers. Qed.

Lemma flush_payload_ends w : ends flushPayloadPacket w (fun _ w' => payloadLen (current w') = 0).
Proof. unfold flushPayloadPacket. ends. destruct (adaptation _); [apply with_size_answers|apply stuffing_answers]. Qed.
Lemma flush_payload_halts : halts flushPayloadPacket.
Proof. intros w. by eapply ends_weaken; [apply flush_payload_ends|]. Qed.
#[local] Hint Resolve flush_payload_halts : halts.

Lemma adaptation_only_halts f : halts (writeAdaptationOnly f).
Proof. unfold writeAdaptationOnly. ends. apply with_size_answers. Qed.
#[local] Hint Resolve adaptation_only_halts : halts.

Lemma write_pes_halts d : halts (writePESBytes d).
Proof.
  intros w. unfold writePESBytes.
  apply (ends_iter (fun _ _ => True) (fun d w => 2 * length d + if payloadLen (current w) =? 0 then 0 else 1));
    [done|destruct (_ =? _); lia|].
  intros d1 w1 _. unfold writePESBytes_step. destruct (decide (d1 = [])) as [->|Hd]; [by apply ends_ret|].
  assert (0 < length d1) as Hl by (destruct d1; [done|cbn; lia]).
  do 5 ends_step; [apply capacity_answers|]. do 2 ends_step. destruct (Nat.eqb_spec a 0) as [|Ha]; [done|].
  destruct (Nat.eqb_spec (payloadLen (current w1)) a) as [Hp|Hp].
  { ends_step. eapply ends_weaken; [apply flush_payload_ends|]. intros ? w2 E2. cbv beta in E2. ends_step. split; [done|].
    rewrite E2. cbn [Nat.eqb]. destruct (Nat.eqb_spec (payloadLen (current w1)) 0); lia. }
  destruct (Nat.ltb_spec a (payloadLen (current w1))); [done|].
  set (n := min _ _). assert (0 < n /\ n <= length d1) as [Hn Hn'] by (subst n; lia).
  do 5 ends_step. apply ends_call; [intros ?; ends|]. intros _ w2. ends_step. split; [done|].
  rewrite length_drop. do 2 destruct (_ =? 0); lia.
Qed.
#[local] Hint Resolve write_pes_halts : halts.

Lemma begin_pes_halts h : halts (BeginPES h).
Proof. unfold BeginPES. ends. Qed.
Lemma write_payload_halts d : halts (WritePESPayload d).
Proof. unfold WritePESPayload. ends. Qed.
Lemma end_pes_halts : halts EndPES.
Proof. unfold EndPES, flushPendingAdaptationOnly. ends. Qed.
Lemma next_field_halts f : halts (SetNextPacketAdaptationField f).
Proof.
  unfold SetNextPacketAdaptationField, flushPendingAdaptationOnly.
  pose proof (capacity_answers f). ends; answers.
Qed.
Lemma write_only_halts f : halts (WriteAdaptationOnly f).
Proof. unfold WriteAdaptationOnly, flushPendingAdaptationOnly. ends. Qed.
Lemma packetizer_flush_halts : halts Flush.
Proof. unfold Flush, flushPendingAdaptationOnly. ends. Qed.
End Packetizer.
#[export] Hint Resolve begin_pes_halts write_payload_halts end_pes_halts next_field_halts write_only_halts packetizer_flush_halts : halts.

(** ** The aligner *)
Section Aligner.
Import Output.

Lemma on_packetizer_halts {A} (m : M Packetizer.TSPacketizer A) : halts m -> halts (on_packetizer m).
Proof.
  intros Hm a. specialize (Hm (packetizer a)). unfold ends, on_packetizer in *.
  by destruct (m (packetizer a)) as [[x|f] w].
Qed.
#[local] Hint Extern 1 (halts (on_packetizer _)) => apply on_packetizer_halts : halts.

Lemma take_packets_halts : halts Packetizer.TakePackets.
Proof. unfold Packetizer.TakePackets. ends. Qed.
Lemma set_counter_halts c : halts (Packetizer.SetContinuityCounter c).
Proof. intros w. by apply ends_modify. Qed.
#[local] Hint Resolve take_packets_halts set_counter_halts : halts.

Lemma register_halts t p : halts (registerInputPacket t p).
Proof. unfold registerInputPacket. ends. Qed.

Lemma replay_halts e : halts (replay e).
Proof. unfold replay. ends. Qed.
#[local] Hint Resolve replay_halts : halts.

Lemma aligner_header_halts h : halts (PESHeader h).
Proof. unfold PESHeader. ends. Qed.
Lemma aligner_payload_halts d : halts (PESPayload d).
Proof. unfold PESPayload. ends. Qed.
Lemma aligner_end_halts : halts PESEnd.
Proof. unfold PESEnd. ends. Qed.

Lemma align_halts : halts align.
Proof. unfold align. ends. Qed.
#[local] Hint Resolve align_halts : halts.
Lemma aligner_flush_halts : halts flush.
Proof. unfold flush. ends. Qed.
End Aligner.
#[export] Hint Resolve register_halts aligner_header_halts aligner_payload_halts aligner_end_halts align_halts aligner_flush_halts : halts.

(** ** The collector *)
Section Collector.
Import PesHandler PesCollector.
Context {W : Type} `{PESHandler W}.
Hypothesis header_halts : forall h, halts (PESHeader (W := W) h).
Hypothesis payload_halts : forall d, halts (PESPayload (W := W) d).
Hypothesis end_halts : halts (PESEnd (W := W)).
#[local] Hint Resolve header_halts payload_halts end_halts : halts.

(** The header misses bytes until its length is known. *)
Definition collecting (m : PESCollector) : Prop := headerLength m = 0 -> length (header m) < 9.

Lemma header_round d m : collecting m -> d <> [] -> header_complete m = false ->
  ends (consumeHeader d) m (fun n m' => 0 < n /\ n <= length d /\ collecting m').
Proof.
  intros Hm Hd Hc. assert (0 < length d) as Hl by (destruct d; [done|cbn; lia]).
  unfold header_complete in Hc. unfold consumeHeader. do 2 ends_step.
  set (needed := if 0 <? headerLength m then headerLength m else 9). set (n := min _ _).
  assert (length (header m) < needed) as Hn.
  { subst needed. unfold collecting in Hm. destruct (Nat.eqb_spec (headerLength m) 0) as [E|E].
    - rewrite E. by apply Hm.
    - destruct (Nat.ltb_spec (length (header m)) (headerLength m)); [|done].
      by destruct (Nat.ltb_spec 0 (headerLength m)); [|lia]. }
  assert (0 < n /\ n <= length d) as [H0n Hnd] by (subst n; lia).
  do 6 ends_step. cbn [set_header header headerLength].
  destruct (Nat.ltb_spec (length (header m ++ take n d)) 9) as [H9|H9].
  { ends_step. split_and!; [done..|by intros _]. }
  assert (forall h r, collecting {| active := active m; header := header m ++ take n d;
    headerLength := header_length h; payloadRemaining := r |}) as Hk by (intros h r; unfold collecting, header_length; cbn; lia).
  destruct (Nat.eqb_spec (headerLength m) 0) as [E|E].
  - ends_step. ends_step. destruct (_ =? 0)%Z; repeat ends_step; (split_and!; [done..|apply Hk]).
  - ends_step. split_and!; [done..|by intros ?%E].
Qed.

Lemma finish_collecting (s : PESCollector * W) : ends finish s (fun _ s' => s'.1 = idle).
Proof. unfold finish. ends. Qed.

Lemma collect_round d (s : PESCollector * W) : collecting s.1 ->
  ends (consume_step d) s (fun r s' => collecting s'.1 /\ match r with inl d' => length d' < length d | inr _ => True end).
Proof.
  intros Hs. unfold consume_step. destruct (decide (d = [])) as [->|Hd]; [by apply ends_ret|].
  assert (0 < length d) as Hl by (destruct d; [done|cbn; lia]).
  assert (collecting idle) as Hi by (unfold collecting; cbn; lia).
  do 5 ends_step. destruct (header_complete s.1) eqn:Hc; cbn [negb].
  - do 2 ends_step. match goal with H : (_ =? 0) = false |- _ => apply Nat.eqb_neq in H end.
    do 2 ends_step. apply ends_call; [apply payload_halts|]. intros _ w1. ends_step.
    eapply (ends_weaken _ _ (fun _ s' => collecting s'.1)); [|intros _ s2 H2; ends_step; split; [done|rewrite length_drop; lia]].
    ends_step; [|done]. do 4 ends_step; [|done]. eapply ends_weaken; [apply finish_collecting|]. intros ? ? ->. done.
  - do 2 ends_step. eapply ends_weaken; [by apply header_round|]. intros n m1 (Hn & Hn' & Hm1).
    do 3 ends_step. cbn [fst snd]. assert (length (drop n d) < length d) as Hd' by (rewrite length_drop; lia).
    destruct (header_complete m1); cbn [negb]; [|by destruct (decide (drop n d = [])); ends_step].
    do 2 ends_step. apply ends_call; [apply header_halts|]. intros _ w1. ends_step.
    eapply (ends_weaken _ _ (fun _ s' => collecting s'.1)); [|intros _ s2 H2; by ends_step].
    ends_step; [|done]. eapply ends_weaken; [apply finish_collecting|]. intros ? ? ->. done.
Qed.

Lemma collect_ends pusi d (s : PESCollector * W) : collecting s.1 ->
  ends (Consume pusi d) s (fun _ s' => collecting s'.1).
Proof.
  intros Hs. unfold Consume. ends_step. apply (ends_weaken _ _ (fun _ s' => collecting s'.1)).
  { ends_step; [|done]. do 4 ends_step. apply ends_call; [|intros ? ?; unfold start; do 2 ends_step; unfold collecting; cbn; lia].
    intros s'. ends_step; [|done]. eapply ends_weaken; [apply finish_collecting|done]. }
  intros ? s1 Hs1. do 3 ends_step. destruct (active s1.1); [|done].
  apply (ends_iter (fun _ s' => collecting s'.1) (fun d _ => length d)); [done|lia|].
  intros d1 s2 Hs2. eapply ends_weaken; [by apply collect_round|]. by intros [d2|[]] s3 [? ?].
Qed.

Lemma collect_flush_ends (s : PESCollector * W) : collecting s.1 -> ends Flush s (fun _ s' => collecting s'.1).
Proof.
  intros Hs. unfold Flush. repeat ends_step; [|done].
  eapply ends_weaken; [apply finish_collecting|]. intros ? ? ->. unfold collecting. cbn. lia.
Qed.
End Collector.

(** ** The transformers behind their interface *)
Section Media.
Import PesHandler MediaStream.
Context {C X : Type} `{CryptorReturns C} `{PESHandler X} `{PMTSignal X}.
Hypothesis header_halts : forall h, halts (PESHeader (W := X) h).
Hypothesis payload_halts : forall d, halts (PESPayload (W := X) d).
Hypothesis end_halts : halts (PESEnd (W := X)).
Hypothesis signal_halts : forall p, halts (signal (W := X) p).

Lemma media_call_ends {T A} (mk : T -> MediaTransformer C) (m : M (T * X) A) t x : halts m ->
  match call mk m t x with (Ok _, _) => True | (Fail f, _) => f <> OutOfFuel end.
Proof. intros Hm. specialize (Hm (t, x)). unfold ends, call in *. by destruct (m (t, x)) as [[a|f] [t' x']]. Qed.

Lemma media_header_halts h : halts (media_PESHeader (C := C) (X := X) h).
Proof.
  intros [[t|t|t|t] x]; apply media_call_ends; [by apply avc_header_halts|..]; apply header_call_halts.
Qed.

Lemma media_payload_halts d : halts (media_PESPayload (C := C) (X := X) d).
Proof.
  intros [[t|t|t|t] x]; apply media_call_ends; [by apply avc_payload_halts|..]; apply payload_call_halts;
    [by apply aac_frames_halt|by apply ac3_frames_halt|by apply eac3_frames_halt].
Qed.

Lemma media_end_halts : halts (media_PESEnd (C := C) (X := X)).
Proof. intros [[t|t|t|t] x]; apply media_call_ends; [by apply avc_end_halts|..]; by apply end_call_halts. Qed.

Lemma media_flush_halts : halts (media_Flush (C := C) (X := X)).
Proof.
  intros [[t|t|t|t] x]; apply media_call_ends; [by apply avc_flush_halts|..]; apply (flush_call_halts header_halts end_halts);
    [by apply aac_frames_halt|by apply ac3_frames_halt|by apply eac3_frames_halt].
Qed.
End Media.

(** ** Media streams *)
Section Stream.
Import PesHandler MediaStream.
Context (aes : list Z -> list Z -> list Z) {E : Type} (Signal : Z -> Patch -> M E unit).
Hypothesis Signal_halts : forall id p, halts (Signal id p).
#[local] Instance blocks : BlockCryptor CBCEncryptor := stream_cryptor aes.
#[local] Instance blocks_return : CryptorReturns CBCEncryptor := cbc_returns aes.
#[local] Existing Instance sink_handler.
#[local] Existing Instance sink_signal.

Definition collecting_stream (s : mediaStream) : Prop := collecting (pes s).

Lemma encryptor_answers cfg : NewCBCEncryptor cfg <> Fail OutOfFuel.
Proof. unfold NewCBCEncryptor. cbv zeta. by destruct (_ <? _). Qed.

Lemma behind_halts {T A} (m : M T A) : halts m -> halts (on_fst (W := E) m).
Proof. intros Hm s. apply ends_fst, ends_call; [done|done]. Qed.

Lemma signal_call_halts id p : halts (signal (W := Output.outputAligner * E) (PMTSignal := sink_signal Signal id) p).
Proof. intros s. apply ends_snd, ends_call; [apply Signal_halts|done]. Qed.

Lemma new_transformer_halts id t cfg : halts (NewTransformer Signal id t cfg).
Proof.
  intros s. unfold NewTransformer. cbv zeta.
  repeat (match goal with |- ends (if ?b then _ else _) _ _ => destruct b end; [do 2 ends_step; [apply encryptor_answers|]|]); [|by repeat ends_step..].
  ends_step. apply ends_call; [|by intros]. unfold Avc.NewTransformer.
  repeat ends_step; try done. apply ends_call; [apply signal_call_halts|by intros].
Qed.

(** A call on the pipeline, with what it keeps of the collector. *)
Lemma on_pipeline_ends {A} (P : PesCollector.PESCollector -> Prop)
    (m : M (PesCollector.PESCollector * (MediaTransformer CBCEncryptor * (Output.outputAligner * E))) A) s :
  ends m (pes s.1, (transformer s.1, (sink s.1, s.2))) (fun _ x => P x.1) ->
  ends (on_pipeline m) s (fun _ s' => P (pes s'.1)).
Proof. destruct s as [s e]. unfold ends, on_pipeline. cbn. by destruct (m _) as [[a|f] [c [t [al e']]]]. Qed.

Lemma on_sink_ends {A} (P : PesCollector.PESCollector -> Prop) (m : M Output.outputAligner A) s : halts m -> P (pes s.1) ->
  ends (on_sink (E := E) m) s (fun _ s' => P (pes s'.1)).
Proof. intros Hm Hs. apply on_pipeline_ends. do 3 ends_step. by apply ends_call. Qed.

Ltac pipeline := intros; first [apply media_header_halts|apply media_payload_halts|apply media_end_halts|apply media_flush_halts];
  intros; try apply behind_halts; auto with halts; apply signal_call_halts.

Lemma stream_consume_ends token p s : collecting_stream s.1 ->
  ends (stream_Consume aes Signal token p) s (fun _ s' => collecting_stream s'.1).
Proof.
  intros Hs. unfold stream_Consume. do 6 ends_step. eapply ends_weaken; [by apply on_sink_ends; [apply register_halts|]|].
  intros ? s1 Hs1. ends_step. eapply (ends_weaken _ _ (fun _ s' => collecting_stream s'.1)).
  - apply (on_pipeline_ends collecting), collect_ends; [pipeline..|done].
  - intros ? s2 Hs2. by apply on_sink_ends; [apply align_halts|].
Qed.

Lemma stream_flush_ends s : collecting_stream s.1 ->
  ends (stream_Flush aes Signal) s (fun _ s' => collecting_stream s'.1).
Proof.
  intros Hs. unfold stream_Flush. do 5 ends_step. eapply (ends_weaken _ _ (fun _ s' => collecting_stream s'.1)).
  { apply (on_pipeline_ends collecting), collect_flush_ends; [pipeline|done]. }
  intros ? s1 Hs1. eapply (ends_weaken _ _ (fun _ s' => collecting_stream s'.1)).
  { apply (on_pipeline_ends collecting), ends_snd, ends_call; [pipeline|by intros]. }
  intros ? s2 Hs2. by apply on_sink_ends; [apply aligner_flush_halts|].
Qed.
End Stream.

(** ** The PMT transformer *)
Section Pmt.
Import PmtTransformer.
Context {B : Type} `{WriterReturns B} `{!BufferWriter B}.

Lemma marshal_answers s : MarshalPSISection (W := B) s <> Fail OutOfFuel.
Proof.
  unfold MarshalPSISection. pose proof (halts_psi_section (W := B) s NewBufferWriter) as Hs.
  apply (ends_wrap "astits: marshaling PSI section") in Hs. unfold ends in Hs.
  destruct (wrap_err _ _ _) as [[a|f] w]; [done|]. intros E. by injection E as ->.
Qed.

Lemma packetize_answers p s : PacketizePSISection (W := B) p s <> Fail OutOfFuel.
Proof.
  unfold PacketizePSISection. apply bind_answers; [apply marshal_answers|]. intros encoded. cbv zeta.
  destruct (_ <? _)%nat; [|done]. apply bind_answers; [apply size_answers|]. intros n. destruct (_ <? _)%Z; [done|].
  apply bind_answers; [|done]. destruct (_ =? _)%Z; [done|]. apply bind_answers; [apply with_size_answers|done].
Qed.

Section Complete.
Context {A : Type} (complete : Output.completedSlot -> M A unit).
Hypothesis complete_halts : forall slot, halts (complete slot).

(** Completing PMTs leaves the collector alone. *)
Definition same_collector : relation (pmtTransformer * A) := fun s s' => collector s'.1 = collector s.1.

Lemma complete_one_ends i s : ends (complete_one B complete i) s (fun _ => same_collector s).
Proof.
  unfold complete_one. repeat ends_step; try (apply ends_call; [apply complete_halts|done]).
  apply packetize_answers.
Qed.

Lemma complete_ready_ends s : ends (completeReady B complete) s (fun _ => same_collector s).
Proof.
  unfold completeReady. do 4 ends_step; [by repeat ends_step|]. ends_step.
  eapply ends_weaken; [apply (ends_for_each _ _ _ (same_collector s))|]; [done| |].
  - intros i s1 _ H1. eapply ends_weaken; [apply complete_one_ends|]. intros ? s2 H2. unfold same_collector in *. congruence.
  - intros ? s1 H1. by repeat ends_step.
Qed.

Lemma signal_ends id p s : ends (Signal B complete id p) s (fun _ => same_collector s).
Proof. unfold Signal. do 3 ends_step. exact (complete_ready_ends (set_patches _ s.1, s.2)). Qed.

Lemma pmt_flush_ends s : ends (pmtTransformer_Flush (A := A)) s (fun _ => same_collector s).
Proof. unfold pmtTransformer_Flush. by repeat ends_step. Qed.
End Complete.
End Pmt.
