(* ===== verification/Termination.v ===== *)
(** * [Encrypt] ends

    On an input that can be read only so many times - a file, a connection that
    closes or fails, a context that is cancelled - [Encrypt] returns: none of its
    loops, from the demuxer to the codecs, runs forever, whatever the bytes are.
    The remuxer keeps the invariants that the loops need: the PSI collectors hold
    bytes, and no PES collector holds a header that misses nothing. *)

From S2P Require Import Prelude CommitQueue SampleAes Packet Astikit PacketCodec Pmt PesHandler Tables Psi PsiCollector Output PmtTransformer MediaStream Demuxer Remuxer Safety PsiSpec Effects Halts StreamHalts Sample.
From S2P Require Aac.

(** ** The input *)

(** A reader of bytes that delivers only so many blocks before it ends or fails,
    and a context that can be asked: whether it fails, and how, is open. *)
Class FiniteInput (R : Type) `{Input R} := {
  input_ok : R -> Prop;
  left : R -> nat;
  read_full r n : input_ok r -> 0 < n ->
    let '(o, r') := ReadFull n r in
    input_ok r' /\ match o with
      | Ok bs => left r' < left r /\ bytes_ok bs /\ length bs = n
      | Fail f => f <> OutOfFuel
      end;
  ctx_err r : input_ok r ->
    let '(o, r') := ctx_Err r in
    input_ok r' /\ match o with Ok _ => left r' <= left r | Fail f => f <> OutOfFuel end;
}.

(** ** The PSI collectors *)
Section Psi.
Context (I : Type) `{BytesIteratorLaws I}.

Definition holds_bytes (c : SectionCollector) : Prop := bytes_ok (sections c).

Lemma clean_ends {A} (m : M SectionCollector A) c : clean_step (m c) -> ends m c (fun _ => holds_bytes).
Proof.
  unfold clean_step, ends. destruct (m c) as [[a|f] c']; intros [Hf Hc]; [done|]. by intros ->.
Qed.

Lemma pat_consume_ends pusi d c : holds_bytes c -> bytes_ok d -> ends (pat_Consume I pusi d) c (fun _ => holds_bytes).
Proof. intros Hc Hd. by apply clean_ends, (collect_clean I c pusi d). Qed.

Lemma pmt_consume_ends pusi d c : holds_bytes c -> bytes_ok d -> ends (pmt_Consume I pusi d) c (fun _ => holds_bytes).
Proof. intros Hc Hd. by apply clean_ends, (collect_clean I c pusi d). Qed.

Lemma on_collector_ends {A} (m : M PMTCollector A) (t : pmtTransformer) :
  ends m (collector t) (fun _ => holds_bytes) -> ends (on_collector m) t (fun _ t' => holds_bytes (collector t')).
Proof. unfold ends, on_collector. by destruct (m (collector t)) as [[a|f] c]. Qed.

Lemma collect_pmt_ends p (t : pmtTransformer) : holds_bytes (collector t) -> bytes_ok (Payload p) ->
  ends (collectPMT I p) t (fun _ t' => holds_bytes (collector t')).
Proof.
  intros Ht Hp. unfold collectPMT, index, subslice. repeat ends_step; try done.
  by apply on_collector_ends, pmt_consume_ends.
Qed.

Lemma transformer_consume_ends {B A} `{WriterReturns B} `{!BufferWriter B} (complete : completedSlot -> M A unit)
    (Hc : forall slot, halts (complete slot)) token p s :
  holds_bytes (collector s.1) -> bytes_ok (Payload p) ->
  ends (pmtTransformer_Consume I B complete token p) s (fun _ s' => holds_bytes (collector s'.1)).
Proof.
  intros Hs Hp. unfold pmtTransformer_Consume. do 2 ends_step. eapply ends_weaken; [by apply collect_pmt_ends|].
  intros found t Ht. destruct found as [section|].
  - do 13 ends_step. unfold init_patches. eapply ends_weaken; [by apply complete_ready_ends|].
    intros ? s' Hs'. ends_step. rewrite Hs'. cbn. by destruct (initialized t).
  - do 2 ends_step. apply ends_call; [apply Hc|]. intros ? ?. by ends_step.
Qed.
End Psi.

(** ** The remuxer *)
Section Remuxer.
Context (I B : Type) `{BytesIteratorLaws I} `{WriterReturns B} `{!BufferWriter B} {W : Type} `{WriterReturns W}.
Context (aes : list Z -> list Z -> list Z) (order : list Z -> list Z).

(** What the calls on what the streams share leave alone. *)
Definition shared_same : relation (shared (W := W)) := same_collector.
#[local] Instance shared_same_preorder : PreOrder shared_same.
Proof. split; [done|]. intros x y z. unfold shared_same, same_collector. congruence. Qed.

Lemma shared_signal_ends id p s : ends (shared_Signal B id p) s (fun _ => shared_same s).
Proof. apply signal_ends. intros slot. apply halts_commit. Qed.

Lemma shared_signal_halts id p : halts (shared_Signal (W := W) B id p).
Proof. intros s. by eapply ends_weaken; [apply shared_signal_ends|]. Qed.

Lemma shared_signal_respects id p : respects shared_same (shared_Signal B id p).
Proof. intros s u s' E. pose proof (shared_signal_ends id p s) as Hs. unfold ends in Hs. by rewrite E in Hs. Qed.

(** The invariant. *)
Record steady (r : remuxer (W := W)) : Prop := {
  steady_pat : holds_bytes (pat r);
  steady_pmt : holds_bytes (collector (shared_parts r).1);
  steady_streams id s : streams r ≫= (.!! id) = Some s -> collecting_stream s;
}.

Lemma steady_shared {A} (m : M shared A) r (Q : A -> Prop) : steady r ->
  ends m (shared_parts r) (fun a x => Q a /\ holds_bytes (collector x.1)) ->
  ends (on_shared m) r (fun a r' => Q a /\ steady r').
Proof.
  intros [Hp Hm Hs]. unfold ends, on_shared. destruct (m (shared_parts r)) as [[a|f] x]; [|done].
  intros [Ha Hx]. by split.
Qed.

Lemma steady_output {A} (m : M outputAssembler A) r : steady r -> halts m -> ends (on_output m) r (fun _ => steady).
Proof.
  intros Hr Hm. eapply ends_weaken; [apply (steady_shared _ _ (fun _ => True)); [done|]|by intros ? ? [_ ?]].
  apply ends_snd, ends_call; [done|]. intros. by split; [|apply steady_pmt].
Qed.

Lemma steady_commit l r : steady r -> ends (commit l) r (fun _ => steady).
Proof. intros Hr. apply ends_for_each; [done|]. intros slot r' _ Hr'. apply steady_output; [done|apply halts_commit]. Qed.

Lemma steady_original t p r : steady r -> ends (on_output (CommitOriginal t p)) r (fun _ => steady).
Proof. intros Hr. apply steady_output; [done|apply halts_commit]. Qed.

Lemma insert_stream (m : option (gmap Z mediaStream)) id s j t :
  Some (<[id := s]> (default ∅ m)) ≫= (.!! j) = Some t -> t = s \/ m ≫= (.!! j) = Some t.
Proof.
  cbn. destruct (decide (j = id)) as [->|Hne]; [|rewrite (lookup_insert_ne (M := gmap Z)) by done].
  - rewrite (lookup_insert_eq (M := gmap Z)). intros [= <-]. by left.
  - intros E. right. destruct m; [done|]. discriminate (eq_trans (eq_sym E) (lookup_empty j)).
Qed.

(** A method of a media stream. *)
Lemma steady_stream {A} id (m : M (mediaStream * shared) A) r : steady r -> keeps shared_same m ->
  (forall s, collecting_stream s.1 -> ends m s (fun _ s' => collecting_stream s'.1)) ->
  ends (on_stream id m) r (fun _ => steady).
Proof.
  intros [Hp Hc Hs] Hk Hm. unfold ends, on_stream. destruct (streams r ≫= (.!! id)) as [s|] eqn:Es; [|done].
  specialize (Hm (s, shared_parts r) (Hs id s Es)). unfold ends in Hm.
  destruct (m (s, shared_parts r)) as [[a|f] [s' x]] eqn:E; [|done]. apply Hk in E. split; [done| |].
  - change (holds_bytes (collector x.1)). unfold shared_same, same_collector in E. by rewrite E.
  - intros j t Hj. by apply insert_stream in Hj as [->|Hj]; [|apply (Hs j)].
Qed.

Lemma steady_create types id r : steady r -> ends (create_stream B types id) r (fun _ => steady).
Proof.
  intros [Hp Hc Hs]. unfold create_stream. do 4 ends_step. apply (ends_weaken _ _ (fun _ => steady)).
  - unfold ends. pose proof (keeps_new_transformer _ shared_same shared_signal_respects id a (cfg r) (newOutputAligner id) (shared_parts r)) as Hk.
    pose proof (new_transformer_halts _ shared_signal_halts id a (cfg r) (newOutputAligner id, shared_parts r)) as Hn.
    unfold ends in Hn. destruct (NewTransformer _ _ _ _ _) as [[t|f] [al x]]; [|done].
    split; [done| |done]. change (holds_bytes (collector x.1)). specialize (Hk _ _ _ eq_refl).
    unfold shared_same, same_collector in Hk. by rewrite Hk.
  - intros [sink media] r1 [Hp1 Hc1 Hs1]. ends_step. split; [done..|]. intros j t Hj.
    apply insert_stream in Hj as [->|Hj]; [|by apply (Hs1 j)]. intros _. cbn. lia.
Qed.

Lemma steady_update l r : steady r -> ends (updateMediaStreams B order l) r (fun _ => steady).
Proof.
  intros Hr. unfold updateMediaStreams. do 2 ends_step. destruct (streams r); [by ends_step|]. do 2 ends_step.
  apply ends_for_each; [|intros id r1 _ Hr1; by apply steady_create]. destruct Hr as [Hp Hc _]. split; [done..|].
  intros j t Hj. discriminate (eq_trans (eq_sym Hj) (lookup_empty j)).
Qed.

Lemma steady_PAT t p r : steady r -> bytes_ok (Payload p) -> ends (route_PAT I t p) r (fun _ => steady).
Proof.
  intros [Hp Hc Hs] Hb. unfold route_PAT. do 2 ends_step. apply (ends_weaken _ _ (fun _ => steady)).
  { pose proof (pat_consume_ends I (PayloadUnitStartIndicator (Header p)) (Payload p) (pat r) Hp Hb) as He.
    unfold ends, on_pat in *. by destruct (pat_Consume _ _ _ _) as [[a|f] c]. }
  intros found r1 Hr1. ends_step. apply (ends_weaken _ _ (fun _ => steady)); [|intros; by apply steady_original].
  destruct found; ends_step; [|done]. by destruct Hr1.
Qed.

Lemma steady_PMT t p r : steady r -> bytes_ok (Payload p) -> ends (route_PMT I B order t p) r (fun _ => steady).
Proof.
  intros Hr Hb. unfold route_PMT. do 2 ends_step. eapply ends_weaken; [apply (steady_shared _ _ (fun _ => True)); [done|]|].
  - eapply ends_weaken; [apply transformer_consume_ends; [apply _..|apply halts_commit|by apply steady_pmt|done]|by split].
  - intros l r1 [_ Hr1]. ends_step; [by apply steady_update|done].
Qed.

Lemma steady_media s id t p r : steady r -> ends (route_media B aes s id t p) r (fun _ => steady).
Proof.
  intros Hr. unfold route_media. destruct (_ && _); [by apply steady_original|]. do 2 ends_step.
  eapply ends_weaken; [apply steady_stream; [done|..]|intros; by apply steady_commit].
  - apply keeps_stream_Consume; [apply _|apply shared_signal_respects].
  - intros. apply stream_consume_ends; [apply shared_signal_halts|done].
Qed.

Lemma consume_ends p r : steady r -> bytes_ok (Payload p) ->
  ends (remuxer_Consume I B aes order p) r (fun _ => steady).
Proof.
  intros Hr Hb. unfold remuxer_Consume. ends_step. eapply ends_weaken; [apply steady_output; [done|]|].
  { intros o. apply ends_fst, ends_call; [|done]. unfold CommitQueue.Reserve. ends. }
  intros t r1 Hr1. do 2 ends_step. destruct (_ =? _)%Z; [by apply steady_PAT|].
  destruct (_ =? _)%Z; [by apply steady_PMT|]. destruct (streams r1 ≫= _); [by apply steady_media|by apply steady_original].
Qed.

Lemma flush_ends r : steady r -> ends (remuxer_Flush B aes order) r (fun _ _ => True).
Proof.
  intros Hr. unfold remuxer_Flush. do 3 ends_step. eapply ends_weaken; [apply (ends_for_each _ _ _ steady); [done|]|].
  - intros id r1 _ Hr1. unfold flush_stream. do 2 ends_step. eapply ends_weaken; [apply steady_stream; [done|..]|].
    + apply keeps_stream_Flush; [apply _|apply shared_signal_respects].
    + intros. apply stream_flush_ends; [apply shared_signal_halts|done].
    + intros. by apply steady_commit.
  - intros ? r1 Hr1. do 2 ends_step. eapply ends_weaken; [apply (steady_shared _ _ (fun _ => True)); [done|]|].
    + eapply ends_weaken; [apply pmt_flush_ends|]. intros ? x Hx. split; [done|].
      unfold same_collector in Hx. rewrite Hx. by apply steady_pmt.
    + intros ? r2 [_ Hr2]. eapply ends_weaken; [apply steady_output; [done|apply halts_assembler_flush]|done].
Qed.

Lemma new_steady w encrypted c : steady (newRemuxer w encrypted c).
Proof. split; [constructor..|done]. Qed.

(** ** The loop over the packets *)
Context {R : Type} `{FiniteInput R}.

(** What a step of the input leaves, when a packet is delivered and when not. *)
Definition delivered {A} (x : R) (P : A -> Prop) (y : outcome A * R) : Prop :=
  input_ok y.2 /\ match y.1 with Ok a => left y.2 < left x /\ P a | Fail f => f <> OutOfFuel end.

Lemma parsed_packet bs : bytes_ok bs -> length bs = 188 ->
  match parse_buffer I None bs with
  | Ok p => bytes_ok (Payload p)
  | Fail (Err e) => e <> errSkippedPacket
  | Fail f => f <> OutOfFuel
  end.
Proof.
  intros Hb Hl. unfold parse_buffer.
  pose proof (safe_packet bs Hb None 0%Z ltac:(lia) ltac:(lia) _ (at_new bs)) as Hp.
  destruct (parsePacket None _) as [[p|[e| |]] i]; cbn in *; [by destruct Hp as (? & _ & ?)| |done..].
  intros ->. by destruct (Hp eq_refl).
Qed.

Lemma next_packet_delivers x : input_ok x ->
  delivered x (fun p => bytes_ok (Payload p)) (next_packet I 1 188 None x).
Proof.
  intros Hx. unfold next_packet. rewrite iter_S. pose proof (read_full x 188 Hx ltac:(lia)) as Hr.
  destruct (ReadFull 188 x) as [[bs|f] x1]; destruct Hr as [Hx1 Hr].
  - destruct Hr as (Hl & Hb & Hn). pose proof (parsed_packet bs Hb Hn) as Hp.
    destruct (parse_buffer I None bs) as [p|[e| |]]; [by split_and!| |by split..]. by rewrite decide_False by done.
  - by destruct f as [e| |]; [case_decide; by split|by split..].
Qed.

Lemma NextPacket_delivers x : input_ok x ->
  delivered x (fun p => bytes_ok (Payload p)) (NextPacket I 188 x).
Proof.
  intros Hx. unfold NextPacket. rewrite bind_unfold. pose proof (ctx_err x Hx) as Hc.
  destruct (ctx_Err x) as [[[e|]|f] x1]; destruct Hc as [Hx1 Hl1]; [by split| |by split].
  pose proof (next_packet_delivers x1 Hx1) as [Hx2 Hd]. destruct (next_packet I 1 188 None x1) as [[p|[e| |]] x2];
    cbn [fst snd] in *; [|case_decide; by split|by split..]. destruct Hd as [Hl2 Hp].
  split; [done|]. cbn. split; [lia|done].
Qed.

Lemma process_step_ends x r : input_ok x -> steady r ->
  ends (process_step I B aes order tt) (x, r) (fun c s =>
    match c with inl _ => (input_ok s.1 /\ steady s.2) /\ left s.1 < left x | inr _ => steady s.2 end).
Proof.
  intros Hx Hr. unfold process_step. ends_step. pose proof (ctx_err x Hx) as Hc.
  unfold ends at 1. rewrite on_fst_unfold. destruct (ctx_Err x) as [[[e|]|f] x1]; destruct Hc as [Hx1 Hl1]; [done| |done].
  unfold ends. cbv beta iota zeta delta [fst snd].
  pose proof (NextPacket_delivers x1 Hx1 : delivered x1 _ (NextPacket I (Z.to_nat MpegTsPacketSize) x1)) as Hd. revert Hd.
  destruct (NextPacket I (Z.to_nat MpegTsPacketSize) x1) as [[p|f] x2]; intros [Hx2 Hd]; cbn [fst snd] in *.
  - destruct Hd as [Hl2 Hp]. apply (ends_bind (on_snd _) (fun _ => mret _)), ends_snd. eapply ends_weaken; [by apply consume_ends|].
    intros ? r' Hr'. ends_step. cbn. by split_and!; [..|lia].
  - destruct f as [e| |]; [|done..]. case_decide; [done|]. pose proof (ctx_err x2 Hx2) as Hc.
    destruct (ctx_Err x2) as [[[?|]|f] x3]; destruct Hc as [_ Hc]; done.
Qed.

Lemma process_loop_ends fuel x r : input_ok x -> steady r -> left x < fuel ->
  ends (iter fuel (process_step I B aes order) tt;; on_snd (remuxer_Flush B aes order)) (x, r) (fun _ _ => True).
Proof.
  intros Hx Hr Hf. ends_step. apply (ends_weaken _ _ (fun _ s => steady s.2)).
  - apply (ends_iter (fun _ s => input_ok s.1 /\ steady s.2) (fun _ s => left s.1)); [done|done|].
    intros [] [x1 r1] [Hx1 Hr1]. by apply process_step_ends.
  - intros ? [x1 r1] Hr1. apply ends_snd. by apply flush_ends.
Qed.

Lemma process_ends c encrypt x w : input_ok x ->
  exists r, r.1 <> Fail OutOfFuel /\
    forall fuel, left x < fuel -> process I B aes order fuel c encrypt x w = r.
Proof.
  intros Hx. unfold process. destruct (Validate c) as [e|]; [by exists (Fail (Err e), w)|].
  set (r0 := newRemuxer w (negb encrypt) c). assert (steady r0) as Hr by apply new_steady.
  pose proof (process_loop_ends (S (left x)) x r0 Hx Hr ltac:(lia)) as He. unfold ends in He. rewrite bind_unfold in He.
  destruct (iter (S (left x)) (process_step I B aes order) tt (x, r0)) as [o [x1 r1]] eqn:E.
  assert (o <> Fail OutOfFuel) as Ho by (destruct o as [u|f]; [done|by intros [= ->]]).
  destruct ((iter (S (left x)) (process_step I B aes order) tt;; on_snd (remuxer_Flush B aes order)) (x, r0)) as [a [x2 r2]] eqn:E2.
  exists (a, (shared_parts r2).2.2). split.
  - rewrite bind_unfold, E in E2. rewrite E2 in He. destruct a as [u|f]; [done|]. by intros [= ->].
  - intros fuel Hf. pose proof (iter_fuel_mono _ _ fuel _ _ _ _ E Ho ltac:(lia)) as E'.
    rewrite bind_unfold, E in E2. rewrite bind_unfold, E'. by rewrite E2.
Qed.

(** C2: [Encrypt] ends, whatever the key, the bytes of the input and the writer:
    on every input that delivers only so many blocks - whether it ends, fails or
    its context is cancelled meanwhile - there is one result, which all fuels
    above the number of blocks give, and no loop below, of the demuxer, the
    collectors, the codecs, the packetizer or the output, runs out of the fuel it
    has in the model. *)
Theorem Encrypt_ends c x w : input_ok x ->
  exists r, r.1 <> Fail OutOfFuel /\
    forall fuel, left x < fuel -> Encrypt I B aes order fuel c x w = r.
Proof. apply process_ends. Qed.
End Remuxer.

(** ** Inputs *)
#[export] Program Instance bytes_finite : FiniteInput bytes_reader := {
  input_ok := bytes_ok;
  left := length;
}.
Next Obligation.
  intros bs n Hb Hn. cbn. case_decide; [|split; [constructor|done]].
  split_and!; [by apply Forall_drop|rewrite length_drop; lia|by apply Forall_take|rewrite length_take; lia].
Qed.
Next Obligation. done. Qed.

(** A connection that breaks after its bytes, under a context that is cancelled
    after so many looks at it. *)
Record connection := MkConnection { received : list Z; breaks : goerror; looks : nat }.

Definition context_canceled : goerror := Errorf "context canceled".

#[export] Instance connection_input : Input connection := {
  ReadFull n := fun c =>
    if decide (n <= length (received c))
    then (Ok (take n (received c)), {| received := drop n (received c); breaks := breaks c; looks := looks c |})
    else (Fail (Err (breaks c)), c);
  ctx_Err := fun c =>
    match looks c with
    | O => (Ok (Some context_canceled), c)
    | S k => (Ok None, {| received := received c; breaks := breaks c; looks := k |})
    end;
}.

#[export] Program Instance connection_finite : FiniteInput connection := {
  input_ok c := bytes_ok (received c);
  left c := length (received c);
}.
Next Obligation.
  intros c n Hb Hn. cbn. case_decide; [|by split].
  split_and!; [by apply Forall_drop|cbn; rewrite length_drop; lia|by apply Forall_take|rewrite length_take; lia].
Qed.
Next Obligation. intros [bs e [|k]] Hb; by cbn. Qed.

Import Reference.

#[export] Instance bits_return : WriterReturns bits.
Proof. split; intros; intros s; [destruct s|destruct s as [? []]|destruct s as [? []]|destruct s as [? []]|destruct s]; done. Qed.

(** A program whose AAC frame has the syncword and a length of zero. *)
Definition empty_frame : Packet :=
  sample_packet 0x101 true 5 ([0; 0; 1; 0xc0; 0; 178; 0x80; 0; 0; 0xff; 0xf1; 0x4c; 0x80; 0; 0x1f; 0xfc] ++ replicate 168 0)%Z.

Definition empty_frame_stream : list Z := stream_bytes [pat_packet; pmt_packet; empty_frame].

Lemma Encrypt_ends_witness :
  (forall fuel, 600 < fuel ->
    (Encrypt iterator bits no_cipher id fuel sample_config (empty_frame_stream : bytes_reader) (([], None) : bits)).1
    = Fail (Err (Wrapf "remuxer: media PID" (Errorf "AAC transformer: invalid ADTS frame length"))))
  /\ (forall fuel, 600 < fuel ->
    (Encrypt iterator bits no_cipher id fuel sample_config
       {| received := empty_frame_stream; breaks := Errorf "reset"; looks := 3 |} (([], None) : bits)).1
    = Fail (Err context_canceled)).
Proof.
  assert (bytes_ok empty_frame_stream) as Hb by (repeat (constructor; [vm_compute; split; congruence|]); constructor).
  assert (input_ok (R := bytes_reader) empty_frame_stream) as Hr0 by exact Hb.
  split.
  - destruct (Encrypt_ends iterator bits (R := bytes_reader) no_cipher id sample_config empty_frame_stream ([], None) Hr0) as (r & _ & Hr).
    intros fuel Hf. rewrite Hr by (change (564 < fuel); lia). rewrite <- (Hr 601) by (vm_compute; lia). vm_compute. reflexivity.
  - assert (input_ok {| received := empty_frame_stream; breaks := Errorf "reset"; looks := 3 |}) as Hc by exact Hb.
    destruct (Encrypt_ends iterator bits (R := connection) no_cipher id sample_config _ ([], None) Hc) as (r & _ & Hr).
    intros fuel Hf. rewrite Hr by (change (564 < fuel); lia). rewrite <- (Hr 601) by (vm_compute; lia). vm_compute. reflexivity.
Defined.
