(* ===== verification/DvbSpec.v ===== *)
(** * DVB dates, durations and decimal digits are inverted

    The date formulas of ETSI EN 300 468 against the calendar, for every day that
    the 16 bits of a Modified Julian Date hold and the formulas cover. *)

From S2P Require Import Prelude Astikit Codec DvbTime DescriptorParse DescriptorWrite.
Local Open Scope Z_scope.

(** ** Decimal digits *)
Lemma nibbles hi lo : 0 <= hi < 10 -> 0 <= lo < 10 ->
  let b := u8 (Z.lor (Z.shiftl hi 4) lo) in
  Z.land (Z.shiftr b 4) 0xf = hi /\ Z.land b 0xf = lo /\ is_byte b.
Proof.
  intros Hh Hl b. assert (b = hi * 16 + lo) as ->.
  { subst b. arith_masks. arith_lor. Z.to_euclidean_division_equations; lia. }
  unfold is_byte. split_and!; [arith_masks; Z.to_euclidean_division_equations; lia..|lia|lia].
Qed.

Lemma length_bcd v n : length (encodeBCD v n) = n.
Proof. revert v. induction n as [|n IH]; intros v; [done|]. cbn [encodeBCD]. rewrite length_app, IH. cbn. lia. Qed.

Lemma decode_snoc l b : decodeBCD (l ++ [b]) =
  u64 (decodeBCD l * 100 + Z.land (Z.shiftr b 4) 0x0F * 10 + Z.land b 0x0F).
Proof. unfold decodeBCD. by rewrite foldl_app. Qed.

Lemma decode_encode v n : (n <= 9)%nat -> 0 <= v < 100 ^ Z.of_nat n -> decodeBCD (encodeBCD v n) = v.
Proof.
  intros Hn Hv. revert v Hv. induction n as [|n IH]; intros v Hv; [cbn in *; lia|].
  cbn [encodeBCD]. rewrite decode_snoc.
  rewrite Nat2Z.inj_succ, Z.pow_succ_r in Hv by lia.
  destruct (nibbles (v / 10 mod 10) (v mod 10)) as (-> & -> & _);
    [Z.to_euclidean_division_equations; lia..|].
  rewrite IH by (lia || Z.to_euclidean_division_equations; lia).
  assert (100 ^ Z.of_nat n <= 100 ^ 8) by (apply Z.pow_le_mono_r; lia).
  rewrite u64_small; [Z.to_euclidean_division_equations; lia|].
  change (100 ^ 8) with 10000000000000000 in *. change (2 ^ 64) with 18446744073709551616.
  Z.to_euclidean_division_equations; lia.
Qed.

Lemma bytes_ok_bcd v n : bytes_ok (encodeBCD v n).
Proof.
  revert v. induction n as [|n IH]; intros v; [constructor|]. cbn [encodeBCD].
  apply Forall_app. split; [apply IH|]. constructor; [apply u8_range|constructor].
Qed.

(** The numbers of [n] bytes of decimal digits are below this. *)
Definition bcd_limit (n : nat) : Z := 100 ^ Z.of_nat n.

(** C33: [n] bytes of binary coded decimal hold the numbers below 100^n, and reading
    them back gives the number; nine bytes still fit 64 bits. *)
Theorem bcd_round_trip v n : (n <= 9)%nat -> 0 <= v < bcd_limit n ->
  decodeBCD (encodeBCD v n) = v /\ length (encodeBCD v n) = n /\ bytes_ok (encodeBCD v n).
Proof. split; [by apply decode_encode|split; [apply length_bcd|apply bytes_ok_bcd]]. Qed.

(** ** Durations *)
Lemma duration_byte n : 0 <= n < 100 -> parseDVBDurationByte (dvbDurationByteRepresentation n) = n.
Proof.
  intros Hn. unfold dvbDurationByteRepresentation, parseDVBDurationByte.
  rewrite (u8_small (Z.shiftl (n / 10) 4)) by (arith_masks; Z.to_euclidean_division_equations; lia).
  destruct (nibbles (n / 10) (n mod 10)) as (Hh & -> & Hb); [Z.to_euclidean_division_equations; lia..|].
  set (b := u8 _) in *. assert (Z.shiftr b 4 = n / 10) as ->.
  { rewrite <- Hh. arith_masks. unfold is_byte in Hb. Z.to_euclidean_division_equations; lia. }
  unfold u8. change (2 ^ 8) with 256. Z.to_euclidean_division_equations; lia.
Qed.

(** Whole minutes below 100 hours. *)
Definition wire_minutes (d : Z) : Prop := 0 <= d < 100 * Hour /\ d mod Minute = 0.
Definition minutes_bytes (d : Z) : list Z :=
  [dvbDurationByteRepresentation (hours_of d); dvbDurationByteRepresentation (minutes_of d)].

(** Whole seconds below 100 hours. *)
Definition wire_seconds (d : Z) : Prop := 0 <= d < 100 * Hour /\ d mod Second = 0.
Definition seconds_bytes (d : Z) : list Z :=
  minutes_bytes d ++ [dvbDurationByteRepresentation (seconds_of d)].

Lemma duration_parts d : wire_seconds d ->
  0 <= hours_of d < 100 /\ 0 <= minutes_of d < 100 /\ 0 <= seconds_of d < 100
  /\ hours_of d * Hour + minutes_of d * Minute + seconds_of d * Second = d.
Proof.
  unfold wire_seconds, hours_of, minutes_of, seconds_of, Hour, Minute, Second, u8. intros [Hd Hs].
  change (2 ^ 8) with 256. change (60 * (60 * 1000000000)) with 3600000000000 in *.
  change (60 * 1000000000) with 60000000000 in *.
  rewrite !Z.quot_div_nonneg, !Z.rem_mod_nonneg by (lia || (apply Z.div_pos; lia)).
  Z.to_euclidean_division_equations; lia.
Qed.

(** ** Dates *)

(** The first day of the formulas, 1900-03-01, and the last day of 16 bits. *)
Definition first_day : Z := 15079.
Definition last_day : Z := 65535.

(** A day counted from 1900-03-01: four years, year, day of the year that starts in
    March, month from March.  The formulas need no centuries up to 2100. *)
Definition civil_day (x q k doy mp : Z) : Prop :=
  x = 1461 * q + 365 * k + doy /\ 0 <= q <= 34 /\ 0 <= k <= 3 /\ 0 <= doy <= 364 + k / 3
  /\ mp = (5 * doy + 2) / 153.

Lemma civil_day_of x : 0 <= x <= last_day - first_day -> exists q k doy mp, civil_day x q k doy mp.
Proof.
  unfold last_day, first_day, civil_day. intros Hx.
  exists (x / 1461), (Z.min 3 (x mod 1461 / 365)), (x mod 1461 - 365 * Z.min 3 (x mod 1461 / 365)).
  eexists. split_and!; try reflexivity; Z.to_euclidean_division_equations; lia.
Qed.

Definition civil_date (q k doy mp : Z) : Z * Z * Z :=
  (1900 + 4 * q + k + (if 10 <=? mp then 1 else 0), if 10 <=? mp then mp - 9 else mp + 3,
   doy - (153 * mp + 2) / 5 + 1).

Lemma civil_of_day x q k doy mp : civil_day x q k doy mp ->
  civil_of_mjd (first_day + x) = civil_date q k doy mp.
Proof.
  intros (Hx & Hq & Hk & Hdoy & Hmp). unfold civil_of_mjd, civil_date, first_day.
  set (e := if 25 <=? q then 5 else 4). set (z := 15079 + x + 678881).
  assert (z / 146097 = e /\ z mod 146097 = x + (if 25 <=? q then -36525 else 109572)) as [-> ->].
  { subst z e. destruct (25 <=? q) eqn:?; Z.to_euclidean_division_equations; lia. }
  set (doe := x + _). set (yoe := 4 * q + k + (if 25 <=? q then -100 else 300)).
  assert ((doe - doe / 1460 + doe / 36524 - doe / 146096) / 365 = yoe) as ->.
  { subst doe yoe x. destruct (25 <=? q) eqn:?;
      (assert (k = 0 \/ k = 1 \/ k = 2 \/ k = 3) as [-> | [-> | [-> | ->]]] by lia);
      Z.to_euclidean_division_equations; lia. }
  assert (doe - (365 * yoe + yoe / 4 - yoe / 100) = doy) as ->.
  { subst doe yoe x. destruct (25 <=? q) eqn:?; Z.to_euclidean_division_equations; lia. }
  rewrite <- Hmp. assert ((mp <? 10) = negb (10 <=? mp)) as -> by lia.
  subst yoe e. destruct (10 <=? mp) eqn:?, (25 <=? q); cbn [negb]; (apply f_equal2; [apply f_equal2|]);
    repeat match goal with |- context [?m <=? 2] => destruct (m <=? 2) eqn:? end; Z.to_euclidean_division_equations; lia.
Qed.

Lemma days_of_years n : 0 <= n -> Z.quot (n * 36525) 100 = 1461 * (n / 4) + 365 * (n mod 4).
Proof. intros Hn. rewrite Z.quot_div_nonneg by lia. Z.to_euclidean_division_equations; lia. Qed.

Lemma days_of_months mp : 0 <= mp <= 11 -> Z.quot ((mp + 4) * 306001) 10000 = 122 + (153 * mp + 2) / 5.
Proof. intros Hn. rewrite Z.quot_div_nonneg by lia. Z.to_euclidean_division_equations; lia. Qed.

Lemma month_range x q k doy mp : civil_day x q k doy mp -> 0 <= mp <= 11 /\ (10 <=? mp) = (306 <=? doy).
Proof. intros (Hx & Hq & Hk & Hdoy & ->). Z.to_euclidean_division_equations; lia. Qed.

Lemma mjd_of_day x q k doy mp : civil_day x q k doy mp ->
  dvb_mjd ((first_day + x) * day_ns) = first_day + x.
Proof.
  intros Hc. pose proof (month_range _ _ _ _ _ Hc) as [Hmp _]. unfold dvb_mjd.
  rewrite Z.div_mul, (civil_of_day _ _ _ _ _ Hc) by done. unfold civil_date, first_day.
  destruct Hc as (-> & Hq & Hk & Hdoy & _).
  set (m := if 10 <=? mp then mp - 9 else mp + 3). set (l := if m <=? 2 then 1 else 0).
  assert (m + 1 + l * 12 = mp + 4 /\ 1900 + 4 * q + k + (if 10 <=? mp then 1 else 0) - 1900 - l = 4 * q + k) as [-> ->].
  { subst l m. destruct (10 <=? mp) eqn:?, (_ <=? 2) eqn:?; lia. }
  rewrite days_of_years, days_of_months by lia. Z.to_euclidean_division_equations; lia.
Qed.

Lemma mjd_of_march y mp d : 1900 <= y < 2100 -> 0 <= mp <= 11 ->
  mjd_of_civil (y + (if 10 <=? mp then 1 else 0)) (if 10 <=? mp then mp - 9 else mp + 3) d
  = 365 * y + y / 4 - 15 + (153 * mp + 2) / 5 + d - 1 - 678881.
Proof.
  intros Hy Hm. unfold mjd_of_civil.
  destruct (10 <=? mp) eqn:?, (_ <=? 2) eqn:?, (2 <? _) eqn:?; try lia;
    ring_simplify (mp + 3 - 3) (mp - 9 + 9) (y + 1 - 1) (y + 0); Z.to_euclidean_division_equations; lia.
Qed.

Lemma date_of_day x q k doy mp : civil_day x q k doy mp ->
  dvb_date (first_day + x) = (first_day + x) * day_ns.
Proof.
  intros Hc. pose proof (month_range _ _ _ _ _ Hc) as [Hr _].
  destruct Hc as (-> & Hq & Hk & Hdoy & Hmp). unfold dvb_date, first_day.
  assert (Z.quot (100 * (15079 + (1461 * q + 365 * k + doy)) - 1507820) 36525 = 4 * q + k) as ->.
  { rewrite Z.quot_div_nonneg by lia. Z.to_euclidean_division_equations; lia. }
  rewrite days_of_years by lia.
  assert (1461 * ((4 * q + k) / 4) + 365 * ((4 * q + k) mod 4) = 1461 * q + 365 * k) as ->
    by (Z.to_euclidean_division_equations; lia).
  assert (Z.quot (10000 * (15079 + (1461 * q + 365 * k + doy)) - 149561000 - 10000 * (1461 * q + 365 * k))
            306001 = mp + 4) as ->.
  { rewrite Z.quot_div_nonneg by lia. Z.to_euclidean_division_equations; lia. }
  rewrite days_of_months by done. unfold Date.
  set (l := if _ || _ then 1 else 0). assert (l = if 10 <=? mp then 1 else 0) as ->.
  { subst l. destruct (_ || _) eqn:?, (10 <=? mp) eqn:?; lia. }
  set (m := mp + 4 - 1 - _).
  assert ((m - 1) / 12 = 0 /\ (m - 1) mod 12 + 1 = if 10 <=? mp then mp - 9 else mp + 3) as [-> ->].
  { subst m. destruct (10 <=? mp) eqn:?; Z.to_euclidean_division_equations; lia. }
  rewrite Z.add_0_r, Z.add_assoc, mjd_of_march by lia.
  f_equal. Z.to_euclidean_division_equations; lia.
Qed.

Lemma dvb_day mjd : first_day <= mjd <= last_day ->
  dvb_date mjd = mjd * day_ns /\ dvb_mjd (mjd * day_ns) = mjd.
Proof.
  intros Hm. destruct (civil_day_of (mjd - first_day)) as (q & k & doy & mp & Hc); [lia|].
  replace mjd with (first_day + (mjd - first_day)) by lia.
  split; [by eapply date_of_day|by eapply mjd_of_day].
Qed.

(** Whole seconds of the days of 16 bits. *)
Definition wire_time (t : Z) : Prop := first_day <= t / day_ns <= last_day /\ t mod Second = 0.
Definition time_bytes (t : Z) : list Z :=
  bytes_of_bits (bits_of 16 (dvb_mjd t)) ++ seconds_bytes (t mod day_ns).

Lemma time_parts t : wire_time t ->
  dvb_mjd t = t / day_ns /\ dvb_date (t / day_ns) + t mod day_ns = t /\ wire_seconds (t mod day_ns).
Proof.
  intros [Hd Hs]. destruct (dvb_day _ Hd) as [E1 E2].
  assert (0 < day_ns) as Hday by done. split_and!.
  - transitivity (dvb_mjd (t / day_ns * day_ns)); [|done]. unfold dvb_mjd. by rewrite Z.div_mul by lia.
  - rewrite E1. pose proof (Z.div_mod t day_ns). lia.
  - pose proof (Z.mod_pos_bound t day_ns Hday) as Hr. split; [split; [lia|]|].
    + eapply Z.lt_trans; [apply Hr|done].
    + unfold day_ns, Hour, Minute in *. rewrite <- Hs.
      apply Z.mod_mod_divide. exists (24 * 60 * 60). unfold Second. lia.
Qed.

(** ** Reading and writing *)
Section Codec.
Context {W : Type} `{ReliableWriter W} {I : Type} `{BytesIteratorLaws I}.

Lemma writes_minutes d : writes (writeDVBDurationMinutes d) (byte_bits (minutes_bytes d)) 2.
Proof.
  eapply writes_eq; [unfold writeDVBDurationMinutes; write_rules|by rewrite app_nil_r|done].
Qed.
Lemma writes_seconds d : writes (writeDVBDurationSeconds d) (byte_bits (seconds_bytes d)) 3.
Proof.
  eapply writes_eq; [unfold writeDVBDurationSeconds; write_rules|by rewrite app_nil_r|done].
Qed.

Lemma reads_seconds d o : wire_seconds d -> reads o parseDVBDurationSeconds (seconds_bytes d) d.
Proof.
  intros Hd. destruct (duration_parts d Hd) as (Hh & Hm & Hs & E). unfold parseDVBDurationSeconds.
  rewrite <- (app_nil_r (seconds_bytes d)). eapply reads_bind; [by apply reads_bytes_no_copy|].
  eapply reads_eq; [apply reads_ret|done|]. unfold byte_at, seconds_bytes, minutes_bytes.
  cbn [app lookup list_lookup default from_option id]. by rewrite !duration_byte.
Qed.

Lemma reads_minutes d o : wire_minutes d -> reads o parseDVBDurationMinutes (minutes_bytes d) d.
Proof.
  intros [Hd Hmin]. assert (wire_seconds d) as Hw.
  { split; [done|]. rewrite <- (Z.mod_0_l Second), <- Hmin by done.
    symmetry. apply Z.mod_mod_divide. by exists 60. }
  destruct (duration_parts d Hw) as (Hh & Hm & Hs & E). unfold parseDVBDurationMinutes.
  rewrite <- (app_nil_r (minutes_bytes d)). eapply reads_bind; [by apply reads_bytes_no_copy|].
  eapply reads_eq; [apply reads_ret|done|]. unfold byte_at, minutes_bytes.
  cbn [lookup list_lookup default from_option id]. rewrite !duration_byte by done.
  rewrite <- E at 3. assert (seconds_of d = 0) as ->; [|lia]. clear - Hd Hmin.
  unfold seconds_of, u8, Minute, Second, Hour in *. change (2 ^ 8) with 256.
  change (60 * 1000000000) with 60000000000 in *.
  rewrite Z.quot_div_nonneg, Z.rem_mod_nonneg by (lia || (apply Z.div_pos; lia)).
  Z.to_euclidean_division_equations; lia.
Qed.

Lemma writes_time t : wire_time t -> writes (writeDVBTime t) (byte_bits (time_bytes t)) 5.
Proof.
  intros Ht. destruct (time_parts t Ht) as (Em & _ & _). destruct Ht as [[Hl Hh] _].
  eapply writes_eq; [unfold writeDVBTime; apply writes_with_batch|..].
  - eapply bwrites_bind; [write_call|]. eapply bwrites_bind; [apply bwrites_on_snd, writes_seconds|]. write_call.
  - unfold time_bytes. rewrite byte_bits_app, (byte_bits_group _ 2), app_nil_r by apply length_bits_of.
    unfold first_day, last_day in *. by rewrite u16_small by lia.
  - done.
Qed.

Lemma reads_time t o : wire_time t -> reads o parseDVBTime (time_bytes t) t.
Proof.
  intros Ht. destruct (time_parts t Ht) as (Em & Et & Hs). destruct Ht as [[Hl Hh] _].
  unfold first_day, last_day in *. unfold parseDVBTime, time_bytes.
  rewrite (bytes_of_bits_word _ 2) by apply length_bits_of.
  rewrite byte_of_bits_of, Z.mod_small by (change (2 ^ Z.of_nat 16) with 65536; lia).
  eapply reads_bind; [by apply reads_bytes_no_copy|]. rewrite <- (app_nil_r (seconds_bytes _)).
  eapply reads_bind; [by apply reads_wrap, reads_seconds|]. eapply reads_eq; [apply reads_ret|done|].
  by rewrite be16_word_bytes, Em by (rewrite Em; lia).
Qed.

(** C32: a time of whole seconds between 1900-03-01 and the end of the 16-bit days is
    written in 5 bytes and read back, and so is a duration of whole seconds below
    100 hours. *)
Theorem dvb_time_round_trip t d : wire_time t -> wire_seconds d ->
  writes (writeDVBTime t) (byte_bits (time_bytes t)) 5
  /\ (forall o, reads o parseDVBTime (time_bytes t) t)
  /\ writes (writeDVBDurationSeconds d) (byte_bits (seconds_bytes d)) 3
  /\ (forall o, reads o parseDVBDurationSeconds (seconds_bytes d) d).
Proof.
  intros Ht Hd. split; [by apply writes_time|split; [intros; by apply reads_time|]].
  split; [apply writes_seconds|intros; by apply reads_seconds].
Qed.
End Codec.

(** ** Witnesses *)
Import Reference.
Lemma bcd_round_trip_witness : (4 <= 9)%nat /\ 0 <= 1172700 < 100 ^ Z.of_nat 4
  /\ decodeBCD (encodeBCD 1172700 4) = 1172700.
Proof.
  assert (0 <= 1172700 < 100 ^ Z.of_nat 4) as Hv by (split; [lia|reflexivity]).
  split; [lia|split; [exact Hv|]]. exact (proj1 (bcd_round_trip 1172700 4 ltac:(lia) Hv)).
Defined.

Lemma dvb_time_round_trip_witness : wire_time (Date 1993 10 13 + 12 * Hour + 45 * Minute)
  /\ wire_seconds (1 * Hour + 45 * Minute + 30 * Second)
  /\ exists i, parseDVBTime (I := iterator) ([0xC0; 0x79; 0x12; 0x45; 0x00], 0)
       = (Ok (Date 1993 10 13 + 12 * Hour + 45 * Minute), i).
Proof.
  assert (wire_time (Date 1993 10 13 + 12 * Hour + 45 * Minute)) as Ht by (split; [split|]; vm_compute; congruence).
  assert (wire_seconds (1 * Hour + 45 * Minute + 30 * Second)) as Hd by (split; [split|]; vm_compute; congruence).
  split; [exact Ht|split; [exact Hd|]].
  destruct (dvb_time_round_trip (W := bits) (I := iterator) _ _ Ht Hd) as (_ & Hr & _).
  destruct (Hr 0 ([0xC0; 0x79; 0x12; 0x45; 0x00], 0) [] [] eq_refl) as (i & E & _); [reflexivity|].
  by exists i.
Defined.
