(* ===== verification/DescriptorSpec.v ===== *)
(** * Descriptors are read back as they were written

    The bytes of every kind of descriptor, and the conditions on its fields under
    which writing gives these bytes and reading them gives the fields back. *)

From S2P Require Import Prelude Astikit Codec Descriptor DvbTime DescriptorParse DescriptorWrite.
Local Open Scope Z_scope.

(** ** Octets made of bits *)
Definition octet (l : list bool) : Z := byte_of_bits l.

Lemma bits_of_octet l : length l = 8%nat -> bits_of 8 (octet l) = l.
Proof.
  intros Hl. do 8 (destruct l as [|? l]; [done|]). destruct l; [|done].
  by repeat match goal with b : bool |- _ => destruct b end.
Qed.

Lemma byte_bits_cons x l : byte_bits (x :: l) = bits_of 8 x ++ byte_bits l.
Proof. done. Qed.

Lemma byte_bits_items {A} (g : A -> list Z) xs : byte_bits (xs ≫= g) = xs ≫= (fun x => byte_bits (g x)).
Proof.
  induction xs as [|x xs IH]; [done|]. by rewrite !bind_cons, byte_bits_app, IH.
Qed.

Lemma len_app l1 l2 : len (l1 ++ l2) = len l1 + len l2.
Proof. unfold len. by rewrite length_app, Nat2Z.inj_add. Qed.

(** Big-endian words. *)
Definition be_bytes (k : nat) (x : Z) : list Z := bytes_of_bits (bits_of (8 * k) x).

Lemma byte_bits_be k x : byte_bits (be_bytes k x) = bits_of (8 * k) x.
Proof. apply (byte_bits_group _ k), length_bits_of. Qed.

Lemma length_be k x : length (be_bytes k x) = k.
Proof. apply length_group, length_bits_of. Qed.

Lemma be32_word x : 0 <= x < 2 ^ 32 -> be32 (be_bytes 4 x) = x.
Proof.
  intros Hx. unfold be_bytes, be32. rewrite (bytes_of_bits_word _ 4) by apply length_bits_of.
  rewrite byte_of_bits_of, Z.mod_small by done. simpl_bytes. field_arith.
Qed.

Lemma be16_word x : 0 <= x < 2 ^ 16 -> be16 (be_bytes 2 x) 0 = x.
Proof.
  intros Hx. unfold be_bytes. rewrite (bytes_of_bits_word _ 2) by apply length_bits_of.
  rewrite byte_of_bits_of, Z.mod_small by done. by apply be16_word_bytes.
Qed.

(** ** Automation *)
#[local] Arguments octet : simpl never.
#[local] Arguments be_bytes : simpl never.
#[local] Arguments bits_of : simpl never.
#[local] Arguments Z.pow : simpl never.
#[local] Arguments Z.land : simpl never.
#[local] Arguments Z.shiftr : simpl never.
#[local] Arguments Z.shiftl : simpl never.
#[local] Arguments masked : simpl never.

Ltac octet_numbers :=
  unfold octet;
  repeat match goal with |- context [byte_of_bits ?l] =>
    let n := fresh "n" in let E := fresh "E" in
    remember (byte_of_bits l) as n eqn:E;
    rewrite ?byte_of_bits_app, ?byte_of_bits_of in E; cbn [byte_of_bits length app] in E;
    rewrite ?length_app, ?length_bits_of, ?byte_of_bits_of in E;
    repeat (progress (cbn [length Nat.add Z.b2z] in E; rewrite ?length_app, ?length_bits_of in E));
    repeat match type of E with context [2 ^ Z.of_nat ?k] =>
      let p := eval vm_compute in (2 ^ Z.of_nat k) in change (2 ^ Z.of_nat k) with p in E
    end
  end.

Ltac octet_field := octet_numbers; field_arith.

(** The fields of a record, one by one. *)
Ltac fields := f_equal; first [done | octet_field].

Ltac bits_eq :=
  rewrite ?byte_bits_app, ?byte_bits_cons, ?byte_bits_be, ?byte_bits_if, ?byte_bits_items;
  repeat match goal with |- context [bits_of 8 (octet ?l)] =>
    rewrite (bits_of_octet l) by (rewrite ?length_app, ?length_bits_of; reflexivity)
  end;
  cbn [app]; rewrite <- ?app_assoc, ?app_nil_r; cbn [app]; try done.

Section Rules.
Context {I : Type} `{BytesIteratorLaws I}.

Lemma reads_last {A B} o (m : M I A) (k : A -> M I B) bs a b :
  reads o m bs a -> reads (o + Z.of_nat (length bs)) (k a) [] b -> reads o (m ≫= k) bs b.
Proof. intros Hm Hk. rewrite <- (app_nil_r bs). by eapply reads_bind. Qed.

Lemma reads_at {B} o (k : Z -> M I B) bs b : reads o (k o) bs b -> reads o (gets Offset ≫= k) bs b.
Proof. intros Hk. rewrite <- (app_nil_l bs). eapply reads_bind; [apply reads_offset|]. by rewrite Z.add_0_r. Qed.

Lemma reads_byte_if o b x : reads o (byte_if b) (if b then [x] else []) (if b then x else 0).
Proof. destruct b; [apply reads_byte|apply reads_ret]. Qed.

(** A length byte and the bytes. *)
Definition sized (l : list Z) : list Z := [len l] ++ l.

Lemma reads_sized {B} o (k : list Z -> M I B) l bs b :
  reads (o + 1 + len l) (k l) bs b -> reads o (n ← next_byte; x ← next_bytes n; k x) (sized l ++ bs) b.
Proof.
  intros Hk. unfold sized. rewrite <- app_assoc. eapply reads_bind; [apply reads_byte|].
  eapply reads_bind; [by apply reads_bytes|]. exact Hk.
Qed.
End Rules.

Ltac read_bind :=
  lazymatch goal with
  | |- reads _ (gets Offset ≫= _) _ _ => eapply reads_at
  | |- reads _ (next_byte ≫= (fun n => next_bytes n ≫= _)) (sized _ ++ _) _ => eapply reads_sized
  | |- reads _ (_ ≫= _) (_ ++ _) _ => eapply reads_bind
  | |- reads _ (_ ≫= _) _ _ => eapply reads_last
  end.
Ltac offset_eq :=
  unfold len, sized in *; rewrite ?length_app, ?length_cons, ?length_be in *; cbn [length] in *; lia.
Ltac read_part :=
  lazymatch goal with
  | |- reads _ next_byte _ _ => apply reads_byte
  | |- reads _ (byte_if _) _ _ => apply reads_byte_if
  | |- reads _ (bytes_until _) _ _ => apply reads_until; try offset_eq
  | |- reads _ (next_bytes _) _ _ => apply reads_bytes; try first [reflexivity | offset_eq]
  | |- reads _ (next_bytes_no_copy _) _ _ =>
      apply reads_bytes_no_copy; try first [reflexivity | offset_eq]
  | |- reads _ (wrap_err _ _) _ _ => apply reads_wrap
  | |- reads _ (mret _) _ _ => eapply reads_eq; [apply reads_ret|done|]
  end.
Ltac read_all := cbn [length]; repeat first [read_bind | read_part].

Section Bodies.
Context {W : Type} `{ReliableWriter W} {I : Type} `{BytesIteratorLaws I}.

(** ** AC-3 *)
Definition ac3_bytes (d : DescriptorAC3) : list Z :=
  [octet [ac3_HasComponentType d; ac3_HasBSID d; ac3_HasMainID d; ac3_HasASVC d; true; true; true; true]]
  ++ (if ac3_HasComponentType d then [ac3_ComponentType d] else [])
  ++ (if ac3_HasBSID d then [ac3_BSID d] else []) ++ (if ac3_HasMainID d then [ac3_MainID d] else [])
  ++ (if ac3_HasASVC d then [ac3_ASVC d] else []) ++ ac3_AdditionalInfo d.

(** A field that is absent is zero. *)
Definition absent (b : bool) (x : Z) : Prop := b = false -> x = 0.

Definition wire_ac3 (d : DescriptorAC3) : Prop :=
  absent (ac3_HasComponentType d) (ac3_ComponentType d) /\ absent (ac3_HasBSID d) (ac3_BSID d)
  /\ absent (ac3_HasMainID d) (ac3_MainID d) /\ absent (ac3_HasASVC d) (ac3_ASVC d).

Lemma absent_if b x : absent b x -> (if b then x else 0) = x.
Proof. intros Hx. destruct b; [done|]. symmetry. by apply Hx. Qed.

Lemma bwrites_byte_if (b : bool) x :
  bwrites (when b (BWrite (WUint8 x))) (if b then bits_of 8 x else []) tt.
Proof. apply bwrites_when. intros _. apply bwrites_bwrite. Qed.

Lemma writes_ac3 d : writes (writeDescriptorAC3 d) (byte_bits (ac3_bytes d)) tt.
Proof.
  eapply writes_eq; [unfold writeDescriptorAC3, done_batch; apply writes_with_batch|..].
  - repeat (eapply bwrites_bind; [first [apply bwrites_byte_if|write_call]|]). write_call.
  - unfold ac3_bytes. bits_eq.
  - done.
Qed.

Lemma reads_ac3 d o e : wire_ac3 d -> e = o + len (ac3_bytes d) ->
  reads o (newDescriptorAC3 e) (ac3_bytes d) d.
Proof.
  intros (Hc & Hb & Hm & Ha) ->. unfold newDescriptorAC3, ac3_bytes.
  read_bind; [read_part|].
  match goal with |- context [masked (octet ?l) 0x80] => set (b := octet l) end.
  assert (masked b 0x80 = ac3_HasComponentType d /\ masked b 0x40 = ac3_HasBSID d
    /\ masked b 0x20 = ac3_HasMainID d /\ masked b 0x10 = ac3_HasASVC d) as (-> & -> & -> & ->).
  { subst b. by destruct (ac3_HasComponentType d), (ac3_HasBSID d), (ac3_HasMainID d), (ac3_HasASVC d). }
  read_all. rewrite !absent_if by done. by destruct d.
Qed.

(** ** Enhanced AC-3 *)
Definition eac3_flags (d : DescriptorEnhancedAC3) : Z := octet
  [eac3_HasComponentType d; eac3_HasBSID d; eac3_HasMainID d; eac3_HasASVC d; MixInfoExists d;
   HasSubStream1 d; HasSubStream2 d; HasSubStream3 d].

Definition eac3_bytes (d : DescriptorEnhancedAC3) : list Z :=
  [eac3_flags d]
  ++ (if eac3_HasComponentType d then [eac3_ComponentType d] else [])
  ++ (if eac3_HasBSID d then [eac3_BSID d] else []) ++ (if eac3_HasMainID d then [eac3_MainID d] else [])
  ++ (if eac3_HasASVC d then [eac3_ASVC d] else []) ++ (if HasSubStream1 d then [SubStream1 d] else [])
  ++ (if HasSubStream2 d then [SubStream2 d] else []) ++ (if HasSubStream3 d then [SubStream3 d] else [])
  ++ eac3_AdditionalInfo d.

Definition wire_eac3 (d : DescriptorEnhancedAC3) : Prop :=
  absent (eac3_HasComponentType d) (eac3_ComponentType d) /\ absent (eac3_HasBSID d) (eac3_BSID d)
  /\ absent (eac3_HasMainID d) (eac3_MainID d) /\ absent (eac3_HasASVC d) (eac3_ASVC d)
  /\ absent (HasSubStream1 d) (SubStream1 d) /\ absent (HasSubStream2 d) (SubStream2 d)
  /\ absent (HasSubStream3 d) (SubStream3 d).

Lemma writes_eac3 d : writes (writeDescriptorEnhancedAC3 d) (byte_bits (eac3_bytes d)) tt.
Proof.
  eapply writes_eq; [unfold writeDescriptorEnhancedAC3, done_batch; apply writes_with_batch|..].
  - repeat (eapply bwrites_bind; [first [apply bwrites_byte_if|write_call]|]). write_call.
  - unfold eac3_bytes, eac3_flags. bits_eq.
  - done.
Qed.

Lemma eac3_flags_bits d :
  masked (eac3_flags d) 0x80 = eac3_HasComponentType d /\ masked (eac3_flags d) 0x40 = eac3_HasBSID d
  /\ masked (eac3_flags d) 0x20 = eac3_HasMainID d /\ masked (eac3_flags d) 0x10 = eac3_HasASVC d
  /\ masked (eac3_flags d) 0x8 = MixInfoExists d /\ masked (eac3_flags d) 0x4 = HasSubStream1 d
  /\ masked (eac3_flags d) 0x2 = HasSubStream2 d /\ masked (eac3_flags d) 0x1 = HasSubStream3 d.
Proof.
  unfold eac3_flags. generalize (eac3_HasComponentType d), (eac3_HasBSID d), (eac3_HasMainID d),
    (eac3_HasASVC d), (MixInfoExists d), (HasSubStream1 d), (HasSubStream2 d), (HasSubStream3 d).
  by intros [] [] [] [] [] [] [] [].
Qed.

Lemma reads_eac3 d o e : wire_eac3 d -> e = o + len (eac3_bytes d) ->
  reads o (newDescriptorEnhancedAC3 e) (eac3_bytes d) d.
Proof.
  intros (Hc & Hb & Hm & Ha & Hs1 & Hs2 & Hs3) ->. unfold newDescriptorEnhancedAC3, eac3_bytes.
  destruct (eac3_flags_bits d) as (F1 & F2 & F3 & F4 & F5 & F6 & F7 & F8).
  read_bind; [read_part|]. rewrite F1, F2, F3, F4, F5, F6, F7, F8. read_all.
  rewrite !absent_if by done. by destruct d.
Qed.

(** ** AVC video *)
Definition avc_video_bytes (d : DescriptorAVCVideo) : list Z :=
  [ProfileIDC d] ++ [octet ([ConstraintSet0Flag d; ConstraintSet1Flag d; ConstraintSet2Flag d]
                            ++ bits_of 5 (CompatibleFlags d))]
  ++ [LevelIDC d] ++ [octet ([AVCStillPresent d; AVC24HourPictureFlag d] ++ bits_of 6 0xff)].

Definition wire_avc_video (d : DescriptorAVCVideo) : Prop := 0 <= CompatibleFlags d < 2 ^ 5.

Lemma writes_avc_video d : writes (writeDescriptorAVCVideo d) (byte_bits (avc_video_bytes d)) tt.
Proof.
  eapply writes_eq; [unfold writeDescriptorAVCVideo, done_batch; write_rules|unfold avc_video_bytes; bits_eq|done].
Qed.

Lemma reads_avc_video d o : wire_avc_video d -> reads o newDescriptorAVCVideo (avc_video_bytes d) d.
Proof.
  unfold wire_avc_video. intros Hc. unfold newDescriptorAVCVideo, avc_video_bytes. read_all.
  destruct d; cbn in *. fields.
Qed.

(** ** Component *)
Definition component_bytes (d : DescriptorComponent) : list Z :=
  [octet (bits_of 4 (StreamContentExt d) ++ bits_of 4 (StreamContent d))]
  ++ [comp_ComponentType d] ++ [comp_ComponentTag d] ++ comp_ISO639LanguageCode d ++ comp_Text d.

Definition wire_component (d : DescriptorComponent) : Prop :=
  0 <= StreamContentExt d < 2 ^ 4 /\ 0 <= StreamContent d < 2 ^ 4 /\ length (comp_ISO639LanguageCode d) = 3%nat.

Lemma writes_component d : wire_component d ->
  writes (writeDescriptorComponent d) (byte_bits (component_bytes d)) tt.
Proof.
  intros (_ & _ & Hl).
  eapply writes_eq; [unfold writeDescriptorComponent, done_batch; write_rules|unfold component_bytes; bits_eq|done].
Qed.

Lemma reads_component d o e : wire_component d -> e = o + len (component_bytes d) ->
  reads o (newDescriptorComponent e) (component_bytes d) d.
Proof.
  intros (Hx & Hc & Hl) ->. unfold newDescriptorComponent, component_bytes. read_all.
  destruct d; cbn in *. fields.
Qed.

(** ** Content *)
Definition content_item_bytes (x : DescriptorContentItem) : list Z :=
  [octet (bits_of 4 (ContentNibbleLevel1 x) ++ bits_of 4 (ContentNibbleLevel2 x)); UserByte x].
Definition content_bytes (d : DescriptorContent) : list Z := content_Items d ≫= content_item_bytes.

Definition wire_content (d : DescriptorContent) : Prop :=
  Forall (fun x => 0 <= ContentNibbleLevel1 x < 2 ^ 4 /\ 0 <= ContentNibbleLevel2 x < 2 ^ 4) (content_Items d).

Lemma writes_content d : writes (writeDescriptorContent d) (byte_bits (content_bytes d)) tt.
Proof.
  eapply writes_eq; [unfold writeDescriptorContent, done_batch; apply writes_with_batch|..].
  - eapply bwrites_bind; [apply bwrites_for_each, Forall_true; intros x; write_rules|write_call].
  - unfold content_bytes. rewrite byte_bits_items, app_nil_r. apply list_bind_ext; [|done].
    intros x. unfold content_item_bytes. bits_eq.
  - done.
Qed.

Lemma reads_content d o e : wire_content d -> e = o + len (content_bytes d) ->
  reads o (newDescriptorContent e) (content_bytes d) d.
Proof.
  intros Hd ->. unfold newDescriptorContent, content_bytes. eapply reads_last.
  - apply reads_items; [|done]. eapply Forall_impl; [exact Hd|]. intros x [Hx Hy]. split; [cbn; lia|].
    intros o'. unfold content_item_bytes. read_all. destruct x; cbn in *. fields.
  - read_all. by destruct d.
Qed.

(** ** Data stream alignment, stream identifier, maximum bitrate, network name *)
Lemma writes_alignment d :
  writes (writeDescriptorDataStreamAlignment d) (byte_bits [alignment_Type d]) tt.
Proof.
  eapply writes_eq; [unfold writeDescriptorDataStreamAlignment, done_batch; write_rules|bits_eq|done].
Qed.
Lemma reads_alignment d o : reads o newDescriptorDataStreamAlignment [alignment_Type d] d.
Proof. unfold newDescriptorDataStreamAlignment. read_all. by destruct d. Qed.

Lemma writes_identifier d : writes (writeDescriptorStreamIdentifier d) (byte_bits [ComponentTag d]) tt.
Proof.
  eapply writes_eq; [unfold writeDescriptorStreamIdentifier, done_batch; write_rules|bits_eq|done].
Qed.
Lemma reads_identifier d o : reads o newDescriptorStreamIdentifier [ComponentTag d] d.
Proof. unfold newDescriptorStreamIdentifier. read_all. by destruct d. Qed.

Definition bitrate_bytes (d : DescriptorMaximumBitrate) : list Z :=
  bytes_of_bits (bits_of 2 0xff ++ bits_of 22 (Bitrate d / 50)).

(** In units of 50 bytes per second. *)
Definition wire_bitrate (d : DescriptorMaximumBitrate) : Prop :=
  0 <= Bitrate d < 50 * 2 ^ 22 /\ Bitrate d mod 50 = 0.

Lemma writes_bitrate d : writes (writeDescriptorMaximumBitrate d) (byte_bits (bitrate_bytes d)) tt.
Proof.
  apply (writes_group _ _ 3); [done|].
  eapply writes_eq; [unfold writeDescriptorMaximumBitrate, done_batch; write_rules|by rewrite app_nil_r|done].
Qed.
Lemma reads_bitrate d o : wire_bitrate d -> reads o newDescriptorMaximumBitrate (bitrate_bytes d) d.
Proof.
  intros [Hr Hm]. unfold newDescriptorMaximumBitrate, bitrate_bytes. rewrite (bytes_of_bits_word _ 3) by done.
  group_number n En. read_all. destruct d; cbn in *. unfold be16. cbn [Nat.add]. simpl_bytes. f_equal.
  change (2 ^ 22) with 4194304 in *. rewrite (Z.mod_small (_ / 50)) in En by (Z.to_euclidean_division_equations; lia).
  field_arith.
Qed.

Lemma writes_network d : writes (writeDescriptorNetworkName d) (byte_bits (network_Name d)) tt.
Proof.
  eapply writes_eq; [unfold writeDescriptorNetworkName, done_batch; write_rules|by rewrite app_nil_r|done].
Qed.
Lemma reads_network d o e : e = o + len (network_Name d) ->
  reads o (newDescriptorNetworkName e) (network_Name d) d.
Proof. intros ->. unfold newDescriptorNetworkName. read_all. by destruct d. Qed.

(** ** Parental rating *)
Definition rating_item_bytes (x : DescriptorParentalRatingItem) : list Z := rating_CountryCode x ++ [Rating x].
Definition rating_bytes (d : DescriptorParentalRating) : list Z := rating_Items d ≫= rating_item_bytes.

Definition wire_rating (d : DescriptorParentalRating) : Prop :=
  Forall (fun x => length (rating_CountryCode x) = 3%nat) (rating_Items d).

Lemma writes_rating d : wire_rating d -> writes (writeDescriptorParentalRating d) (byte_bits (rating_bytes d)) tt.
Proof.
  intros Hd. eapply writes_eq; [unfold writeDescriptorParentalRating, done_batch; apply writes_with_batch|..].
  - eapply bwrites_bind; [apply bwrites_for_each|write_call].
    eapply Forall_impl; [exact Hd|]. intros x Hx. cbv beta in Hx.
    instantiate (1 := fun x => byte_bits (rating_item_bytes x)). unfold rating_item_bytes.
    rewrite byte_bits_app. write_rules.
  - unfold rating_bytes. by rewrite byte_bits_items, app_nil_r.
  - done.
Qed.

Lemma reads_rating d o e : wire_rating d -> e = o + len (rating_bytes d) ->
  reads o (newDescriptorParentalRating e) (rating_bytes d) d.
Proof.
  intros Hd ->. unfold newDescriptorParentalRating, rating_bytes. eapply reads_last.
  - apply reads_items; [|done]. eapply Forall_impl; [exact Hd|]. intros x Hx. cbv beta in Hx.
    split; [unfold rating_item_bytes; rewrite length_app; cbn; lia|]. intros o'. unfold rating_item_bytes.
    eapply reads_last; [apply reads_bytes; rewrite length_app, Hx; done|]. read_all.
    destruct x as [[|a [|b [|c []]]] r]; try done.
  - read_all. by destruct d.
Qed.

(** ** Private data and registration *)
Lemma writes_indicator d : writes (writeDescriptorPrivateDataIndicator d) (byte_bits (be_bytes 4 (Indicator d))) tt.
Proof.
  eapply writes_eq; [unfold writeDescriptorPrivateDataIndicator, done_batch; write_rules|bits_eq|done].
Qed.
Lemma reads_indicator d o : 0 <= Indicator d < 2 ^ 32 ->
  reads o newDescriptorPrivateDataIndicator (be_bytes 4 (Indicator d)) d.
Proof.
  intros Hd. unfold newDescriptorPrivateDataIndicator. read_all. rewrite be32_word by done. by destruct d.
Qed.

Lemma writes_specifier d : writes (writeDescriptorPrivateDataSpecifier d) (byte_bits (be_bytes 4 (Specifier d))) tt.
Proof.
  eapply writes_eq; [unfold writeDescriptorPrivateDataSpecifier, done_batch; write_rules|bits_eq|done].
Qed.
Lemma reads_specifier d o : 0 <= Specifier d < 2 ^ 32 ->
  reads o newDescriptorPrivateDataSpecifier (be_bytes 4 (Specifier d)) d.
Proof.
  intros Hd. unfold newDescriptorPrivateDataSpecifier. read_all. rewrite be32_word by done. by destruct d.
Qed.

Definition registration_bytes (d : DescriptorRegistration) : list Z :=
  be_bytes 4 (FormatIdentifier d) ++ AdditionalIdentificationInfo d.

Lemma writes_registration d : writes (writeDescriptorRegistration d) (byte_bits (registration_bytes d)) tt.
Proof.
  eapply writes_eq; [unfold writeDescriptorRegistration, done_batch; write_rules|unfold registration_bytes; bits_eq|done].
Qed.
Lemma reads_registration d o e : 0 <= FormatIdentifier d < 2 ^ 32 -> e = o + len (registration_bytes d) ->
  reads o (newDescriptorRegistration e) (registration_bytes d) d.
Proof.
  intros Hd ->. unfold newDescriptorRegistration, registration_bytes. read_all.
  rewrite be32_word by done. by destruct d.
Qed.

(** ** Service, short event, extended event *)
Lemma bwrites_sized (l : list Z) : len l < 256 -> bwrites (write_sized l) (byte_bits (sized l)) tt.
Proof.
  intros Hl. eapply bwrites_eq; [unfold write_sized; write_rules| |done]. unfold sized. bits_eq.
  by rewrite u8_small by (unfold len in *; lia).
Qed.

Definition service_bytes (d : DescriptorService) : list Z :=
  [service_Type d] ++ sized (Provider d) ++ sized (service_Name d).
Definition wire_service (d : DescriptorService) : Prop := len (Provider d) < 256 /\ len (service_Name d) < 256.

Lemma writes_service d : wire_service d -> writes (writeDescriptorService d) (byte_bits (service_bytes d)) tt.
Proof.
  intros [Hp Hn]. eapply writes_eq; [unfold writeDescriptorService, done_batch; apply writes_with_batch|..].
  - repeat (eapply bwrites_bind; [first [by apply bwrites_sized|write_call]|]). write_call.
  - unfold service_bytes. bits_eq.
  - done.
Qed.
Lemma reads_service d o : reads o newDescriptorService (service_bytes d) d.
Proof.
  unfold newDescriptorService, service_bytes. rewrite <- (app_nil_r (sized (service_Name d))).
  read_all. by destruct d.
Qed.

Definition short_event_bytes (d : DescriptorShortEvent) : list Z :=
  short_Language d ++ sized (EventName d) ++ sized (short_Text d).
Definition wire_short_event (d : DescriptorShortEvent) : Prop :=
  length (short_Language d) = 3%nat /\ len (EventName d) < 256 /\ len (short_Text d) < 256.

Lemma writes_short_event d : wire_short_event d ->
  writes (writeDescriptorShortEvent d) (byte_bits (short_event_bytes d)) tt.
Proof.
  intros (Hl & Hn & Ht). eapply writes_eq; [unfold writeDescriptorShortEvent, done_batch; apply writes_with_batch|..].
  - repeat (eapply bwrites_bind; [first [by apply bwrites_sized|write_call]|]). write_call.
  - unfold short_event_bytes. bits_eq.
  - done.
Qed.
Lemma reads_short_event d o : wire_short_event d -> reads o newDescriptorShortEvent (short_event_bytes d) d.
Proof.
  intros (Hl & _ & _). unfold newDescriptorShortEvent, short_event_bytes.
  rewrite <- (app_nil_r (sized (short_Text d))). read_all. by destruct d.
Qed.

Definition event_item_bytes (x : DescriptorExtendedEventItem) : list Z :=
  sized (item_Description x) ++ sized (item_Content x).
Definition event_items_bytes (d : DescriptorExtendedEvent) : list Z := ext_Items d ≫= event_item_bytes.
Definition extended_event_bytes (d : DescriptorExtendedEvent) : list Z :=
  [octet (bits_of 4 (Number d) ++ bits_of 4 (LastDescriptorNumber d))] ++ ext_ISO639LanguageCode d
  ++ [len (event_items_bytes d)] ++ event_items_bytes d ++ sized (ext_Text d).

Definition wire_extended_event (d : DescriptorExtendedEvent) : Prop :=
  0 <= Number d < 2 ^ 4 /\ 0 <= LastDescriptorNumber d < 2 ^ 4 /\ length (ext_ISO639LanguageCode d) = 3%nat
  /\ len (event_items_bytes d) < 256 /\ len (ext_Text d) < 256
  /\ Forall (fun x => len (item_Description x) < 256 /\ len (item_Content x) < 256) (ext_Items d).

Lemma items_length_bytes d : items_length (ext_Items d) = len (event_items_bytes d).
Proof.
  unfold event_items_bytes, len. induction (ext_Items d) as [|x l IH]; [done|]. cbn [items_length foldr].
  fold (items_length l). rewrite IH, bind_cons, length_app. unfold event_item_bytes, sized, len.
  rewrite !length_app. cbn [length]. lia.
Qed.

Lemma writes_extended_event d : wire_extended_event d ->
  writes (writeDescriptorExtendedEvent d) (byte_bits (extended_event_bytes d)) tt.
Proof.
  intros (_ & _ & Hl & Hi & Ht & Hx).
  eapply writes_eq; [unfold writeDescriptorExtendedEvent, done_batch; apply writes_with_batch|..].
  - do 4 (eapply bwrites_bind; [write_call|]). eapply bwrites_bind; [apply bwrites_for_each|].
    { eapply Forall_impl; [exact Hx|]. intros x [Hd Hc]. cbv beta in *.
      instantiate (1 := fun x => byte_bits (event_item_bytes x)). unfold event_item_bytes.
      rewrite byte_bits_app. eapply bwrites_bind; by apply bwrites_sized. }
    eapply bwrites_bind; [by apply bwrites_sized|]. write_call.
  - unfold extended_event_bytes, calcDescriptorExtendedEventLength. cbn [snd].
    rewrite items_length_bytes, u8_small by (unfold len in *; lia).
    rewrite <- (byte_bits_items event_item_bytes). fold (event_items_bytes d). bits_eq.
  - done.
Qed.
Lemma reads_extended_event d o : wire_extended_event d ->
  reads o newDescriptorExtendedEvent (extended_event_bytes d) d.
Proof.
  intros (Hn & Hl & Hc & _ & _ & Hx). unfold newDescriptorExtendedEvent, extended_event_bytes.
  rewrite <- (app_nil_r (sized (ext_Text d))). do 3 (read_bind; [read_part|]). read_bind. read_bind.
  { apply reads_items; [|done]. eapply Forall_impl; [exact Hx|]. intros x _.
    split; [unfold event_item_bytes, sized; rewrite length_app; cbn [length app]; lia|]. intros o'.
    unfold newDescriptorExtendedEventItem, event_item_bytes. rewrite <- (app_nil_r (sized (item_Content x))).
    read_part. read_all. by destruct x. }
  read_all. destruct d; cbn in *. fields.
Qed.

(** ** Subtitling and teletext *)
Definition subtitle_bytes (x : DescriptorSubtitlingItem) : list Z :=
  sub_Language x ++ [sub_Type x] ++ be_bytes 2 (CompositionPageID x) ++ be_bytes 2 (AncillaryPageID x).
Definition subtitling_bytes (d : DescriptorSubtitling) : list Z := sub_Items d ≫= subtitle_bytes.
Definition wire_subtitling (d : DescriptorSubtitling) : Prop :=
  Forall (fun x => length (sub_Language x) = 3%nat /\ 0 <= CompositionPageID x < 2 ^ 16
                   /\ 0 <= AncillaryPageID x < 2 ^ 16) (sub_Items d).

Lemma writes_subtitling d : wire_subtitling d -> writes (writeDescriptorSubtitling d) (byte_bits (subtitling_bytes d)) tt.
Proof.
  intros Hd. eapply writes_eq; [unfold writeDescriptorSubtitling, done_batch; apply writes_with_batch|..].
  - eapply bwrites_bind; [apply bwrites_for_each|write_call].
    eapply Forall_impl; [exact Hd|]. intros x (Hx & _). cbv beta in Hx.
    instantiate (1 := fun x => byte_bits (subtitle_bytes x)).
    eapply bwrites_eq; [write_rules|unfold subtitle_bytes; bits_eq|done].
  - unfold subtitling_bytes. by rewrite byte_bits_items, app_nil_r.
  - done.
Qed.
Lemma reads_subtitling d o e : wire_subtitling d -> e = o + len (subtitling_bytes d) ->
  reads o (newDescriptorSubtitling e) (subtitling_bytes d) d.
Proof.
  intros Hd ->. unfold newDescriptorSubtitling, subtitling_bytes. eapply reads_last.
  - apply reads_items; [|done]. eapply Forall_impl; [exact Hd|]. intros x (Hl & Hc & Ha). cbv beta in *.
    split; [unfold subtitle_bytes; rewrite length_app; cbn [length app]; lia|]. intros o'. unfold subtitle_bytes.
    read_all. rewrite !be16_word by done. by destruct x.
  - read_all. by destruct d.
Qed.

Definition page_bytes (x : DescriptorTeletextItem) : list Z :=
  tele_Language x ++ [octet (bits_of 5 (tele_Type x) ++ bits_of 3 (Magazine x))]
  ++ [octet (bits_of 4 (Page x / 10) ++ bits_of 4 (Page x mod 10))].
Definition teletext_bytes (d : DescriptorTeletext) : list Z := tele_Items d ≫= page_bytes.
Definition wire_teletext (d : DescriptorTeletext) : Prop :=
  Forall (fun x => length (tele_Language x) = 3%nat /\ 0 <= tele_Type x < 2 ^ 5
                   /\ 0 <= Magazine x < 2 ^ 3 /\ 0 <= Page x < 100) (tele_Items d).

Lemma writes_teletext d : wire_teletext d -> writes (writeDescriptorTeletext d) (byte_bits (teletext_bytes d)) tt.
Proof.
  intros Hd. eapply writes_eq; [unfold writeDescriptorTeletext, done_batch; apply writes_with_batch|..].
  - eapply bwrites_bind; [apply bwrites_for_each|write_call].
    eapply Forall_impl; [exact Hd|]. intros x (Hx & _). cbv beta in Hx.
    instantiate (1 := fun x => byte_bits (page_bytes x)).
    eapply bwrites_eq; [write_rules|unfold page_bytes; bits_eq|done].
  - unfold teletext_bytes. by rewrite byte_bits_items, app_nil_r.
  - done.
Qed.
Lemma reads_teletext d o e : wire_teletext d -> e = o + len (teletext_bytes d) ->
  reads o (newDescriptorTeletext e) (teletext_bytes d) d.
Proof.
  intros Hd ->. unfold newDescriptorTeletext, teletext_bytes. eapply reads_last.
  - apply reads_items; [|done]. eapply Forall_impl; [exact Hd|]. intros x (Hl & Ht & Hm & Hp). cbv beta in *.
    split; [unfold page_bytes; rewrite length_app; cbn [length app]; lia|]. intros o'. unfold page_bytes.
    read_all. destruct x; cbn in *. f_equal; try first [done|octet_field].
    octet_numbers. arith_masks. Z.to_euclidean_division_equations; lia.
  - read_all. by destruct d.
Qed.

(** ** Language and audio type: one language *)
Definition language_bytes (d : DescriptorISO639LanguageAndAudioType) : list Z := Language d ++ [iso_Type d].

Lemma writes_language d : length (Language d) = 3%nat ->
  writes (writeDescriptorISO639LanguageAndAudioType d) (byte_bits (language_bytes d)) tt.
Proof.
  intros Hl. eapply writes_eq; [unfold writeDescriptorISO639LanguageAndAudioType, done_batch; write_rules|
    unfold language_bytes; bits_eq|done].
Qed.
Lemma reads_language d o e : e = o + len (language_bytes d) ->
  reads o (newDescriptorISO639LanguageAndAudioType e) (language_bytes d) d.
Proof.
  intros ->. unfold newDescriptorISO639LanguageAndAudioType, language_bytes. read_bind.
  eapply reads_last; [apply reads_bytes; unfold len; lia|]. rewrite <- (app_nil_r []).
  eapply reads_bind; [apply reads_must, last_snoc|]. read_part.
  rewrite length_app, Nat.add_sub, take_app_length. by destruct d.
Qed.

(** ** VBI data: the services with one line

    [wire_vbi_service] is a restriction of the specification, not of the code: a
    described service with two lines or more has fields that fit, but the parser of
    the source does not read it back ([data_lines_overrun]). *)
Definition vbi_service_bytes (x : DescriptorVBIDataService) : list Z :=
  [DataServiceID x; 1]
  ++ (match Descriptors x with
      | l :: _ => [octet (bits_of 2 0xff ++ [FieldParity l] ++ bits_of 5 (LineOffset l))]
      | [] => [0xff]
      end).
Definition vbi_bytes (d : DescriptorVBIData) : list Z := Services d ≫= vbi_service_bytes.
Definition wire_vbi_service (x : DescriptorVBIDataService) : Prop :=
  if described_service (DataServiceID x)
  then exists l, Descriptors x = [l] /\ 0 <= LineOffset l < 2 ^ 5
  else Descriptors x = [].
Definition wire_vbi (d : DescriptorVBIData) : Prop := Forall wire_vbi_service (Services d).

Lemma writes_vbi d : wire_vbi d -> writes (writeDescriptorVBIData d) (byte_bits (vbi_bytes d)) tt.
Proof.
  intros Hd. eapply writes_eq; [unfold writeDescriptorVBIData, done_batch; apply writes_with_batch|..].
  - eapply bwrites_bind; [apply bwrites_for_each|write_call].
    eapply Forall_impl; [exact Hd|]. intros x Hx. unfold wire_vbi_service in Hx.
    instantiate (1 := fun x => byte_bits (vbi_service_bytes x)).
    unfold vbi_service_bytes. destruct (described_service _).
    + destruct Hx as (l & -> & _). cbn [length for_each].
      eapply bwrites_eq; [write_rules|bits_eq|done].
    + rewrite Hx. eapply bwrites_eq; [write_rules|bits_eq|done].
  - unfold vbi_bytes. by rewrite byte_bits_items, app_nil_r.
  - done.
Qed.

(** A loop over one item. *)
Lemma reads_one {A} o e (item : M I A) bs a : (0 < length bs)%nat -> e = o + len bs ->
  (forall o, reads o item bs a) -> reads o (items_until e item) bs [a].
Proof.
  intros Hl -> Hr. apply (reads_eq _ _ ([a] ≫= (fun _ => bs)) _ [a]); [|apply app_nil_r|done].
  apply reads_items; [by repeat constructor|]. cbn. by rewrite app_nil_r.
Qed.

Lemma reads_vbi d o e : wire_vbi d -> e = o + len (vbi_bytes d) ->
  reads o (newDescriptorVBIData e) (vbi_bytes d) d.
Proof.
  intros Hd ->. unfold newDescriptorVBIData, vbi_bytes. eapply reads_last.
  - apply reads_items; [|done]. eapply Forall_impl; [exact Hd|]. intros x Hx. unfold wire_vbi_service in Hx.
    split; [unfold vbi_service_bytes; cbn; lia|]. intros o'. unfold newVBIDataService, vbi_service_bytes.
    change ([DataServiceID x; 1] ++ ?l) with ([DataServiceID x] ++ [1] ++ l).
    read_bind; [read_part|]. read_bind; [read_part|]. read_bind.
    destruct (described_service _) eqn:Es.
    + destruct Hx as (l & El & Hl). rewrite El. eapply reads_last; [apply reads_one; [cbn; lia|done|intros; read_all; done]|]. read_part.
      destruct x as [id ls], l as [f lo]; cbn in *. subst. do 3 f_equal; octet_field.
    + rewrite Hx. eapply reads_last; [apply reads_one; [cbn; lia|done|intros; read_all; done]|].
      read_part. by destruct x; cbn in *; subst.
  - read_all. by destruct d.
Qed.
End Bodies.
