(* ===== verification/DeliverySpec.v ===== *)
(** * Delivery systems, extensions and time offsets are read back as written

    The kinds of descriptor whose fields are decimal digits, dates or other
    descriptors. *)

From S2P Require Import Prelude Astikit Codec Descriptor DvbTime DescriptorParse DescriptorWrite.
From S2P Require Import DvbSpec DescriptorSpec.
Local Open Scope Z_scope.

#[local] Arguments octet : simpl never.
#[local] Arguments be_bytes : simpl never.
#[local] Arguments bits_of : simpl never.
#[local] Arguments encodeBCD : simpl never.
#[local] Arguments decodeBCD : simpl never.
#[local] Arguments Z.pow : simpl never.
#[local] Arguments Z.land : simpl never.
#[local] Arguments Z.shiftr : simpl never.
#[local] Arguments Z.shiftl : simpl never.
#[local] Arguments masked : simpl never.

(** ** Flags *)
Lemma bit_b2z b m : bit b m = Z.b2z b * m.
Proof. by destruct b; cbn; rewrite ?Z.mul_1_l. Qed.

Ltac flag_field := rewrite <- ?Z.lor_assoc, ?bit_b2z; field_arith.
Ltac flag_fields := f_equal; first [done | flag_field].

(** The two bytes of a 16-bit number. *)
Definition halves (x : Z) : list Z := [u8 (Z.shiftr x 8); u8 (Z.land x 0xFF)].

Lemma be16_halves x l : 0 <= x < 2 ^ 16 -> be16 (halves x ++ l) 0 = x.
Proof.
  intros Hx. change (2 ^ 16) with 65536 in Hx. unfold be16, halves, byte_at.
  rewrite (u8_small (Z.shiftr x 8)), (u8_small (Z.land x 0xFF)) by (change (2 ^ 8) with 256; arith_masks; Z.to_euclidean_division_equations; lia).
  cbn [Nat.add app lookup list_lookup default from_option id].
  field_arith.
Qed.

(** ** Symbol rates *)
Definition rate_bytes (rate fec : Z) : list Z :=
  encodeBCD (rate / 10) 3 ++ [Z.lor (Z.shiftl (rate mod 10) 4) (Z.land fec 0x0F)].

Lemma length_rate rate fec : length (rate_bytes rate fec) = 4%nat.
Proof. unfold rate_bytes. by rewrite length_app, length_bcd. Qed.

Lemma rate_back rate fec : 0 <= rate < 10 ^ 7 -> 0 <= fec < 2 ^ 4 ->
  symbol_rate (rate_bytes rate fec) = rate /\ Z.land (byte_at (rate_bytes rate fec) 3) 0x0F = fec.
Proof.
  intros Hr Hf. unfold symbol_rate, rate_bytes, byte_at.
  rewrite take_app_length' by (symmetry; apply length_bcd). rewrite lookup_app_r by (rewrite length_bcd; lia).
  rewrite length_bcd. cbn [Nat.sub lookup list_lookup default from_option id].
  change (10 ^ 7) with 10000000 in *. change (2 ^ 4) with 16 in *.
  rewrite decode_encode by (lia || (change (100 ^ Z.of_nat 3) with 1000000; Z.to_euclidean_division_equations; lia)).
  rewrite (u32_small (rate / 10)), (u32_small (rate / 10 * 10)) by (change (2 ^ 32) with 4294967296; Z.to_euclidean_division_equations; lia).
  split; [|field_arith].
  rewrite u32_small; [|change (2 ^ 32) with 4294967296]; arith_masks; arith_lor; Z.to_euclidean_division_equations; lia.
Qed.

Section Bodies.
Context {W : Type} `{ReliableWriter W} {I : Type} `{BytesIteratorLaws I}.

Lemma bwrites_rate rate fec :
  bwrites (write_symbol_rate rate fec) (byte_bits (rate_bytes rate fec)) tt.
Proof. unfold write_symbol_rate, rate_bytes. rewrite byte_bits_app. write_rules. Qed.

(** ** Satellite *)
Definition satellite_flags (d : DescriptorSatelliteDeliverySystem) : Z :=
  Z.lor (Z.lor (Z.lor (Z.lor (bit (WestEastFlag d) 0x80)
    (Z.shiftl (Z.land (Polarization d) 0x3) 5)) (Z.shiftl (Z.land (RollOff d) 0x3) 3))
    (bit (ModulationSystem d) 0x04)) (Z.land (ModulationType d) 0x3).

Definition satellite_bytes (d : DescriptorSatelliteDeliverySystem) : list Z :=
  encodeBCD (sat_Frequency d) 4 ++ halves (OrbitalPosition d) ++ [satellite_flags d]
  ++ rate_bytes (sat_SymbolRate d) (sat_FECInner d).

Definition wire_satellite (d : DescriptorSatelliteDeliverySystem) : Prop :=
  0 <= sat_Frequency d < 10 ^ 8 /\ 0 <= OrbitalPosition d < 2 ^ 16 /\ 0 <= Polarization d < 4
  /\ 0 <= RollOff d < 4 /\ 0 <= ModulationType d < 4
  /\ 0 <= sat_SymbolRate d < 10 ^ 7 /\ 0 <= sat_FECInner d < 2 ^ 4.

Lemma writes_satellite d : writes (writeDescriptorSatelliteDeliverySystem d) (byte_bits (satellite_bytes d)) tt.
Proof.
  eapply writes_eq; [unfold writeDescriptorSatelliteDeliverySystem, done_batch; apply writes_with_batch|..].
  - repeat (eapply bwrites_bind; [first [apply bwrites_rate|write_call]|]). write_call.
  - unfold satellite_bytes, halves, satellite_flags. bits_eq.
  - done.
Qed.

Lemma reads_satellite d o : wire_satellite d ->
  reads o newDescriptorSatelliteDeliverySystem (satellite_bytes d) d.
Proof.
  intros (Hf & Ho & Hp & Hr & Hm & Hs & Hi). unfold newDescriptorSatelliteDeliverySystem, satellite_bytes.
  read_bind; [read_part; by rewrite length_bcd|]. do 2 (read_bind; [read_part|]).
  eapply reads_last; [apply reads_bytes_no_copy; by rewrite length_rate|]. read_part.
  destruct (rate_back _ _ Hs Hi) as [-> ->].
  rewrite decode_encode, u32_small by first [lia | done | change (2 ^ 32) with 4294967296; change (10 ^ 8) with 100000000 in *; lia].
  rewrite <- (app_nil_r (halves _)), be16_halves by done.
  unfold satellite_flags. destruct d; cbn in *. flag_fields.
Qed.
(** ** Terrestrial *)
Definition terrestrial_bytes (d : DescriptorTerrestrialDeliverySystem) : list Z :=
  be_bytes 4 (ter_Frequency d)
  ++ [Z.lor (Z.lor (Z.lor (Z.shiftl (Z.land (ter_Bandwidth d) 0x7) 5)
        (bit (Priority d) 0x10)) (bit (TimeSlicingIndicator d) 0x08)) (bit (MPEFECIndicator d) 0x04)]
  ++ [Z.lor (Z.lor (Z.shiftl (Z.land (Constellation d) 0x3) 6)
        (Z.shiftl (Z.land (HierarchyInformation d) 0x7) 3)) (Z.land (CodeRateHPStream d) 0x7)]
  ++ [Z.lor (Z.lor (Z.lor (Z.shiftl (Z.land (CodeRateLPStream d) 0x7) 5)
        (Z.shiftl (Z.land (ter_GuardInterval d) 0x3) 3))
        (Z.shiftl (Z.land (ter_TransmissionMode d) 0x3) 1)) (bit (ter_OtherFrequencyFlag d) 0x01)]
  ++ be_bytes 4 0xFFFFFFFF.

Definition wire_terrestrial (d : DescriptorTerrestrialDeliverySystem) : Prop :=
  0 <= ter_Frequency d < 2 ^ 32 /\ 0 <= ter_Bandwidth d < 8 /\ 0 <= Constellation d < 4
  /\ 0 <= HierarchyInformation d < 8 /\ 0 <= CodeRateHPStream d < 8 /\ 0 <= CodeRateLPStream d < 8
  /\ 0 <= ter_GuardInterval d < 4 /\ 0 <= ter_TransmissionMode d < 4.

Lemma writes_terrestrial d :
  writes (writeDescriptorTerrestrialDeliverySystem d) (byte_bits (terrestrial_bytes d)) tt.
Proof.
  eapply writes_eq; [unfold writeDescriptorTerrestrialDeliverySystem, done_batch; write_rules|
    unfold terrestrial_bytes; bits_eq|done].
Qed.

Lemma reads_terrestrial d o : wire_terrestrial d ->
  reads o newDescriptorTerrestrialDeliverySystem (terrestrial_bytes d) d.
Proof.
  intros (Hf & Hb & Hc & Hh & Hp & Hl & Hg & Ht).
  unfold newDescriptorTerrestrialDeliverySystem, terrestrial_bytes. read_all.
  rewrite be32_word by done. destruct d; cbn in *. flag_fields.
Qed.

(** ** Cable *)
Definition cable_bytes (d : DescriptorCableDeliverySystem) : list Z :=
  encodeBCD (cable_Frequency d) 4 ++ [0xFF; Z.lor 0xF0 (Z.land (FECOuter d) 0x0F)] ++ [Modulation d]
  ++ rate_bytes (cable_SymbolRate d) (cable_FECInner d).

Definition wire_cable (d : DescriptorCableDeliverySystem) : Prop :=
  0 <= cable_Frequency d < 10 ^ 8 /\ 0 <= FECOuter d < 2 ^ 4
  /\ 0 <= cable_SymbolRate d < 10 ^ 7 /\ 0 <= cable_FECInner d < 2 ^ 4.

Lemma writes_cable d : writes (writeDescriptorCableDeliverySystem d) (byte_bits (cable_bytes d)) tt.
Proof.
  eapply writes_eq; [unfold writeDescriptorCableDeliverySystem, done_batch; apply writes_with_batch|..].
  - repeat (eapply bwrites_bind; [first [apply bwrites_rate|write_call]|]). write_call.
  - unfold cable_bytes. bits_eq.
  - done.
Qed.

Lemma reads_cable d o : wire_cable d -> reads o newDescriptorCableDeliverySystem (cable_bytes d) d.
Proof.
  intros (Hf & Ho & Hs & Hi). unfold newDescriptorCableDeliverySystem, cable_bytes.
  read_bind; [read_part; by rewrite length_bcd|]. do 2 (read_bind; [read_part|]).
  eapply reads_last; [apply reads_bytes_no_copy; by rewrite length_rate|]. read_part.
  destruct (rate_back _ _ Hs Hi) as [-> ->].
  rewrite decode_encode, u32_small by first [lia | done | change (2 ^ 32) with 4294967296; change (10 ^ 8) with 100000000 in *; lia].
  destruct d; cbn in *. f_equal. change 0xF0 with (15 * 16). flag_field.
Qed.

(** ** Local time offsets *)
Definition offset_bytes (x : DescriptorLocalTimeOffsetItem) : list Z :=
  lto_CountryCode x ++ [octet (bits_of 6 (CountryRegionID x) ++ bits_of 1 0xff ++ [LocalTimeOffsetPolarity x])]
  ++ minutes_bytes (item_LocalTimeOffset x) ++ time_bytes (TimeOfChange x) ++ minutes_bytes (NextTimeOffset x).
Definition offsets_bytes (d : DescriptorLocalTimeOffset) : list Z := lto_Items d ≫= offset_bytes.

Definition wire_offset (x : DescriptorLocalTimeOffsetItem) : Prop :=
  length (lto_CountryCode x) = 3%nat /\ 0 <= CountryRegionID x < 2 ^ 6 /\ wire_minutes (item_LocalTimeOffset x)
  /\ wire_time (TimeOfChange x) /\ wire_minutes (NextTimeOffset x).
Definition wire_offsets (d : DescriptorLocalTimeOffset) : Prop := Forall wire_offset (lto_Items d).

Lemma writes_offsets d : wire_offsets d -> writes (writeDescriptorLocalTimeOffset d) (byte_bits (offsets_bytes d)) tt.
Proof.
  intros Hd. eapply writes_eq; [unfold writeDescriptorLocalTimeOffset, done_batch; apply writes_with_batch|..].
  - eapply bwrites_bind; [apply bwrites_for_each|write_call].
    eapply Forall_impl; [exact Hd|]. intros x (Hl & _ & _ & Ht & _).
    instantiate (1 := fun x => byte_bits (offset_bytes x)).
    eapply bwrites_eq; [do 4 (eapply bwrites_bind; [write_call|]);
      repeat (eapply bwrites_bind; [apply bwrites_on_snd; first [apply writes_minutes|by apply writes_time]|]);
      write_call|unfold offset_bytes; bits_eq|done].
  - unfold offsets_bytes. by rewrite byte_bits_items, app_nil_r.
  - done.
Qed.

Lemma reads_offsets d o e : wire_offsets d -> e = o + len (offsets_bytes d) ->
  reads o (newDescriptorLocalTimeOffset e) (offsets_bytes d) d.
Proof.
  intros Hd ->. unfold newDescriptorLocalTimeOffset, offsets_bytes. eapply reads_last.
  - apply reads_items; [|done]. eapply Forall_impl; [exact Hd|]. intros x (Hl & Hr & Hf & Ht & Hn).
    split; [unfold offset_bytes; rewrite length_app, Hl; lia|]. intros o'.
    unfold offset_bytes, newDescriptorLocalTimeOffsetItem.
    do 2 (read_bind; [read_part|]). read_bind; [by apply reads_wrap, reads_minutes|].
    read_bind; [by apply reads_wrap, reads_time|]. read_bind; [by apply reads_wrap, reads_minutes|]. read_part.
    destruct x; cbn in *. fields.
  - read_all. by destruct d.
Qed.
(** ** Extensions *)
Definition supplementary_bytes (d : DescriptorExtensionSupplementaryAudio) : list Z :=
  [octet ([MixType d] ++ bits_of 5 (EditorialClassification d) ++ [true; HasLanguageCode d])]
  ++ (if HasLanguageCode d then LanguageCode d else []) ++ sup_PrivateData d.

Definition wire_supplementary (d : DescriptorExtensionSupplementaryAudio) : Prop :=
  0 <= EditorialClassification d < 2 ^ 5
  /\ (if HasLanguageCode d then length (LanguageCode d) = 3%nat else LanguageCode d = []).

Lemma writes_supplementary d : wire_supplementary d ->
  writes (writeDescriptorExtensionSupplementaryAudio d) (byte_bits (supplementary_bytes d)) tt.
Proof.
  intros [_ Hl]. eapply writes_eq;
    [unfold writeDescriptorExtensionSupplementaryAudio, done_batch; apply writes_with_batch|..].
  - do 4 (eapply bwrites_bind; [write_call|]). eapply bwrites_bind; [|write_rules].
    apply (bwrites_when _ _ (byte_bits (LanguageCode d))). intros E. rewrite E in Hl. write_call.
  - unfold supplementary_bytes. bits_eq.
  - done.
Qed.

Lemma reads_supplementary d o e : wire_supplementary d -> e = o + len (supplementary_bytes d) ->
  reads o (newDescriptorExtensionSupplementaryAudio e) (supplementary_bytes d) d.
Proof.
  intros [He Hl] ->. unfold newDescriptorExtensionSupplementaryAudio, supplementary_bytes.
  match goal with |- context [octet ?l] =>
    assert (masked (octet l) 0x1 = HasLanguageCode d) as E1 by octet_field;
    assert (masked (octet l) 0x80 = MixType d) as E2 by octet_field;
    assert (Z.land (Z.shiftr (octet l) 2) 0x1f = EditorialClassification d) as E3 by octet_field
  end.
  read_bind; [read_part|]. rewrite E1, E2, E3.
  eapply (reads_bind _ _ _ _ _ (LanguageCode d)).
  - destruct (HasLanguageCode d); [by read_part|]. rewrite Hl. apply reads_ret.
  - read_all. destruct d as [? [] ???]; cbn in *; by subst.
Qed.

(** The T2 delivery system: cells and their frequencies. *)
Definition cell_bytes (x : T2Cell) : list Z :=
  halves (CellID x) ++ [len (CentreFrequencies x) * 4] ++ (CentreFrequencies x ≫= be_bytes 4).
Definition t2_flags (d : DescriptorExtensionT2DeliverySystem) : list Z :=
  [Z.lor (Z.shiftl (Z.land (SISOorMISO d) 0x3) 6) (Z.shiftl (Z.land (t2_Bandwidth d) 0x0F) 2);
   Z.lor (Z.lor (Z.lor (Z.shiftl (Z.land (t2_GuardInterval d) 0x7) 5)
     (Z.shiftl (Z.land (t2_TransmissionMode d) 0x7) 2))
     (bit (t2_OtherFrequencyFlag d) 0x02)) (bit (TFSFlag d) 0x01)].
Definition t2_bytes (d : DescriptorExtensionT2DeliverySystem) : list Z :=
  [PLPID d] ++ halves (T2SystemID d)
  ++ (if HasExtendedInfo d then t2_flags d ++ (Cells d ≫= cell_bytes) else []).

Definition wire_cell (x : T2Cell) : Prop :=
  0 <= CellID x < 2 ^ 16 /\ len (CentreFrequencies x) < 64
  /\ Forall (fun f => 0 <= f < 2 ^ 32) (CentreFrequencies x).
Definition wire_t2 (d : DescriptorExtensionT2DeliverySystem) : Prop :=
  0 <= T2SystemID d < 2 ^ 16
  /\ if HasExtendedInfo d then
       0 <= SISOorMISO d < 4 /\ 0 <= t2_Bandwidth d < 16 /\ 0 <= t2_GuardInterval d < 8
       /\ 0 <= t2_TransmissionMode d < 8 /\ Forall wire_cell (Cells d)
     else d = {| PLPID := PLPID d; T2SystemID := T2SystemID d; HasExtendedInfo := false; SISOorMISO := 0;
                 t2_Bandwidth := 0; t2_GuardInterval := 0; t2_TransmissionMode := 0;
                 t2_OtherFrequencyFlag := false; TFSFlag := false; Cells := [] |}.

Lemma length_frequencies l : len (l ≫= be_bytes 4) = len l * 4.
Proof.
  unfold len. induction l as [|x l IH]; [done|]. rewrite bind_cons, length_app, length_be. cbn [length]. lia.
Qed.

Lemma bwrites_cell x : wire_cell x -> bwrites (writeT2Cell x) (byte_bits (cell_bytes x)) tt.
Proof.
  intros (_ & Hl & _). eapply bwrites_eq;
    [unfold writeT2Cell; do 3 (eapply bwrites_bind; [write_call|]); apply bwrites_for_each, Forall_true;
     intros f; write_call|..].
  - unfold cell_bytes, halves. rewrite (u8_small (_ * 4)) by (unfold len in *; lia). bits_eq.
    rewrite !app_assoc. f_equal. apply list_bind_ext; [|done]. intros f. by rewrite byte_bits_be.
  - done.
Qed.

Lemma reads_cell x o : wire_cell x -> reads o newT2Cell (cell_bytes x) x.
Proof.
  intros (Hi & Hl & Hf). unfold newT2Cell, cell_bytes.
  do 2 (read_bind; [read_part|]). read_bind. eapply reads_last.
  - apply (reads_items _ _ _ (be_bytes 4)); [|f_equal; symmetry; apply length_frequencies].
    eapply Forall_impl; [exact Hf|]. intros f Hr. split; [rewrite length_be; lia|]. intros o'.
    read_all. by rewrite be32_word.
  - read_part. rewrite <- (app_nil_r (halves _)), be16_halves by done. by destruct x.
Qed.

Lemma writes_t2 d : wire_t2 d -> writes (writeDescriptorExtensionT2DeliverySystem d) (byte_bits (t2_bytes d)) tt.
Proof.
  intros [_ Hd]. eapply writes_eq;
    [unfold writeDescriptorExtensionT2DeliverySystem, done_batch; apply writes_with_batch|..].
  - do 3 (eapply bwrites_bind; [write_call|]). eapply bwrites_bind; [|write_rules].
    apply (bwrites_when _ _ (byte_bits (t2_flags d ++ (Cells d ≫= cell_bytes)))). intros E. rewrite E in Hd.
    destruct Hd as (_ & _ & _ & _ & Hc).
    eapply bwrites_eq; [do 2 (eapply bwrites_bind; [write_call|]); apply bwrites_for_each;
      eapply Forall_impl; [exact Hc|apply bwrites_cell]|unfold t2_flags; bits_eq|done].
  - unfold t2_bytes, halves. destruct (HasExtendedInfo d); bits_eq.
  - done.
Qed.

Lemma reads_t2 d o e : wire_t2 d -> e = o + len (t2_bytes d) ->
  reads o (newDescriptorExtensionT2DeliverySystem e) (t2_bytes d) d.
Proof.
  intros [Hi Hd] ->. unfold newDescriptorExtensionT2DeliverySystem, t2_bytes.
  do 2 (read_bind; [read_part|]). read_bind.
  rewrite <- (app_nil_r (halves _)), be16_halves, app_nil_r by done.
  destruct (HasExtendedInfo d) eqn:E.
  - destruct Hd as (Hs & Hb & Hg & Ht & Hc). rewrite (proj2 (Z.ltb_lt _ _)) by (unfold t2_flags; offset_eq).
    unfold t2_flags. change ([?x; ?y] ++ ?l) with ([x] ++ [y] ++ l).
    do 2 (read_bind; [read_part|]). eapply reads_last.
    + apply reads_items; [|offset_eq]. eapply Forall_impl; [exact Hc|]. intros x Hx.
      split; [unfold cell_bytes; rewrite length_app; cbn [length halves]; lia|]. intros o'. by apply reads_cell.
    + read_part. destruct d; cbn in *. subst. flag_fields.
  - rewrite (proj2 (Z.ltb_ge _ _)) by offset_eq. read_part. by rewrite Hd.
Qed.

#[local] Arguments t2_bytes : simpl never.
#[local] Arguments supplementary_bytes : simpl never.
Definition extension_bytes (d : DescriptorExtension) : list Z :=
  [extension_Tag d]
  ++ match T2DeliverySystem d, SupplementaryAudio d, extension_Unknown d with
     | Some t, _, _ => t2_bytes t
     | _, Some t, _ => supplementary_bytes t
     | _, _, Some b => b
     | _, _, _ => []
     end.

(** The tag selects the part that is there. *)
Definition wire_extension (d : DescriptorExtension) : Prop :=
  if extension_Tag d =? DescriptorTagExtensionT2DeliverySystem then
    SupplementaryAudio d = None /\ extension_Unknown d = None
    /\ exists t, T2DeliverySystem d = Some t /\ wire_t2 t
  else if extension_Tag d =? DescriptorTagExtensionSupplementaryAudio then
    T2DeliverySystem d = None /\ extension_Unknown d = None
    /\ exists t, SupplementaryAudio d = Some t /\ wire_supplementary t
  else T2DeliverySystem d = None /\ SupplementaryAudio d = None /\ is_Some (extension_Unknown d).

Lemma writes_extension d : wire_extension d ->
  writes (writeDescriptorExtension d) (byte_bits (extension_bytes d)) tt.
Proof.
  unfold wire_extension. intros Hd. unfold writeDescriptorExtension, done_batch. apply writes_with_batch.
  unfold extension_bytes. rewrite byte_bits_app. eapply bwrites_bind; [write_call|].
  match goal with |- bwrites _ ?l _ => rewrite <- (app_nil_r l) end.
  eapply bwrites_bind; [|write_call].
  destruct (_ =? DescriptorTagExtensionT2DeliverySystem);
    [|destruct (_ =? DescriptorTagExtensionSupplementaryAudio)].
  - destruct Hd as (-> & -> & t & -> & Ht). by apply bwrites_on_snd, writes_t2.
  - destruct Hd as (-> & -> & t & -> & Ht). by apply bwrites_on_snd, writes_supplementary.
  - destruct Hd as (-> & -> & b & ->). write_call.
Qed.

Lemma reads_extension d o e : wire_extension d -> e = o + len (extension_bytes d) ->
  reads o (newDescriptorExtension e) (extension_bytes d) d.
Proof.
  unfold wire_extension. intros Hd ->. unfold newDescriptorExtension, extension_bytes.
  read_bind; [read_part|].
  destruct (_ =? DescriptorTagExtensionT2DeliverySystem);
    [|destruct (_ =? DescriptorTagExtensionSupplementaryAudio)]; destruct d; cbn in *.
  - destruct Hd as (-> & -> & t & -> & Ht).
    eapply reads_last; [apply reads_wrap, reads_t2; [done|offset_eq]|]. by read_part.
  - destruct Hd as (-> & -> & t & -> & Ht).
    eapply reads_last; [apply reads_wrap, reads_supplementary; [done|offset_eq]|]. by read_part.
  - destruct Hd as (-> & -> & b & ->). by read_all.
Qed.
End Bodies.
