(* ===== verification/DescriptorRoundTrip.v ===== *)
(** * Descriptors and lists of descriptors are read back as they were written

    The kinds of DescriptorSpec.v and DeliverySpec.v behind the tags that select
    them, with the lengths that the writer computes. *)

From S2P Require Import Prelude Astikit Codec Descriptor DvbTime DescriptorParse DescriptorWrite.
From S2P Require Import DvbSpec DescriptorSpec DeliverySpec.
Local Open Scope Z_scope.

#[local] Arguments octet : simpl never.
#[local] Arguments be_bytes : simpl never.
#[local] Arguments bits_of : simpl never.
#[local] Arguments encodeBCD : simpl never.
#[local] Arguments Z.pow : simpl never.
#[local] Arguments Z.land : simpl never.
#[local] Arguments Z.shiftr : simpl never.
#[local] Arguments Z.shiftl : simpl never.

(** ** The bytes of a body *)
Definition body_bytes (b : descriptor_body) : list Z :=
  match b with
  | NoBody => []
  | UserDefined data => data
  | AC3 d => ac3_bytes d
  | AVCVideo d => avc_video_bytes d
  | CableDeliverySystem d => cable_bytes d
  | Component d => component_bytes d
  | Content d => content_bytes d
  | DataStreamAlignment d => [alignment_Type d]
  | EnhancedAC3 d => eac3_bytes d
  | ExtendedEvent d => extended_event_bytes d
  | Extension d => extension_bytes d
  | ISO639LanguageAndAudioType d => language_bytes d
  | LocalTimeOffset d => offsets_bytes d
  | MaximumBitrate d => bitrate_bytes d
  | NetworkName d => network_Name d
  | ParentalRating d => rating_bytes d
  | PrivateDataIndicator d => be_bytes 4 (Indicator d)
  | PrivateDataSpecifier d => be_bytes 4 (Specifier d)
  | Registration d => registration_bytes d
  | SatelliteDeliverySystem d => satellite_bytes d
  | Service d => service_bytes d
  | ShortEvent d => short_event_bytes d
  | StreamIdentifier d => [ComponentTag d]
  | Subtitling d => subtitling_bytes d
  | Teletext d | VBITeletext d => teletext_bytes d
  | TerrestrialDeliverySystem d => terrestrial_bytes d
  | Unknown d => unknown_Content d
  | VBIData d => vbi_bytes d
  end.

(** The tags that select a body of their own. *)
Definition known_tags : list Z :=
  [DescriptorTagAC3; DescriptorTagAVCVideo; DescriptorTagComponent; DescriptorTagContent;
   DescriptorTagDataStreamAlignment; DescriptorTagEnhancedAC3; DescriptorTagExtendedEvent;
   DescriptorTagExtension; DescriptorTagISO639LanguageAndAudioType; DescriptorTagLocalTimeOffset;
   DescriptorTagMaximumBitrate; DescriptorTagNetworkName; DescriptorTagParentalRating;
   DescriptorTagPrivateDataIndicator; DescriptorTagPrivateDataSpecifier; DescriptorTagRegistration;
   DescriptorTagService; DescriptorTagShortEvent; DescriptorTagStreamIdentifier;
   DescriptorTagSubtitling; DescriptorTagTeletext; DescriptorTagSatelliteDeliverySystem;
   DescriptorTagCableDeliverySystem; DescriptorTagVBIData; DescriptorTagVBITeletext;
   DescriptorTagTerrestrialDeliverySystem].

(** The tag selects the body and the fields of the body fit their bits. *)
Definition wire_body (tag : Z) (b : descriptor_body) : Prop :=
  match b with
  | NoBody => True
  | UserDefined _ => user_tag tag = true
  | AC3 d => tag = DescriptorTagAC3 /\ wire_ac3 d
  | AVCVideo d => tag = DescriptorTagAVCVideo /\ wire_avc_video d
  | CableDeliverySystem d => tag = DescriptorTagCableDeliverySystem /\ wire_cable d
  | Component d => tag = DescriptorTagComponent /\ wire_component d
  | Content d => tag = DescriptorTagContent /\ wire_content d
  | DataStreamAlignment _ => tag = DescriptorTagDataStreamAlignment
  | EnhancedAC3 d => tag = DescriptorTagEnhancedAC3 /\ wire_eac3 d
  | ExtendedEvent d => tag = DescriptorTagExtendedEvent /\ wire_extended_event d
  | Extension d => tag = DescriptorTagExtension /\ wire_extension d
  | ISO639LanguageAndAudioType d =>
      tag = DescriptorTagISO639LanguageAndAudioType /\ length (Language d) = 3%nat
  | LocalTimeOffset d => tag = DescriptorTagLocalTimeOffset /\ wire_offsets d
  | MaximumBitrate d => tag = DescriptorTagMaximumBitrate /\ wire_bitrate d
  | NetworkName _ => tag = DescriptorTagNetworkName
  | ParentalRating d => tag = DescriptorTagParentalRating /\ wire_rating d
  | PrivateDataIndicator d => tag = DescriptorTagPrivateDataIndicator /\ 0 <= Indicator d < 2 ^ 32
  | PrivateDataSpecifier d => tag = DescriptorTagPrivateDataSpecifier /\ 0 <= Specifier d < 2 ^ 32
  | Registration d => tag = DescriptorTagRegistration /\ 0 <= FormatIdentifier d < 2 ^ 32
  | SatelliteDeliverySystem d => tag = DescriptorTagSatelliteDeliverySystem /\ wire_satellite d
  | Service d => tag = DescriptorTagService /\ wire_service d
  | ShortEvent d => tag = DescriptorTagShortEvent /\ wire_short_event d
  | StreamIdentifier _ => tag = DescriptorTagStreamIdentifier
  | Subtitling d => tag = DescriptorTagSubtitling /\ wire_subtitling d
  | Teletext d => tag = DescriptorTagTeletext /\ wire_teletext d
  | TerrestrialDeliverySystem d => tag = DescriptorTagTerrestrialDeliverySystem /\ wire_terrestrial d
  | Unknown d => unknown_Tag d = tag /\ user_tag tag = false /\ existsb (Z.eqb tag) known_tags = false
  | VBIData d => tag = DescriptorTagVBIData /\ wire_vbi d
  | VBITeletext d => tag = DescriptorTagVBITeletext /\ wire_teletext d
  end.

(** The declared length is that of the body, and only an empty one has no body. *)
Definition wire_descriptor (x : Descriptor) : Prop :=
  wire_body (Tag x) (body x) /\ desc_Length x = len (body_bytes (body x)) /\ desc_Length x < 256
  /\ (body x = NoBody <-> desc_Length x = 0).

Definition descriptor_bytes (x : Descriptor) : list Z :=
  [Tag x; desc_Length x] ++ body_bytes (body x).

(** A 12-bit length after four bits, and the descriptors. *)
Definition descriptors_bytes (ds : list Descriptor) : list Z :=
  bytes_of_bits (bits_of 4 0xff ++ bits_of 12 (len (ds ≫= descriptor_bytes))) ++ (ds ≫= descriptor_bytes).

Definition wire_descriptors (ds : list Descriptor) : Prop :=
  Forall wire_descriptor ds /\ len (ds ≫= descriptor_bytes) < 2 ^ 12.

(** ** Dispatch on the tag *)
Lemma unknown_tag tag : existsb (Z.eqb tag) known_tags = false ->
  Forall (fun c => (tag =? c) = false) known_tags.
Proof.
  intros Hk. apply Forall_forall. intros c Hc. apply not_true_is_false. intros E.
  assert (existsb (Z.eqb tag) known_tags = true); [|congruence].
  apply existsb_exists. exists c. split; [by apply list_elem_of_In|done].
Qed.

(** Selects the branch of a constant tag, of a user-defined one or of an unknown one. *)
Ltac dispatch :=
  repeat match goal with
  | H : user_tag ?t = _ |- context [user_tag ?t] => rewrite H; cbv iota
  | H : (?t =? ?c) = false |- context [?t =? ?c] => rewrite H; cbv iota
  | |- context [if ?c then _ else _] =>
      let v := eval vm_compute in c in
      lazymatch v with true => change c with true | false => change c with false end; cbv iota
  end.
Ltac unknown H :=
  apply unknown_tag in H; unfold known_tags in H; rewrite !Forall_cons in H; destruct_and! H.

(** ** The computed lengths are those of the bytes *)
Lemma len_cons x l : len (x :: l) = 1 + len l.
Proof. unfold len. cbn [length]. lia. Qed.
Lemma len_nil : len [] = 0.
Proof. done. Qed.
Lemma len_if (b : bool) l1 l2 : len (if b then l1 else l2) = if b then len l1 else len l2.
Proof. by destruct b. Qed.
Lemma len_be k x : len (be_bytes k x) = Z.of_nat k.
Proof. unfold len. by rewrite length_be. Qed.
Lemma len_bcd v n : len (encodeBCD v n) = Z.of_nat n.
Proof. unfold len. by rewrite length_bcd. Qed.
Lemma len_range l : 0 <= len l.
Proof. unfold len. lia. Qed.

(** Items of the same size. *)
Lemma len_items {A} (g : A -> list Z) k xs : Forall (fun x => len (g x) = k) xs ->
  len (xs ≫= g) = k * Z.of_nat (length xs).
Proof.
  induction 1 as [|x xs Hx _ IH]; [by rewrite Z.mul_0_r|].
  rewrite bind_cons, len_app, Hx, IH. cbn [length]. lia.
Qed.

Ltac lens :=
  rewrite ?len_app, ?len_if, ?len_cons, ?len_be, ?len_bcd, ?len_nil in *.

Lemma length_extension d : wire_extension d -> len (extension_bytes d) < 256 ->
  calcDescriptorExtensionLength d = len (extension_bytes d).
Proof.
  intros Hd Hl. unfold calcDescriptorExtensionLength. pose proof (len_range (extension_bytes d)).
  match goal with |- u8 ?x = _ => assert (x = len (extension_bytes d)) as ->; [|by apply u8_small] end.
  unfold wire_extension in Hd. unfold extension_bytes. rewrite len_app.
  destruct (_ =? DescriptorTagExtensionT2DeliverySystem);
    [|destruct (_ =? DescriptorTagExtensionSupplementaryAudio)].
  - destruct Hd as (-> & -> & t & -> & _ & Ht). f_equal.
    unfold calcDescriptorExtensionT2DeliverySystemLength, t2_bytes, halves, t2_flags. lens.
    destruct (HasExtendedInfo t); lens; [|lia]. clear. induction (Cells t) as [|c l IH]; [done|].
    cbn [foldr]. rewrite bind_cons. unfold cell_bytes, halves in *. lens. rewrite length_frequencies. lia.
  - destruct Hd as (-> & -> & t & -> & _ & Ht). f_equal.
    unfold calcDescriptorExtensionSupplementaryAudioLength, supplementary_bytes. lens.
    destruct (HasLanguageCode t); unfold len in *; lia.
  - destruct Hd as (-> & -> & b & ->). by lens.
Qed.

Lemma len_language (l : list Z) : length l = 3%nat -> len l = 3.
Proof. unfold len. by intros ->. Qed.

Lemma u8_len x l : x = len l -> len l < 256 -> u8 x = len l.
Proof. intros -> Hl. pose proof (len_range l). by apply u8_small. Qed.

Create HintDb lengths.
#[local] Hint Unfold calcDescriptorAC3Length calcDescriptorComponentLength calcDescriptorContentLength
  calcDescriptorEnhancedAC3Length calcDescriptorExtendedEventLength calcDescriptorLocalTimeOffsetLength
  calcDescriptorNetworkNameLength calcDescriptorParentalRatingLength calcDescriptorRegistrationLength
  calcDescriptorServiceLength calcDescriptorShortEventLength calcDescriptorSubtitlingLength
  calcDescriptorTeletextLength calcDescriptorUnknownLength calcDescriptorVBIDataLength
  calcDescriptorISO639LanguageAndAudioTypeLength calcDescriptorSatelliteDeliverySystemLength
  calcDescriptorTerrestrialDeliverySystemLength calcDescriptorCableDeliverySystemLength : lengths.
#[local] Hint Unfold wire_component wire_content wire_rating wire_extended_event wire_short_event
  wire_subtitling wire_teletext wire_vbi wire_vbi_service wire_offsets wire_offset : lengths.
#[local] Hint Unfold ac3_bytes component_bytes content_bytes eac3_bytes extended_event_bytes offsets_bytes
  rating_bytes registration_bytes service_bytes short_event_bytes subtitling_bytes teletext_bytes vbi_bytes
  event_item_bytes content_item_bytes rating_item_bytes subtitle_bytes page_bytes offset_bytes
  vbi_service_bytes language_bytes satellite_bytes terrestrial_bytes cable_bytes rate_bytes halves sized : lengths.

Ltac language_lengths := repeat match goal with H : length _ = 3%nat |- _ => apply len_language in H end.

Lemma len_minutes d : len (minutes_bytes d) = 2.
Proof. done. Qed.
Lemma len_time t : len (time_bytes t) = 5.
Proof. unfold time_bytes. rewrite len_app. unfold len. by rewrite (length_group _ 2) by apply length_bits_of. Qed.

Lemma calc_length x : wire_body (Tag x) (body x) -> len (body_bytes (body x)) < 256 ->
  calcDescriptorLength x = len (body_bytes (body x)).
Proof.
  destruct x as [tag n b]. cbn [Tag body]. unfold calcDescriptorLength. cbn [Tag body].
  destruct b; cbn [wire_body body_bytes]; intros Hw Hl.
  1: by destruct (user_tag tag); [|repeat destruct (_ =? _)].
  1: dispatch; by apply u8_len.
  25: destruct Hw as (_ & Hu & Hw); unknown Hw; dispatch; by apply u8_len.
  all: first [subst tag | destruct Hw as [-> Hw]]; dispatch; try done.
  all: try by apply length_extension.
  all: autounfold with lengths in *; try (apply u8_len; [|exact Hl]); clear Hl.
  all: try (symmetry; apply len_items; eapply Forall_impl; [exact Hw|]; clear Hw; intros y Hw;
            autounfold with lengths in Hw |- *).
  all: destruct_and?; language_lengths; lens; rewrite ?len_minutes, ?len_time; unfold count, octet.
  all: rewrite ?items_length_bytes; try solve [repeat case_match; lia].
  by destruct (Descriptors y).
Qed.

(** ** Writing and reading *)
Section RoundTrip.
Context {W : Type} `{ReliableWriter W} {I : Type} `{BytesIteratorLaws I}.

Lemma writes_data l : writes (with_batch (BWrite (WBytes l);; done_batch)) (byte_bits l) tt.
Proof.
  unfold done_batch. eapply writes_eq; [write_rules|by rewrite app_nil_r|done].
Qed.

Lemma writes_body x : wire_body (Tag x) (body x) -> body x <> NoBody ->
  writes (write_body x) (byte_bits (body_bytes (body x))) tt.
Proof.
  destruct x as [tag n b]. cbn [Tag body]. unfold write_body. cbn [Tag body].
  destruct b; cbn [wire_body body_bytes]; intros Hw Hn; [done|..].
  1: dispatch; apply writes_data.
  25: destruct Hw as (_ & Hu & Hw); unknown Hw; dispatch; apply writes_data.
  all: first [subst tag | destruct Hw as [-> Hw]]; dispatch.
  - by apply writes_ac3.
  - by apply writes_avc_video.
  - by apply writes_cable.
  - by apply writes_component.
  - by apply writes_content.
  - by apply writes_alignment.
  - by apply writes_eac3.
  - by apply writes_extended_event.
  - by apply writes_extension.
  - by apply writes_language.
  - by apply writes_offsets.
  - by apply writes_bitrate.
  - by apply writes_network.
  - by apply writes_rating.
  - by apply writes_indicator.
  - by apply writes_specifier.
  - by apply writes_registration.
  - by apply writes_satellite.
  - by apply writes_service.
  - by apply writes_short_event.
  - by apply writes_identifier.
  - by apply writes_subtitling.
  - by apply writes_teletext.
  - by apply writes_terrestrial.
  - by apply writes_vbi.
  - by apply writes_teletext.
Qed.

Lemma reads_body tag b o e : wire_body tag b -> b <> NoBody -> e = o + len (body_bytes b) ->
  reads o (parse_body tag (len (body_bytes b)) e) (body_bytes b) b.
Proof.
  unfold parse_body. destruct b; cbn [wire_body body_bytes]; intros Hw Hn He; [done|..].
  1: dispatch; eapply reads_last; [by apply reads_bytes|apply reads_ret].
  25: destruct d as [content t], Hw as (Ht & Hu & Hw); cbn in *; subst t; unknown Hw; dispatch;
    (eapply reads_last; [apply reads_wrap; unfold newDescriptorUnknown;
      eapply reads_last; [by apply reads_bytes|apply reads_ret]|apply reads_ret]).
  all: first [subst tag | destruct Hw as [-> Hw]]; dispatch; (eapply reads_last; [apply reads_wrap|apply reads_ret]).
  - by apply reads_ac3.
  - by apply reads_avc_video.
  - by apply reads_cable.
  - by apply reads_component.
  - by apply reads_content.
  - by apply reads_alignment.
  - by apply reads_eac3.
  - by apply reads_extended_event.
  - by apply reads_extension.
  - by apply reads_language.
  - by apply reads_offsets.
  - by apply reads_bitrate.
  - by apply reads_network.
  - by apply reads_rating.
  - by apply reads_indicator.
  - by apply reads_specifier.
  - by apply reads_registration.
  - by apply reads_satellite.
  - by apply reads_service.
  - by apply reads_short_event.
  - by apply reads_identifier.
  - by apply reads_subtitling.
  - by apply reads_teletext.
  - by apply reads_terrestrial.
  - by apply reads_vbi.
  - by apply reads_teletext.
Qed.

(** ** Descriptors *)
Lemma writes_descriptor x : wire_descriptor x ->
  writes (writeDescriptor x) (byte_bits (descriptor_bytes x)) (len (descriptor_bytes x)).
Proof.
  intros (Hw & Hl & Hb & Hn). unfold writeDescriptor, descriptor_bytes. rewrite byte_bits_app.
  assert (writes (when (negb (desc_Length x =? 0)) (write_body x)) (byte_bits (body_bytes (body x))) tt).
  { destruct (desc_Length x =? 0) eqn:E; cbn [negb when].
    - rewrite (proj2 Hn) by lia. apply writes_ret.
    - apply writes_body; [done|]. intros En. apply Hn in En. lia. }
  rewrite calc_length by (done || lia). rewrite <- Hl. eapply writes_eq.
  - eapply writes_bind; [unfold done_batch; write_rules|]. eapply writes_bind; [done|write_call].
  - cbn [app]. by rewrite !app_nil_r, <- app_assoc.
  - rewrite len_app. rewrite Hl. unfold len. cbn [length]. lia.
Qed.

Lemma reads_descriptor x o : wire_descriptor x -> reads o parseDescriptor (descriptor_bytes x) x.
Proof.
  intros (Hw & Hl & Hb & Hn). unfold parseDescriptor, descriptor_bytes.
  eapply reads_bind; [by apply reads_bytes_no_copy|].
  unfold byte_at. cbn [lookup list_lookup default from_option id length].
  destruct (0 <? desc_Length x) eqn:E.
  - apply reads_at. rewrite Hl. eapply reads_last; [apply reads_body; [done| |done]|].
    { intros En. apply Hn in En. lia. }
    rewrite <- (app_nil_r []). eapply reads_bind; [by apply reads_seek|].
    eapply reads_eq; [apply reads_ret|done|]. rewrite <- Hl. by destruct x.
  - pose proof (len_range (body_bytes (body x))). rewrite (proj2 Hn) by lia. cbn [body_bytes].
    eapply reads_eq; [apply reads_ret|done|]. assert (desc_Length x = 0) as E0 by lia.
    apply Hn in E0. destruct x; cbn in *. by subst.
Qed.

Lemma len_descriptor x : len (descriptor_bytes x) = 2 + len (body_bytes (body x)).
Proof. unfold descriptor_bytes. by rewrite len_app. Qed.

Lemma calc_descriptors ds : wire_descriptors ds -> calcDescriptorsLength ds = len (ds ≫= descriptor_bytes).
Proof.
  intros [Hd Hl]. unfold calcDescriptorsLength. change (2 ^ 12) with 4096 in Hl.
  transitivity (0 + len (ds ≫= descriptor_bytes)); [|done].
  assert (forall n, 0 <= n -> n + len (ds ≫= descriptor_bytes) < 4096 ->
    foldl (fun n d => u16 (u16 (n + 2) + calcDescriptorLength d)) n ds = n + len (ds ≫= descriptor_bytes)) as Hf;
    [|apply Hf; lia].
  clear Hl. induction Hd as [|x ds Hx Hd IH]; intros n Hn Hl; [symmetry; apply Z.add_0_r|].
  cbn [foldl].
  destruct Hx as (Hw & Ex & Hb & _). rewrite calc_length by (done || lia).
  rewrite bind_cons, len_app, len_descriptor in *.
  pose proof (len_range (body_bytes (body x))). pose proof (len_range (ds ≫= descriptor_bytes)).
  rewrite (u16_small (n + 2)), u16_small by lia. rewrite IH; lia.
Qed.

Lemma writes_descriptors ds : Forall wire_descriptor ds ->
  writes (writeDescriptors ds) (byte_bits (ds ≫= descriptor_bytes)) (len (ds ≫= descriptor_bytes)).
Proof.
  induction 1 as [|x ds Hx _ IH]; [apply writes_ret|]. cbn [writeDescriptors]. rewrite bind_cons, byte_bits_app.
  eapply writes_bind; [by apply writes_descriptor|]. rewrite <- (app_nil_r (byte_bits (ds ≫= _))).
  eapply writes_bind; [done|]. rewrite len_app. apply writes_ret.
Qed.

Lemma writes_descriptors_with_length ds : wire_descriptors ds ->
  writes (writeDescriptorsWithLength ds) (byte_bits (descriptors_bytes ds)) (len (descriptors_bytes ds)).
Proof.
  intros Hw. unfold writeDescriptorsWithLength, descriptors_bytes.
  rewrite byte_bits_app, (byte_bits_group _ 2), (calc_descriptors _ Hw) by done. eapply writes_eq.
  - eapply writes_bind; [unfold done_batch; write_rules|]. eapply writes_bind; [by apply writes_descriptors, Hw|write_call].
  - by rewrite !app_nil_r.
  - rewrite len_app. unfold len at 2. rewrite (length_group _ 2) by done. lia.
Qed.

Lemma reads_descriptors ds o : wire_descriptors ds -> reads o parseDescriptors (descriptors_bytes ds) ds.
Proof.
  intros [Hd Hl]. pose proof (len_range (ds ≫= descriptor_bytes)).
  unfold parseDescriptors, descriptors_bytes. rewrite (bytes_of_bits_word _ 2) by done.
  group_number n En. eapply reads_bind; [by apply reads_bytes_no_copy|].
  assert (Z.lor (Z.shiftl (Z.land (byte_at (word_bytes 2 n) 0) 0xf) 8) (byte_at (word_bytes 2 n) 1)
          = len (ds ≫= descriptor_bytes)) as ->.
  { simpl_bytes. change (2 ^ 12) with 4096 in *. field_arith. }
  cbn zeta. destruct (0 <? _) eqn:E.
  - apply reads_at. apply reads_items; [|done]. eapply Forall_impl; [exact Hd|]. intros x Hx.
    split; [cbn; lia|]. intros o'. by apply reads_descriptor.
  - destruct ds as [|x ds]; [apply reads_ret|]. rewrite bind_cons, len_app, len_descriptor in E.
    pose proof (len_range (body_bytes (body x))). pose proof (len_range (ds ≫= descriptor_bytes)). lia.
Qed.

(** C31: a list of descriptors that have a wire format is written behind its 12-bit
    length with the lengths that were computed, and reading the bytes gives the
    descriptors back.  Every kind of descriptor has a wire format when its fields fit
    their widths, except that: a field whose flag is not set must be zero or empty,
    as the parser leaves it; languages and countries have three letters; bit rates
    are multiples of 50; frequencies and symbol rates are in the decimal range of
    their BCD fields, and times in that of [dvb_time_round_trip]; and a VBI service
    that is described has exactly one line (with more, reading them fails:
    [data_lines_overrun]), any other none. *)
Theorem descriptors_round_trip ds : wire_descriptors ds ->
  writes (writeDescriptorsWithLength ds) (byte_bits (descriptors_bytes ds)) (len (descriptors_bytes ds))
  /\ (forall o, reads o parseDescriptors (descriptors_bytes ds) ds).
Proof. intros Hw. split; [by apply writes_descriptors_with_length|intros o; by apply reads_descriptors]. Qed.
End RoundTrip.

(** ** Witness *)
Import Reference.
Definition sample_descriptors : list Descriptor :=
  [{| Tag := 0x05; desc_Length := 5;
      body := Registration {| FormatIdentifier := 0x41432d33; AdditionalIdentificationInfo := [7] |} |};
   {| Tag := 0x43; desc_Length := 11;
      body := SatelliteDeliverySystem {| sat_Frequency := 1172700; OrbitalPosition := 0x192;
        WestEastFlag := true; Polarization := 1; RollOff := 2; ModulationSystem := true; ModulationType := 1;
        sat_SymbolRate := 275000; sat_FECInner := 3 |} |};
   {| Tag := 0x52; desc_Length := 0; body := NoBody |};
   {| Tag := 0x01; desc_Length := 2; body := Unknown {| unknown_Content := [1; 2]; unknown_Tag := 1 |} |};
   {| Tag := 0x83; desc_Length := 1; body := UserDefined [9] |}].

Lemma sample_wire_descriptors : wire_descriptors sample_descriptors.
Proof.
  split; [|done].
  repeat apply Forall_cons_2; [..|apply Forall_nil_2]; (split; [|split; [done|split; [done|done]]]).
  all: cbn [wire_body body Tag sample_descriptors]; try done.
Qed.

Lemma descriptors_round_trip_witness : wire_descriptors sample_descriptors
  /\ exists i, parseDescriptors (I := iterator) (descriptors_bytes sample_descriptors, 0)
       = (Ok sample_descriptors, i).
Proof.
  split; [exact sample_wire_descriptors|].
  destruct (descriptors_round_trip (W := bits) (I := iterator) sample_descriptors
    sample_wire_descriptors) as [_ Hr].
  destruct (Hr 0 (descriptors_bytes sample_descriptors, 0) [] [] eq_refl) as (i & E & _).
  - cbn [app]. by rewrite app_nil_r.
  - by exists i.
Defined.
