(* ===== verification/SectionSpec.v ===== *)
(** * PAT and PMT sections are read back as they were written

    The bytes of a section, with the lengths and the CRC that the writer computes,
    and the place of a section in a transport packet. *)

From S2P Require Import Prelude Packet Astikit Codec Descriptor DescriptorParse DescriptorWrite Pmt Crc32 Tables Psi.
From S2P Require Import DescriptorSpec DescriptorRoundTrip.
Local Open Scope Z_scope.

#[local] Arguments octet : simpl never.
#[local] Arguments be_bytes : simpl never.
#[local] Arguments bits_of : simpl never.
#[local] Arguments Z.pow : simpl never.
#[local] Arguments Z.land : simpl never.
#[local] Arguments Z.shiftr : simpl never.
#[local] Arguments Z.shiftl : simpl never.
#[local] Arguments masked : simpl never.

(** ** Bytes *)

(** A 13-bit PID after three bits. *)
Definition pid_bytes (pid : Z) : list Z := bytes_of_bits (bits_of 3 0xff ++ bits_of 13 pid).
Definition pid_ok (pid : Z) : Prop := 0 <= pid < 2 ^ 13.

Definition program_bytes (p : PATProgram) : list Z := be_bytes 2 (pat_ProgramNumber p) ++ pid_bytes (ProgramMapID p).
Definition pat_bytes (d : PATData) : list Z := Programs d ≫= program_bytes.
Definition wire_pat (d : PATData) : Prop :=
  Forall (fun p => 0 <= pat_ProgramNumber p < 2 ^ 16 /\ pid_ok (ProgramMapID p)) (Programs d).

Definition stream_bytes (s : PMTElementaryStream) : list Z :=
  [StreamType s] ++ pid_bytes (ElementaryPID s) ++ descriptors_bytes (ElementaryStreamDescriptors s).
Definition pmt_bytes (d : PMTData) : list Z :=
  pid_bytes (PCRPID d) ++ descriptors_bytes (ProgramDescriptors d) ++ (ElementaryStreams d ≫= stream_bytes).
Definition wire_stream (s : PMTElementaryStream) : Prop :=
  pid_ok (ElementaryPID s) /\ wire_descriptors (ElementaryStreamDescriptors s).
Definition wire_pmt (d : PMTData) : Prop :=
  pid_ok (PCRPID d) /\ wire_descriptors (ProgramDescriptors d) /\ Forall wire_stream (ElementaryStreams d).

Lemma length_pid pid : length (pid_bytes pid) = 2%nat.
Proof. by apply (length_group _ 2). Qed.
Lemma len_pid pid : len (pid_bytes pid) = 2.
Proof. unfold len. by rewrite length_pid. Qed.
Lemma byte_bits_pid pid : byte_bits (pid_bytes pid) = bits_of 3 0xff ++ bits_of 13 pid.
Proof. by apply (byte_bits_group _ 2). Qed.

(** Bytes of parts. *)
Lemma byte_at_left (l1 l2 : list Z) i : (i < length l1)%nat -> byte_at (l1 ++ l2) i = byte_at l1 i.
Proof. intros Hi. unfold byte_at. by rewrite lookup_app_l. Qed.
Lemma byte_at_right (l1 l2 : list Z) i : byte_at (l1 ++ l2) (length l1 + i) = byte_at l2 i.
Proof. unfold byte_at. rewrite lookup_app_r by lia. by rewrite Nat.add_comm, Nat.add_sub. Qed.

Definition pid_at (l : list Z) (i : nat) : Z :=
  Z.lor (Z.shiftl (Z.land (byte_at l i) 0x1f) 8) (byte_at l (S i)).

Lemma pid_back pid : pid_ok pid -> pid_at (pid_bytes pid) 0 = pid.
Proof.
  unfold pid_ok, pid_at. intros Hp. unfold pid_bytes. rewrite (bytes_of_bits_word _ 2) by done.
  group_number n En. change (2 ^ 13) with 8192 in *. simpl_bytes. field_arith.
Qed.

Section Tables.
Context {W : Type} `{ReliableWriter W} {I : Type} `{BytesIteratorLaws I}.

(** ** PAT *)
Lemma writes_pat d : writes (writePATSection d) (byte_bits (pat_bytes d)) (len (pat_bytes d)).
Proof.
  eapply writes_eq; [unfold writePATSection; apply writes_with_batch|..].
  - eapply bwrites_bind; [apply bwrites_for_each, Forall_true; intros p; write_rules|write_call].
  - unfold pat_bytes. rewrite byte_bits_items, app_nil_r. apply list_bind_ext; [|done].
    intros p. unfold program_bytes. rewrite byte_bits_app, byte_bits_pid. bits_eq.
  - unfold pat_bytes, patSectionEntryBytesSize. rewrite (len_items _ 4); [lia|].
    apply Forall_true. intros p. unfold program_bytes. rewrite len_app, len_be. unfold len. by rewrite length_pid.
Qed.

Lemma reads_pat d o e : wire_pat d -> e = o + len (pat_bytes d) ->
  reads o (parsePATSection e (pat_TransportStreamID d)) (pat_bytes d) d.
Proof.
  intros Hd ->. unfold parsePATSection, pat_bytes. eapply reads_last.
  - apply reads_items; [|done]. eapply Forall_impl; [exact Hd|]. intros p [Hn Hp].
    split; [unfold program_bytes; rewrite length_app, length_be; lia|]. intros o'.
    eapply reads_last; [apply reads_bytes_no_copy; unfold program_bytes; by rewrite length_app, length_be, length_pid|].
    eapply reads_eq; [apply reads_ret|done|].
    unfold program_bytes. destruct p as [pid n]; cbn in *. fold (pid_at (be_bytes 2 n ++ pid_bytes pid) 2). f_equal.
    + unfold pid_at. pose proof (byte_at_right (be_bytes 2 n) (pid_bytes pid)) as Hr. rewrite length_be in Hr.
      by rewrite <- (pid_back _ Hp) at 3; unfold pid_at; rewrite <- !Hr.
    + unfold be16. rewrite !byte_at_left by (rewrite length_be; lia). by apply be16_word.
  - read_all. by destruct d.
Qed.

(** ** PMT *)
Lemma bwrites_streams l : Forall wire_stream l ->
  bwrites (write_streams l) (byte_bits (l ≫= stream_bytes)) (len (l ≫= stream_bytes)).
Proof.
  induction 1 as [|s l [_ Hs] _ IH]; [apply bwrites_ret|]. cbn [write_streams]. rewrite bind_cons, byte_bits_app.
  eapply bwrites_eq.
  - do 3 (eapply bwrites_bind; [write_call|]). eapply bwrites_bind; [by apply bwrites_on_snd, writes_descriptors_with_length|].
    eapply bwrites_bind; [exact IH|write_call].
  - unfold stream_bytes. rewrite !byte_bits_app, byte_bits_pid. bits_eq.
  - unfold stream_bytes. lens. rewrite len_pid. lia.
Qed.

Lemma writes_pmt d : wire_pmt d -> writes (writePMTSection d) (byte_bits (pmt_bytes d)) (len (pmt_bytes d)).
Proof.
  intros (Hp & Hd & Hs). eapply writes_eq; [unfold writePMTSection; apply writes_with_batch|..].
  - do 2 (eapply bwrites_bind; [write_call|]). eapply bwrites_bind; [by apply bwrites_on_snd, writes_descriptors_with_length|].
    eapply bwrites_bind; [by apply bwrites_streams|write_call].
  - unfold pmt_bytes. rewrite !byte_bits_app, byte_bits_pid. bits_eq.
  - unfold pmt_bytes. lens. rewrite len_pid. lia.
Qed.

Lemma reads_stream s o : wire_stream s -> reads o parse_stream (stream_bytes s) s.
Proof.
  intros [Hp Hd]. unfold parse_stream, parse_descriptors, stream_bytes.
  eapply reads_bind; [apply reads_byte|]. eapply reads_bind; [apply reads_bytes_no_copy; by rewrite length_pid|].
  eapply reads_last; [by apply reads_wrap, reads_descriptors|]. eapply reads_eq; [apply reads_ret|done|].
  destruct s as [pid ds t]. f_equal. by apply pid_back.
Qed.

Lemma reads_pmt d o e : wire_pmt d -> e = o + len (pmt_bytes d) ->
  reads o (parsePMTSection e (ProgramNumber d)) (pmt_bytes d) d.
Proof.
  intros (Hp & Hd & Hs) ->. unfold parsePMTSection, parse_descriptors, pmt_bytes.
  eapply reads_bind; [apply reads_bytes_no_copy; by rewrite length_pid|].
  eapply reads_bind; [by apply reads_wrap, reads_descriptors|]. eapply reads_last.
  - apply reads_items; [|lens; unfold len; lia]. eapply Forall_impl; [exact Hs|]. intros s Hw.
    split; [unfold stream_bytes; rewrite length_app; cbn [length]; lia|]. intros o'. by apply reads_stream.
  - eapply reads_eq; [apply reads_ret|done|]. destruct d as [ss pid ds n]. f_equal. by apply pid_back.
Qed.
End Tables.

(** ** Sections *)
Definition syntax_bytes (h : PSISectionSyntaxHeader) : list Z :=
  be_bytes 2 (TableIDExtension h)
  ++ [octet (bits_of 2 0xff ++ bits_of 5 (VersionNumber h) ++ [CurrentNextIndicator h])]
  ++ [SectionNumber h] ++ [LastSectionNumber h].

Definition table_bytes (d : PSISectionSyntaxData) : list Z :=
  match PAT d, PMT d with Some p, _ => pat_bytes p | None, Some m => pmt_bytes m | None, None => [] end.

Definition section_body (s : PSISection) : list Z :=
  match Syntax s with
  | Some x => default [] (syntax_bytes <$> syntax_Header x) ++ table_bytes (Data x)
  | None => []
  end.

(** What the CRC covers, and the section. *)
Definition section_head (s : PSISection) : list Z :=
  [TableID (section_Header s)]
  ++ bytes_of_bits ([SectionSyntaxIndicator (section_Header s); PrivateBit (section_Header s)]
       ++ bits_of 2 0xff ++ bits_of 12 (len (section_body s) + 4))
  ++ section_body s.
Definition section_bytes (s : PSISection) : list Z :=
  section_head s ++ be_bytes 4 (computeCRC32 (section_head s)).

(** The section with the length, the type and the CRC of its bytes. *)
Definition sealed (s : PSISection) : PSISection :=
  {| CRC32 := computeCRC32 (section_head s);
     section_Header :=
       {| PrivateBit := PrivateBit (section_Header s); SectionLength := len (section_body s) + 4;
          SectionSyntaxIndicator := SectionSyntaxIndicator (section_Header s);
          TableID := TableID (section_Header s); TableType := Type_ (TableID (section_Header s)) |};
     Syntax := Syntax s |}.

Definition only_pat (p : PATData) : PSISectionSyntaxData :=
  {| EIT := None; NIT := None; PAT := Some p; PMT := None; SDT := None; TOT := None |}.
Definition only_pmt (m : PMTData) : PSISectionSyntaxData :=
  {| EIT := None; NIT := None; PAT := None; PMT := Some m; SDT := None; TOT := None |}.

(** A PAT or a PMT, under the table extension that the readers copy. *)
Inductive wire_table (h : PSISectionSyntaxHeader) : Z -> PSISectionSyntaxData -> Prop :=
  | wire_table_pat p : wire_pat p -> pat_TransportStreamID p = TableIDExtension h ->
      wire_table h PSITableIDPAT (only_pat p)
  | wire_table_pmt m : wire_pmt m -> ProgramNumber m = TableIDExtension h ->
      wire_table h PSITableIDPMT (only_pmt m).

Definition wire_syntax (h : PSISectionSyntaxHeader) : Prop :=
  0 <= TableIDExtension h < 2 ^ 16 /\ 0 <= VersionNumber h < 2 ^ 5.

Record wire_section (s : PSISection) : Prop := {
  wire_length : 0 < SectionLength (section_Header s);
  wire_size : len (section_body s) + 4 < 2 ^ 12;
  wire_bytes : bytes_ok (section_head s);
  wire_content : exists h d, Syntax s = Some {| Data := d; syntax_Header := Some h |}
    /\ wire_syntax h /\ wire_table h (TableID (section_Header s)) d;
}.

Lemma len_syntax h : len (syntax_bytes h) = 5.
Proof. unfold syntax_bytes. by lens. Qed.

(** ** The computed length *)
Lemma len_programs d : len (pat_bytes d) = 4 * Z.of_nat (length (Programs d)).
Proof.
  unfold pat_bytes. apply len_items, Forall_true. intros p. unfold program_bytes. by rewrite len_app, len_be, len_pid.
Qed.

Lemma len_descriptors ds : len (descriptors_bytes ds) = 2 + len (ds ≫= descriptor_bytes).
Proof. unfold descriptors_bytes. rewrite len_app. unfold len at 1. by rewrite (length_group _ 2). Qed.

Lemma len_stream s : len (stream_bytes s) = 5 + len (ElementaryStreamDescriptors s ≫= descriptor_bytes).
Proof. unfold stream_bytes. lens. rewrite len_pid, len_descriptors. lia. Qed.

Lemma calc_streams l n : Forall wire_stream l -> 0 <= n -> n + len (l ≫= stream_bytes) < 4096 ->
  foldl add_stream_length n l = n + len (l ≫= stream_bytes).
Proof.
  intros Hs. revert n. induction Hs as [|s l [_ Hd] _ IH]; intros n Hn Hl; [symmetry; apply Z.add_0_r|].
  cbn [foldl]. rewrite bind_cons in *. lens. rewrite len_stream in *.
  pose proof (len_range (ElementaryStreamDescriptors s ≫= descriptor_bytes)).
  pose proof (len_range (l ≫= stream_bytes)).
  unfold add_stream_length at 2. rewrite (calc_descriptors _ Hd), (u16_small (n + 5)), u16_small by lia.
  rewrite IH; lia.
Qed.

Lemma calc_pmt d : wire_pmt d -> len (pmt_bytes d) < 4096 -> calcPMTSectionLength d = len (pmt_bytes d).
Proof.
  intros (_ & Hd & Hs). unfold calcPMTSectionLength, pmt_bytes. lens. rewrite len_pid, len_descriptors.
  pose proof (len_range (ElementaryStreams d ≫= stream_bytes)).
  pose proof (len_range (ProgramDescriptors d ≫= descriptor_bytes)).
  intros Hl. rewrite (calc_descriptors _ Hd), u16_small, calc_streams by (done || lia). lia.
Qed.

Lemma calc_section s : wire_section s -> calcPSISectionLength s = Ok (len (section_body s) + 4).
Proof.
  intros [_ Hl _ (h & d & Es & _ & Ht)]. change (2 ^ 12) with 4096 in Hl.
  unfold calcPSISectionLength, section_body in *. rewrite Es in *. cbn [syntax_Header Data fmap option_fmap option_map default from_option id] in *.
  pose proof (len_range (table_bytes d)). lens. rewrite len_syntax in *.
  inversion Ht as [p Hp Hi Et|m Hm Hi Et]; subst d; cbn [table_bytes PAT PMT only_pat only_pmt deref] in *.
  - cbn. unfold calcPATSectionLength. rewrite <- len_programs.
    rewrite (u16_small (len _)), (u16_small (5 + _)), u16_small by lia. f_equal; lia.
  - cbn. rewrite calc_pmt by (done || lia).
    rewrite (u16_small (5 + _)), u16_small by lia. f_equal; lia.
Qed.

(** ** Writing *)
Section Writing.
Context {W : Type} `{ReliableWriter W}.

Lemma step_bwrites {A B} (m : M (Batch * W) A) (k : A -> M (Batch * W) B) l a b w pre c :
  bwrites m l a -> batch_ok b -> written w pre c ->
  exists b' w', (m ≫= k) (b, w) = k a (b', w') /\ batch_ok b' /\ written w' (pre ++ l) c.
Proof.
  intros Hm Hb Hw. destruct (Hm b w pre c Hb Hw) as (b' & w' & E & Hb' & Hw'). exists b', w'.
  by rewrite (bind_ok _ _ _ _ _ E).
Qed.

Lemma crc_written w l p : written w l (Some p) -> (p mod 8 = 0)%nat -> (length l mod 8 = 0)%nat ->
  sectionCRC32 w = (Ok (computeCRC32 (bytes_of_bits (drop p l))), w).
Proof.
  intros Hw Hp Hl. unfold sectionCRC32. rewrite bind_unfold. cbn [gets]. rewrite <- (written_calls _ _ _ Hw Hp Hl).
  unfold computeCRC32. generalize (CallbackCalls w), crc32Polynomial. intros calls.
  induction calls as [|x calls IH]; intros crc; [done|]. cbn [foldl concat]. rewrite IH, updateCRC32_app. done.
Qed.

Lemma writes_ret_bind {A B} (a : A) (k : A -> M W B) l b : writes (k a) l b -> writes (mret a ≫= k) l b.
Proof. done. Qed.

Lemma writes_syntax_header h : writes (writePSISectionSyntaxHeader h) (byte_bits (syntax_bytes h)) 5.
Proof.
  eapply writes_eq; [unfold writePSISectionSyntaxHeader; write_rules|unfold syntax_bytes; bits_eq|done].
Qed.

Lemma writes_table h t d : wire_table h t d ->
  hasPSISyntaxHeader t = true /\ writes (writePSISectionSyntaxData d t) (byte_bits (table_bytes d)) (len (table_bytes d)).
Proof.
  intros [p Hp _|m Hm _]; (split; [done|]); apply writes_ret_bind; [apply writes_pat|by apply writes_pmt].
Qed.

Lemma writes_syntax s : wire_section s ->
  writes (writePSISectionSyntax s) (byte_bits (section_body s)) (len (section_body s)).
Proof.
  intros [_ Hl _ (h & d & Es & _ & Ht)]. destruct (writes_table _ _ _ Ht) as [Hh Hd].
  unfold writePSISectionSyntax, section_body. rewrite Es. apply writes_ret_bind. rewrite Hh.
  cbn [syntax_Header Data fmap option_fmap option_map default from_option id].
  rewrite byte_bits_app, len_app, len_syntax. eapply writes_eq.
  - eapply writes_bind; [apply writes_ret_bind, writes_syntax_header|].
    eapply writes_bind; [exact Hd|apply writes_ret].
  - by rewrite app_nil_r.
  - done.
Qed.

Lemma aligned bs : (length (byte_bits bs) mod 8 = 0)%nat.
Proof.
  unfold byte_bits. induction bs as [|b bs IH]; [done|]. rewrite bind_cons, length_app, length_bits_of.
  rewrite <- Nat.Div0.add_mod_idemp_r, IH. done.
Qed.

Lemma byte_bits_bytes l : bytes_ok l -> bytes_of_bits (byte_bits l) = l.
Proof. apply bytes_of_bits_bytes. Qed.

Lemma head_bits s : is_byte (TableID (section_Header s)) -> byte_bits (section_head s) =
  bits_of 8 (u8 (TableID (section_Header s))) ++ [SectionSyntaxIndicator (section_Header s)]
  ++ [PrivateBit (section_Header s)] ++ bits_of 2 0xff ++ bits_of 12 (len (section_body s) + 4)
  ++ byte_bits (section_body s).
Proof.
  intros Hb. unfold section_head. rewrite !byte_bits_app, (byte_bits_group _ 2), u8_small by done.
  rewrite byte_bits_cons. by rewrite <- !app_assoc.
Qed.

Lemma wire_id s : wire_section s -> is_byte (TableID (section_Header s)) /\ hasCRC32 (TableID (section_Header s)) = true.
Proof. intros [_ _ _ (h & d & _ & _ & Ht)]. destruct Ht; by split. Qed.

Ltac step R :=
  match goal with Hb : batch_ok ?b, Hw : written ?w ?pre ?c |- context [(?m ≫= ?k) (?b, ?w)] =>
    let b' := fresh "b" in let w' := fresh "w" in let E := fresh "E" in
    let Hb' := fresh "Hb" in let Hw' := fresh "Hw" in
    edestruct (step_bwrites m k) as (b' & w' & E & Hb' & Hw'); [R|exact Hb|exact Hw|];
    rewrite E; clear E Hb Hw b w; rename b' into b, w' into w, Hb' into Hb, Hw' into Hw
  end.

(** A section written after [pre], where its checksum starts. *)
Lemma write_section_written s w pre : wire_section s -> (length pre mod 8 = 0)%nat ->
  written w pre (Some (length pre)) ->
  exists w', write_section s (len (section_body s) + 4) w = (Ok (len (section_bytes s)), w')
    /\ written w' (pre ++ byte_bits (section_bytes s)) (Some (length pre)).
Proof.
  intros Hs Hpre Hw. destruct (wire_id s Hs) as [Hid Hc]. unfold write_section, with_batch.
  pose proof (batch_new (W := W)) as Hb. revert Hb Hw. generalize (NewBitsWriterBatch (W := W)). intros b Hb Hw.
  do 5 (step ltac:(write_call)).
  rewrite (proj2 (Z.ltb_lt _ _) (wire_length s Hs)), Hc, bind_assoc.
  step ltac:(by apply bwrites_on_snd, writes_syntax).
  match goal with Hw : written _ ?l _ |- _ => assert (l = pre ++ byte_bits (section_head s)) as E end.
  { rewrite (head_bits s Hid). cbn [app value_bits]. by rewrite <- !app_assoc. }
  rewrite E in Hw. clear E. rewrite bind_assoc.
  assert (on_snd sectionCRC32 (b, w) = (Ok (computeCRC32 (section_head s)), (b, w))) as Ec.
  { unfold on_snd. rewrite (crc_written _ _ _ Hw Hpre).
    - by rewrite drop_app_length, (byte_bits_bytes _ (wire_bytes s Hs)).
    - rewrite length_app, <- Nat.Div0.add_mod_idemp_l, Hpre. apply aligned. }
  rewrite (bind_ok _ _ _ _ _ Ec), bind_assoc. clear Ec. step ltac:(write_call).
  change (mret ?x ≫= ?k) with (k x). cbv beta. destruct (bwrites_result (W := W) (3 + (len (section_body s) + 4)) b w _ _ Hb Hw) as (b' & w' & E & _ & Hw').
  rewrite E. exists w'. split.
  - do 2 f_equal. unfold section_bytes, section_head. lens.
    replace (len (bytes_of_bits _)) with 2 by (unfold len; by rewrite (length_group _ 2)). lia.
  - rewrite app_nil_r, <- app_assoc in Hw'. unfold section_bytes. rewrite byte_bits_app, byte_bits_be. exact Hw'.
Qed.

Lemma section_aligned s : (length (byte_bits (section_bytes s)) mod 8 = 0)%nat.
Proof. apply aligned. Qed.

Lemma bytes_ok_be k x : bytes_ok (be_bytes k x).
Proof. apply bytes_of_bits_ok. Qed.

Lemma section_bytes_ok s : wire_section s -> bytes_ok (section_bytes s).
Proof. intros Hs. apply Forall_app. split; [apply Hs|apply bytes_ok_be]. Qed.

Lemma writes_section s w pre c : wire_section s -> (length pre mod 8 = 0)%nat -> written w pre c ->
  exists w', writePSISection s w = (Ok (len (section_bytes s)), w')
    /\ written w' (pre ++ byte_bits (section_bytes s)) None.
Proof.
  intros Hs Hpre Hw. destruct (wire_id s Hs) as [_ Hc]. unfold writePSISection.
  assert (negb (TableID (section_Header s) =? PSITableIDPAT) && negb (TableID (section_Header s) =? PSITableIDPMT) = false) as ->.
  { destruct Hs as [_ _ _ (h & d & _ & _ & Ht)]. by destruct Ht. }
  rewrite (calc_section s Hs), Hc. change (fail_if false ?msg ≫= ?k) with (k tt). cbv beta.
  change (lift (Ok ?n) ≫= ?k) with (k n). cbv beta. unfold without_callback.
  destruct (written_callback true w _ _ Hw) as (w1 & E1 & Hw1). rewrite (bind_ok _ _ _ _ _ E1).
  destruct (write_section_written s w1 pre Hs Hpre Hw1) as (w2 & E2 & Hw2). rewrite E2.
  destruct (written_callback false w2 _ _ Hw2) as (w3 & E3 & Hw3). rewrite E3. by exists w3.
Qed.
End Writing.

(** ** Reading *)
Section Reading.
Context {I : Type} `{BytesIteratorLaws I}.

Lemma table_tag h t d : wire_table h t d -> shouldStopPSIParsing t = false /\ hasCRC32 t = true
  /\ hasPSISyntaxHeader t = true.
Proof. by intros []. Qed.

Definition section_start (s : PSISection) : list Z :=
  [TableID (section_Header s)]
  ++ bytes_of_bits ([SectionSyntaxIndicator (section_Header s); PrivateBit (section_Header s)]
       ++ bits_of 2 0xff ++ bits_of 12 (len (section_body s) + 4)).

Lemma len_start s : length (section_start s) = 3%nat.
Proof. unfold section_start. rewrite length_app. by rewrite (length_group _ 2). Qed.

Lemma head_start s : section_head s = section_start s ++ section_body s.
Proof. unfold section_head, section_start. by rewrite <- app_assoc. Qed.

Lemma len_head s : len (section_head s) = 3 + len (section_body s).
Proof. rewrite head_start, len_app. unfold len at 1. by rewrite len_start. Qed.

Lemma len_section s : len (section_bytes s) = 7 + len (section_body s).
Proof. unfold section_bytes. rewrite len_app, len_be, len_head. lia. Qed.

Lemma reads_section_header s o : wire_section s -> reads o parsePSISectionHeader (section_start s)
  (section_Header (sealed s), (o, o + len (section_head s), o + len (section_bytes s))).
Proof.
  intros [_ Hl _ (h & d & _ & _ & Ht)]. destruct (table_tag _ _ _ Ht) as (Hs & Hc & _).
  unfold parsePSISectionHeader. apply reads_at. unfold section_start.
  eapply reads_bind; [apply reads_byte|]. rewrite Hs. rewrite (bytes_of_bits_word _ 2) by done.
  group_number n En. pose proof (len_range (section_body s)). change (2 ^ 12) with 4096 in Hl.
  eapply reads_last; [apply reads_bytes_no_copy; by rewrite length_word_bytes|]. rewrite length_word_bytes.
  assert (Z.lor (Z.shiftl (Z.land (byte_at (word_bytes 2 n) 0) 0xf) 8) (byte_at (word_bytes 2 n) 1)
          = len (section_body s) + 4) as -> by (simpl_bytes; field_arith).
  assert (masked (byte_at (word_bytes 2 n) 0) 0x40 = PrivateBit (section_Header s)) as -> by (simpl_bytes; field_arith).
  assert (masked (byte_at (word_bytes 2 n) 0) 0x80 = SectionSyntaxIndicator (section_Header s)) as -> by (simpl_bytes; field_arith).
  cbv zeta. apply reads_at. rewrite Hc. eapply reads_eq; [apply reads_ret|done|].
  rewrite len_section, len_head. unfold sealed. cbn [section_Header length]. f_equal. f_equal; [f_equal|]; lia.
Qed.

Lemma reads_syntax_header h o : wire_syntax h -> reads o parsePSISectionSyntaxHeader (syntax_bytes h) h.
Proof.
  intros [He Hv]. unfold parsePSISectionSyntaxHeader, syntax_bytes. read_all.
  rewrite be16_word by done. destruct h; cbn in *. f_equal; octet_field.
Qed.

Lemma reads_data h t d o e : wire_table h t d -> e = o + len (table_bytes d) ->
  reads o (parsePSISectionSyntaxData t (Some h) e) (table_bytes d) d.
Proof.
  intros Ht ->. rewrite <- (app_nil_r (table_bytes d)) at 2. unfold parsePSISectionSyntaxData.
  destruct Ht as [p Hp Hi|m Hm Hi].
  - eapply reads_bind; [|apply reads_ret]. change (must (Some h) ≫= ?k) with (k h). cbv beta. rewrite <- Hi.
    eapply reads_last; [by apply reads_wrap, reads_pat|apply reads_ret].
  - eapply reads_bind; [|apply reads_ret]. change (must (Some h) ≫= ?k) with (k h). cbv beta. rewrite <- Hi.
    eapply reads_last; [by apply reads_wrap, reads_pmt|apply reads_ret].
Qed.

Lemma reads_syntax s x o e : wire_section s -> Syntax s = Some x -> e = o + len (section_body s) ->
  reads o (parsePSISectionSyntax (TableID (section_Header s)) e) (section_body s) x.
Proof.
  intros [_ _ _ (h & d & Es & Hh & Ht)] Ex. rewrite Es in Ex. injection Ex as <-.
  destruct (table_tag _ _ _ Ht) as (_ & _ & Hp). unfold section_body. rewrite Es. intros ->.
  cbn [syntax_Header Data fmap option_fmap option_map default from_option id].
  unfold parsePSISectionSyntax. rewrite Hp. eapply reads_bind with (a := Some h).
  - apply (reads_optionally _ true). intros _. by apply reads_wrap, reads_syntax_header.
  - eapply reads_last; [apply reads_wrap, reads_data; [done|]|apply reads_ret]. lens. unfold len. lia.
Qed.

Lemma be32_crc bs : be32 (be_bytes 4 (computeCRC32 bs)) = computeCRC32 bs.
Proof. apply be32_word, update_range. done. Qed.

(** The checksum that follows the head is that of the head. *)
Lemma check_crc_reads s i pre post o : o = Z.of_nat (length pre) ->
  at_offset i (pre ++ section_bytes s ++ post) (o + len (section_head s)) ->
  exists i' o', check_crc o (o + len (section_head s)) i = (Ok (computeCRC32 (section_head s)), i')
    /\ at_offset i' (pre ++ section_bytes s ++ post) o'.
Proof.
  intros Ho Hi. unfold check_crc, parseCRC32. pose proof (len_range (section_head s)) as Hl.
  destruct (at_seek _ _ _ (o + len (section_head s)) Hi) as (i1 & E1 & Hi1). rewrite (bind_ok _ _ _ _ _ E1).
  unfold section_bytes in *. set (crc := be_bytes 4 (computeCRC32 (section_head s))) in *.
  assert (reads (o + len (section_head s)) (wrap_err "astits: parsing CRC32 failed"
    (bs ← next_bytes_no_copy 4; mret (be32 bs))) crc (computeCRC32 (section_head s))) as Hr.
  { apply reads_wrap. eapply reads_last; [by apply reads_bytes_no_copy|].
    eapply reads_eq; [apply reads_ret|done|apply be32_crc]. }
  rewrite <- (app_assoc _ crc), app_assoc in Hi1.
  destruct (Hr i1 (pre ++ section_head s) post) as (i2 & E2 & Hi2);
    [rewrite length_app, Nat2Z.inj_add; unfold len; lia|exact Hi1|]. rewrite (bind_ok _ _ _ _ _ E2).
  destruct (at_seek _ _ _ o Hi2) as (i3 & E3 & Hi3). rewrite (bind_ok _ _ _ _ _ E3).
  rewrite <- app_assoc in Hi3.
  destruct (reads_bytes_no_copy o (o + len (section_head s) - o) (section_head s) ltac:(unfold len; lia)
    i3 pre (crc ++ post) Ho Hi3) as (i4 & E4 & Hi4). rewrite (bind_ok _ _ _ _ _ E4), Z.eqb_refl.
  exists i4. eexists. split; [done|]. by rewrite <- app_assoc.
Qed.

Lemma reads_section s o : wire_section s -> reads o parsePSISection (section_bytes s) (sealed s, false).
Proof.
  intros Hs i pre post Ho Hi. pose proof (wire_content s Hs) as (h & d & Es & Hh & Ht).
  destruct (table_tag _ _ _ Ht) as (Hstop & Hc & _). pose proof (len_range (section_body s)).
  assert (section_bytes s = section_start s ++ section_body s ++ be_bytes 4 (computeCRC32 (section_head s))) as Eb.
  { unfold section_bytes. by rewrite head_start at 1; rewrite <- app_assoc. }
  assert (at_offset i (pre ++ section_start s ++ section_body s ++ be_bytes 4 (computeCRC32 (section_head s)) ++ post) o) as Hi0.
  { by rewrite Eb, <- !app_assoc in Hi. }
  destruct (reads_wrap _ "astits: parsing PSI section header failed" _ _ _ (reads_section_header s o Hs) i pre _ Ho Hi0)
    as (i1 & E1 & Hi1).
  unfold parsePSISection. rewrite (bind_ok _ _ _ _ _ E1). cbv beta iota.
  change (TableID (section_Header (sealed s))) with (TableID (section_Header s)). rewrite Hstop.
  change (SectionLength (section_Header (sealed s))) with (len (section_body s) + 4).
  rewrite (proj2 (Z.ltb_lt _ _)) by lia. rewrite bind_assoc. rewrite (app_assoc pre) in Hi1.
  destruct (reads_wrap _ "astits: parsing PSI section syntax failed" _ _ _
    (reads_syntax s _ (o + Z.of_nat (length (section_start s))) (o + len (section_head s)) Hs Es ltac:(rewrite len_head, len_start; lia))
    i1 (pre ++ section_start s) _ ltac:(rewrite length_app; lia) Hi1) as (i2 & E2 & Hi2).
  rewrite (bind_ok _ _ _ _ _ E2), bind_assoc, Hc.
  assert (at_offset i2 (pre ++ section_bytes s ++ post) (o + len (section_head s))) as Hi3.
  { rewrite Eb, <- !app_assoc. rewrite <- app_assoc in Hi2.
    replace (o + len (section_head s)) with
      (o + Z.of_nat (length (section_start s)) + Z.of_nat (length (section_body s)));
      [exact Hi2|rewrite len_head, len_start; unfold len; lia]. }
  destruct (check_crc_reads s i2 pre post o Ho Hi3) as (i3 & o' & E3 & Hi4).
  rewrite (bind_ok _ _ _ _ _ E3). change (mret ?x ≫= ?k) with (k x). cbv beta.
  destruct (at_seek _ _ _ (o + len (section_bytes s)) Hi4) as (i5 & E5 & Hi5).
  rewrite (bind_ok _ _ _ _ _ E5). exists i5. split; [|exact Hi5]. unfold sealed. by rewrite Es.
Qed.
End Reading.

(** ** Round trips *)
Section RoundTrip.
Context {W : Type} `{BufferWriterLaws W} {I : Type} `{BytesIteratorLaws I}.

Lemma marshal_section s : wire_section s -> MarshalPSISection (W := W) s = Ok (section_bytes s).
Proof.
  intros Hs. unfold MarshalPSISection, wrap_err.
  destruct (writes_section s NewBufferWriter [] None Hs eq_refl buffer_new) as (w & E & Hw). rewrite E. cbn [mbind outcome_bind].
  change (Ok (BufferBytes w) = Ok (section_bytes s)). f_equal.
  rewrite (buffer_bytes _ _ _ Hw) by apply aligned. by apply byte_bits_bytes, section_bytes_ok.
Qed.

Lemma parse_marshalled s : wire_section s -> ParsePSISection (I := I) (section_bytes s) = Ok (sealed s).
Proof.
  intros Hs. unfold ParsePSISection, wrap_err.
  destruct (reads_section s 0 Hs (NewBytesIterator (section_bytes s)) [] [] eq_refl) as (i & E & Hi).
  { cbn [app]. rewrite app_nil_r. apply at_new. }
  rewrite E. destruct (at_observe _ _ _ Hi) as (_ & _ & Hb).
  change (Ok ?x ≫= ?k) with (k x). cbv beta iota. rewrite Hb. cbn [app].
  by rewrite app_nil_r, Z.ltb_irrefl.
Qed.

(** C29: a PAT or PMT section whose fields fit is marshalled with the length and the
    CRC of its bytes, whatever its stale ones, and parsing the bytes gives the section
    with these; marshalling it again gives the same bytes. *)
Theorem section_round_trip s : wire_section s ->
  MarshalPSISection (W := W) s = Ok (section_bytes s)
  /\ ParsePSISection (I := I) (section_bytes s) = Ok (sealed s)
  /\ MarshalPSISection (W := W) (sealed s) = Ok (section_bytes s).
Proof.
  intros Hs. split; [by apply marshal_section|split; [by apply parse_marshalled|]].
  change (section_bytes s) with (section_bytes (sealed s)). apply marshal_section.
  pose proof (len_range (section_body s)). destruct Hs as [Hp Hl Hb Hc].
  split; [unfold sealed; cbn [section_Header SectionLength]; lia|done..].
Qed.
End RoundTrip.

(** ** Witness *)
Import Reference.

(** A program map with stale length and CRC. *)
Definition sample_pmt : PSISection :=
  {| CRC32 := 0;
     section_Header := {| PrivateBit := false; SectionLength := 1; SectionSyntaxIndicator := true;
                          TableID := PSITableIDPMT; TableType := "" |};
     Syntax := Some {|
       Data := only_pmt {| ElementaryStreams := [{| ElementaryPID := 0x101;
                             ElementaryStreamDescriptors := sample_descriptors; StreamType := 0xCF |}];
                           PCRPID := 0x101; ProgramDescriptors := []; ProgramNumber := 1 |};
       syntax_Header := Some {| CurrentNextIndicator := true; LastSectionNumber := 0; SectionNumber := 0;
                                TableIDExtension := 1; VersionNumber := 31 |} |} |}.

Lemma sample_wire_pmt : wire_section sample_pmt.
Proof.
  split; [done|done| |].
  - by_decide.
  - eexists _, _. split; [reflexivity|split; [done|]]. apply wire_table_pmt; [|done].
    split; [done|split; [by split|]]. apply Forall_cons_2; [|constructor].
    split; [done|apply sample_wire_descriptors].
Qed.

Lemma section_round_trip_witness : wire_section sample_pmt
  /\ MarshalPSISection (W := bits) sample_pmt = Ok (section_bytes sample_pmt)
  /\ ParsePSISection (I := iterator) (section_bytes sample_pmt) = Ok (sealed sample_pmt).
Proof.
  split; [exact sample_wire_pmt|].
  destruct (section_round_trip (W := bits) (I := iterator) sample_pmt sample_wire_pmt) as (Hm & Hp & _).
  split; assumption.
Defined.
