(* ===== verification/PsiPacket.v ===== *)
(** * A section in the place of a transport packet

    What [PacketizePSISection] makes of a packet: when the section fits, the
    packet it gives, and that this packet is 188 bytes on the wire. *)

From S2P Require Import Prelude Packet Astikit PacketCodec Codec PacketSpec Descriptor Pmt Tables Psi DescriptorWrite DescriptorRoundTrip SectionSpec.
Local Open Scope Z_scope.

#[local] Arguments section_bytes : simpl never.
#[local] Arguments bytes_of_bits : simpl never.

(** ** The layout that the writer computes *)
Definition laid_ext (e : PacketAdaptationExtensionField) : PacketAdaptationExtensionField :=
  with_ext_length (calcPacketAdaptationFieldExtensionLength e) e.

Definition laid_af (a : PacketAdaptationField) : PacketAdaptationField :=
  if IsOneByteStuffing a then a
  else
    let a := with_layout (laid_ext <$> AdaptationExtensionField a) (TransportPrivateDataLength a) 0
               (StuffingLength a) false a in
    with_layout (AdaptationExtensionField a) (TransportPrivateDataLength a)
      (Z.of_nat (length (af_parts a)) + StuffingLength a) (StuffingLength a) false a.

Definition laid (p : Packet) : Packet := with_adaptation (laid_af <$> AdaptationField p) p.

(** The writer does not look at the lengths that it computes. *)
Lemma write_laid {W} `{BitsWriter W} p n : writePacket (W := W) (laid p) n = writePacket p n.
Proof.
  destruct p as [[a|] h l]; [|done].
  destruct a as [[e|] opcr pcr priv plen len stuff splice [] ra di esp hext hopcr hpcr hpriv hsplice]; done.
Qed.

(** ** Fields without their stuffing *)

(** The size of a field without stuffing, never the single byte. *)
Definition bare_size (f : PacketAdaptationField) : Z := 1 + Z.of_nat (length (af_parts f)).

Definition stuffed (k : Z) (f : PacketAdaptationField) : PacketAdaptationField :=
  with_layout (AdaptationExtensionField f) (TransportPrivateDataLength f)
    (Z.of_nat (length (af_parts f)) + k) k false f.

Lemma parts_stuffed k f : af_parts (stuffed k f) = af_parts f.
Proof. done. Qed.

Lemma laid_ext_wire e : wire_ext e -> laid_ext (with_ext_length 0 e) = e.
Proof.
  intros [He _]. destruct e. unfold laid_ext, with_ext_length. f_equal. exact (eq_sym He).
Qed.

Lemma laid_stuffed k f : wire_af f -> laid_af (with_stuffing k (clone_without_stuffing f)) = stuffed k f.
Proof.
  unfold wire_af. destruct (IsOneByteStuffing f) eqn:E; [by intros ->|].
  intros (_ & _ & _ & _ & _ & _ & Hn & _ & He).
  assert (laid_ext <$> (with_ext_length 0 <$> AdaptationExtensionField f) = AdaptationExtensionField f) as Ee.
  { destruct (HasAdaptationExtensionField f); [|by rewrite He].
    destruct (AdaptationExtensionField f) as [e|]; [|done]. cbn. f_equal. by apply laid_ext_wire. }
  unfold laid_af, clone_without_stuffing, with_stuffing, stuffed. cbn [with_layout IsOneByteStuffing
    AdaptationExtensionField TransportPrivateDataLength StuffingLength]. rewrite Ee, <- Hn. done.
Qed.

Lemma laid_wire f : wire_af f -> laid_af f = f.
Proof.
  unfold wire_af, laid_af. destruct (IsOneByteStuffing f) eqn:E; [done|].
  intros (_ & Hl & _ & _ & _ & _ & _ & _ & He).
  assert (laid_ext <$> AdaptationExtensionField f = AdaptationExtensionField f) as Ee.
  { destruct (HasAdaptationExtensionField f); [|by rewrite He].
    destruct (AdaptationExtensionField f) as [e|]; [|done]. cbn. f_equal. by apply (laid_ext_wire e). }
  transitivity (with_layout (AdaptationExtensionField f) (TransportPrivateDataLength f) (af_Length f)
    (StuffingLength f) false f).
  - cbn zeta. by rewrite Ee, Hl.
  - rewrite <- E. by destruct f.
Qed.

Lemma wire_stuffed k f : wire_af f -> 0 <= k -> bare_size f + k <= 184 -> wire_af (stuffed k f).
Proof.
  unfold wire_af, bare_size. intros Hf Hk Hl. change (IsOneByteStuffing (stuffed k f)) with false.
  destruct (IsOneByteStuffing f); [subst f; cbn in *; split_and!; try done; lia|].
  destruct Hf as (_ & _ & _ & Hp & Ho & Hc & Hn & Hd & He). rewrite parts_stuffed.
  cbn [stuffed with_layout af_Length StuffingLength]. split_and!; try done; lia.
Qed.

Lemma base_clone f : wire_af f -> bare_size f <= 184 ->
  base_length (clone_without_stuffing f) = Ok (bare_size f - 1).
Proof.
  intros Hf Hl. pose proof (wire_stuffed 0 f Hf ltac:(lia) ltac:(lia)) as Hw.
  pose proof (calc_af_length _ Hw eq_refl) as Hc.
  replace (bare_size f - 1) with (af_Length (stuffed 0 f)) by (unfold bare_size; cbn; lia).
  rewrite <- Hc. unfold base_length. rewrite <- (laid_stuffed 0 f Hf).
  unfold laid_af. cbn [with_stuffing clone_without_stuffing with_layout IsOneByteStuffing].
  destruct f as [[e|]]; [by destruct e|done].
Qed.

(** A field of a size that it fits has this size on the wire. *)
Lemma sized_field f total : wire_af f -> bare_size f <= total -> total <= 184 ->
  AdaptationFieldWithSize (Some f) total = Ok (with_stuffing (total - bare_size f) (clone_without_stuffing f)).
Proof.
  intros Hf Hl Ht. unfold AdaptationFieldWithSize. rewrite size_of_field, clone_clone, (base_clone f Hf) by lia.
  cbn [mbind outcome_bind]. replace (1 + (bare_size f - 1)) with (bare_size f) by lia.
  by rewrite (proj2 (Z.ltb_ge _ _)), (proj2 (Z.ltb_ge _ _)) by (done || unfold maxPacketAdaptationFieldSize, MpegTsPacketSize; lia).
Qed.

Lemma refused_field f total : wire_af f -> bare_size f <= 184 -> total < bare_size f ->
  AdaptationFieldWithSize (Some f) total = Fail (Err (Errorf "astits: adaptation field does not fit the target size")).
Proof.
  intros Hf Hb Hl. unfold AdaptationFieldWithSize. rewrite size_of_field, clone_clone, (base_clone f Hf) by lia.
  cbn [mbind outcome_bind]. by rewrite (proj2 (Z.ltb_lt _ _)) by lia.
Qed.

(** ** When a section fits *)

(** The pointer field and the section. *)
Definition required (s : PSISection) : Z := 1 + len (section_bytes s).

(** There is room for the section in the place of the payload, of stuffing, or of
    a field without data. *)
Definition fits (p : Packet) (s : PSISection) : bool :=
  (required s <=? len (Payload p))
  || match AdaptationField p with
     | None => false
     | Some f => required s + (if HasAdaptationFieldData (Some f) then bare_size f else 0) <=? 184
     end.

(** A field without data would have to shrink to its one-byte form.  The section
    fits, but the code asks for a field of two bytes at least, and refuses. *)
Definition one_byte_left (p : Packet) (s : PSISection) : bool :=
  (len (Payload p) <? required s) && (required s =? 183) && negb (HasAdaptationFieldData (AdaptationField p)).

(** The metadata of a field; one without data is as good as none. *)
Definition af_data (a : option PacketAdaptationField) : option PacketAdaptationField :=
  if HasAdaptationFieldData a then CloneAdaptationFieldWithoutStuffing a else None.

(** The packet [p] with the section [s] as its payload. *)
Record carries (p : Packet) (s : PSISection) (q : Packet) : Prop := {
  carries_wire : wire_packet (laid q);
  carries_payload : exists n, Payload q = [0] ++ section_bytes s ++ replicate n 0xff;
  carries_start : PayloadUnitStartIndicator (Header q) = true /\ HasPayload (Header q) = true;
  carries_slot : PID (Header q) = PID (Header p)
    /\ ContinuityCounter (Header q) = ContinuityCounter (Header p);
  carries_data : af_data (AdaptationField q) = af_data (AdaptationField p);
}.

Lemma psi_payload_bytes size l : (S (length l) <= size)%nat ->
  psi_payload size l = [0] ++ l ++ replicate (size - S (length l)) 0xff.
Proof.
  intros Hl. unfold psi_payload. destruct size as [|size]; [lia|]. cbn [replicate].
  assert (copy_at (0xFF :: replicate size 0xFF) 0 [0] = 0 :: replicate size 0xFF) as ->.
  { unfold copy_at. cbn [length take drop app Nat.sub Nat.add]. rewrite take_nil. by cbn. }
  unfold copy_at. cbn [length take app Nat.sub]. rewrite length_replicate, Nat.sub_0_r, (take_ge l) by lia.
  cbn [Nat.add drop]. change (drop ?n (0 :: ?x)) with (drop (length l) x). by rewrite drop_replicate.
Qed.

Section Packetize.
Context {W : Type} `{BufferWriterLaws W}.

Lemma section_payload_ok s n : wire_section s -> bytes_ok ([0] ++ section_bytes s ++ replicate n 0xff).
Proof.
  intros Hs. apply Forall_app. split; [by repeat constructor|].
  apply Forall_app. split; [by apply section_bytes_ok|by apply Forall_replicate].
Qed.

(** Room in the payload: the field stays. *)
Lemma carries_in_payload p s : wire_packet p -> HasPayload (Header p) = true -> wire_section s ->
  required s <= len (Payload p) ->
  carries p s (with_psi (HasAdaptationField (Header p)) (AdaptationField p)
                 (psi_payload (length (Payload p)) (section_bytes s)) p).
Proof.
  intros (Hh & Hf & Ha & Hb & Hl) Hp Hs Hr. rewrite Hp in Hl. unfold required, len in Hr.
  rewrite psi_payload_bytes by lia. split; [|by eexists|done|done|done].
  unfold wire_packet. cbn [laid with_adaptation with_psi Header AdaptationField Payload
    HasAdaptationField HasPayload PID ContinuityCounter TransportScramblingControl].
  unfold packet_af in *. cbn [laid with_adaptation with_psi AdaptationField Payload] in *.
  replace (laid_af <$> AdaptationField p) with (AdaptationField p)
    by (destruct (AdaptationField p); [cbn; by rewrite laid_wire|done]).
  split_and!; [done..|by apply section_payload_ok|].
  rewrite !length_app, length_replicate. cbn [length]. lia.
Qed.

Lemma length_stuffed k f : wire_af f -> 0 <= k -> bare_size f + k <= 184 ->
  Z.of_nat (length (af_bytes (stuffed k f))) = bare_size f + k.
Proof.
  intros Hf Hk Hl. rewrite (wire_af_length _ (wire_stuffed k f Hf Hk Hl)).
  unfold bare_size. cbn [stuffed with_layout af_Length]. lia.
Qed.

Lemma size_wire f : wire_af f -> bare_size f <= 184 ->
  AdaptationFieldSizeWithoutStuffing (Some f) = Ok (bare_size f).
Proof.
  intros Hf Hl. rewrite size_of_field, (base_clone f Hf Hl). cbn [mbind outcome_bind]. f_equal. lia.
Qed.

Lemma no_data_size f : HasAdaptationFieldData (Some f) = false -> bare_size f = 2.
Proof.
  unfold HasAdaptationFieldData, bare_size, af_parts. intros Hd. rewrite !orb_false_iff in Hd.
  destruct Hd as (((((((_ & _) & _) & ->) & ->) & ->) & ->) & ->). done.
Qed.

Lemma data_stuffed k f : af_data (Some (with_stuffing k (clone_without_stuffing f))) = af_data (Some f).
Proof.
  unfold af_data. change (HasAdaptationFieldData (Some (with_stuffing k (clone_without_stuffing f))))
    with (HasAdaptationFieldData (Some f)). destruct (HasAdaptationFieldData _); [|done].
  cbn. by rewrite clone_with_stuffing, clone_clone.
Qed.

(** A field of the size left, or none. *)
Lemma carries_grown p s a h : wire_packet p -> HasPayload (Header p) = true -> wire_section s ->
  h = bool_decide (is_Some a) -> match a with Some f => wire_af (laid_af f) | None => True end ->
  Z.of_nat (length (packet_af (with_adaptation (laid_af <$> a) p))) + required s = 184 ->
  af_data a = af_data (AdaptationField p) ->
  carries p s (with_psi h a (psi_payload (S (length (section_bytes s))) (section_bytes s)) p).
Proof.
  intros (Hh & _ & _ & Hb & _) Hp Hs -> Ha Hl Hd. unfold required, len in Hl.
  rewrite psi_payload_bytes by lia. split; [|by eexists|done|done|done].
  unfold wire_packet, packet_af in *.
  cbn [laid with_adaptation with_psi Header AdaptationField Payload HasAdaptationField HasPayload
    PID ContinuityCounter TransportScramblingControl] in *.
  split_and!; [done|by destruct a|by destruct a|by apply section_payload_ok|].
  rewrite !length_app, length_replicate. cbn [length]. lia.
Qed.

Lemma payload_size p : wire_packet p -> HasPayload (Header p) = true ->
  len (Payload p) = 184 - Z.of_nat (length (packet_af p)).
Proof. intros (_ & _ & _ & _ & Hl) Hp. rewrite Hp in Hl. unfold len. lia. Qed.

Lemma bare_bound f : wire_af f -> Z.of_nat (length (af_bytes f)) <= 184 -> bare_size f <= 184.
Proof.
  unfold wire_af, bare_size, af_bytes, af_core. destruct (IsOneByteStuffing f) eqn:E.
  - intros -> _. vm_compute. congruence.
  - intros _. rewrite length_app. cbn [length]. lia.
Qed.

(** The packet with a field of size [target], if it has this size. *)
Definition grown (p : Packet) (s : PSISection) (f : PacketAdaptationField) (target : Z) : outcome Packet :=
  a ← (if target =? 0 then Ok None else a ← AdaptationFieldWithSize (Some f) target; Ok (Some a));
  Ok (with_psi (negb (target =? 0)) a (psi_payload (S (length (section_bytes s))) (section_bytes s)) p).

Definition carried (p : Packet) (s : PSISection) (r : outcome Packet) : Prop :=
  exists q, r = Ok q /\ carries p s q /\ forall n, writePacket (W := W) q n = writePacket (laid q) n.

(** The field gives up its stuffing. *)
Lemma grown_field p s f target : wire_packet p -> HasPayload (Header p) = true -> wire_section s ->
  AdaptationField p = Some f -> bare_size f <= target -> 0 < target -> target = 184 - required s ->
  carried p s (grown p s f target).
Proof.
  intros Hw Hp Hs Ef Hle Hpos ->. pose proof Hw as (_ & _ & Hf & _). rewrite Ef in Hf. unfold grown.
  rewrite (proj2 (Z.eqb_neq _ _)) by lia. cbn [negb]. pose proof (len_range (section_bytes s)).
  rewrite (sized_field f _ Hf Hle) by (unfold required; lia). cbn [mbind outcome_bind].
  eexists. split; [done|split; [|intros n; by rewrite write_laid]].
  apply carries_grown; try done; rewrite ?laid_stuffed by done.
  - apply wire_stuffed; [done|lia|unfold required; lia].
  - unfold packet_af. cbn [with_adaptation AdaptationField fmap option_fmap option_map].
    rewrite laid_stuffed, length_stuffed by (done || unfold required in *; lia). unfold required. lia.
  - by rewrite data_stuffed, Ef.
Qed.

Lemma packetize_field p s f : wire_packet p -> HasPayload (Header p) = true -> wire_section s ->
  AdaptationField p = Some f -> len (Payload p) < required s ->
  let target := 184 - required s in
  let r := minimumSize ← AdaptationFieldSizeWithoutStuffing (Some f);
      if target <? (if HasAdaptationFieldData (Some f) then minimumSize else 0) then
        Fail (Err (Errorf "astits: PSI section does not fit one TS packet"))
      else grown p s f target in
  if (if HasAdaptationFieldData (Some f) then required s + bare_size f <=? 184
      else (required s <=? 184) && negb (required s =? 183))
  then carried p s r else exists e, r = Fail (Err e).
Proof.
  intros Hw Hp Hs Ef Hr target r. subst r. pose proof (payload_size p Hw Hp) as Hpl.
  pose proof Hw as (_ & _ & Hf & _). rewrite Ef in Hf. unfold packet_af in Hpl. rewrite Ef in Hpl. cbv iota in Hpl.
  pose proof (bare_bound f Hf ltac:(unfold len in Hpl; lia)) as Hb. rewrite (size_wire f Hf Hb).
  cbn [mbind outcome_bind]. assert (0 < bare_size f) by (unfold bare_size; lia).
  destruct (HasAdaptationFieldData (Some f)) eqn:Hd.
  - destruct (Z.leb_spec (required s + bare_size f) 184); [|rewrite (proj2 (Z.ltb_lt _ _)) by lia; by eexists].
    rewrite (proj2 (Z.ltb_ge _ _)) by lia. apply grown_field; try done; lia.
  - pose proof (no_data_size f Hd) as Hn. destruct (Z.leb_spec (required s) 184); cbn [andb];
      [|rewrite (proj2 (Z.ltb_lt _ _)) by lia; by eexists].
    rewrite (proj2 (Z.ltb_ge _ _)) by lia. destruct (Z.eqb_spec (required s) 183); cbn [negb].
    + unfold grown. rewrite (proj2 (Z.eqb_neq _ _)), (refused_field f target Hf) by lia. by eexists.
    + destruct (Z.eq_dec target 0) as [E0|]; [|apply grown_field; try done; lia].
      unfold grown. rewrite E0. cbn [Z.eqb negb mbind outcome_bind].
      eexists. split; [done|split; [|intros n0; by rewrite write_laid]].
      apply carries_grown; try done; [cbn; lia|]. rewrite Ef. unfold af_data. by rewrite Hd.
Qed.

(** C30: a section is put in the place of a packet's payload exactly when it fits, at
    the expense of stuffing but never of the metadata, with one exception: a section
    that leaves exactly one byte for an adaptation field without data is refused,
    although it fits.  The packet then has 188 bytes on the wire, in the same slot,
    with pointer field, section and filler as payload; otherwise an error is returned. *)
Theorem packetize_section p s : wire_packet p -> HasPayload (Header p) = true -> wire_section s ->
  if fits p s && negb (one_byte_left p s)
  then carried p s (PacketizePSISection (W := W) p s)
  else exists e, PacketizePSISection (W := W) p s = Fail (Err e).
Proof.
  intros Hw Hp Hs. unfold PacketizePSISection. rewrite (marshal_section s Hs), ClonePacket_same.
  cbn [mbind outcome_bind]. unfold fits, one_byte_left. pose proof (payload_size p Hw Hp) as Hpl.
  destruct (Z.leb_spec (required s) (len (Payload p))) as [Hr|Hr]; cbn [orb].
  - rewrite (proj2 (Z.ltb_ge _ _)) by lia. cbn [andb negb]. unfold required, len in Hr. rewrite (proj2 (Nat.ltb_ge _ _)) by lia. eexists. split; [done|].
    split; [by apply carries_in_payload; unfold required, len|intros n; by rewrite write_laid].
  - rewrite (proj2 (Nat.ltb_lt _ _)) by (unfold required, len in Hr; lia).
    rewrite (Nat.add_1_r (length (section_bytes s))).
    replace (MpegTsPacketSize - 4 - _ - _) with (184 - required s)
      by (unfold required, len, MpegTsPacketSize in *; lia).
    destruct (AdaptationField p) as [f|] eqn:Ef.
    + pose proof (packetize_field p s f Hw Hp Hs Ef Hr) as Hf. cbv zeta in Hf.
      rewrite (proj2 (Z.ltb_lt _ _)) by lia. cbn [andb]. destruct (HasAdaptationFieldData (Some f)).
      * rewrite andb_false_r. cbn [negb]. by rewrite andb_true_r.
      * rewrite Z.add_0_r, andb_true_r. exact Hf.
    + unfold packet_af in Hpl. rewrite Ef in Hpl. cbn [length] in Hpl.
      cbn [AdaptationFieldSizeWithoutStuffing mbind outcome_bind HasAdaptationFieldData].
      rewrite !(proj2 (Z.ltb_lt _ _)) by lia. by eexists.
Qed.
End Packetize.

(** ** Witness *)
Import Reference.

(** A section of 49 bytes for a packet of 40 bytes of payload. *)
Definition small_packet : Packet :=
  {| AdaptationField := Some (stuffed 142 zero_af);
     Header := {| ContinuityCounter := 3; HasAdaptationField := true; HasPayload := true;
       PayloadUnitStartIndicator := true; PID := 0x100; TransportErrorIndicator := false;
       TransportPriority := false; TransportScramblingControl := 0 |};
     Payload := replicate 40 0xff |}.

Lemma small_wire : wire_packet small_packet.
Proof.
  unfold wire_packet. split; [by repeat split|split; [done|split; [|split]]].
  - cbn. by repeat split.
  - by apply Forall_replicate.
  - done.
Qed.

Lemma packetize_section_witness : wire_packet small_packet /\ wire_section sample_pmt
  /\ fits small_packet sample_pmt && negb (one_byte_left small_packet sample_pmt) = true
  /\ carried (W := bits) small_packet sample_pmt (PacketizePSISection (W := bits) small_packet sample_pmt).
Proof.
  assert (fits small_packet sample_pmt && negb (one_byte_left small_packet sample_pmt) = true) as Hf by (vm_compute; reflexivity).
  split; [exact small_wire|split; [exact sample_wire_pmt|split; [exact Hf|]]].
  pose proof (packetize_section (W := bits) small_packet sample_pmt small_wire eq_refl sample_wire_pmt) as Hc.
  rewrite Hf in Hc. exact Hc.
Defined.

(** A field without data could shrink to its one-byte form, but is refused: the
    section of 182 bytes and its pointer field would fit. *)
Definition tight_pmt : PSISection :=
  {| CRC32 := 0; section_Header := section_Header sample_pmt;
     Syntax := Some {|
       Data := only_pmt {| ElementaryStreams := [{| ElementaryPID := 0x101;
                             ElementaryStreamDescriptors :=
                               [{| Tag := 0x83; desc_Length := 159; body := UserDefined (replicate 159 9) |}];
                             StreamType := 0xCF |}];
                           PCRPID := 0x101; ProgramDescriptors := []; ProgramNumber := 1 |};
       syntax_Header := Some {| CurrentNextIndicator := true; LastSectionNumber := 0; SectionNumber := 0;
                                TableIDExtension := 1; VersionNumber := 31 |} |} |}.

Definition tight_packet : Packet :=
  {| AdaptationField := Some (stuffed 100 zero_af); Header := Header small_packet;
     Payload := replicate 82 0xff |}.

Example tight_refused : fits tight_packet tight_pmt = true /\ one_byte_left tight_packet tight_pmt = true
  /\ PacketizePSISection (W := bits) tight_packet tight_pmt
     = Fail (Err (Errorf "astits: adaptation field does not fit the target size")).
Proof. by vm_compute. Qed.
