(* ===== verification/PmtSpec.v ===== *)
(** * The PMT transformer holds PMTs back and releases them in order

    The reference: a list of held PMTs, released all at once when no patch is
    missing.  Over any sequence of calls every held PMT is released once, in the
    order of arrival, with the last patch of every stream applied and the next
    version number. *)

From S2P Require Import Sample.
From S2P Require Import Prelude Packet Astikit Descriptor Pmt PesHandler Tables Psi PsiCollector Output PmtTransformer PsiSpec.

Section Transform.
Context (I B : Type) `{BytesIterator I} `{BufferWriter B}.

(** ** Releasing *)

(** The packet that takes the place of a held PMT, once the patches [m] are known. *)
Definition released_packet (m : gmap Z (option Patch)) (x : pendingPMT) : outcome Packet :=
  if no_patches m then Ok (pmt_packet x)
  else PacketizePSISection (W := B) (pmt_packet x) (bump_version (patch_section m (pmt_section x))).

Section Completing.
Context {A : Type} (complete : completedSlot -> M A unit).

Definition release_one (m : gmap Z (option Patch)) (x : pendingPMT) : M A unit :=
  output ← (if no_patches m then mret (pmt_packet x)
            else wrap_err "packetize PMT" (lift (released_packet m x)));
  complete {| token := pmt_token x; slot_packets := [output] |}.

(** Every held PMT, in order, if nothing is missing. *)
Definition release (m : gmap Z (option Patch)) (l : list pendingPMT) : M A unit :=
  if waiting m then mret tt else for_each (release_one m) l.

Lemma on_fst_get {S W C} (k : S -> M (S * W) C) s w : (on_fst get ≫= k) (s, w) = k s (s, w).
Proof. done. Qed.

Lemma on_fst_modify {S W C} (f : S -> S) (k : unit -> M (S * W) C) s w :
  (on_fst (modify f) ≫= k) (s, w) = k tt (f s, w).
Proof. done. Qed.

Lemma on_fst_must {S W C D} (x : D) (k : D -> M (S * W) C) s w : (on_fst (must (Some x)) ≫= k) (s, w) = k x (s, w).
Proof. done. Qed.

Lemma complete_one_release p i x a : pending p !! i = Some x ->
  exists l, length l = length (pending p) /\ (forall j, j <> i -> l !! j = pending p !! j)
  /\ complete_one B complete i (p, a)
     = let '(r, a') := release_one (patches p) x a in (r, (set_pending l p, a')).
Proof.
  intros Hx. unfold complete_one. rewrite on_fst_get, Hx.
  rewrite on_fst_must, on_fst_modify. set (l := <[i := _]> (pending p)). exists l. split; [apply length_insert|].
  split; [intros j Hj; by apply list_lookup_insert_ne|].
  unfold release_one, released_packet. rewrite !bind_unfold. destruct (no_patches (patches p)).
  - cbn. by destruct (complete _ a).
  - unfold wrap_err, lift. destruct (PacketizePSISection _ _) as [q|[]]; [|done..].
    cbn. by destruct (complete _ a).
Qed.

Lemma complete_all_release l : forall p a d, drop d (pending p) = l ->
  exists p', for_each (complete_one B complete) (seq d (length l)) (p, a)
    = (let '(r, a') := for_each (release_one (patches p)) l a in (r, (p', a')))
    /\ exists l', p' = set_pending l' p.
Proof.
  induction l as [|x l IH]; intros p a d Hd.
  - exists p. split; [done|]. exists (pending p). by destruct p.
  - assert (pending p !! d = Some x) as Hx by (rewrite <- (Nat.add_0_r d), <- lookup_drop, Hd; done).
    destruct (complete_one_release p d x a Hx) as (l1 & Hl & Hj & E). cbn [length seq for_each].
    rewrite !bind_unfold, E. destruct (release_one (patches p) x a) as [[[]|f] a1].
    + destruct (IH (set_pending l1 p) a1 (S d)) as (p' & E' & l' & ->).
      { cbn [set_pending pending]. apply list_eq. intros j. rewrite lookup_drop, Hj by lia.
        rewrite <- lookup_drop, <- Nat.add_1_r, <- drop_drop, Hd. done. }
      cbn [set_pending patches] in E'. rewrite E'. eexists. split; [done|]. by exists l'.
    + exists (set_pending l1 p). split; [done|]. by eexists.
Qed.

(** The claim's lemma for the callers: what [completeReady] does. *)
Lemma completeReady_release p a :
  let '(r, a') := release (patches p) (pending p) a in
  exists p', completeReady B complete (p, a) = (r, (p', a'))
    /\ (r = Ok tt -> p' = if waiting (patches p) then p else set_pending [] p).
Proof.
  unfold completeReady, release. rewrite on_fst_get. destruct (waiting (patches p)); [by exists p|].
  destruct (complete_all_release (pending p) p a 0 eq_refl) as (p' & E & l & ->). rewrite bind_unfold, E.
  destruct (for_each _ _ a) as [[[]|f] a']; [|by exists (set_pending l p)].
  by exists (set_pending [] p).
Qed.

End Completing.

(** ** Any sequence of calls *)
Inductive pmt_call := InputPMT (token : Z) (packet : Packet) | PatchOf (pid : Z) (patch : Patch).

(** The slots completed, in order. *)
Definition log_slot (slot : completedSlot) : M (list completedSlot) unit := modify (fun l => l ++ [slot]).

Definition run_call (c : pmt_call) : M (pmtTransformer * list completedSlot) unit :=
  match c with
  | InputPMT token packet => pmtTransformer_Consume I B log_slot token packet;; mret tt
  | PatchOf pid patch => Signal B log_slot pid patch
  end.

Definition input_tokens (cs : list pmt_call) : list Z :=
  omap (fun c => match c with InputPMT t _ => Some t | PatchOf _ _ => None end) cs.

(** The section of a packet that holds one section, behind a pointer field of 0. *)
Definition pmt_bytes (packet : Packet) : list Z :=
  let l := tail (Payload packet) in take (3 + Z.to_nat (announced l)) l.

(** A packet in which no PMT of the program is found. *)
Definition no_pmt (packet : Packet) : Prop :=
  HasPayload (Header packet) = false \/ byte_at (Payload packet) 1 = 0xFF%Z
  \/ parse_pmt I 1 (pmt_bytes packet) = Ok None.

(** The slot of a packet passed through. *)
Definition passed (cs : list pmt_call) (slot : completedSlot) : Prop :=
  exists packet, InputPMT (token slot) packet ∈ cs /\ slot_packets slot = [packet] /\ no_pmt packet.

(** A held PMT is a packet of the input and the section read from it. *)
Definition held_from (cs : list pmt_call) (x : pendingPMT) : Prop :=
  InputPMT (pmt_token x) (pmt_packet x) ∈ cs
  /\ parse_pmt I 1 (pmt_bytes (pmt_packet x)) = Ok (Some (pmt_section x)).

(** The last patch signalled for a PID. *)
Definition last_patch (cs : list pmt_call) (pid : Z) : option Patch :=
  foldl (fun o c => match c with PatchOf q f => if (q =? pid)%Z then Some f else o | _ => o end) None cs.

(** A PMT section with each stream changed by the last patch of its PID, and the
    next version number. *)
Definition rewritten (cs : list pmt_call) (s s' : PSISection) : Prop :=
  exists h d x,
    Syntax s = Some {| Data := x; syntax_Header := Some h |} /\ PMT x = Some d
    /\ s' = {| CRC32 := CRC32 s; section_Header := section_Header s;
         Syntax := Some {|
           Data := {| EIT := EIT x; NIT := NIT x; PAT := PAT x;
             PMT := Some {|
               ElementaryStreams := (fun e => match last_patch cs (ElementaryPID e) with
                 | Some patch => patch e | None => e end) <$> ElementaryStreams d;
               PCRPID := PCRPID d; ProgramDescriptors := ProgramDescriptors d;
               ProgramNumber := ProgramNumber d |};
             SDT := SDT x; TOT := TOT x |};
           syntax_Header := Some {|
             CurrentNextIndicator := CurrentNextIndicator h; LastSectionNumber := LastSectionNumber h;
             SectionNumber := SectionNumber h; TableIDExtension := TableIDExtension h;
             VersionNumber := (VersionNumber h + 1) `mod` 32 |} |} |}.

(** The streams of the first PMT whose media are supported. *)
Definition awaited (encrypted : bool) (o : option pendingPMT) (pid : Z) : Prop :=
  exists x d e, o = Some x /\ section_pmt (pmt_section x) = Some d /\ e ∈ ElementaryStreams d
    /\ ElementaryPID e = pid /\ SupportedMediaType (StreamType e) encrypted = true.

(** The slot of a held PMT, released after the calls [cs1]: every awaited stream
    had signalled by then; without any patch the packet is left as it is, and
    otherwise it carries the rewritten section. *)
Definition released_as (encrypted : bool) (cs : list pmt_call) (o : option pendingPMT)
    (x : pendingPMT) (slot : completedSlot) : Prop :=
  token slot = pmt_token x /\ exists cs1 cs2 q, cs = cs1 ++ cs2 /\ held_from cs1 x
  /\ (forall pid, awaited encrypted o pid -> is_Some (last_patch cs1 pid))
  /\ slot_packets slot = [q]
  /\ (((forall pid, last_patch cs1 pid = None) /\ q = pmt_packet x)
      \/ ((exists pid, is_Some (last_patch cs1 pid))
          /\ exists s', rewritten cs1 (pmt_section x) s'
             /\ PacketizePSISection (W := B) (pmt_packet x) s' = Ok q)).

(** The held PMTs that are released are the first ones, [rel]. *)
Record history (encrypted : bool) (cs : list pmt_call) (p : pmtTransformer) (log : list completedSlot)
    (rel : list pendingPMT) (slots : list completedSlot) : Prop := {
  history_released : Forall2 (released_as encrypted cs (list.head rel)) rel slots;
  history_logged : slots `sublist_of` log;
  history_order : (pmt_token <$> rel ++ pending p) `sublist_of` input_tokens cs;
  history_once : (token <$> log) ++ (pmt_token <$> pending p) ≡ₚ input_tokens cs;
  history_origin : Forall (fun slot => slot ∈ slots \/ passed cs slot) log;
  history_held : Forall (held_from cs) (rel ++ pending p);
  history_patches : forall pid f, patches p !! pid = Some (Some f) <-> last_patch cs pid = Some f;
  history_awaited : forall pid, awaited encrypted (list.head (rel ++ pending p)) pid -> is_Some (patches p !! pid);
  history_initialized : initialized p = bool_decide (rel ++ pending p <> []);
  history_parts : collector p = NewPMTCollector 1 /\ inputEncrypted p = encrypted;
}.

Definition settled (p : pmtTransformer) : Prop := pending p = [] \/ waiting (patches p) = true.

(** *** What the transformer knows *)

Lemma waiting_patch m pid o : waiting m = false -> m !! pid = Some o -> is_Some o.
Proof.
  intros Hw Hm. destruct o as [f|]; [by eexists|]. apply not_true_iff_false in Hw. contradict Hw.
  unfold waiting. apply existsb_exists. exists (pid, None). split; [|done].
  by apply list_elem_of_In, elem_of_map_to_list.
Qed.

Lemma no_patches_empty m : no_patches m = true <-> m = ∅.
Proof. unfold no_patches. rewrite Nat.eqb_eq. apply map_size_empty_iff. Qed.

Lemma next_version_mod v : next_version v = ((v + 1) `mod` 32)%Z.
Proof.
  unfold next_version, u8. change 0x1F%Z with (Z.ones 5). rewrite Z.land_ones by done.
  rewrite <- Znumtheory.Zmod_div_mod; [done..|]. by exists 8%Z.
Qed.

Lemma section_pmt_parts s d : section_pmt s = Some d ->
  exists h x, Syntax s = Some {| Data := x; syntax_Header := Some h |} /\ PMT x = Some d.
Proof.
  unfold section_pmt, pmt_of. destruct (_ =? _)%Z; [|done]. destruct (Syntax s) as [[x [h|]]|]; [|done..].
  cbn. destruct (PMT x) as [d'|] eqn:E; [|done]. cbn. intros [= ->]. by exists h, x.
Qed.

(** The section that is written, when the patches known are those of the calls. *)
Lemma rewritten_section cs m s d : (forall pid f, m !! pid = Some (Some f) <-> last_patch cs pid = Some f) ->
  section_pmt s = Some d -> rewritten cs s (bump_version (patch_section m s)).
Proof.
  intros Hm (h & x & Es & Ed)%section_pmt_parts. exists h, d, x. split; [done|]. split; [done|].
  unfold bump_version, patch_section, map_pmt. rewrite Es. cbn. rewrite Ed. cbn. unfold with_streams, id. cbn.
  rewrite next_version_mod. do 6 f_equal. apply list_fmap_ext. intros _ e _. unfold patch_stream.
  destruct (m !! ElementaryPID e) as [[f|]|] eqn:E.
  - by rewrite (proj1 (Hm _ _) E).
  - destruct (last_patch cs _) as [f|] eqn:El; [|done]. apply Hm in El. discriminate (eq_trans (eq_sym E) El).
  - destruct (last_patch cs _) as [f|] eqn:El; [|done]. apply Hm in El. discriminate (eq_trans (eq_sym E) El).
Qed.

Lemma parsed_pmt n l s : parse_pmt I n l = Ok (Some s) -> is_Some (section_pmt s).
Proof.
  unfold parse_pmt, section_pmt. destruct (ParsePSISection l) as [x|[]]; [|done..].
  destruct (pmt_of x) as [[h d]|] eqn:E; [|done]. destruct (_ && _); [|done]. intros [= <-]. rewrite E. by eexists.
Qed.

(** *** Releasing *)
Definition released_with (m : gmap Z (option Patch)) (x : pendingPMT) (slot : completedSlot) : Prop :=
  token slot = pmt_token x /\ exists q, released_packet m x = Ok q /\ slot_packets slot = [q].

Lemma release_log m l log log' : release log_slot m l log = (Ok tt, log') ->
  if waiting m then log' = log else exists new, log' = log ++ new /\ Forall2 (released_with m) l new.
Proof.
  unfold release. destruct (waiting m) eqn:Hm; [by intros [= <-]|].
  revert log. induction l as [|x l IH]; intros log E.
  - injection E as <-. exists []. by rewrite app_nil_r.
  - cbn [for_each] in E. apply bind_Ok_inv in E as ([] & log1 & E1 & E).
    assert (exists slot, log1 = log ++ [slot] /\ released_with m x slot) as (slot & -> & Hs).
    { unfold release_one in E1. apply bind_Ok_inv in E1 as (q & l1 & Eq & E1). injection E1 as <-.
      assert (released_packet m x = Ok q /\ l1 = log) as [Hq ->].
      { unfold released_packet in *. destruct (no_patches m); [by injection Eq as <- <-|].
        unfold wrap_err, lift in Eq. destruct (PacketizePSISection _ _) as [|[]]; [|done..]. by injection Eq as <- <-. }
      eexists. split; [done|]. split; [done|]. by exists q. }
    destruct (IH _ E) as (new & -> & Hn). exists (slot :: new). rewrite <- app_assoc. split; [done|]. by constructor.
Qed.

(** A PMT released now: the patches are those of all the calls so far. *)
Lemma released_now encrypted cs p log rel slots x slot : history encrypted cs p log rel slots ->
  waiting (patches p) = false -> held_from cs x -> released_with (patches p) x slot ->
  released_as encrypted cs (list.head (rel ++ pending p)) x slot.
Proof.
  intros Hh Hw Hx [Ht (q & Hq & Es)]. split; [done|]. exists cs, [], q. rewrite app_nil_r.
  pose proof (history_patches _ _ _ _ _ _ Hh) as Hm. split_and!; [done|done| |done|].
  - intros pid Ha. destruct (history_awaited _ _ _ _ _ _ Hh pid Ha) as [o Ho].
    destruct (waiting_patch _ _ _ Hw Ho) as [f ->]. exists f. by apply Hm.
  - unfold released_packet in Hq. destruct (no_patches (patches p)) eqn:Hn.
    + left. injection Hq as <-. split; [|done]. apply no_patches_empty in Hn. intros pid.
      destruct (last_patch cs pid) as [f|] eqn:El; [|done]. apply Hm in El. by rewrite Hn, lookup_empty in El.
    + right. split.
      * destruct (map_choose (patches p)) as (pid & o & Ho); [intros E; by rewrite (proj2 (no_patches_empty _) E) in Hn|].
        destruct (waiting_patch _ _ _ Hw Ho) as [f ->]. exists pid, f. by apply Hm.
      * destruct (parsed_pmt _ _ _ (proj2 Hx)) as [d Hd]. eexists. split; [|exact Hq]. by eapply rewritten_section.
Qed.

Lemma history_settle encrypted cs p log rel slots p' log' : history encrypted cs p log rel slots ->
  completeReady B log_slot (p, log) = (Ok tt, (p', log')) ->
  settled p' /\ exists rel' slots', history encrypted cs p' log' rel' slots'.
Proof.
  intros Hh E. pose proof (completeReady_release log_slot p log) as Hs.
  destruct (release log_slot (patches p) (pending p) log) as [r log1] eqn:Er.
  destruct Hs as (p1 & E1 & Hp). rewrite E in E1. injection E1 as <- <- <-. specialize (Hp eq_refl).
  apply release_log in Er. unfold settled. destruct (waiting (patches p)) eqn:Hw; subst p'.
  { subst log'. split; [by right|]. by exists rel, slots. }
  destruct Er as (new & -> & Hn). split; [by left|]. exists (rel ++ pending p), (slots ++ new).
  assert (token <$> new = pmt_token <$> pending p) as En.
  { clear -Hn. induction Hn as [|x slot l l' [Ht _] _ IH]; [done|]. cbn. by rewrite Ht, IH. }
  assert (Forall2 (released_as encrypted cs (list.head (rel ++ pending p))) (pending p) new) as Hnow.
  { pose proof (history_held _ _ _ _ _ _ Hh) as [_ Hheld]%Forall_app.
    pose proof (released_now encrypted cs p log rel slots) as Hrel. specialize (fun x slot => Hrel x slot Hh Hw).
    revert Hrel Hheld. generalize (list.head (rel ++ pending p)). clear -Hn. intros o Hrel.
    induction Hn as [|x slot l l' Hx _ IH]; intros Hheld; constructor; apply Forall_cons in Hheld as [Hx' Hl]; auto. }
  destruct Hh as [Hr Hl Ho Hc Hf Hheld Hm Ha Hi Hp].
  split; cbn [set_pending pending patches initialized collector inputEncrypted]; rewrite ?app_nil_r; try done.
  - apply Forall2_app; [|done]. destruct rel; [|exact Hr]. apply Forall2_nil_inv_l in Hr as ->. by apply Forall2_nil.
  - by apply sublist_app.
  - by rewrite fmap_app, En.
  - apply Forall_app. split; [|apply Forall_forall; intros; left; set_solver].
    eapply Forall_impl; [exact Hf|]. intros slot [Hs|Hs]; [left; set_solver|by right].
Qed.

(** *** More calls *)
Lemma input_snoc cs t packet : input_tokens (cs ++ [InputPMT t packet]) = input_tokens cs ++ [t].
Proof. unfold input_tokens. by rewrite omap_app. Qed.

Lemma last_patch_snoc cs c pid : last_patch (cs ++ [c]) pid =
  match c with PatchOf q f => if (q =? pid)%Z then Some f else last_patch cs pid | _ => last_patch cs pid end.
Proof. unfold last_patch. by rewrite foldl_app. Qed.

Lemma passed_more cs cs' slot : passed cs slot -> passed (cs ++ cs') slot.
Proof. intros (packet & Hp & Es). exists packet. split; [set_solver|done]. Qed.

Lemma origin_more cs cs' (slots log : list completedSlot) :
  Forall (fun slot => slot ∈ slots \/ passed cs slot) log ->
  Forall (fun slot => slot ∈ slots \/ passed (cs ++ cs') slot) log.
Proof.
  intros Hf. eapply Forall_impl; [exact Hf|]. intros slot [Hs|Hs]; [by left|right; by apply passed_more].
Qed.

Lemma held_more cs cs' l : Forall (held_from cs) l -> Forall (held_from (cs ++ cs')) l.
Proof. intros Hf. eapply Forall_impl; [exact Hf|]. intros x [Hx Hp]. split; [set_solver|done]. Qed.

Lemma released_more encrypted cs cs' o rel slots : Forall2 (released_as encrypted cs o) rel slots ->
  Forall2 (released_as encrypted (cs ++ cs') o) rel slots.
Proof.
  intros Hf. eapply Forall2_impl; [exact Hf|]. intros x slot (Ht & cs1 & cs2 & q & -> & Hrest). split; [done|].
  exists cs1, (cs2 ++ cs'), q. by rewrite app_assoc.
Qed.

(** What [collectPMT] finds. *)
Lemma collect_section packet p r p' : collector p = NewPMTCollector 1 -> collectPMT I packet p = (Ok r, p') ->
  p' = p /\ match r with
            | Some s => parse_pmt I 1 (pmt_bytes packet) = Ok (Some s)
            | None => no_pmt packet
            end.
Proof.
  intros Hc. unfold collectPMT. destruct (negb (HasPayload (Header packet))) eqn:Hh.
  { intros [= <- <-]. split; [done|]. left. by apply negb_true_iff. }
  intros E. apply bind_Ok_inv in E as ([] & ? & E0 & E). apply fail_if_Ok in E0 as [Hpusi ->].
  apply bind_Ok_inv in E as ([] & ? & E0 & E). apply fail_if_Ok in E0 as [_ ->].
  apply bind_Ok_inv in E as (b0 & ? & E0 & E). apply index_Ok in E0 as [Hx0 ->].
  apply bind_Ok_inv in E as ([] & ? & E0 & E). apply fail_if_Ok in E0 as [Hz ->].
  apply bind_Ok_inv in E as (b2 & ? & E0 & E). apply index_Ok in E0 as [Hx2 ->].
  apply bind_Ok_inv in E as (b3 & ? & E0 & E). apply index_Ok in E0 as [Hx3 ->].
  apply bind_Ok_inv in E as ([] & ? & E0 & E). apply fail_if_Ok in E0 as [Hlen ->].
  apply bind_Ok_inv in E as (rest & ? & E0 & E). apply subslice_Ok in E0 as [Hrest ->].
  apply bind_Ok_inv in E as ([] & ? & E0 & E). apply fail_if_Ok in E0 as [Hff ->].
  apply negb_false_iff in Hpusi, Hz. rewrite Hpusi in E. apply Z.eqb_eq in Hz as ->.
  unfold no_pmt, pmt_bytes. destruct (Payload packet) as [|x l]; [done|]. cbn [tail].
  injection Hx0 as ->. change (l !! 1 = Some b2) in Hx2. change (l !! 2 = Some b3) in Hx3.
  assert (Z.lor (Z.shiftl (Z.land b2 0x0F) 8) b3 = announced l) as Ha.
  { unfold announced, byte_at. by rewrite Hx2, Hx3. }
  rewrite Ha in *. apply Nat.ltb_ge in Hlen. cbn [length] in Hlen. rewrite slice_end in Hrest. cbn [drop Nat.add] in Hrest.
  set (n := 3 + Z.to_nat (announced l)) in *. assert (n <= length l) as Hn by lia.
  assert (l = take n l ++ stuffing (length l - n)) as El.
  { rewrite <- (take_drop n l) at 1. f_equal. change (drop _ l) with (drop n l) in Hrest. rewrite <- Hrest.
    symmetry. apply replicate_as_Forall. split; [by rewrite Hrest, length_drop|].
    apply Forall_forall. intros b Hb%list_elem_of_In. apply not_true_iff_false in Hff.
    destruct (Z.eqb_spec b 0xFF); [done|]. contradict Hff. apply existsb_exists. exists b. split; [done|]. by apply negb_true_iff, Z.eqb_neq. }
  unfold on_collector, pmt_Consume, on_sections in E. rewrite Hc, bind_unfold in E.
  cbn [sections NewPMTCollector programNumber] in E. rewrite El in E at 1.
  destruct (psi_Consume true (0%Z :: take n l ++ stuffing (length l - n)) []) as [[ss|f] buf] eqn:Ec; [|done].
  assert (announced (take n l) = announced l) as Hat.
  { unfold announced. by rewrite <- !(byte_at_app (take n l) (drop n l)), take_drop by (rewrite length_take; lia). }
  apply consume_alone in Ec as [-> ->]; [|rewrite Hat, length_take; lia].
  assert (byte_at (take n l) 0 = byte_at l 0) as E0b.
  { by rewrite <- (byte_at_app (take n l) (drop n l)), take_drop by (rewrite length_take; lia). }
  assert (set_collector (NewPMTCollector 1) p = p) as Ep by (rewrite <- Hc; by destruct p).
  rewrite E0b in E. change (byte_at (0%Z :: l) 1) with (byte_at l 0). destruct (Z.eqb_spec (byte_at l 0) 0xFF).
  - injection E as <- <-. split; [exact Ep|]. by right; left.
  - rewrite bind_unfold in E. cbn [get programNumber first_found lift] in E. injection E as E <-. split; [exact Ep|].
    destruct (parse_pmt I 1 (take n l)) as [[s|]|f] eqn:Epp; [injection E as <-; done|injection E as <-; by right; right|discriminate E].
Qed.

Lemma history_signal encrypted cs p log rel slots pid patch p' log' : history encrypted cs p log rel slots ->
  run_call (PatchOf pid patch) (p, log) = (Ok tt, (p', log')) ->
  settled p' /\ exists rel' slots', history encrypted (cs ++ [PatchOf pid patch]) p' log' rel' slots'.
Proof.
  intros Hh. cbn [run_call]. unfold Signal. rewrite on_fst_modify. apply (history_settle encrypted _ _ _ rel slots).
  destruct Hh as [Hr Hl Ho Hc Hf Hheld Hm Ha Hi Hp].
  assert (input_tokens (cs ++ [PatchOf pid patch]) = input_tokens cs) as Ei
    by (unfold input_tokens; by rewrite omap_app, app_nil_r).
  split; cbn [set_patches pending patches initialized collector inputEncrypted]; rewrite ?Ei; try done.
  - by apply released_more.
  - by apply origin_more.
  - by apply held_more.
  - intros pid' f. rewrite last_patch_snoc. destruct (Z.eqb_spec pid pid') as [->|Hne].
    + rewrite (lookup_insert_eq (M := gmap Z)). split; by intros [= ->].
    + rewrite (lookup_insert_ne (M := gmap Z)) by done. apply Hm.
  - intros pid' Hpid. destruct (Z.eqb_spec pid pid') as [->|Hne].
    + rewrite (lookup_insert_eq (M := gmap Z)). by eexists.
    + rewrite (lookup_insert_ne (M := gmap Z)) by done. by apply Ha.
Qed.

(** Announcing the streams of a PMT. *)
Definition announce (encrypted : bool) (m : gmap Z (option Patch)) (ss : list PMTElementaryStream) :=
  foldl (fun m s => if SupportedMediaType (StreamType s) encrypted && negb (bool_decide (is_Some (m !! ElementaryPID s)))
                    then <[ElementaryPID s := None]> m else m) m ss.

Lemma announce_lookup encrypted ss : forall m pid,
  (is_Some (m !! pid) -> announce encrypted m ss !! pid = m !! pid)
  /\ (m !! pid = None -> announce encrypted m ss !! pid = None \/ announce encrypted m ss !! pid = Some None)
  /\ ((exists e, e ∈ ss /\ ElementaryPID e = pid /\ SupportedMediaType (StreamType e) encrypted = true) ->
       is_Some (announce encrypted m ss !! pid)).
Proof.
  induction ss as [|s ss IH]; intros m pid.
  { split_and!; [done|by left|by intros (e & He%elem_of_nil & _)]. }
  unfold announce. cbn [foldl]. set (m1 := if _ && _ then _ else _). fold (announce encrypted m1 ss).
  destruct (IH m1 pid) as (IHs & IHn & IHe).
  assert (Hold : is_Some (m !! pid) -> m1 !! pid = m !! pid).
  { intros Hs. subst m1. destruct (_ && _) eqn:Hb; [|done]. apply andb_true_iff in Hb as [_ Hb%negb_true_iff].
    apply bool_decide_eq_false in Hb. apply (lookup_insert_ne (M := gmap Z)). by intros <-. }
  assert (Hnew : m !! pid = None -> m1 !! pid = None \/ m1 !! pid = Some None).
  { intros Hs. subst m1. destruct (_ && _); [|by left]. destruct (decide (ElementaryPID s = pid)) as [<-|Hne].
    - right. exact (lookup_insert_eq (M := gmap Z) _ _ _).
    - left. by rewrite (lookup_insert_ne (M := gmap Z)). }
  split_and!.
  - intros Hs. rewrite IHs; [by apply Hold|rewrite (Hold Hs); exact Hs].
  - intros Hs. destruct (Hnew Hs) as [E|E]; [by apply IHn|]. right. rewrite (IHs ltac:(rewrite E; by eexists)). exact E.
  - intros (e & [->|He]%elem_of_cons & Hpid & Hsup); [|by apply IHe; exists e].
    assert (is_Some (m1 !! pid)) as Hs'; [|rewrite (IHs Hs'); exact Hs'].
    destruct (decide (is_Some (m !! pid))) as [Hs|Hs]; [rewrite (Hold Hs); exact Hs|].
    subst m1. rewrite Hsup, bool_decide_eq_false_2 by (rewrite Hpid; exact Hs). cbn [andb negb]. rewrite Hpid.
    rewrite (lookup_insert_eq (M := gmap Z)). by eexists.
Qed.

Lemma init_patches_parts ss p : pending (init_patches ss p) = pending p /\ collector (init_patches ss p) = collector p
  /\ inputEncrypted (init_patches ss p) = inputEncrypted p /\ initialized (init_patches ss p) = true
  /\ patches (init_patches ss p) = if initialized p then patches p else announce (inputEncrypted p) (patches p) ss.
Proof. unfold init_patches. by destruct (initialized p) eqn:E. Qed.

(** Another PMT is held. *)
Lemma history_hold encrypted cs p log rel slots t packet s d : history encrypted cs p log rel slots ->
  parse_pmt I 1 (pmt_bytes packet) = Ok (Some s) -> section_pmt s = Some d ->
  let x := {| pmt_token := t; pmt_packet := packet; pmt_section := s |} in
  let p1 := init_patches (ElementaryStreams d) p in
  history encrypted (cs ++ [InputPMT t packet]) (set_pending (pending p1 ++ [x]) p1) log rel slots.
Proof.
  intros [Hr Hl Ho Hc Hf Hheld Hm Ha Hi [Hp He]] Hs Hd x p1.
  destruct (init_patches_parts (ElementaryStreams d) p) as (Ep & Ec & Ee & Eini & Epat).
  subst p1. set (p1 := init_patches _ p) in *.
  assert (forall pid f, patches p1 !! pid = Some (Some f) <-> patches p !! pid = Some (Some f)) as Hsame.
  { intros pid f. rewrite Epat. destruct (initialized p); [done|].
    destruct (announce_lookup (inputEncrypted p) (ElementaryStreams d) (patches p) pid) as (A & A' & _).
    destruct (patches p !! pid) as [o|] eqn:Eo; [by rewrite A by by eexists|].
    split; [|done]. intros E'. by destruct (A' eq_refl) as [E|E]; rewrite E in E'. }
  split; cbn [set_pending pending patches initialized collector inputEncrypted]; rewrite ?Ep, ?Ec, ?Ee, ?Eini.
  - by apply released_more.
  - exact Hl.
  - rewrite input_snoc, app_assoc, fmap_app. by apply sublist_app.
  - rewrite input_snoc, fmap_app, app_assoc. by rewrite Hc.
  - by apply origin_more.
  - rewrite app_assoc. apply Forall_app. split; [by apply held_more|]. constructor; [|constructor].
    split; [cbn; set_solver|exact Hs].
  - intros pid f. rewrite Hsame, last_patch_snoc. apply Hm.
  - intros pid Haw. rewrite Epat, Hi. destruct (rel ++ pending p) as [|x0 l] eqn:El.
    + rewrite bool_decide_eq_false_2 by (by intros []). apply announce_lookup.
      rewrite app_assoc, El in Haw. destruct Haw as (x' & d' & e & [= <-] & Hd' & He' & Hpid & Hsup).
      cbn in Hd'. rewrite Hd in Hd'. injection Hd' as <-. exists e. by rewrite He.
    + rewrite bool_decide_eq_true_2 by done. apply Ha. by rewrite app_assoc, El in Haw.
  - symmetry. apply bool_decide_eq_true_2. rewrite app_assoc. by intros [_ [=]]%app_eq_nil.
  - by split.
Qed.

Lemma history_input encrypted cs p log rel slots t packet p' log' : settled p -> history encrypted cs p log rel slots ->
  run_call (InputPMT t packet) (p, log) = (Ok tt, (p', log')) ->
  settled p' /\ exists rel' slots', history encrypted (cs ++ [InputPMT t packet]) p' log' rel' slots'.
Proof.
  intros Hset Hh E. cbn [run_call] in E. apply bind_Ok_inv in E as (ss & [p1 log1] & E & E').
  injection E' as <- <-. unfold pmtTransformer_Consume in E. rewrite bind_unfold in E. unfold on_fst at 1 in E.
  destruct (collectPMT I packet p) as [[found|f] p2] eqn:Ep; [|done].
  destruct (collect_section _ _ _ _ (proj1 (history_parts _ _ _ _ _ _ Hh)) Ep) as [-> Hfound]. destruct found as [section|].
  - destruct (section_pmt section) as [d|] eqn:Ed; [|done]. rewrite on_fst_must, !on_fst_modify, on_fst_get, ClonePacket_same in E.
    apply bind_Ok_inv in E as ([] & [p3 log3] & E & Er). injection Er as _ -> ->.
    revert E. apply (history_settle encrypted _ _ _ rel slots). by apply history_hold.
  - cbn in E. injection E as _ <- <-. split; [exact Hset|]. exists rel, slots.
    destruct Hh as [Hr Hl Ho Hc Hf Hheld Hm Ha Hi Hp]. split; try done.
    + by apply released_more.
    + by apply sublist_inserts_r.
    + rewrite input_snoc. by apply sublist_inserts_r.
    + rewrite input_snoc, fmap_app. cbn. rewrite <- Hc. solve_Permutation.
    + apply Forall_app. split; [by apply origin_more|]. constructor; [|constructor]. right.
      exists packet. rewrite ClonePacket_same. split; [set_solver|done].
    + by apply held_more.
    + intros pid f. rewrite last_patch_snoc. apply Hm.
Qed.

Lemma calls_history encrypted cs : forall p log,
  for_each run_call cs (newPMTTransformer encrypted, []) = (Ok tt, (p, log)) ->
  settled p /\ exists rel slots, history encrypted cs p log rel slots.
Proof.
  induction cs as [|c cs IH] using rev_ind; intros p log E.
  - injection E as <- <-. split; [by left|]. exists [], []. split; try done.
    by intros pid (x & d & e & [=] & _).
  - rewrite for_each_app in E. apply bind_Ok_inv in E as ([] & [p2 log2] & E & Ec).
    destruct (IH _ _ E) as (Hs & rel & slots & Hh). cbn [for_each] in Ec.
    apply bind_Ok_inv in Ec as ([] & [p3 log3] & Ec & Er). injection Er as <- <-.
    destruct c; [by eapply history_input|by eapply history_signal].
Qed.

(** C27: over any sequence of PMT packets and patches, then the end of the stream: when
    the calls succeed, every packet got one slot.  The slots are those of packets
    without a PMT, passed through, and those of the PMTs held back, in the order of
    the input.  The slot of a held PMT holds one packet, made after calls [cs1] by
    which every supported stream of the first PMT had signalled a patch: the packet
    itself when there was no patch, and otherwise the packet with, in the place of
    the section read from it, that section with the version number increased modulo
    32 and every stream changed by the last patch of its PID.  Nothing stays held. *)
Theorem pmt_in_order encrypted cs p log :
  (for_each run_call cs;; pmtTransformer_Flush) (newPMTTransformer encrypted, []) = (Ok tt, (p, log)) ->
  exists rel slots, Forall (held_from cs) rel
  /\ Forall2 (released_as encrypted cs (list.head rel)) rel slots
  /\ slots `sublist_of` log /\ (pmt_token <$> rel) `sublist_of` input_tokens cs
  /\ (token <$> log) ≡ₚ input_tokens cs
  /\ Forall (fun slot => slot ∈ slots \/ passed cs slot) log /\ pending p = [].
Proof.
  intros E. apply bind_Ok_inv in E as ([] & [p1 log1] & E & Ef).
  destruct (calls_history _ _ _ _ E) as (_ & rel & slots & [Hr Hl Ho Hc Hf Hheld _ _ _ _]).
  unfold pmtTransformer_Flush in Ef. rewrite on_fst_get in Ef. apply fail_if_Ok in Ef as [Hp [= -> ->]].
  assert (pending p1 = []) as Ep by (by destruct (pending p1)). rewrite Ep, app_nil_r in *.
  exists rel, slots. by split_and!.
Qed.

Lemma waiting_missing m : waiting m = true -> exists pid, m !! pid = Some None.
Proof.
  unfold waiting. intros Hw. apply existsb_exists in Hw as ([pid [patch|]] & Hin & Hm); [done|].
  exists pid. by apply elem_of_map_to_list, list_elem_of_In.
Qed.

(** C28: a PMT is only held back while a stream that it waits for is known to miss its
    patch: no other call leaves anything held. *)
Theorem pmt_held_missing encrypted cs p log x :
  for_each run_call cs (newPMTTransformer encrypted, []) = (Ok tt, (p, log)) -> x ∈ pending p ->
  exists pid, patches p !! pid = Some None.
Proof.
  intros E Hx. destruct (calls_history _ _ _ _ E) as [[Hs|Hs] _]; [rewrite Hs in Hx; by apply elem_of_nil in Hx|].
  by apply waiting_missing.
Qed.
End Transform.

(** ** Witnesses *)
Import Reference.

(** Two PMTs wait for the patch of the AAC stream. *)
Definition sample_calls : list pmt_call :=
  [InputPMT 1 Sample.pmt_packet; InputPMT 2 Sample.pmt_packet; PatchOf 0x101 (retype 0xcf [])].

Lemma pmt_in_order_witness : exists p log q1 q2,
  (for_each (run_call iterator bits) sample_calls;; pmtTransformer_Flush)
    (newPMTTransformer false, []) = (Ok tt, (p, log))
  /\ log = [{| token := 1; slot_packets := [q1] |}; {| token := 2; slot_packets := [q2] |}]
  /\ q1 <> Sample.pmt_packet /\ (token <$> log) ≡ₚ [1; 2]%Z.
Proof.
  destruct ((for_each (run_call iterator bits) sample_calls;; pmtTransformer_Flush)
    (newPMTTransformer false, [])) as [r [p log]] eqn:E.
  assert (r = Ok tt) as -> by (change r with (fst (r, (p, log))); rewrite <- E; vm_compute; reflexivity).
  destruct (pmt_in_order iterator bits false sample_calls p log E) as (rel & slots & _ & _ & _ & _ & Ht & _).
  assert (log = snd (snd (Ok tt : outcome unit, (p, log)))) as El by done. rewrite <- E in El.
  vm_compute in El. rewrite El in *. do 4 eexists. split; [reflexivity|]. split; [reflexivity|].
  split; [intros Hq; vm_compute in Hq; discriminate Hq|exact Ht].
Defined.

Lemma pmt_held_missing_witness : exists p log,
  for_each (run_call iterator bits) (take 2 sample_calls) (newPMTTransformer false, []) = (Ok tt, (p, log))
  /\ exists pid, patches p !! pid = Some None.
Proof.
  destruct (for_each (run_call iterator bits) (take 2 sample_calls) (newPMTTransformer false, []))
    as [r [p log]] eqn:E.
  assert (r = Ok tt) as -> by (change r with (fst (r, (p, log))); rewrite <- E; vm_compute; reflexivity).
  exists p, log. split; [reflexivity|].
  assert (exists x, head (pending p) = Some x) as [x Hx].
  { change p with (fst (snd (Ok tt : outcome unit, (p, log)))). rewrite <- E. vm_compute. by eexists. }
  eapply (pmt_held_missing iterator bits false (take 2 sample_calls) p log x E).
  destruct (pending p); [discriminate|]. injection Hx as ->. apply list_elem_of_here.
Defined.
