(* ===== verification/PesData.v ===== *)
(** * internal/go-astits/data_pes.go: PES packets

    The PES header with its optional header, read by [parsePESData] and written by
    [writePESData], over the iterator and writer interfaces of Astikit.v.  The
    PTS/DTS codec of the same file is in PacketCodec.v, since the adaptation
    extension uses it.  The structure is built once all its parts have been read;
    lengths are computed on uint8, as the code does. *)

From S2P Require Import Prelude Packet Astikit PacketCodec.
Local Open Scope Z_scope.

(** ** Constants *)
Definition PSTDBufferScale128Bytes : Z := 0.
Definition PSTDBufferScale1024Bytes : Z := 1.

Definition PTSDTSIndicatorBothPresent : Z := 3.
Definition PTSDTSIndicatorIsForbidden : Z := 1.
Definition PTSDTSIndicatorNoPTSOrDTS : Z := 0.
Definition PTSDTSIndicatorOnlyPTS : Z := 2.

Definition StreamIDPrivateStream1 : Z := 189.
Definition StreamIDPaddingStream : Z := 190.
Definition StreamIDPrivateStream2 : Z := 191.

Definition TrickModeControlFastForward : Z := 0.
Definition TrickModeControlFastReverse : Z := 3.
Definition TrickModeControlFreezeFrame : Z := 2.
Definition TrickModeControlSlowMotion : Z := 1.
Definition TrickModeControlSlowReverse : Z := 4.

Definition pesHeaderLength : Z := 6.
Definition escrLength : Z := 6.
Definition dsmTrickModeLength : Z := 1.

(** ** Data *)
Record DSMTrickMode := MkTrickMode {
  FieldID : Z;
  FrequencyTruncation : Z;
  IntraSliceRefresh : Z;
  RepeatControl : Z;
  TrickModeControl : Z;
}.

(** [HasOptionalFields], which nothing sets, is left out. *)
Record PESOptionalHeader := MkOptionalHeader {
  AdditionalCopyInfo : Z;
  CRC : Z;
  DataAlignmentIndicator : bool;
  opt_DSMTrickMode : option DSMTrickMode;
  DTS : option ClockReference;
  ESCR : option ClockReference;
  ESRate : Z;
  Extension2Data : list Z;
  Extension2Length : Z;
  HasAdditionalCopyInfo : bool;
  HasCRC : bool;
  HasDSMTrickMode : bool;
  HasESCR : bool;
  HasESRate : bool;
  HasExtension : bool;
  HasExtension2 : bool;
  HasPackHeaderField : bool;
  HasPrivateData : bool;
  HasProgramPacketSequenceCounter : bool;
  HasPSTDBuffer : bool;
  HeaderLength : Z;
  IsCopyrighted : bool;
  IsOriginal : bool;
  MarkerBits : Z;
  MPEG1OrMPEG2ID : Z;
  OriginalStuffingLength : Z;
  PacketSequenceCounter : Z;
  PackField : Z;
  pes_Priority : bool;
  PrivateData : list Z;
  PSTDBufferScale : Z;
  PSTDBufferSize : Z;
  PTS : option ClockReference;
  PTSDTSIndicator : Z;
  ScramblingControl : Z;
}.

Record PESHeader := MkPESHeader {
  OptionalHeader : option PESOptionalHeader;
  PacketLength : Z;
  StreamID : Z;
}.

(** [Header] is never nil where it is used. *)
Record PESData := MkPESData { pes_Data : list Z; pes_Header : PESHeader }.

#[export] Instance DSMTrickMode_eq_dec : EqDecision DSMTrickMode.
Proof. solve_decision. Defined.
#[export] Instance PESOptionalHeader_eq_dec : EqDecision PESOptionalHeader.
Proof. solve_decision. Defined.
#[export] Instance PESHeader_eq_dec : EqDecision PESHeader.
Proof. solve_decision. Defined.
#[export] Instance PESData_eq_dec : EqDecision PESData.
Proof. solve_decision. Defined.

Definition IsVideoStream (h : PESHeader) : bool :=
  (StreamID h =? 0xe0) || (StreamID h =? 0xfd).

Definition hasPESOptionalHeader (streamID : Z) : bool :=
  negb (streamID =? StreamIDPaddingStream) && negb (streamID =? StreamIDPrivateStream2).

(** ** Parsing *)
Definition parseDSMTrickMode (i : Z) : DSMTrickMode :=
  let c := Z.shiftr i 5 in
  if (c =? TrickModeControlFastForward) || (c =? TrickModeControlFastReverse) then
    {| TrickModeControl := c; FieldID := Z.land (Z.shiftr i 3) 0x3;
       IntraSliceRefresh := Z.land (Z.shiftr i 2) 0x1;
       FrequencyTruncation := Z.land i 0x3; RepeatControl := 0 |}
  else if c =? TrickModeControlFreezeFrame then
    {| TrickModeControl := c; FieldID := Z.land (Z.shiftr i 3) 0x3;
       IntraSliceRefresh := 0; FrequencyTruncation := 0; RepeatControl := 0 |}
  else if (c =? TrickModeControlSlowMotion) || (c =? TrickModeControlSlowReverse) then
    {| TrickModeControl := c; FieldID := 0; IntraSliceRefresh := 0;
       FrequencyTruncation := 0; RepeatControl := Z.land i 0x1f |}
  else
    {| TrickModeControl := c; FieldID := 0; IntraSliceRefresh := 0;
       FrequencyTruncation := 0; RepeatControl := 0 |}.

Section Parse.
Context {I : Type} `{BytesIterator I}.

Definition parseESCR : M I ClockReference :=
  bs ← next_bytes_no_copy 6;
  let b := byte_at bs in
  let escr :=
    Z.lor (Z.shiftl (Z.land (Z.shiftr (b 0%nat) 3) 0x7) 39)
    (Z.lor (Z.shiftl (Z.land (b 0%nat) 0x3) 37)
    (Z.lor (Z.shiftl (b 1%nat) 29)
    (Z.lor (Z.shiftl (Z.shiftr (b 2%nat) 3) 24)
    (Z.lor (Z.shiftl (Z.land (b 2%nat) 0x3) 22)
    (Z.lor (Z.shiftl (b 3%nat) 14)
    (Z.lor (Z.shiftl (Z.shiftr (b 4%nat) 3) 9)
    (Z.lor (Z.shiftl (Z.land (b 4%nat) 0x3) 7)
           (Z.shiftr (b 5%nat) 1)))))))) in
  mret (newClockReference (Z.shiftr escr 9) (Z.land escr 0x1ff)).

(** The time stamps that the indicator announces. *)
Definition parse_stamps (indicator : Z) : M I (option ClockReference * option ClockReference) :=
  if indicator =? PTSDTSIndicatorOnlyPTS then
    pts ← wrap_err "astits: parsing PTS failed" parsePTSOrDTS;
    mret (Some pts, None)
  else if indicator =? PTSDTSIndicatorBothPresent then
    pts ← wrap_err "astits: parsing PTS failed" parsePTSOrDTS;
    dts ← wrap_err "astits: parsing PTS failed" parsePTSOrDTS;
    mret (Some pts, Some dts)
  else mret (None, None).

(** The fields behind the extension flag, all zero without it. *)
Record pes_extension := MkPESExtension {
  ext_flags_byte : Z;
  ext_private : option (list Z);
  ext_pack : option Z;
  ext_counter : option (list Z);
  ext_pstd : option (list Z);
  ext_second : option (Z * list Z);
}.

Definition no_extension : pes_extension :=
  {| ext_flags_byte := 0; ext_private := None; ext_pack := None; ext_counter := None;
     ext_pstd := None; ext_second := None |}.

Definition parse_pes_extension : M I pes_extension :=
  b ← next_byte;
  private ← optionally (masked b 0x80) (next_bytes 16);
  pack ← optionally (masked b 0x40) next_byte;
  counter ← optionally (masked b 0x20) (next_bytes_no_copy 2);
  pstd ← optionally (masked b 0x10) (next_bytes_no_copy 2);
  second ← optionally (masked b 0x1) (
    l ← wrap_err "astits: fetching next bytes failed" NextByte;
    let len := Z.land l 0x7f in
    data ← next_bytes len;
    mret (len, data));
  mret {| ext_flags_byte := b; ext_private := private; ext_pack := pack;
          ext_counter := counter; ext_pstd := pstd; ext_second := second |}.

(** A field of the bytes of an optional part, zero without it. *)
Definition of_part (part : option (list Z)) (f : (nat -> Z) -> Z) : Z :=
  match part with Some bs => f (byte_at bs) | None => 0 end.

Definition parsePESOptionalHeader : M I (PESOptionalHeader * Z) :=
  b1 ← next_byte;
  b2 ← next_byte;
  let indicator := Z.land (Z.shiftr b2 6) 0x3 in
  len ← next_byte;
  o ← gets Offset;
  let dataStart := o + len in
  stamps ← parse_stamps indicator;
  escr ← optionally (masked b2 0x20) (wrap_err "astits: parsing ESCR failed" parseESCR);
  rate ← optionally (masked b2 0x10) (next_bytes_no_copy 3);
  trick ← optionally (masked b2 0x8) next_byte;
  copyInfo ← optionally (masked b2 0x4) next_byte;
  crc ← optionally (masked b2 0x2) (next_bytes_no_copy 2);
  ext ← (if masked b2 0x1 then parse_pes_extension else mret no_extension);
  mret ({|
    AdditionalCopyInfo := match copyInfo with Some b => Z.land b 0x7f | None => 0 end;
    CRC := of_part crc (fun b => Z.lor (Z.shiftr (b 0%nat) 8) (b 1%nat));
    DataAlignmentIndicator := masked b1 0x4;
    opt_DSMTrickMode := parseDSMTrickMode <$> trick;
    DTS := stamps.2;
    ESCR := escr;
    ESRate := of_part rate (fun b =>
      Z.lor (Z.shiftl (Z.land (b 0%nat) 0x7f) 15)
        (Z.lor (Z.shiftl (b 1%nat) 7) (Z.shiftr (b 2%nat) 1)));
    Extension2Data := match ext_second ext with Some (_, l) => l | None => [] end;
    Extension2Length := match ext_second ext with Some (n, _) => n | None => 0 end;
    HasAdditionalCopyInfo := masked b2 0x4;
    HasCRC := masked b2 0x2;
    HasDSMTrickMode := masked b2 0x8;
    HasESCR := masked b2 0x20;
    HasESRate := masked b2 0x10;
    HasExtension := masked b2 0x1;
    HasExtension2 := masked (ext_flags_byte ext) 0x1;
    HasPackHeaderField := masked (ext_flags_byte ext) 0x40;
    HasPrivateData := masked (ext_flags_byte ext) 0x80;
    HasProgramPacketSequenceCounter := masked (ext_flags_byte ext) 0x20;
    HasPSTDBuffer := masked (ext_flags_byte ext) 0x10;
    HeaderLength := len;
    IsCopyrighted := masked b1 0x2;
    IsOriginal := masked b1 0x1;
    MarkerBits := Z.shiftr b1 6;
    MPEG1OrMPEG2ID := of_part (ext_counter ext) (fun b => Z.land (Z.shiftr (b 1%nat) 6) 0x1);
    OriginalStuffingLength := of_part (ext_counter ext) (fun b => Z.land (b 1%nat) 0x3f);
    PacketSequenceCounter := of_part (ext_counter ext) (fun b => Z.land (b 0%nat) 0x7f);
    PackField := default 0 (ext_pack ext);
    pes_Priority := masked b1 0x8;
    PrivateData := default [] (ext_private ext);
    PSTDBufferScale := of_part (ext_pstd ext) (fun b => Z.land (Z.shiftr (b 0%nat) 5) 0x1);
    PSTDBufferSize := of_part (ext_pstd ext) (fun b =>
      Z.lor (Z.shiftl (Z.land (b 0%nat) 0x1f) 8) (b 1%nat));
    PTS := stamps.1;
    PTSDTSIndicator := indicator;
    ScramblingControl := Z.land (Z.shiftr b1 4) 0x3 |}, dataStart).

(** The header, and the offsets of the start and of the end of the data. *)
Definition parsePESHeader : M I (PESHeader * (Z * Z)) :=
  b ← next_byte;
  bs ← next_bytes_no_copy 2;
  let len := be16 bs 0 in
  o ← gets Offset;
  n ← gets Len;
  let dataEnd := if 0 <? len then o + len else n in
  if hasPESOptionalHeader b then
    r ← wrap_err "astits: parsing PES optional header failed" parsePESOptionalHeader;
    mret ({| OptionalHeader := Some r.1; PacketLength := len; StreamID := b |}, (r.2, dataEnd))
  else
    dataStart ← gets Offset;
    mret ({| OptionalHeader := None; PacketLength := len; StreamID := b |}, (dataStart, dataEnd)).

Definition parsePESData : M I PESData :=
  Seek 3;;
  r ← wrap_err "astits: parsing PES header failed" parsePESHeader;
  let '(h, (dataStart, dataEnd)) := r in
  fail_if (dataEnd <? dataStart) "astits: data end is before data start";;
  Seek dataStart;;
  data ← next_bytes (dataEnd - dataStart);
  mret {| pes_Data := data; pes_Header := h |}.
End Parse.

(** ** Lengths: all arithmetic is on uint8 *)
Definition calcPESOptionalHeaderDataLength (h : PESOptionalHeader) : Z :=
  let length :=
    if PTSDTSIndicator h =? PTSDTSIndicatorOnlyPTS then u8 (0 + ptsOrDTSByteLength)
    else if PTSDTSIndicator h =? PTSDTSIndicatorBothPresent
    then u8 (0 + 2 * ptsOrDTSByteLength) else 0 in
  let length := if HasESCR h then u8 (length + escrLength) else length in
  let length := if HasESRate h then u8 (length + 3) else length in
  let length := if HasDSMTrickMode h then u8 (length + dsmTrickModeLength) else length in
  let length := if HasAdditionalCopyInfo h then u8 (length + 1) else length in
  if HasExtension h then
    let length := u8 (length + 1) in
    let length := if HasPrivateData h then u8 (length + 16) else length in
    let length := if HasProgramPacketSequenceCounter h then u8 (length + 2) else length in
    let length := if HasPSTDBuffer h then u8 (length + 2) else length in
    if HasExtension2 h
    then u8 (length + u8 (1 + u8 (Z.of_nat (List.length (Extension2Data h))))) else length
  else length.

Definition calcPESOptionalHeaderLength (h : option PESOptionalHeader) : Z :=
  match h with
  | None => 0
  | Some h => u8 (3 + calcPESOptionalHeaderDataLength h)
  end.

Definition calcPESDataLength (h : PESHeader) (payloadLeft : list Z) (isPayloadStart : bool)
    (bytesAvailable : Z) : Z * Z :=
  let totalBytes := 0 + pesHeaderLength in
  let totalBytes := if isPayloadStart
    then totalBytes + calcPESOptionalHeaderLength (OptionalHeader h) else totalBytes in
  let bytesAvailable := bytesAvailable - totalBytes in
  let payloadBytes := if Z.of_nat (length payloadLeft) <? bytesAvailable
    then Z.of_nat (length payloadLeft) else bytesAvailable in
  (totalBytes, payloadBytes).

(** The PES packet length that the header announces. *)
Definition pes_packet_length (h : PESHeader) (payloadSize : Z) : Z :=
  if IsVideoStream h then 0
  else
    let n := if hasPESOptionalHeader (StreamID h)
      then payloadSize + calcPESOptionalHeaderLength (OptionalHeader h) else payloadSize in
    if 0xffff <? n then 0 else n.

(** ** Writing *)
Section Write.
Context {W : Type} `{BitsWriter W}.

Definition writeDSMTrickMode (m : option DSMTrickMode) : M W Z :=
  with_batch (
    m ← must m;
    let c := TrickModeControl m in
    BWriteN c 3;;
    (if (c =? TrickModeControlFastForward) || (c =? TrickModeControlFastReverse) then
       BWriteN (FieldID m) 2;;
       BWrite (WBool (IntraSliceRefresh m =? 1));;
       BWriteN (FrequencyTruncation m) 2
     else if c =? TrickModeControlFreezeFrame then
       BWriteN (FieldID m) 2;;
       BWriteN 0xff 3
     else if (c =? TrickModeControlSlowMotion) || (c =? TrickModeControlSlowReverse) then
       BWriteN (RepeatControl m) 5
     else BWriteN 0xff 5);;
    batch_result dsmTrickModeLength).

Definition writeESCR (cr : option ClockReference) : M W Z :=
  with_batch (
    BWriteN 0xff 2;;
    cr ← must cr;
    BWriteN (Z.shiftr (Base cr) 30) 3;;
    BWrite (WBool true);;
    BWriteN (Z.shiftr (Base cr) 15) 15;;
    BWrite (WBool true);;
    BWriteN (Base cr) 15;;
    BWrite (WBool true);;
    BWriteN (Extension cr) 9;;
    BWrite (WBool true);;
    batch_result escrLength).

(** The part behind the extension flag. *)
Definition write_pes_extension (h : PESOptionalHeader) : M (Batch * W) Z :=
  BWrite (WBool (HasPrivateData h));;
  BWrite (WBool false);;
  BWrite (WBool (HasProgramPacketSequenceCounter h));;
  BWrite (WBool (HasPSTDBuffer h));;
  BWriteN 0xff 3;;
  BWrite (WBool (HasExtension2 h));;
  n1 ← count_if (HasPrivateData h) (BWriteBytesN (PrivateData h) 16 0;; mret 16);
  n2 ← count_if (HasProgramPacketSequenceCounter h) (
    BWrite (WBool true);;
    BWriteN (PacketSequenceCounter h) 7;;
    BWrite (WBool true);;
    BWriteN (MPEG1OrMPEG2ID h) 1;;
    BWriteN (OriginalStuffingLength h) 6;;
    mret 2);
  n3 ← count_if (HasPSTDBuffer h) (
    BWriteN 0x1 2;;
    BWriteN (PSTDBufferScale h) 1;;
    BWriteN (PSTDBufferSize h) 13;;
    mret 2);
  n4 ← count_if (HasExtension2 h) (
    BWrite (WBool true);;
    BWriteN (u8 (Z.of_nat (length (Extension2Data h)))) 7;;
    BWrite (WBytes (Extension2Data h));;
    mret (1 + Z.of_nat (length (Extension2Data h))));
  mret (1 + n1 + n2 + n3 + n4).

Definition writePESOptionalHeader (h : option PESOptionalHeader) : M W Z :=
  match h with
  | None => mret 0
  | Some h =>
    with_batch (
      BWriteN 0x2 2;;
      BWriteN (ScramblingControl h) 2;;
      BWrite (WBool (pes_Priority h));;
      BWrite (WBool (DataAlignmentIndicator h));;
      BWrite (WBool (IsCopyrighted h));;
      BWrite (WBool (IsOriginal h));;
      BWriteN (PTSDTSIndicator h) 2;;
      BWrite (WBool (HasESCR h));;
      BWrite (WBool (HasESRate h));;
      BWrite (WBool (HasDSMTrickMode h));;
      BWrite (WBool (HasAdditionalCopyInfo h));;
      BWrite (WBool false);;
      BWrite (WBool (HasExtension h));;
      BWrite (WUint8 (calcPESOptionalHeaderDataLength h));;
      n1 ← count_if (PTSDTSIndicator h =? PTSDTSIndicatorOnlyPTS)
             (on_snd (writePTSOrDTS 0x2 (PTS h)));
      n2 ← count_if (PTSDTSIndicator h =? PTSDTSIndicatorBothPresent) (
             n ← on_snd (writePTSOrDTS 0x3 (PTS h));
             n' ← on_snd (writePTSOrDTS 0x1 (DTS h));
             mret (n + n'));
      n3 ← count_if (HasESCR h) (on_snd (writeESCR (ESCR h)));
      n4 ← count_if (HasESRate h) (
             BWrite (WBool true);;
             BWriteN (ESRate h) 22;;
             BWrite (WBool true);;
             mret 3);
      n5 ← count_if (HasDSMTrickMode h) (on_snd (writeDSMTrickMode (opt_DSMTrickMode h)));
      n6 ← count_if (HasAdditionalCopyInfo h) (
             BWrite (WBool true);;
             BWriteN (AdditionalCopyInfo h) 7;;
             mret 1);
      n7 ← count_if (HasExtension h) (write_pes_extension h);
      batch_result (3 + n1 + n2 + n3 + n4 + n5 + n6 + n7))
  end.

Definition writePESHeader (h : PESHeader) (payloadSize : Z) : M W Z :=
  with_batch (
    BWriteN 0x000001 24;;
    BWrite (WUint8 (StreamID h));;
    BWrite (WUint16 (u16 (pes_packet_length h payloadSize)));;
    n ← count_if (hasPESOptionalHeader (StreamID h))
          (on_snd (writePESOptionalHeader (OptionalHeader h)));
    batch_result (pesHeaderLength + n)).

(** The numbers of bytes written, in all and of the payload. *)
Definition writePESData (h : PESHeader) (payloadLeft : list Z) (isPayloadStart : bool)
    (bytesAvailable : Z) : M W (Z * Z) :=
  n ← count_if isPayloadStart (writePESHeader h (Z.of_nat (length payloadLeft)));
  let totalBytesWritten := n in
  let payloadBytesWritten := bytesAvailable - totalBytesWritten in
  let payloadBytesWritten := if Z.of_nat (length payloadLeft) <? payloadBytesWritten
    then Z.of_nat (length payloadLeft) else payloadBytesWritten in
  if payloadBytesWritten <? 0 then panic
  else
    Write (WBytes (take (Z.to_nat payloadBytesWritten) payloadLeft));;
    mret (totalBytesWritten + payloadBytesWritten, payloadBytesWritten).
End Write.
