(* ===== verification/PesDataSpec.v ===== *)
(** * The wire format of PES packets, and the round trip

    The bytes of each part of a PES header, that [writePESData] writes them and
    that [parsePESData] reads them back.  [wire_optional] says which optional
    headers have a wire format: fields in range and flags that agree with the
    options.  [sealed_pes] is what is read back: the header with the lengths that
    the writer computes, without the CRC and the pack header, which it does not
    write. *)

From S2P Require Import Prelude DescriptorWrite DescriptorSpec Packet Astikit PacketCodec Codec PesData PacketSpec.
Local Open Scope Z_scope.

#[local] Arguments octet : simpl never.
#[local] Arguments bits_of : simpl never.
#[local] Arguments Z.pow : simpl never.
#[local] Arguments Z.land : simpl never.
#[local] Arguments Z.shiftr : simpl never.
#[local] Arguments Z.shiftl : simpl never.
#[local] Arguments masked : simpl never.

(** ** The parts, as groups of bits *)
Definition flags_bits1 (h : PESOptionalHeader) : list bool :=
  bits_of 2 0x2 ++ bits_of 2 (ScramblingControl h)
  ++ [pes_Priority h; DataAlignmentIndicator h; IsCopyrighted h; IsOriginal h].
Definition flags_bits2 (h : PESOptionalHeader) : list bool :=
  bits_of 2 (PTSDTSIndicator h)
  ++ [HasESCR h; HasESRate h; HasDSMTrickMode h; HasAdditionalCopyInfo h; false; HasExtension h].

Definition escr_bits (c : ClockReference) : list bool :=
  bits_of 2 0xff ++ bits_of 3 (Z.shiftr (Base c) 30) ++ [true]
  ++ bits_of 15 (Z.shiftr (Base c) 15) ++ [true] ++ bits_of 15 (Base c) ++ [true]
  ++ bits_of 9 (Extension c) ++ [true].
Definition escr_bytes (c : ClockReference) : list Z := bytes_of_bits (escr_bits c).

Definition es_rate_bits (h : PESOptionalHeader) : list bool :=
  [true] ++ bits_of 22 (ESRate h) ++ [true].

Definition is_fast (c : Z) : bool :=
  (c =? TrickModeControlFastForward) || (c =? TrickModeControlFastReverse).
Definition is_slow (c : Z) : bool :=
  (c =? TrickModeControlSlowMotion) || (c =? TrickModeControlSlowReverse).

Definition trick_bits (m : DSMTrickMode) : list bool :=
  let c := TrickModeControl m in
  bits_of 3 c ++
  (if is_fast c then bits_of 2 (FieldID m) ++ [IntraSliceRefresh m =? 1] ++ bits_of 2 (FrequencyTruncation m)
   else if c =? TrickModeControlFreezeFrame then bits_of 2 (FieldID m) ++ bits_of 3 0xff
   else if is_slow c then bits_of 5 (RepeatControl m)
   else bits_of 5 0xff).
Definition trick_byte (m : DSMTrickMode) : Z := octet (trick_bits m).

Definition copy_bits (h : PESOptionalHeader) : list bool := [true] ++ bits_of 7 (AdditionalCopyInfo h).

Definition extension_flags (h : PESOptionalHeader) : list bool :=
  [HasPrivateData h; false; HasProgramPacketSequenceCounter h; HasPSTDBuffer h]
  ++ bits_of 3 0xff ++ [HasExtension2 h].
Definition counter_bits (h : PESOptionalHeader) : list bool :=
  [true] ++ bits_of 7 (PacketSequenceCounter h) ++ [true] ++ bits_of 1 (MPEG1OrMPEG2ID h)
  ++ bits_of 6 (OriginalStuffingLength h).
Definition pstd_bits (h : PESOptionalHeader) : list bool :=
  bits_of 2 0x1 ++ bits_of 1 (PSTDBufferScale h) ++ bits_of 13 (PSTDBufferSize h).
Definition second_bits (h : PESOptionalHeader) : list bool :=
  [true] ++ bits_of 7 (u8 (len (Extension2Data h))).

(** ** The bytes *)
Definition stamp_bytes (h : PESOptionalHeader) : list Z :=
  if PTSDTSIndicator h =? PTSDTSIndicatorOnlyPTS then pts_bytes 0x2 (default zero_clock (PTS h))
  else if PTSDTSIndicator h =? PTSDTSIndicatorBothPresent then
    pts_bytes 0x3 (default zero_clock (PTS h)) ++ pts_bytes 0x1 (default zero_clock (DTS h))
  else [].

Definition zero_trick : DSMTrickMode := parseDSMTrickMode 0.

Definition extension_bytes (h : PESOptionalHeader) : list Z :=
  [octet (extension_flags h)]
  ++ (if HasPrivateData h then PrivateData h else [])
  ++ (if HasProgramPacketSequenceCounter h then bytes_of_bits (counter_bits h) else [])
  ++ (if HasPSTDBuffer h then bytes_of_bits (pstd_bits h) else [])
  ++ (if HasExtension2 h then [octet (second_bits h)] ++ Extension2Data h else []).

(** The fields that the header length counts. *)
Definition field_bytes (h : PESOptionalHeader) : list Z :=
  stamp_bytes h
  ++ (if HasESCR h then escr_bytes (default zero_clock (ESCR h)) else [])
  ++ (if HasESRate h then bytes_of_bits (es_rate_bits h) else [])
  ++ (if HasDSMTrickMode h then [trick_byte (default zero_trick (opt_DSMTrickMode h))] else [])
  ++ (if HasAdditionalCopyInfo h then [octet (copy_bits h)] else [])
  ++ (if HasExtension h then extension_bytes h else []).

Definition optional_bytes (h : PESOptionalHeader) : list Z :=
  [octet (flags_bits1 h)] ++ [octet (flags_bits2 h)] 
  ++ [calcPESOptionalHeaderDataLength h] ++ field_bytes h.

Definition pes_prefix : list Z := [0; 0; 1].

Definition pes_header_bytes (h : PESHeader) (size : Z) : list Z :=
  pes_prefix ++ [StreamID h] ++ be_bytes 2 (pes_packet_length h size)
  ++ match OptionalHeader h with Some o => optional_bytes o | None => [] end.

(** ** Well-formed values *)
Definition wire_trick (m : DSMTrickMode) : Prop :=
  let c := TrickModeControl m in
  0 <= c < 8
  /\ (if is_fast c || (c =? TrickModeControlFreezeFrame) then 0 <= FieldID m < 4 else FieldID m = 0)
  /\ (if is_fast c then 0 <= IntraSliceRefresh m < 2 /\ 0 <= FrequencyTruncation m < 4
      else IntraSliceRefresh m = 0 /\ FrequencyTruncation m = 0)
  /\ (if is_slow c then 0 <= RepeatControl m < 32 else RepeatControl m = 0).

Definition wire_stamps (h : PESOptionalHeader) : Prop :=
  0 <= PTSDTSIndicator h < 4
  /\ if PTSDTSIndicator h =? PTSDTSIndicatorOnlyPTS then wire_opt wire_pts (PTS h) /\ DTS h = None
     else if PTSDTSIndicator h =? PTSDTSIndicatorBothPresent
     then wire_opt wire_pts (PTS h) /\ wire_opt wire_pts (DTS h)
     else PTS h = None /\ DTS h = None.

Definition wire_extension (h : PESOptionalHeader) : Prop :=
  (if HasPrivateData h then length (PrivateData h) = 16%nat /\ bytes_ok (PrivateData h)
   else PrivateData h = [])
  /\ (if HasProgramPacketSequenceCounter h
      then 0 <= PacketSequenceCounter h < 128 /\ 0 <= MPEG1OrMPEG2ID h < 2
           /\ 0 <= OriginalStuffingLength h < 64
      else PacketSequenceCounter h = 0 /\ MPEG1OrMPEG2ID h = 0 /\ OriginalStuffingLength h = 0)
  /\ (if HasPSTDBuffer h then 0 <= PSTDBufferScale h < 2 /\ 0 <= PSTDBufferSize h < 2 ^ 13
      else PSTDBufferScale h = 0 /\ PSTDBufferSize h = 0)
  /\ (if HasExtension2 h then len (Extension2Data h) < 128 /\ bytes_ok (Extension2Data h)
      else Extension2Data h = []).

Definition without_extension (h : PESOptionalHeader) : Prop :=
  HasPrivateData h = false /\ HasProgramPacketSequenceCounter h = false
  /\ HasPSTDBuffer h = false /\ HasExtension2 h = false.

Record wire_optional (h : PESOptionalHeader) : Prop := {
  wire_scrambling : 0 <= ScramblingControl h < 4;
  wire_times : wire_stamps h;
  wire_escr : if HasESCR h then wire_opt wire_pcr (ESCR h) else ESCR h = None;
  wire_rate : if HasESRate h then 0 <= ESRate h < 2 ^ 22 else ESRate h = 0;
  wire_mode : if HasDSMTrickMode h then wire_opt wire_trick (opt_DSMTrickMode h)
              else opt_DSMTrickMode h = None;
  wire_copy : if HasAdditionalCopyInfo h then 0 <= AdditionalCopyInfo h < 128
              else AdditionalCopyInfo h = 0;
  wire_ext_fields : wire_extension h;
  wire_ext_flag : HasExtension h = false -> without_extension h;
}.

(** A header that has a wire format, whatever its lengths and unsupported fields. *)
Definition wire_pes (h : PESHeader) : Prop :=
  is_byte (StreamID h)
  /\ match OptionalHeader h with
     | Some o => hasPESOptionalHeader (StreamID h) = true /\ wire_optional o
     | None => hasPESOptionalHeader (StreamID h) = false
     end.

(** ** What is read back *)
Definition sealed_optional (h : PESOptionalHeader) : PESOptionalHeader :=
  {| AdditionalCopyInfo := AdditionalCopyInfo h; CRC := 0;
     DataAlignmentIndicator := DataAlignmentIndicator h; opt_DSMTrickMode := opt_DSMTrickMode h;
     DTS := DTS h; ESCR := ESCR h; ESRate := ESRate h; Extension2Data := Extension2Data h;
     Extension2Length := len (Extension2Data h); HasAdditionalCopyInfo := HasAdditionalCopyInfo h;
     HasCRC := false; HasDSMTrickMode := HasDSMTrickMode h; HasESCR := HasESCR h; HasESRate := HasESRate h;
     HasExtension := HasExtension h; HasExtension2 := HasExtension2 h; HasPackHeaderField := false;
     HasPrivateData := HasPrivateData h;
     HasProgramPacketSequenceCounter := HasProgramPacketSequenceCounter h;
     HasPSTDBuffer := HasPSTDBuffer h; HeaderLength := calcPESOptionalHeaderDataLength h;
     IsCopyrighted := IsCopyrighted h; IsOriginal := IsOriginal h; MarkerBits := 2;
     MPEG1OrMPEG2ID := MPEG1OrMPEG2ID h; OriginalStuffingLength := OriginalStuffingLength h;
     PacketSequenceCounter := PacketSequenceCounter h; PackField := 0; pes_Priority := pes_Priority h;
     PrivateData := PrivateData h; PSTDBufferScale := PSTDBufferScale h; PSTDBufferSize := PSTDBufferSize h;
     PTS := PTS h; PTSDTSIndicator := PTSDTSIndicator h; ScramblingControl := ScramblingControl h |}.

Definition sealed_pes (h : PESHeader) (size : Z) : PESHeader :=
  {| OptionalHeader := sealed_optional <$> OptionalHeader h;
     PacketLength := pes_packet_length h size; StreamID := StreamID h |}.

(** ** Lengths *)
Lemma u8_add x n : u8 (u8 x + n) = u8 (x + n).
Proof. unfold u8. by rewrite Zplus_mod_idemp_l. Qed.

Lemma u8_when (b : bool) x n : (if b then u8 (u8 x + n) else u8 x) = u8 (x + if b then n else 0).
Proof. destruct b; [apply u8_add|by rewrite Z.add_0_r]. Qed.

Lemma u8_add_r x n : u8 (x + u8 n) = u8 (x + n).
Proof. rewrite Z.add_comm, u8_add. by rewrite Z.add_comm. Qed.

Lemma length_when (b : bool) (l : list Z) :
  Z.of_nat (length (if b then l else [])) = if b then Z.of_nat (length l) else 0.
Proof. by destruct b. Qed.

(** What the fields of an optional header take. *)
Definition extension_size (h : PESOptionalHeader) : Z :=
  1 + (if HasPrivateData h then 16 else 0) + (if HasProgramPacketSequenceCounter h then 2 else 0)
  + (if HasPSTDBuffer h then 2 else 0)
  + (if HasExtension2 h then 1 + len (Extension2Data h) else 0).
Definition stamp_size (h : PESOptionalHeader) : Z :=
  if PTSDTSIndicator h =? PTSDTSIndicatorOnlyPTS then 5
  else if PTSDTSIndicator h =? PTSDTSIndicatorBothPresent then 10 else 0.
Definition field_size (h : PESOptionalHeader) : Z :=
  stamp_size h + (if HasESCR h then 6 else 0) + (if HasESRate h then 3 else 0)
  + (if HasDSMTrickMode h then 1 else 0) + (if HasAdditionalCopyInfo h then 1 else 0)
  + (if HasExtension h then extension_size h else 0).

Lemma calc_field_size h : calcPESOptionalHeaderDataLength h = u8 (field_size h).
Proof.
  unfold calcPESOptionalHeaderDataLength, field_size, extension_size, ptsOrDTSByteLength, escrLength,
    dsmTrickModeLength, len.
  assert (E : (if PTSDTSIndicator h =? PTSDTSIndicatorOnlyPTS then u8 (0 + 5)
    else if PTSDTSIndicator h =? PTSDTSIndicatorBothPresent then u8 (0 + 2 * 5) else 0) = u8 (stamp_size h)).
  { unfold stamp_size. by repeat destruct (_ =? _). }
  cbv zeta. rewrite E, !u8_when, !u8_add_r. generalize (stamp_size h). intros x.
  destruct (HasExtension h); [|by rewrite Z.add_0_r].
  assert (E2 : (if HasExtension2 h then u8 (1 + Z.of_nat (length (Extension2Data h))) else 0)
    = u8 (if HasExtension2 h then 1 + Z.of_nat (length (Extension2Data h)) else 0)) by by destruct (HasExtension2 h).
  rewrite E2, u8_add_r, <- !(Z.add_assoc (u8 _)), u8_add. f_equal; lia.
Qed.

(** The length computed on uint8 is the length of the fields: it never overflows. *)
Lemma field_size_range h : wire_optional h -> 0 <= field_size h <= 170.
Proof.
  intros Hw. destruct (wire_ext_fields h Hw) as (_ & _ & _ & H2).
  unfold field_size, extension_size, stamp_size.
  assert (0 <= (if HasExtension2 h then 1 + len (Extension2Data h) else 0) <= 128)
    by (destruct (HasExtension2 h); unfold len in *; lia).
  generalize dependent (if HasExtension2 h then 1 + len (Extension2Data h) else 0).
  intros n Hn. assert (forall (b : bool) k, 0 <= k -> 0 <= (if b then k else 0) <= k) as Hb
    by (intros [] ?; lia).
  pose proof (Hb (HasESCR h) 6). pose proof (Hb (HasESRate h) 3). pose proof (Hb (HasDSMTrickMode h) 1).
  pose proof (Hb (HasAdditionalCopyInfo h) 1). pose proof (Hb (HasPrivateData h) 16).
  pose proof (Hb (HasProgramPacketSequenceCounter h) 2). pose proof (Hb (HasPSTDBuffer h) 2).
  destruct (PTSDTSIndicator h =? PTSDTSIndicatorOnlyPTS),
    (PTSDTSIndicator h =? PTSDTSIndicatorBothPresent), (HasExtension h); lia.
Qed.

Lemma length_extension_bytes h : wire_extension h ->
  Z.of_nat (length (extension_bytes h)) = extension_size h.
Proof.
  intros (Hp & _). unfold extension_bytes, extension_size.
  rewrite !length_app, !Nat2Z.inj_add, !length_when, length_app.
  change (Z.of_nat (length (bytes_of_bits (counter_bits h)))) with 2.
  change (Z.of_nat (length (bytes_of_bits (pstd_bits h)))) with 2.
  destruct (HasPrivateData h); [destruct Hp as [-> _]|]; unfold len; cbn [length]; destruct (HasExtension2 h); lia.
Qed.

Lemma length_field_bytes h : wire_optional h -> Z.of_nat (length (field_bytes h)) = field_size h.
Proof.
  intros Hw. unfold field_bytes, field_size. rewrite !length_app, !Nat2Z.inj_add, !length_when.
  rewrite (length_extension_bytes h (wire_ext_fields h Hw)).
  assert (E : Z.of_nat (length (stamp_bytes h)) = stamp_size h)
    by (unfold stamp_bytes, stamp_size; by repeat destruct (_ =? _)).
  rewrite E. change (Z.of_nat (length (escr_bytes _))) with 6.
  change (Z.of_nat (length (bytes_of_bits (es_rate_bits h)))) with 3.
  change (Z.of_nat (length [_])) with 1. lia.
Qed.

Lemma calc_optional h : wire_optional h ->
  calcPESOptionalHeaderDataLength h = len (field_bytes h) /\ 0 <= len (field_bytes h) <= 170.
Proof.
  intros Hw. pose proof (field_size_range h Hw). unfold len.
  rewrite calc_field_size, (length_field_bytes h Hw), u8_small by lia. lia.
Qed.

(** ** The bytes are bytes *)
Lemma octet_range l : length l = 8%nat -> is_byte (octet l).
Proof. intros Hl. pose proof (byte_of_bits_range l) as Hr. rewrite Hl in Hr. exact Hr. Qed.

Lemma octet_ok l : length l = 8%nat -> bytes_ok [octet l].
Proof. intros Hl. constructor; [by apply octet_range|constructor]. Qed.

Lemma trick_octet_ok m : bytes_ok [trick_byte m].
Proof.
  apply octet_ok. unfold trick_bits. cbv zeta. destruct (is_fast _); [done|].
  destruct (TrickModeControl m =? TrickModeControlFreezeFrame); [done|]. by destruct (is_slow _).
Qed.

Lemma extension_bytes_ok h : wire_extension h -> bytes_ok (extension_bytes h).
Proof.
  intros (Hp & _ & _ & Hx). unfold extension_bytes.
  repeat (apply Forall_app; split); try apply if_bytes_ok; try apply bytes_of_bits_ok; try intros E.
  - by apply octet_ok.
  - rewrite E in Hp. apply Hp.
  - apply bytes_of_bits_ok.
  - apply bytes_of_bits_ok.
  - rewrite E in Hx. apply Forall_app. split; [by apply octet_ok|apply Hx].
Qed.

Lemma optional_bytes_ok h : wire_optional h -> bytes_ok (optional_bytes h).
Proof.
  intros Hw. destruct (calc_optional h Hw) as [Hc Hr]. unfold optional_bytes, field_bytes.
  repeat (apply Forall_app; split); try apply if_bytes_ok; try (intros _); try apply bytes_of_bits_ok.
  - by apply octet_ok.
  - by apply octet_ok.
  - constructor; [|constructor]. unfold is_byte. lia.
  - unfold stamp_bytes. destruct (_ =? _); [apply bytes_of_bits_ok|]. destruct (_ =? _); [|constructor].
    apply Forall_app. split; apply bytes_of_bits_ok.
  - apply trick_octet_ok.
  - by apply octet_ok.
  - apply extension_bytes_ok, (wire_ext_fields h Hw).
Qed.

Lemma pes_header_ok h size : wire_pes h -> bytes_ok (pes_header_bytes h size).
Proof.
  intros [Hs Ho]. unfold pes_header_bytes. repeat (apply Forall_app; split).
  - by repeat constructor.
  - by constructor.
  - apply bytes_of_bits_ok.
  - destruct (OptionalHeader h); [apply optional_bytes_ok, Ho|constructor].
Qed.

(** ** Writing and reading the parts *)
Section Codec.
Context {W : Type} `{ReliableWriter W} {I : Type} `{BytesIteratorLaws I}.

Lemma writes_escr c : writes (writeESCR (Some c)) (byte_bits (escr_bytes c)) escrLength.
Proof.
  apply (writes_group _ _ 6); [done|]. eapply writes_eq.
  - unfold writeESCR. apply writes_with_batch. eapply bwrites_bind; [apply bwrites_bwriten|].
    eapply bwrites_bind; [by apply bwrites_must|]. write_rules.
  - by rewrite !app_nil_r.
  - done.
Qed.

(** The reference is spread over the six bytes, between marker bits. *)
Lemma escr_octets c : escr_bytes c =
  [octet ([true; true] ++ bits_of 3 (Z.shiftr (Base c) 30) ++ [true] ++ bits_of 2 (Z.shiftr (Base c) 28));
   octet (bits_of 8 (Z.shiftr (Base c) 20));
   octet (bits_of 5 (Z.shiftr (Base c) 15) ++ [true] ++ bits_of 2 (Z.shiftr (Base c) 13));
   octet (bits_of 8 (Z.shiftr (Base c) 5));
   octet (bits_of 5 (Base c) ++ [true] ++ bits_of 2 (Z.shiftr (Extension c) 7));
   octet (bits_of 7 (Extension c) ++ [true])].
Proof.
  unfold escr_bytes, escr_bits. change 15%nat with (2 + (8 + 5))%nat. change 9%nat with (2 + 7)%nat.
  rewrite !bits_of_app, !Z.shiftr_shiftr by lia. reflexivity.
Qed.

(** A base of 33 bits, cut where the octets are. *)
Lemma base_digits b : 0 <= b < 2 ^ 33 ->
  b = Z.shiftr b 30 mod 8 * 2 ^ 30 + Z.shiftr b 28 mod 4 * 2 ^ 28 + Z.shiftr b 20 mod 256 * 2 ^ 20
      + Z.shiftr b 15 mod 32 * 2 ^ 15 + Z.shiftr b 13 mod 4 * 2 ^ 13 + Z.shiftr b 5 mod 256 * 2 ^ 5
      + b mod 32.
Proof.
  intros Hb. rewrite !Z.shiftr_div_pow2 by lia.
  change (2 ^ 28) with (2 ^ 20 * 256). change (2 ^ 15) with (2 ^ 13 * 4).
  Z.to_euclidean_division_equations; lia.
Qed.

Lemma reads_escr c o : wire_pcr c -> reads o parseESCR (escr_bytes c) c.
Proof.
  intros (Hb & He). rewrite escr_octets.
  rewrite <- (app_nil_r [_; _; _; _; _; _]).
  eapply reads_bind; [by apply reads_bytes_no_copy|]. eapply reads_eq; [apply reads_ret|done|].
  simpl_bytes. destruct c as [b e]; cbn [Base Extension] in *. octet_numbers.
  pose proof (base_digits b Hb) as Db.
  assert (De : e = Z.shiftr e 7 mod 4 * 2 ^ 7 + e mod 128) by field_arith.
  revert Db De E E0 E1 E2 E3 E4.
  generalize (Z.mod_pos_bound (Z.shiftr b 30) 8 eq_refl) (Z.mod_pos_bound (Z.shiftr b 28) 4 eq_refl)
    (Z.mod_pos_bound (Z.shiftr b 20) 256 eq_refl) (Z.mod_pos_bound (Z.shiftr b 15) 32 eq_refl)
    (Z.mod_pos_bound (Z.shiftr b 13) 4 eq_refl) (Z.mod_pos_bound (Z.shiftr b 5) 256 eq_refl)
    (Z.mod_pos_bound b 32 eq_refl) (Z.mod_pos_bound (Z.shiftr e 7) 4 eq_refl)
    (Z.mod_pos_bound e 128 eq_refl).
  generalize (Z.shiftr b 30 mod 8) as p0, (Z.shiftr b 28 mod 4) as p1, (Z.shiftr b 20 mod 256) as p2,
    (Z.shiftr b 15 mod 32) as p3, (Z.shiftr b 13 mod 4) as p4, (Z.shiftr b 5 mod 256) as p5,
    (b mod 32) as p6, (Z.shiftr e 7 mod 4) as p7, (e mod 128) as p8.
  intros p0 p1 p2 p3 p4 p5 p6 p7 p8 R0 R1 R2 R3 R4 R5 R6 R7 R8 Db De E E0 E1 E2 E3 E4.
  replace (Z.land (Z.shiftr n 3) 7) with p0 by field_arith.
  replace (Z.land n 3) with p1 by field_arith.
  replace (Z.shiftr n1 3) with p3 by field_arith.
  replace (Z.land n1 3) with p4 by field_arith.
  replace (Z.shiftr n3 3) with p6 by field_arith.
  replace (Z.land n3 3) with p7 by field_arith.
  replace (Z.shiftr n4 1) with p8 by field_arith.
  subst n0 n2. clear E E1 E3 E4. unfold newClockReference. subst b e.
  f_equal; arith_masks; arith_lor; Z.to_euclidean_division_equations; lia.
Qed.

Lemma length_trick_bits m : length (trick_bits m) = 8%nat.
Proof.
  unfold trick_bits. cbv zeta. destruct (is_fast _); [done|].
  destruct (TrickModeControl m =? TrickModeControlFreezeFrame); [done|]. by destruct (is_slow _).
Qed.

Lemma writes_trick m : writes (writeDSMTrickMode (Some m)) (byte_bits [trick_byte m]) dsmTrickModeLength.
Proof.
  assert (Hb : byte_bits [trick_byte m] = trick_bits m).
  { unfold trick_byte. rewrite byte_bits_cons, bits_of_octet by apply length_trick_bits. apply app_nil_r. }
  rewrite Hb. unfold writeDSMTrickMode, trick_bits, is_fast, is_slow. cbv zeta.
  apply writes_with_batch. rewrite <- (app_nil_l (_ ++ _)).
  eapply bwrites_bind; [by apply bwrites_must|]. eapply bwrites_bind; [write_call|].
  rewrite <- (app_nil_r (if _ || _ then _ else _)).
  eapply bwrites_bind; [|apply bwrites_result].
  destruct (_ || _); [write_rules|].
  destruct (_ =? TrickModeControlFreezeFrame); [write_rules|]. destruct (_ || _); write_rules.
Qed.

Lemma trick_control m : wire_trick m -> Z.shiftr (trick_byte m) 5 = TrickModeControl m.
Proof.
  intros [Hc _]. unfold trick_byte, trick_bits. cbv zeta. destruct (is_fast _); [octet_field|].
  destruct (_ =? TrickModeControlFreezeFrame); [octet_field|]. destruct (is_slow _); octet_field.
Qed.

Lemma parse_trick m : wire_trick m -> parseDSMTrickMode (trick_byte m) = m.
Proof.
  intros Hm. unfold parseDSMTrickMode. rewrite (trick_control m Hm).
  fold (is_fast (TrickModeControl m)) (is_slow (TrickModeControl m)).
  destruct Hm as (Hc & Hf & Hi & Hr). unfold trick_byte, trick_bits. cbv zeta in *.
  destruct m as [fi fr ir rc c]. cbn [FieldID FrequencyTruncation IntraSliceRefresh RepeatControl TrickModeControl] in *.
  destruct (is_fast c) eqn:E1; cbn [orb] in Hf.
  - assert (is_slow c = false) as E2 by (unfold is_fast, is_slow in *; unfold TrickModeControlFastForward, TrickModeControlFastReverse, TrickModeControlSlowMotion, TrickModeControlSlowReverse in *; lia).
    rewrite E2 in Hr. subst rc. assert (Hb : Z.b2z (ir =? 1) = ir) by (destruct (Z.eqb_spec ir 1); cbn; lia).
    f_equal; octet_field.
  - destruct Hi as [-> ->]. destruct (_ =? TrickModeControlFreezeFrame) eqn:E2.
    + assert (is_slow c = false) as E3 by (unfold is_slow; unfold TrickModeControlFreezeFrame, TrickModeControlSlowMotion, TrickModeControlSlowReverse in *; lia).
      rewrite E3 in Hr. subst rc. f_equal; octet_field.
    + subst fi. destruct (is_slow c); [|by subst rc]. f_equal; octet_field.
Qed.

(** ** Time stamps *)
Lemma bwrites_stamp1 h : wire_stamps h ->
  bwrites (count_if (PTSDTSIndicator h =? PTSDTSIndicatorOnlyPTS) (on_snd (writePTSOrDTS 0x2 (PTS h))))
    (if PTSDTSIndicator h =? PTSDTSIndicatorOnlyPTS then byte_bits (stamp_bytes h) else [])
    (if PTSDTSIndicator h =? PTSDTSIndicatorOnlyPTS then 5 else 0).
Proof.
  intros (_ & Hs). unfold stamp_bytes. apply bwrites_count_if. intros E. rewrite E in *.
  destruct Hs as [Hs _]. destruct (wire_opt_default _ _ zero_clock Hs) as [-> _]. apply bwrites_on_snd, writes_pts.
Qed.

Lemma bwrites_stamp2 h : wire_stamps h ->
  bwrites (count_if (PTSDTSIndicator h =? PTSDTSIndicatorBothPresent) (
      n ← on_snd (writePTSOrDTS 0x3 (PTS h));
      n' ← on_snd (writePTSOrDTS 0x1 (DTS h));
      mret (n + n')))
    (if PTSDTSIndicator h =? PTSDTSIndicatorBothPresent then byte_bits (stamp_bytes h) else [])
    (if PTSDTSIndicator h =? PTSDTSIndicatorBothPresent then 10 else 0).
Proof.
  intros (_ & Hs). unfold stamp_bytes. apply bwrites_count_if. intros E. rewrite E.
  apply Z.eqb_eq in E. rewrite E in *. cbn in Hs |- *. destruct Hs as [Hp Hd].
  destruct (wire_opt_default _ _ zero_clock Hp) as [-> _], (wire_opt_default _ _ zero_clock Hd) as [-> _].
  cbn [default]. rewrite byte_bits_app, <- (app_nil_r (byte_bits (pts_bytes 1 _))).
  eapply bwrites_bind; [apply bwrites_on_snd, writes_pts|].
  eapply bwrites_bind; [apply bwrites_on_snd, writes_pts|]. apply bwrites_ret.
Qed.

Lemma reads_stamps h o : wire_stamps h ->
  reads o (parse_stamps (PTSDTSIndicator h)) (stamp_bytes h) (PTS h, DTS h).
Proof.
  intros (_ & Hs). unfold parse_stamps, stamp_bytes.
  destruct (_ =? PTSDTSIndicatorOnlyPTS).
  - destruct Hs as [Hp ->]. destruct (wire_opt_default _ _ zero_clock Hp) as [E Hw].
    eapply reads_last; [by apply reads_wrap, reads_pts|]. rewrite <- E. apply reads_ret.
  - destruct (_ =? PTSDTSIndicatorBothPresent); [|destruct Hs as [-> ->]; apply reads_ret].
    destruct Hs as [Hp Hd]. destruct (wire_opt_default _ _ zero_clock Hp) as [Ep Hwp].
    destruct (wire_opt_default _ _ zero_clock Hd) as [Ed Hwd].
    eapply reads_bind; [by apply reads_wrap, reads_pts|].
    eapply reads_last; [by apply reads_wrap, reads_pts|]. rewrite <- Ep, <- Ed. apply reads_ret.
Qed.

(** ** The extension *)
Definition pes_extension_of (h : PESOptionalHeader) : pes_extension :=
  if HasExtension h then
    {| ext_flags_byte := octet (extension_flags h);
       ext_private := if HasPrivateData h then Some (PrivateData h) else None;
       ext_pack := None;
       ext_counter := if HasProgramPacketSequenceCounter h then Some (bytes_of_bits (counter_bits h)) else None;
       ext_pstd := if HasPSTDBuffer h then Some (bytes_of_bits (pstd_bits h)) else None;
       ext_second := if HasExtension2 h then Some (len (Extension2Data h), Extension2Data h) else None |}
  else no_extension.

Lemma bwrites_extension h : wire_extension h ->
  bwrites (write_pes_extension h) (byte_bits (extension_bytes h)) (extension_size h).
Proof.
  intros (Hp & _). eapply bwrites_eq.
  - unfold write_pes_extension. do 6 (eapply bwrites_bind; [write_call|]).
    eapply bwrites_bind; [apply bwrites_count_if; intros F; rewrite F in Hp|].
    { eapply bwrites_bind; [apply bwrites_bytesn, Hp|write_rules]. }
    do 3 (eapply bwrites_bind; [apply bwrites_count_if; intros F; write_rules|]). write_rules.
  - unfold extension_bytes, extension_flags.
    rewrite !byte_bits_app, !byte_bits_if, !byte_bits_app, !(byte_bits_group _ 2) by done.
    unfold second_bits. bits_eq.
  - unfold extension_size, len. lia.
Qed.

Lemma extension_flag_bits h :
  let b := octet (extension_flags h) in
  masked b 0x80 = HasPrivateData h /\ masked b 0x40 = false
  /\ masked b 0x20 = HasProgramPacketSequenceCounter h /\ masked b 0x10 = HasPSTDBuffer h
  /\ masked b 0x1 = HasExtension2 h.
Proof.
  unfold extension_flags.
  generalize (HasPrivateData h), (HasProgramPacketSequenceCounter h), (HasPSTDBuffer h), (HasExtension2 h).
  by intros [] [] [] [].
Qed.

Lemma reads_pes_extension h o : wire_extension h -> HasExtension h = true ->
  reads o parse_pes_extension (extension_bytes h) (pes_extension_of h).
Proof.
  intros (Hp & Hc & Hb & Hx) HE. unfold parse_pes_extension, extension_bytes, pes_extension_of. rewrite HE.
  destruct (extension_flag_bits h) as (F1 & F2 & F3 & F4 & F5).
  eapply reads_bind; [apply reads_byte|]. rewrite F1, F2, F3, F4, F5.
  eapply reads_bind.
  { apply reads_optionally. intros F. rewrite F in Hp. apply reads_bytes. by rewrite (proj1 Hp). }
  rewrite <- (app_nil_l (_ ++ _)).
  eapply reads_bind; [exact (reads_optionally _ false next_byte [] 0 (fun F => ltac:(discriminate F)))|].
  eapply reads_bind; [apply reads_optionally; intros _; by apply reads_bytes_no_copy|].
  eapply reads_bind; [apply reads_optionally; intros _; by apply reads_bytes_no_copy|].
  eapply reads_last.
  { apply (reads_optionally _ _ _ _ (len (Extension2Data h), Extension2Data h)). intros F. rewrite F in Hx.
    assert (E : Z.land (octet (second_bits h)) 0x7f = len (Extension2Data h)).
    { unfold second_bits. unfold len in *. octet_field. }
    eapply reads_bind; [apply reads_wrap, reads_NextByte|]. rewrite E.
    eapply reads_last; [by apply reads_bytes|]. apply reads_ret. }
  apply reads_ret.
Qed.

Lemma stamp_parts h :
  (if PTSDTSIndicator h =? PTSDTSIndicatorOnlyPTS then byte_bits (stamp_bytes h) else [])
  ++ (if PTSDTSIndicator h =? PTSDTSIndicatorBothPresent then byte_bits (stamp_bytes h) else [])
  = byte_bits (stamp_bytes h).
Proof.
  unfold stamp_bytes. destruct (Z.eqb_spec (PTSDTSIndicator h) PTSDTSIndicatorOnlyPTS) as [->|].
  - by rewrite app_nil_r.
  - by destruct (_ =? _).
Qed.

Lemma stamp_sizes h :
  (if PTSDTSIndicator h =? PTSDTSIndicatorOnlyPTS then 5 else 0)
  + (if PTSDTSIndicator h =? PTSDTSIndicatorBothPresent then 10 else 0) = stamp_size h.
Proof.
  unfold stamp_size. destruct (Z.eqb_spec (PTSDTSIndicator h) PTSDTSIndicatorOnlyPTS) as [->|]; [done|].
  by destruct (_ =? _).
Qed.

(** ** The optional header *)
Lemma writes_optional h : wire_optional h ->
  writes (writePESOptionalHeader (Some h)) (byte_bits (optional_bytes h)) (3 + field_size h).
Proof.
  intros Hw. pose proof (wire_times h Hw) as Hs. pose proof (wire_escr h Hw) as He.
  pose proof (wire_mode h Hw) as Hm. eapply writes_eq.
  - unfold writePESOptionalHeader. apply writes_with_batch. do 14 (eapply bwrites_bind; [write_call|]).
    eapply bwrites_bind; [by apply bwrites_stamp1|]. eapply bwrites_bind; [by apply bwrites_stamp2|].
    eapply bwrites_bind; [apply bwrites_count_if; intros F; rewrite F in He|].
    { destruct (wire_opt_default _ _ zero_clock He) as [-> _]. apply bwrites_on_snd, writes_escr. }
    eapply bwrites_bind; [apply bwrites_count_if; intros F; write_rules|].
    eapply bwrites_bind; [apply bwrites_count_if; intros F; rewrite F in Hm|].
    { destruct (wire_opt_default _ _ zero_trick Hm) as [-> _]. apply bwrites_on_snd, writes_trick. }
    eapply bwrites_bind; [apply bwrites_count_if; intros F; write_rules|].
    eapply bwrites_bind; [apply bwrites_count_if; intros F|apply bwrites_result].
    apply bwrites_extension, (wire_ext_fields h Hw).
  - unfold optional_bytes, field_bytes.
    rewrite !byte_bits_app, !byte_bits_if, (byte_bits_group _ 3) by done.
    unfold flags_bits1, flags_bits2, es_rate_bits, copy_bits. bits_eq.
    rewrite (app_assoc (if _ =? PTSDTSIndicatorOnlyPTS then _ else _)), stamp_parts. done.
  - unfold field_size, escrLength, dsmTrickModeLength. rewrite <- stamp_sizes. lia.
Qed.

Lemma flag_bits1 h : 0 <= ScramblingControl h < 4 ->
  let b := octet (flags_bits1 h) in
  Z.shiftr b 6 = 2 /\ Z.land (Z.shiftr b 4) 0x3 = ScramblingControl h
  /\ masked b 0x8 = pes_Priority h /\ masked b 0x4 = DataAlignmentIndicator h
  /\ masked b 0x2 = IsCopyrighted h /\ masked b 0x1 = IsOriginal h.
Proof.
  intros Hs b. subst b. unfold flags_bits1. split_and!; octet_field.
Qed.

Lemma flag_bits2 h : 0 <= PTSDTSIndicator h < 4 ->
  let b := octet (flags_bits2 h) in
  Z.land (Z.shiftr b 6) 0x3 = PTSDTSIndicator h /\ masked b 0x20 = HasESCR h
  /\ masked b 0x10 = HasESRate h /\ masked b 0x8 = HasDSMTrickMode h
  /\ masked b 0x4 = HasAdditionalCopyInfo h /\ masked b 0x2 = false /\ masked b 0x1 = HasExtension h.
Proof.
  intros Hs b. subst b. unfold flags_bits2. split_and!; try octet_field.
  change (bits_of 2 (PTSDTSIndicator h)) with [Z.testbit (PTSDTSIndicator h) 1; Z.testbit (PTSDTSIndicator h) 0].
  generalize (Z.testbit (PTSDTSIndicator h) 1), (Z.testbit (PTSDTSIndicator h) 0), (HasESCR h), (HasESRate h),
    (HasDSMTrickMode h), (HasAdditionalCopyInfo h), (HasExtension h).
  by intros [] [] [] [] [] [] [].
Qed.

Lemma es_rate_field h : 0 <= ESRate h < 2 ^ 22 ->
  of_part (Some (bytes_of_bits (es_rate_bits h))) (fun b =>
    Z.lor (Z.shiftl (Z.land (b 0%nat) 0x7f) 15)
      (Z.lor (Z.shiftl (b 1%nat) 7) (Z.shiftr (b 2%nat) 1))) = ESRate h.
Proof.
  intros Hr. rewrite (bytes_of_bits_word _ 3) by done. unfold es_rate_bits. group_number n En.
  rewrite (Z.mod_small (ESRate h)) in En by done. cbn [of_part]. simpl_bytes. field_arith.
Qed.

Lemma counter_fields h : 0 <= PacketSequenceCounter h < 128 -> 0 <= MPEG1OrMPEG2ID h < 2 ->
  0 <= OriginalStuffingLength h < 64 ->
  let p := Some (bytes_of_bits (counter_bits h)) in
  of_part p (fun b => Z.land (b 0%nat) 0x7f) = PacketSequenceCounter h
  /\ of_part p (fun b => Z.land (Z.shiftr (b 1%nat) 6) 0x1) = MPEG1OrMPEG2ID h
  /\ of_part p (fun b => Z.land (b 1%nat) 0x3f) = OriginalStuffingLength h.
Proof.
  intros H3 H4 H5 p. subst p. rewrite (bytes_of_bits_word _ 2) by done. unfold counter_bits.
  group_number n En. rewrite !Z.mod_small in En by done. cbn [of_part]. simpl_bytes. split_and!; field_arith.
Qed.

Lemma pstd_fields h : 0 <= PSTDBufferScale h < 2 -> 0 <= PSTDBufferSize h < 2 ^ 13 ->
  let p := Some (bytes_of_bits (pstd_bits h)) in
  of_part p (fun b => Z.land (Z.shiftr (b 0%nat) 5) 0x1) = PSTDBufferScale h
  /\ of_part p (fun b => Z.lor (Z.shiftl (Z.land (b 0%nat) 0x1f) 8) (b 1%nat)) = PSTDBufferSize h.
Proof.
  intros H3 H4 p. subst p. rewrite (bytes_of_bits_word _ 2) by done. unfold pstd_bits.
  group_number n En. rewrite !Z.mod_small in En by done. cbn [of_part]. simpl_bytes. split_and!; field_arith.
Qed.

(** The fields of the extension are zero without it. *)
Lemma extension_fields h : wire_optional h ->
  let e := pes_extension_of h in
  masked (ext_flags_byte e) 0x80 = HasPrivateData h /\ masked (ext_flags_byte e) 0x40 = false
  /\ masked (ext_flags_byte e) 0x20 = HasProgramPacketSequenceCounter h
  /\ masked (ext_flags_byte e) 0x10 = HasPSTDBuffer h /\ masked (ext_flags_byte e) 0x1 = HasExtension2 h
  /\ default [] (ext_private e) = PrivateData h /\ default 0 (ext_pack e) = 0
  /\ of_part (ext_counter e) (fun b => Z.land (b 0%nat) 0x7f) = PacketSequenceCounter h
  /\ of_part (ext_counter e) (fun b => Z.land (Z.shiftr (b 1%nat) 6) 0x1) = MPEG1OrMPEG2ID h
  /\ of_part (ext_counter e) (fun b => Z.land (b 1%nat) 0x3f) = OriginalStuffingLength h
  /\ of_part (ext_pstd e) (fun b => Z.land (Z.shiftr (b 0%nat) 5) 0x1) = PSTDBufferScale h
  /\ of_part (ext_pstd e) (fun b => Z.lor (Z.shiftl (Z.land (b 0%nat) 0x1f) 8) (b 1%nat)) = PSTDBufferSize h
  /\ match ext_second e with Some (_, l) => l | None => [] end = Extension2Data h
  /\ match ext_second e with Some (n, _) => n | None => 0 end = len (Extension2Data h).
Proof.
  intros Hw. destruct (wire_ext_fields h Hw) as (Hp & Hc & Hb & Hx). pose proof (wire_ext_flag h Hw) as Hno.
  cbv zeta. unfold pes_extension_of.
  destruct (HasExtension h).
  - destruct (extension_flag_bits h) as (F1 & F2 & F3 & F4 & F5).
    cbn [ext_flags_byte ext_private ext_pack ext_counter ext_pstd ext_second].
    rewrite F1, F2, F3, F4, F5. clear F1 F2 F3 F4 F5.
    assert (HC : forall f, of_part (if HasProgramPacketSequenceCounter h then Some (bytes_of_bits (counter_bits h)) else None) f
      = if HasProgramPacketSequenceCounter h then of_part (Some (bytes_of_bits (counter_bits h))) f else 0)
      by (intros f; by destruct (HasProgramPacketSequenceCounter h)).
    assert (HB : forall f, of_part (if HasPSTDBuffer h then Some (bytes_of_bits (pstd_bits h)) else None) f
      = if HasPSTDBuffer h then of_part (Some (bytes_of_bits (pstd_bits h))) f else 0)
      by (intros f; by destruct (HasPSTDBuffer h)).
    rewrite !HC, !HB. clear HC HB. split_and!; try done.
    + by destruct (HasPrivateData h).
    + destruct (HasProgramPacketSequenceCounter h); [apply counter_fields; tauto|]. symmetry. tauto.
    + destruct (HasProgramPacketSequenceCounter h); [apply counter_fields; tauto|]. symmetry. tauto.
    + destruct (HasProgramPacketSequenceCounter h); [apply counter_fields; tauto|]. symmetry. tauto.
    + destruct (HasPSTDBuffer h); [apply pstd_fields; tauto|]. symmetry. tauto.
    + destruct (HasPSTDBuffer h); [apply pstd_fields; tauto|]. symmetry. tauto.
    + by destruct (HasExtension2 h).
    + destruct (HasExtension2 h); [done|]. by rewrite Hx.
  - destruct (Hno eq_refl) as (E1 & E2 & E3 & E4). rewrite E1, E2, E3, E4 in *.
    destruct Hc as (-> & -> & ->), Hb as [-> ->]. by rewrite Hp, Hx.
Qed.

Lemma reads_optional h o : wire_optional h ->
  reads o parsePESOptionalHeader (optional_bytes h) 
    (sealed_optional h, o + 3 + calcPESOptionalHeaderDataLength h).
Proof.
  intros Hw. destruct (flag_bits1 h (wire_scrambling h Hw)) as (G1 & G2 & G3 & G4 & G5 & G6).
  pose proof (wire_times h Hw) as Ht. destruct (flag_bits2 h (proj1 Ht)) as (F1 & F2 & F3 & F4 & F5 & F6 & F7).
  pose proof (wire_escr h Hw) as He. pose proof (wire_mode h Hw) as Hm. pose proof (wire_copy h Hw) as Hc.
  unfold parsePESOptionalHeader, optional_bytes, field_bytes.
  do 3 (eapply reads_bind; [apply reads_byte|]). apply reads_at. cbv zeta.
  rewrite F1, F2, F3, F4, F5, F6, F7, G1, G2, G3, G4, G5, G6.
  eapply reads_bind; [by apply reads_stamps|].
  eapply reads_bind.
  { apply reads_optionally. intros F. rewrite F in He. by apply reads_wrap, reads_escr, wire_opt_value. }
  eapply reads_bind; [apply reads_optionally; intros _; by apply reads_bytes_no_copy|].
  eapply reads_bind; [apply reads_optionally; intros _; apply reads_byte|].
  eapply reads_bind; [apply reads_optionally; intros _; apply reads_byte|].
  rewrite <- (app_nil_l (if HasExtension h then _ else _)).
  eapply reads_bind; [exact (reads_optionally _ false (next_bytes_no_copy 2) [] [] (fun F => ltac:(discriminate F)))|].
  eapply (reads_last _ _ _ _ (pes_extension_of h)).
  { destruct (HasExtension h) eqn:E; [by apply reads_pes_extension; [apply wire_ext_fields|]|].
    unfold pes_extension_of. rewrite E. apply reads_ret. }
  eapply reads_eq; [apply reads_ret|done|]. f_equal; [|cbn [length]; lia].
  destruct (extension_fields h Hw) as (-> & -> & -> & -> & -> & -> & -> & -> & -> & -> & -> & -> & -> & ->).
  pose proof (wire_rate h Hw) as Hr.
  assert (E1 : of_part (if HasESRate h then Some (bytes_of_bits (es_rate_bits h)) else None) (fun b =>
      Z.lor (Z.shiftl (Z.land (b 0%nat) 0x7f) 15)
        (Z.lor (Z.shiftl (b 1%nat) 7) (Z.shiftr (b 2%nat) 1))) = ESRate h).
  { destruct (HasESRate h); [by apply es_rate_field|done]. }
  assert (E2 : parseDSMTrickMode <$> (if HasDSMTrickMode h
      then Some (trick_byte (default zero_trick (opt_DSMTrickMode h))) else None) = opt_DSMTrickMode h).
  { destruct (HasDSMTrickMode h); [|done]. destruct (wire_opt_default _ _ zero_trick Hm) as [E Hd].
    cbn [fmap option_fmap option_map]. by rewrite parse_trick. }
  assert (E3 : (if HasESCR h then Some (default zero_clock (ESCR h)) else None) = ESCR h).
  { destruct (HasESCR h); [|done]. by destruct (wire_opt_default _ _ zero_clock He) as [<- _]. }
  assert (E4 : match (if HasAdditionalCopyInfo h then Some (octet (copy_bits h)) else None) with
    | Some b => Z.land b 0x7f | None => 0 end = AdditionalCopyInfo h).
  { destruct (HasAdditionalCopyInfo h); [|done]. unfold copy_bits. octet_field. }
  by rewrite E1, E2, E3, E4.
Qed.
(** ** The header *)
Lemma packet_length_range h size : 0 <= size -> 0 <= pes_packet_length h size < 2 ^ 16.
Proof.
  intros Hs. unfold pes_packet_length. destruct (IsVideoStream h); [done|].
  assert (0 <= calcPESOptionalHeaderLength (OptionalHeader h)).
  { unfold calcPESOptionalHeaderLength. destruct (OptionalHeader h); [|done]. apply u8_range. }
  destruct (Z.ltb_spec 0xffff (if hasPESOptionalHeader (StreamID h)
    then size + calcPESOptionalHeaderLength (OptionalHeader h) else size)); [done|].
  destruct (hasPESOptionalHeader _); lia.
Qed.

(** The optional header, when there is one. *)
Definition optional_part (h : PESHeader) : list Z :=
  match OptionalHeader h with Some o => optional_bytes o | None => [] end.

Lemma len_optional h : wire_optional h -> len (optional_bytes h) = 3 + calcPESOptionalHeaderDataLength h
  /\ 0 <= calcPESOptionalHeaderDataLength h <= 170.
Proof.
  intros Hw. destruct (calc_optional h Hw) as [-> Hr]. unfold optional_bytes. rewrite !len_app.
  change (len [_]) with 1. lia.
Qed.

Lemma len_optional_part h : wire_pes h ->
  len (optional_part h) = calcPESOptionalHeaderLength (OptionalHeader h)
  /\ 0 <= calcPESOptionalHeaderLength (OptionalHeader h) <= 173.
Proof.
  intros (_ & Ho). unfold optional_part, calcPESOptionalHeaderLength.
  destruct (OptionalHeader h) as [x|]; [|done]. destruct Ho as [_ Hw].
  destruct (len_optional x Hw) as [-> Hr]. rewrite u8_small by lia. lia.
Qed.

Lemma len_pes_header h size : wire_pes h ->
  len (pes_header_bytes h size) = 6 + calcPESOptionalHeaderLength (OptionalHeader h).
Proof.
  intros Hw. destruct (len_optional_part h Hw) as [<- _]. unfold pes_header_bytes. rewrite !len_app.
  change (len (be_bytes 2 _)) with 2. change (len pes_prefix) with 3. change (len [_]) with 1.
  unfold optional_part. lia.
Qed.

Lemma bwrites_optional_part h : wire_pes h ->
  bwrites (count_if (hasPESOptionalHeader (StreamID h)) (on_snd (writePESOptionalHeader (OptionalHeader h))))
    (byte_bits (optional_part h)) (calcPESOptionalHeaderLength (OptionalHeader h)).
Proof.
  intros Hw. destruct (len_optional_part h Hw) as [Hl _]. unfold optional_part, calcPESOptionalHeaderLength in *.
  destruct Hw as [_ Ho]. destruct (OptionalHeader h) as [x|]; [|rewrite Ho; apply bwrites_ret].
  destruct Ho as [E Hw]. rewrite E. eapply bwrites_eq; [apply bwrites_on_snd, writes_optional, Hw|done|].
  rewrite <- Hl. destruct (len_optional x Hw) as [-> Hr]. destruct (calc_optional x Hw) as [-> _].
  unfold len. by rewrite (length_field_bytes x Hw).
Qed.

Lemma writes_pes_header h size : wire_pes h -> 0 <= size ->
  writes (writePESHeader h size) (byte_bits (pes_header_bytes h size)) (len (pes_header_bytes h size)).
Proof.
  intros Hw Hs. rewrite (len_pes_header h size Hw). pose proof (packet_length_range h size Hs) as Hr.
  unfold writePESHeader. rewrite u16_small by lia. eapply writes_eq.
  - apply writes_with_batch. do 3 (eapply bwrites_bind; [write_call|]).
    eapply bwrites_bind; [by apply bwrites_optional_part|apply bwrites_result].
  - unfold pes_header_bytes. fold (optional_part h). unfold pes_prefix. bits_eq.
  - done.
Qed.

(** The bytes that a call writes: the header first, and what the room leaves of the data. *)
Definition data_taken (h : PESHeader) (data : list Z) (start : bool) (room : Z) : Z :=
  Z.min (len data) (room - if start then len (pes_header_bytes h (len data)) else 0).

Lemma writes_pes_data h data (start : bool) room : wire_pes h -> 0 <= data_taken h data start room ->
  let head := if start then pes_header_bytes h (len data) else [] in
  let n := data_taken h data start room in
  writes (writePESData h data start room)
    (byte_bits (head ++ take (Z.to_nat n) data)) (len head + n, n).
Proof.
  intros Hw Hn head n. rewrite byte_bits_app. unfold writePESData.
  eapply writes_bind with (a := len head).
  - subst head. destruct start; [|apply writes_ret]. apply writes_pes_header; [done|apply Nat2Z.is_nonneg].
  - cbv zeta. assert (E : len head = if start then len (pes_header_bytes h (len data)) else 0) by by subst head; destruct start.
    assert (En : (if Z.of_nat (length data) <? room - len head then Z.of_nat (length data) else room - len head) = n).
    { subst n. unfold data_taken. rewrite E. fold (len data).
      destruct (Z.ltb_spec (len data) (room - if start then len (pes_header_bytes h (len data)) else 0)); lia. }
    rewrite En. fold n in Hn. rewrite (proj2 (Z.ltb_ge _ _)) by done.
    rewrite <- (app_nil_r (byte_bits _)). eapply writes_bind; [apply writes_write|apply writes_ret].
Qed.

(** ** Reading a PES packet back *)

(** A run over a known slice, for calls that look at its length. *)
Definition gives {A} (r : outcome A * I) (bs : list Z) (a : A) (o : Z) : Prop :=
  exists i', r = (Ok a, i') /\ at_offset i' bs o.

Lemma gives_bind {A B} (m : M I A) (k : A -> M I B) i bs o l a b o' pre post : reads o m l a ->
  at_offset i bs o -> bs = pre ++ l ++ post -> o = len pre ->
  (forall i', at_offset i' bs (o + len l) -> gives (k a i') bs b o') -> gives ((m ≫= k) i) bs b o'.
Proof.
  intros Hm Hi -> Ho Hk. destruct (Hm i pre post Ho Hi) as (i' & E & Hi').
  rewrite (bind_ok _ _ _ _ _ E). by apply Hk.
Qed.

Lemma gives_offset {B} (k : Z -> M I B) i bs o b o' : at_offset i bs o ->
  gives (k o i) bs b o' -> gives ((gets Offset ≫= k) i) bs b o'.
Proof. intros Hi. rewrite bind_unfold. unfold gets. by destruct (at_observe i bs o Hi) as (-> & _). Qed.

Lemma gives_len {B} (k : Z -> M I B) i bs o b o' : at_offset i bs o ->
  gives (k (len bs) i) bs b o' -> gives ((gets Len ≫= k) i) bs b o'.
Proof. intros Hi. rewrite bind_unfold. unfold gets. by destruct (at_observe i bs o Hi) as (_ & -> & _). Qed.

Lemma gives_seek {B} (k : unit -> M I B) n i bs o b o' : at_offset i bs o ->
  (forall i', at_offset i' bs n -> gives (k tt i') bs b o') -> gives ((Seek n ≫= k) i) bs b o'.
Proof.
  intros Hi Hk. destruct (at_seek i bs o n Hi) as (i' & E & Hi'). rewrite (bind_ok _ _ _ _ _ E). by apply Hk.
Qed.

Lemma gives_wrap {A B} msg (m : M I A) (k : A -> M I B) i bs a b o' o2 : gives (m i) bs a o' ->
  (forall i', at_offset i' bs o' -> gives (k a i') bs b o2) -> gives ((wrap_err msg m ≫= k) i) bs b o2.
Proof.
  intros (i' & E & Hi') Hk. assert (E' : wrap_err msg m i = (Ok a, i')) by by apply wrap_err_ok.
  rewrite (bind_ok _ _ _ _ _ E'). by apply Hk.
Qed.

(** The end of the data, from the length announced. *)
Lemma data_end h size : wire_pes h -> 0 <= size ->
  (if 0 <? pes_packet_length h size then 6 + pes_packet_length h size
   else len (pes_header_bytes h size) + size) = len (pes_header_bytes h size) + size.
Proof.
  intros Hw Hs. rewrite (len_pes_header h size Hw). destruct (len_optional_part h Hw) as [_ Hr].
  destruct Hw as [_ Ho]. unfold pes_packet_length. destruct (IsVideoStream h); [done|].
  assert (E : (if hasPESOptionalHeader (StreamID h) then size + calcPESOptionalHeaderLength (OptionalHeader h)
    else size) = size + calcPESOptionalHeaderLength (OptionalHeader h)).
  { destruct (OptionalHeader h); [by rewrite (proj1 Ho)|]. rewrite Ho. cbn. lia. }
  rewrite E. destruct (0xffff <? _); [done|]. destruct (0 <? _); lia.
Qed.

Lemma read_pes_header h data i : wire_pes h ->
  let size := len data in let bs := pes_header_bytes h size ++ data in
  at_offset i bs 3 ->
  gives (parsePESHeader i) bs
    (sealed_pes h size, (len (pes_header_bytes h size), len (pes_header_bytes h size) + size))
    (len (pes_header_bytes h size)).
Proof.
  intros Hw size bs Hi. assert (Hs : 0 <= size) by (subst size; unfold len; lia).
  pose proof (packet_length_range h size Hs) as Hr. pose proof (data_end h size Hw Hs) as He.
  pose proof (len_pes_header h size Hw) as Hl.
  assert (Hbs : bs = pes_prefix ++ [StreamID h] ++ be_bytes 2 (pes_packet_length h size) ++ optional_part h ++ data)
    by (subst bs; unfold pes_header_bytes; by rewrite <- !app_assoc).
  assert (Hn : len bs = len (pes_header_bytes h size) + size) by apply len_app.
  unfold parsePESHeader. revert Hi. generalize Hn Hbs. clearbody bs. intros Hn' Hbs' Hi.
  eapply (gives_bind _ _ _ _ _ _ _ _ _ pes_prefix); [apply reads_byte|exact Hi|exact Hbs|done|].
  clear i Hi. intros i Hi. change (3 + len [_]) with 4 in Hi.
  eapply (gives_bind _ _ _ _ _ _ _ _ _ (pes_prefix ++ [StreamID h])); [by apply (reads_bytes_no_copy _ _ (be_bytes 2 (pes_packet_length h size)))|exact Hi| |done|].
  { by rewrite <- app_assoc. }
  clear i Hi. intros i Hi. change (4 + len _) with 6 in Hi. rewrite be16_word by done. cbv zeta.
  eapply gives_offset; [exact Hi|]. eapply gives_len; [exact Hi|]. rewrite Hn, He.
  unfold sealed_pes. destruct Hw as [_ Ho]. unfold optional_part in Hbs. destruct (OptionalHeader h) as [x|] eqn:Ex.
  - destruct Ho as [-> Hx]. destruct (len_optional x Hx) as [Hlo Hro].
    assert (Hc : calcPESOptionalHeaderLength (Some x) = 3 + calcPESOptionalHeaderDataLength x)
      by (unfold calcPESOptionalHeaderLength; rewrite u8_small by lia; lia).
    eapply (gives_bind _ _ _ _ _ _ _ _ _ (pes_prefix ++ [StreamID h] ++ be_bytes 2 _));
      [by apply reads_wrap, reads_optional|exact Hi|by rewrite <- !app_assoc|done|].
    clear i Hi. intros i Hi. exists i. rewrite Hlo in Hi. cbn [fst snd fmap option_fmap option_map]. split.
    + replace (6 + 3 + calcPESOptionalHeaderDataLength x) with (len (pes_header_bytes h size)) by lia. done.
    + rewrite Hl, Hc. exact Hi.
  - rewrite Ho. eapply gives_offset; [exact Hi|]. exists i. cbn [calcPESOptionalHeaderLength] in Hl.
    rewrite Hl. by split.
Qed.

Lemma parse_pes_data h data : wire_pes h ->
  (parsePESData (NewBytesIterator (I := I) (pes_header_bytes h (len data) ++ data))).1
  = Ok {| pes_Data := data; pes_Header := sealed_pes h (len data) |}.
Proof.
  intros Hw. set (bs := pes_header_bytes h (len data) ++ data).
  assert (G : gives (parsePESData (NewBytesIterator (I := I) bs)) bs
    {| pes_Data := data; pes_Header := sealed_pes h (len data) |} (len bs)); [|by destruct G as (i & -> & _)].
  unfold parsePESData. eapply gives_seek; [apply at_new|]. intros i Hi.
  eapply gives_wrap; [by apply read_pes_header|]. clear i Hi. intros i Hi. cbv beta iota.
  rewrite (proj2 (Z.ltb_ge _ _)) by (unfold len; lia). rewrite bind_unfold. cbn [fail_if mret M_ret].
  eapply gives_seek; [exact Hi|]. clear i Hi. intros i Hi.
  eapply (gives_bind _ _ _ _ _ _ _ _ _ (pes_header_bytes h (len data)) []);
    [apply reads_bytes; rewrite Z.add_simpl_l; reflexivity|exact Hi|by rewrite app_nil_r|done|].
  clear i Hi. intros i Hi. exists i. subst bs. by rewrite len_app.
Qed.

(** C36: a PES packet whose header fits is written as its bytes, with the packet
    length and the header length that its fields give, and reading them gives the
    data and the header back, without the CRC and the pack header. *)
Theorem pes_round_trip h data room : wire_pes h -> len (pes_header_bytes h (len data) ++ data) <= room ->
  writes (writePESData h data true room) (byte_bits (pes_header_bytes h (len data) ++ data))
    (len (pes_header_bytes h (len data) ++ data), len data)
  /\ (parsePESData (NewBytesIterator (I := I) (pes_header_bytes h (len data) ++ data))).1
     = Ok {| pes_Data := data; pes_Header := sealed_pes h (len data) |}.
Proof.
  intros Hw Hr. split; [|by apply parse_pes_data]. rewrite len_app in *.
  assert (E : data_taken h data true room = len data) by (unfold data_taken; lia).
  pose proof (writes_pes_data h data true room Hw) as Hd. cbv zeta in Hd. rewrite E in Hd.
  eapply writes_eq; [apply Hd; unfold len; lia| |done].
  unfold len. by rewrite Nat2Z.id, firstn_all.
Qed.
End Codec.

(** ** Witness *)
Import Reference.

(** A header with every part, a CRC and stale lengths. *)
Definition sample_optional : PESOptionalHeader :=
  {| AdditionalCopyInfo := 0x55; CRC := 0xAB12; DataAlignmentIndicator := true;
     opt_DSMTrickMode := Some {| TrickModeControl := 3; FieldID := 2; IntraSliceRefresh := 1;
                                 FrequencyTruncation := 1; RepeatControl := 0 |};
     DTS := Some {| Base := 8589934591; Extension := 0 |};
     ESCR := Some {| Base := 5000000000; Extension := 299 |}; ESRate := 0x2AAAAA;
     Extension2Data := [7; 8; 9]; Extension2Length := 0; HasAdditionalCopyInfo := true; HasCRC := true;
     HasDSMTrickMode := true; HasESCR := true; HasESRate := true; HasExtension := true;
     HasExtension2 := true; HasPackHeaderField := false; HasPrivateData := true;
     HasProgramPacketSequenceCounter := true; HasPSTDBuffer := true; HeaderLength := 0;
     IsCopyrighted := false; IsOriginal := true; MarkerBits := 0; MPEG1OrMPEG2ID := 1;
     OriginalStuffingLength := 33; PacketSequenceCounter := 100; PackField := 0; pes_Priority := true;
     PrivateData := replicate 16 0xEE; PSTDBufferScale := 1; PSTDBufferSize := 5000;
     PTS := Some {| Base := 5000003003; Extension := 0 |}; PTSDTSIndicator := 3; ScramblingControl := 1 |}.

Definition sample_pes : PESHeader :=
  {| OptionalHeader := Some sample_optional; PacketLength := 0; StreamID := 0xC0 |}.

Lemma sample_wire_pes : wire_pes sample_pes.
Proof.
  split; [done|]. split; [done|]. split.
  1, 2, 3, 4, 5, 6: vm_compute; intuition congruence.
  - split_and!; try done; by repeat constructor.
  - intros E. discriminate E.
Qed.

Lemma pes_round_trip_witness : wire_pes sample_pes
  /\ (parsePESData (I := iterator) (NewBytesIterator (pes_header_bytes sample_pes 3 ++ [1; 2; 3]))).1
     = Ok {| pes_Data := [1; 2; 3]; pes_Header := sealed_pes sample_pes 3 |}.
Proof.
  split; [exact sample_wire_pes|].
  refine (proj2 (pes_round_trip (W := bits) (I := iterator) sample_pes [1; 2; 3] 184 sample_wire_pes _)).
  by_decide.
Defined.

(** The high byte of the CRC of an optional header is lost when it is read. *)
Example crc_high_byte_lost :
  exists h, (parsePESOptionalHeader (I := iterator) (NewBytesIterator [0x80; 0x02; 2; 0xAB; 0x12])).1 = Ok (h, 5)
    /\ HasCRC h = true /\ CRC h = 0x12.
Proof. eexists. split; [vm_compute; reflexivity|done]. Qed.
