(* ===== verification/PacketPool.v ===== *)
(** * internal/go-astits: program map, packet pool and demultiplexed data

    [programMap] (program_map.go), the packet accumulators and their pool
    (packet_pool.go), and the parsing of the payload of several packets (data.go
    and [PSIData.toData] of data_psi.go).

    The demuxer, its pool and every accumulator point to one program map, which is
    an argument here; it is nil for a pool without one.  The buffers of pools.go,
    which hold a payload while it is parsed and are written whole before they are
    read, are plain lists. *)

From stdpp Require Import sorting.
From S2P Require Import Prelude Packet Astikit Descriptor Pmt Tables Psi PesData.
Local Open Scope Z_scope.

(** ** data.go: data *)
Definition PIDPAT : Z := 0x0.
Definition PIDCAT : Z := 0x1.
Definition PIDTSDT : Z := 0x2.
Definition PIDNull : Z := 0x1fff.

Record DemuxerData := MkDemuxerData {
  data_EIT : option EITData;
  FirstPacket : Packet;
  data_NIT : option NITData;
  data_PAT : option PATData;
  data_PES : option PESData;
  data_PID : Z;
  data_PMT : option PMTData;
  data_SDT : option SDTData;
  data_TOT : option TOTData;
}.

Definition no_demuxer_data (fp : Packet) (pid : Z) : DemuxerData :=
  {| data_EIT := None; FirstPacket := fp; data_NIT := None; data_PAT := None; data_PES := None;
     data_PID := pid; data_PMT := None; data_SDT := None; data_TOT := None |}.

(** ** program_map.go *)
Definition programMap : Type := gmap Z Z.

Definition newProgramMap : programMap := ∅.
Definition existsUnlocked (m : programMap) (pid : Z) : bool := bool_decide (is_Some (m !! pid)).
Definition setUnlocked (m : programMap) (pid number : Z) : programMap := <[pid := number]> m.
Definition unsetUnlocked (m : programMap) (pid : Z) : programMap := delete pid m.

(** The order of the programs is that of an iteration of the Go map, [visit]. *)
Definition toPATDataUnlocked (visit : programMap -> list (Z * Z)) (m : programMap) : PATData :=
  {| Programs := map (fun '(pid, pnr) => {| ProgramMapID := pid; pat_ProgramNumber := pnr |}) (visit m);
     pat_TransportStreamID := PSITableIDPAT |}.

(** ** data.go: what a payload is *)
Definition isPSIPayload (pid : Z) (pm : programMap) : bool :=
  (pid =? PIDPAT) || existsUnlocked pm pid
  || (((0x10 <=? pid) && (pid <=? 0x14)) || ((0x1e <=? pid) && (pid <=? 0x1f))).

Definition isPESPayload (i : list Z) : bool :=
  if Z.of_nat (length i) <? 3 then false
  else Z.lor (Z.shiftl (byte_at i 0) 16) (Z.lor (Z.shiftl (byte_at i 1) 8) (byte_at i 2)) =? 1.

(** The payload of a set of packets. *)
Definition payload_of (ps : list Packet) : list Z := ps ≫= Payload.

(** [data.PSIData.toData] *)
Definition section_data (fp : Packet) (pid : Z) (s : PSISection) : list DemuxerData :=
  match Syntax s with
  | None => []
  | Some x =>
      let t := TableID (section_Header s) in
      let d := Data x in
      let none := no_demuxer_data fp pid in
      let one eit nit pat pmt sdt tot :=
        {| data_EIT := eit; FirstPacket := fp; data_NIT := nit; data_PAT := pat; data_PES := None;
           data_PID := pid; data_PMT := pmt; data_SDT := sdt; data_TOT := tot |} in
      (if is_nit t then [one None (NIT d) None None None None]
       else if t =? PSITableIDPAT then [one None None (PAT d) None None None]
       else if t =? PSITableIDPMT then [one None None None (PMT d) None None]
       else if is_sdt t then [one None None None None (SDT d) None]
       else if t =? PSITableIDTOT then [one None None None None None (TOT d)]
       else [])
      ++ (if is_eit t then [one (EIT d) None None None None None] else [])
  end.

Definition toData (d : PSIData) (firstPacket : Packet) (pid : Z) : list DemuxerData :=
  Sections d ≫= section_data firstPacket pid.

(** A custom parser of packets: the data, and whether the default parsing is skipped. *)
Definition PacketsParser : Type := list Packet -> outcome (list DemuxerData * bool).

(** An error is an answer; a panic is not. *)
Definition catch {A} (o : outcome A) (a : A) : outcome A :=
  match o with Fail (Err _) => Ok a | _ => o end.

Definition wrap_outcome {A} (msg : string) (o : outcome A) : outcome A :=
  match o with Fail (Err e) => Fail (Err (Wrapf msg e)) | _ => o end.

Section Data.
Context (I : Type) `{BytesIterator I}.

(** The default part of [parseData].  The data of the custom parser is kept when
    nothing else is found. *)
Definition parse_payload (ps : list Packet) (pm : programMap) (ds : list DemuxerData) :
    outcome (list DemuxerData) :=
  match ps with
  | [] => Fail Panic
  | p :: _ =>
      let payload := payload_of ps in
      let i := NewBytesIterator (I := I) payload in
      let pid := PID (Header p) in
      let fp := with_payload [] p in
      if pid =? PIDCAT then Ok ds
      else if isPSIPayload pid pm then
        d ← wrap_outcome "astits: parsing PSI data failed" (parsePSIData i).1;
        Ok (toData d fp pid)
      else if isPESPayload payload then
        d ← wrap_outcome "astits: parsing PES data failed" (parsePESData i).1;
        Ok [{| data_EIT := None; FirstPacket := fp; data_NIT := None; data_PAT := None;
               data_PES := Some d; data_PID := pid; data_PMT := None; data_SDT := None;
               data_TOT := None |}]
      else Ok ds
  end.

Definition parseData (ps : list Packet) (prs : option PacketsParser) (pm : programMap) :
    outcome (list DemuxerData) :=
  match prs with
  | None => parse_payload ps pm []
  | Some prs =>
      r ← wrap_outcome "astits: custom packets parsing failed" (prs ps);
      if r.2 : bool then Ok r.1 else parse_payload ps pm r.1
  end.

(** The loop over the sections, as far as their lengths go.  The fuel: a round
    takes a byte at least. *)
Definition skip_section (_ : unit) : M I (unit + unit) :=
  left ← gets HasBytesLeft;
  if left : bool then
    b ← NextByte;
    if shouldStopPSIParsing b then mret (inr tt)
    else
      bs ← NextBytesNoCopy 2;
      Skip (Z.land (be16 bs 0) 0x0fff);;
      mret (inl tt)
  else mret (inr tt).

Definition skip_sections : M I unit := fun i =>
  iter (Z.to_nat (Len i - Offset i) + 1) skip_section tt i.

Definition isPSIComplete (ps : list Packet) : outcome bool :=
  catch ((b ← NextByte;
          Skip b;;
          skip_sections;;
          n ← gets Len;
          o ← gets Offset;
          mret (o <=? n)) (NewBytesIterator (I := I) (payload_of ps))).1 false.

Definition isPESComplete (ps : list Packet) : outcome bool :=
  catch ((Seek 3;;
          r ← parsePESHeader;
          n ← gets Len;
          let '(h, (_, dataEnd)) := r in
          mret (if PacketLength h =? 0 then false else dataEnd <=? n))
         (NewBytesIterator (I := I) (payload_of ps))).1 false.

(** ** packet_pool.go *)
Record packetAccumulator := MkAccumulator { acc_pid : Z; q : list Packet }.

Definition newPacketAccumulator (pid : Z) : packetAccumulator := {| acc_pid := pid; q := [] |}.

Definition hasDiscontinuity (ps : list Packet) (p : Packet) : outcome bool :=
  let h := Header p in
  if PID h =? PIDNull then Ok false
  else
    indicated ← (if HasAdaptationField h
      then match AdaptationField p with Some a => Ok (DiscontinuityIndicator a) | None => Fail Panic end
      else Ok false);
    if indicated : bool then Ok false
    else match list.last ps with
    | None => Ok false
    | Some l =>
        let expected := if HasPayload h then Z.land (u8 (ContinuityCounter (Header l) + 1)) 0x0f
          else ContinuityCounter (Header l) in
        Ok (negb (expected =? ContinuityCounter h))
    end.

Definition isSameAsPrevious (ps : list Packet) (p : Packet) : bool :=
  match list.last ps with
  | None => false
  | Some l => HasPayload (Header p) && (ContinuityCounter (Header p) =? ContinuityCounter (Header l))
  end.

Definition set_q (l : list Packet) (b : packetAccumulator) : packetAccumulator :=
  {| acc_pid := acc_pid b; q := l |}.

(** The packets that [add] gives, and the accumulator after it. *)
Definition add (pm : option programMap) (p : Packet) (b : packetAccumulator) :
    outcome (list Packet * packetAccumulator) :=
  discontinuous ← hasDiscontinuity (q b) p;
  let mps := if discontinuous : bool then [] else q b in
  if isSameAsPrevious mps p then Ok ([], b)
  else
    let '(ps, mps) := if PayloadUnitStartIndicator (Header p) then (mps, []) else ([], mps) in
    let mps := mps ++ [p] in
    psi ← (match pm with
           | None => Ok false
           | Some m => if (acc_pid b =? PIDPAT) || existsUnlocked m (acc_pid b)
                       then isPSIComplete mps else Ok false
           end);
    if psi : bool then Ok (mps, set_q [] b)
    else
      pes ← (match mps with
             | [] => Fail Panic
             | first :: _ => if isPESPayload (Payload first) then isPESComplete mps else Ok false
             end);
      if pes : bool then Ok (mps, set_q [] b) else Ok (ps, set_q mps b).

Definition packetPool : Type := gmap Z packetAccumulator.
Definition newPacketPool : packetPool := ∅.

Definition addUnlocked (pm : option programMap) (p : Packet) (b : packetPool) :
    outcome (list Packet * packetPool) :=
  let h := Header p in
  if TransportErrorIndicator h then Ok ([], b)
  else if negb (HasPayload h) then Ok ([], b)
  else
    let acc := default (newPacketAccumulator (PID h)) (b !! PID h) in
    r ← add pm p acc;
    Ok (r.1, <[PID h := r.2]> b).

(** The keys of the pool, smallest first. *)
Definition sorted_keys (b : packetPool) : list Z := merge_sort Z.le (elements (dom b)).

Fixpoint dump_keys (keys : list Z) (b : packetPool) : list Packet * packetPool :=
  match keys with
  | [] => ([], b)
  | k :: keys =>
      let ps := match b !! k with Some acc => q acc | None => [] end in
      let b := delete k b in
      match ps with
      | [] => dump_keys keys b
      | _ => (ps, b)
      end
  end.

Definition dumpUnlocked (b : packetPool) : list Packet * packetPool := dump_keys (sorted_keys b) b.
End Data.
