(* ===== verification/DataDemuxer.v ===== *)
(** * internal/go-astits: the demuxer

    [packetBuffer] with the detection of the packet size (packet_buffer.go), and
    [Demuxer] with its options, [NextPacket], [NextData] and [Rewind] (demuxer.go).
    The reader is supplied by the caller: besides [io.ReadFull] it may be a
    [bufio.Reader], which can peek, or an [io.Seeker].  The logger is left out. *)

From S2P Require Import Prelude Packet Astikit PacketCodec Demuxer Tables PesData PacketPool.
Local Open Scope Z_scope.

(** A reader: [Read] gives the bytes that one call of it puts in a buffer of a
    length; [Peek] is present for a [bufio.Reader], [SeekStart], which is
    [Seek(0, 0)], for an [io.Seeker]. *)
Class Reader (R : Type) := {
  Read : nat -> M R (list Z);
  Peek : option (nat -> M R (list Z));
  SeekStart : option (M R Z);
}.

(** A call that returns a value and an error together. *)
Definition attempt {S A} (m : M S A) : M S (A + goerror) := fun s =>
  match m s with
  | (Ok a, s') => (Ok (inl a), s')
  | (Fail (Err e), s') => (Ok (inr e), s')
  | (Fail f, s') => (Fail f, s')
  end.

Section PacketBuffer.
Context {R : Type} `{Reader R}.

(** The buffer after the call, and whether to rewind. *)
Definition peek (n : nat) : M R (list Z * bool) :=
  match Peek with
  | Some br => bs ← br n; mret (copy_at (replicate n 0) 0 bs, false)
  | None => bs ← Read n; mret (copy_at (replicate n 0) 0 bs, true)
  end.

Definition rewind : M R Z :=
  match SeekStart with
  | Some s => wrap_err "astits: seeking to 0 failed" s
  | None => mret (-1)
  end.

(** The first sync byte where a second packet may start. *)
Definition second_sync (b : list Z) : option nat :=
  List.find (fun idx => (byte_at b idx =? syncByte) && (MpegTsPacketSize <=? Z.of_nat idx))
    (seq 0 (length b)).

(** The packet size found and the error, if any: both may be set. *)
Definition autoDetectPacketSize : M R (Z * option goerror) :=
  let l := 193%nat in
  first ← attempt (wrap_err "astits: reading first bytes failed" (peek l));
  match first with
  | inr e => mret (0, Some e)
  | inl (b, shouldRewind) =>
      if negb (byte_at b 0 =? syncByte) then mret (0, Some ErrPacketMustStartWithASyncByte)
      else match second_sync b with
      | None => mret (0, Some (Errorf "astits: only one sync byte detected in first bytes"))
      | Some idx =>
          let packetSize := Z.of_nat idx in
          if negb shouldRewind then mret (packetSize, None)
          else
            n ← attempt (wrap_err "astits: rewinding failed" rewind);
            match n with
            | inr e => mret (packetSize, Some e)
            | inl n =>
                if n =? -1 then
                  let ls := packetSize - (Z.of_nat l - packetSize) in
                  r ← attempt (wrap_err "astits: reading bytes to sync reader failed" (Read (Z.to_nat ls)));
                  mret (packetSize, match r with inl _ => None | inr e => Some e end)
                else mret (packetSize, None)
            end
      end
  end.

Record packetBuffer := MkPacketBuffer { packetSize : Z; s : option (Packet -> bool) }.

(** The buffer is returned with an error too. *)
Definition newPacketBuffer (size : Z) (skipper : option (Packet -> bool)) :
    M R (packetBuffer * option goerror) :=
  if size =? 0 then
    r ← autoDetectPacketSize;
    mret ({| packetSize := r.1; s := skipper |},
          Wrapf "astits: auto detecting packet size failed" <$> r.2)
  else mret ({| packetSize := size; s := skipper |}, None).
End PacketBuffer.

(** ** demuxer.go *)
Record Demuxer (R : Type) := MkDemuxer {
  dataBuffer : list DemuxerData;
  optPacketSize : Z;
  optPacketsParser : option PacketsParser;
  optPacketSkipper : option (Packet -> bool);
  packet_buffer : option packetBuffer;
  packet_pool : packetPool;
  program_map : programMap;
  reader : R;
}.
Arguments dataBuffer {R} _.
Arguments optPacketSize {R} _.
Arguments optPacketsParser {R} _.
Arguments optPacketSkipper {R} _.
Arguments packet_buffer {R} _.
Arguments packet_pool {R} _.
Arguments program_map {R} _.
Arguments reader {R} _.

Section Demux.
Context (I : Type) `{BytesIterator I} {R : Type} `{Input R} `{Reader R}.

(** The state but for the options. *)
Definition set_demuxer (b : list DemuxerData) (pb : option packetBuffer) (pool : packetPool)
    (pm : programMap) (r : R) (d : Demuxer R) : Demuxer R :=
  {| dataBuffer := b; optPacketSize := optPacketSize d; optPacketsParser := optPacketsParser d;
     optPacketSkipper := optPacketSkipper d; packet_buffer := pb; packet_pool := pool;
     program_map := pm; reader := r |}.

Definition set_reader (r : R) (d : Demuxer R) : Demuxer R :=
  set_demuxer (dataBuffer d) (packet_buffer d) (packet_pool d) (program_map d) r d.
Definition set_packet_buffer (pb : option packetBuffer) (d : Demuxer R) : Demuxer R :=
  set_demuxer (dataBuffer d) pb (packet_pool d) (program_map d) (reader d) d.
Definition set_pool (pool : packetPool) (d : Demuxer R) : Demuxer R :=
  set_demuxer (dataBuffer d) (packet_buffer d) pool (program_map d) (reader d) d.
Definition set_data (b : list DemuxerData) (d : Demuxer R) : Demuxer R :=
  set_demuxer b (packet_buffer d) (packet_pool d) (program_map d) (reader d) d.
Definition set_programs (pm : programMap) (d : Demuxer R) : Demuxer R :=
  set_demuxer (dataBuffer d) (packet_buffer d) (packet_pool d) pm (reader d) d.

(** A call on the reader. *)
Definition on_reader {A} (m : M R A) : M (Demuxer R) A := fun d =>
  let '(a, r) := m (reader d) in (a, set_reader r d).

(** Options *)
Definition DemuxerOptPacketSize (n : Z) (d : Demuxer R) : Demuxer R :=
  {| dataBuffer := dataBuffer d; optPacketSize := n; optPacketsParser := optPacketsParser d;
     optPacketSkipper := optPacketSkipper d; packet_buffer := packet_buffer d;
     packet_pool := packet_pool d; program_map := program_map d; reader := reader d |}.
Definition DemuxerOptPacketsParser (p : PacketsParser) (d : Demuxer R) : Demuxer R :=
  {| dataBuffer := dataBuffer d; optPacketSize := optPacketSize d; optPacketsParser := Some p;
     optPacketSkipper := optPacketSkipper d; packet_buffer := packet_buffer d;
     packet_pool := packet_pool d; program_map := program_map d; reader := reader d |}.
Definition DemuxerOptPacketSkipper (f : Packet -> bool) (d : Demuxer R) : Demuxer R :=
  {| dataBuffer := dataBuffer d; optPacketSize := optPacketSize d;
     optPacketsParser := optPacketsParser d; optPacketSkipper := Some f;
     packet_buffer := packet_buffer d; packet_pool := packet_pool d;
     program_map := program_map d; reader := reader d |}.

Definition NewDemuxer (r : R) (opts : list (Demuxer R -> Demuxer R)) : Demuxer R :=
  foldl (fun d opt => opt d)
    {| dataBuffer := []; optPacketSize := 0; optPacketsParser := None; optPacketSkipper := None;
       packet_buffer := None; packet_pool := newPacketPool; program_map := newProgramMap;
       reader := r |} opts.

(** The packet buffer, created by the first call. *)
Definition the_packet_buffer : M (Demuxer R) packetBuffer :=
  pb ← gets packet_buffer;
  match pb with
  | Some pb => mret pb
  | None =>
      d ← get;
      r ← on_reader (newPacketBuffer (optPacketSize d) (optPacketSkipper d));
      modify (set_packet_buffer (Some r.1));;
      match r.2 with
      | Some e => fail_with (Wrapf "astits: creating packet buffer failed" e)
      | None => mret r.1
      end
  end.

(** [packetBuffer.next]: a negative size makes the buffer panic.  The fuel bounds
    the packets that a skipper drops. *)
Definition next (fuel : nat) (pb : packetBuffer) : M R Packet :=
  if packetSize pb <? 0 then panic
  else next_packet I fuel (Z.to_nat (packetSize pb)) (s pb).

Definition NextPacket (fuel : nat) : M (Demuxer R) Packet :=
  e ← on_reader ctx_Err;
  match e with
  | Some e => fail_with e
  | None =>
      pb ← the_packet_buffer;
      r ← attempt (on_reader (next fuel pb));
      match r with
      | inl p => mret p
      | inr e =>
          if decide (e = ErrNoMorePackets) then fail_with e
          else fail_with (Wrapf "astits: fetching next packet from buffer failed" e)
      end
  end.

(** The programs of a PAT; number 0 is the network. *)
Definition update_programs (pm : programMap) (v : DemuxerData) : programMap :=
  match data_PAT v with
  | None => pm
  | Some pat =>
      foldl (fun pm pgm => if 0 <? pat_ProgramNumber pgm
                           then setUnlocked pm (ProgramMapID pgm) (pat_ProgramNumber pgm) else pm)
        pm (Programs pat)
  end.

Definition updateData (ds : list DemuxerData) : M (Demuxer R) (option DemuxerData) :=
  match ds with
  | [] => mret None
  | d :: rest =>
      modify (fun dmx => set_data (dataBuffer dmx ++ rest) dmx);;
      modify (fun dmx => set_programs (foldl update_programs (program_map dmx) ds) dmx);;
      mret (Some d)
  end.

Definition parse_units (ps : list Packet) : M (Demuxer R) (list DemuxerData) := fun dmx =>
  (parseData I ps (optPacketsParser dmx) (program_map dmx), dmx).

(** The end of the stream: the accumulators that have packets, smallest PID first;
    what cannot be parsed is skipped.  The fuel: a round empties an accumulator at
    least. *)
Definition dump_data : M (Demuxer R) DemuxerData := fun dmx =>
  iter (size (packet_pool dmx) + 1) (fun _ : unit =>
    dmx ← get;
    let '(ps, pool) := dumpUnlocked (packet_pool dmx) in
    modify (set_pool pool);;
    match ps with
    | [] => fail_with ErrNoMorePackets
    | _ =>
        ds ← attempt (parse_units ps);
        match ds with
        | inr _ => mret (inl tt)
        | inl ds =>
            d ← updateData ds;
            match d with
            | Some d => mret (inr d)
            | None => mret (inl tt)
            end
        end
    end) tt dmx.

Definition add_packet (p : Packet) : M (Demuxer R) (list Packet) := fun dmx =>
  match addUnlocked I (Some (program_map dmx)) p (packet_pool dmx) with
  | Ok (ps, pool) => (Ok ps, set_pool pool dmx)
  | Fail f => (Fail f, dmx)
  end.

(** A round of the loop over the packets. *)
Definition data_round (fuel : nat) (_ : unit) : M (Demuxer R) (unit + DemuxerData) :=
  r ← attempt (NextPacket fuel);
  match r with
  | inr e =>
      if decide (e = ErrNoMorePackets) then d ← dump_data; mret (inr d)
      else fail_with (Wrapf "astits: fetching next packet failed" e)
  | inl p =>
      ps ← add_packet p;
      match ps with
      | [] => mret (inl tt)
      | _ =>
          ds ← wrap_err "astits: building new data failed" (parse_units ps);
          d ← updateData ds;
          match d with
          | Some d => mret (inr d)
          | None => mret (inl tt)
          end
      end
  end.

(** [NextData]; the fuel bounds the packets read. *)
Definition NextData (fuel : nat) : M (Demuxer R) DemuxerData :=
  b ← gets dataBuffer;
  match b with
  | d :: rest => modify (set_data rest);; mret d
  | [] => iter fuel (data_round fuel) tt
  end.

Definition Rewind : M (Demuxer R) Z :=
  modify (set_data []);;
  modify (set_packet_buffer None);;
  modify (set_pool newPacketPool);;
  wrap_err "astits: rewinding reader failed" (on_reader rewind).
End Demux.
