(* ===== verification/Muxer.v ===== *)
(** * internal/go-astits/muxer.go: the muxer

    [Muxer] with its options, the elementary streams, the tables and [WriteData],
    and the counters of wrapping_counter.go.  The fields of the Go structure that
    belong to the PAT and to the PMT are grouped in two [table]s.

    Three writers appear.  [W] is the bits writer on the output of the muxer, to
    which the tables are also written directly ([io_Write]); [B] is a bits writer
    on a [bytes.Buffer], new wherever the code resets the buffer, since every
    earlier use has written whole bytes.  [MuxerData] is passed by pointer: the
    adaptation field and the stream ID that the muxer changes are the caller's, so
    it is part of the state of [WriteData]. *)

From S2P Require Import Prelude Packet Astikit PacketCodec Descriptor Pmt Tables Psi PesData PacketPool.
Local Open Scope Z_scope.

(** ** wrapping_counter.go *)
Record wrappingCounter := MkCounter { value : Z; wrapAt : Z }.

Definition newWrappingCounter (wrapAt : Z) : wrappingCounter :=
  {| value := wrapAt + 1; wrapAt := wrapAt |}.

Definition inc (c : wrappingCounter) : wrappingCounter :=
  let v := value c + 1 in
  {| value := if wrapAt c <? v then 0 else v; wrapAt := wrapAt c |}.

(** ** muxer.go: state *)
Definition startPID : Z := 0x0100.
Definition pmtStartPID : Z := 0x1000.
Definition programNumberStart : Z := 1.

Definition ErrPIDNotFound : goerror := Errorf "astits: PID not found".
Definition ErrPIDAlreadyExists : goerror := Errorf "astits: PID already exists".
Definition ErrPCRPIDInvalid : goerror := Errorf "astits: PCR PID invalid".

Record MuxerData := MkMuxerData {
  mux_PID : Z;
  mux_AdaptationField : option PacketAdaptationField;
  mux_PES : PESData;
}.

Record esContext := MkContext { es : PMTElementaryStream; cc : wrappingCounter }.

Definition newEsContext (es : PMTElementaryStream) : esContext :=
  {| es := es; cc := newWrappingCounter 0xf |}.

(** [patBytes], [pmUpdated], [patVersion] and [patCC], and those of the PMT. *)
Record table := MkTable {
  table_bytes : list Z;
  updated : bool;
  version : wrappingCounter;
  table_cc : wrappingCounter;
}.

Record Muxer (W : Type) := MkMuxer {
  tablesRetransmitPeriod : Z;
  transportStreamID : Z;
  pmtPID : Z;
  pm : programMap;
  pat_table : table;
  pmt : PMTData;
  pmt_table : table;
  nextPID : Z;
  esContexts : gmap Z esContext;
  tablesRetransmitCounter : Z;
  out : W;
}.
Arguments tablesRetransmitPeriod {W} _.
Arguments transportStreamID {W} _.
Arguments pmtPID {W} _.
Arguments pm {W} _.
Arguments pat_table {W} _.
Arguments pmt {W} _.
Arguments pmt_table {W} _.
Arguments nextPID {W} _.
Arguments esContexts {W} _.
Arguments tablesRetransmitCounter {W} _.
Arguments out {W} _.

(** [Write] of the [io.Writer]: the number of bytes written. *)
Class IOWriter (W : Type) := { io_Write : list Z -> M W Z }.

Section Setters.
Context {W : Type}.

Definition set_options (period id pid : Z) (m : Muxer W) : Muxer W :=
  {| tablesRetransmitPeriod := period; transportStreamID := id; pmtPID := pid; pm := pm m;
     pat_table := pat_table m; pmt := pmt m; pmt_table := pmt_table m; nextPID := nextPID m;
     esContexts := esContexts m; tablesRetransmitCounter := tablesRetransmitCounter m; out := out m |}.

Definition set_tables (programs : programMap) (pat : table) (d : PMTData) (t : table) (m : Muxer W) :
    Muxer W :=
  {| tablesRetransmitPeriod := tablesRetransmitPeriod m; transportStreamID := transportStreamID m;
     pmtPID := pmtPID m; pm := programs; pat_table := pat; pmt := d; pmt_table := t;
     nextPID := nextPID m; esContexts := esContexts m;
     tablesRetransmitCounter := tablesRetransmitCounter m; out := out m |}.

Definition set_streams (next : Z) (contexts : gmap Z esContext) (m : Muxer W) : Muxer W :=
  {| tablesRetransmitPeriod := tablesRetransmitPeriod m; transportStreamID := transportStreamID m;
     pmtPID := pmtPID m; pm := pm m; pat_table := pat_table m; pmt := pmt m; pmt_table := pmt_table m;
     nextPID := next; esContexts := contexts;
     tablesRetransmitCounter := tablesRetransmitCounter m; out := out m |}.

Definition set_output (counter : Z) (w : W) (m : Muxer W) : Muxer W :=
  {| tablesRetransmitPeriod := tablesRetransmitPeriod m; transportStreamID := transportStreamID m;
     pmtPID := pmtPID m; pm := pm m; pat_table := pat_table m; pmt := pmt m; pmt_table := pmt_table m;
     nextPID := nextPID m; esContexts := esContexts m; tablesRetransmitCounter := counter; out := w |}.

Definition set_pat_table (t : table) (m : Muxer W) : Muxer W :=
  set_tables (pm m) t (pmt m) (pmt_table m) m.
Definition set_pmt_table (t : table) (m : Muxer W) : Muxer W :=
  set_tables (pm m) (pat_table m) (pmt m) t m.
Definition set_pmt (d : PMTData) (m : Muxer W) : Muxer W :=
  set_tables (pm m) (pat_table m) d (pmt_table m) m.
Definition set_counter (n : Z) (m : Muxer W) : Muxer W := set_output n (out m) m.
Definition set_out (w : W) (m : Muxer W) : Muxer W := set_output (tablesRetransmitCounter m) w m.

Definition on_out {A} (f : M W A) : M (Muxer W) A := fun m =>
  let '(a, w) := f (out m) in (a, set_out w m).
End Setters.

Definition set_bytes (l : list Z) (t : table) : table :=
  {| table_bytes := l; updated := updated t; version := version t; table_cc := table_cc t |}.
Definition set_updated (b : bool) (t : table) : table :=
  {| table_bytes := table_bytes t; updated := b; version := version t; table_cc := table_cc t |}.
Definition set_version (c : wrappingCounter) (t : table) : table :=
  {| table_bytes := table_bytes t; updated := updated t; version := c; table_cc := table_cc t |}.
Definition set_cc (c : wrappingCounter) (t : table) : table :=
  {| table_bytes := table_bytes t; updated := updated t; version := version t; table_cc := c |}.

(** The version is only counted up when the table has changed. *)
Definition next_version (t : table) : table :=
  if updated t then set_version (inc (version t)) t else t.

Definition new_table (updated : bool) : table :=
  {| table_bytes := []; updated := updated; version := newWrappingCounter 0x1f;
     table_cc := newWrappingCounter 0xf |}.

(** ** Options and creation *)
Section Create.
Context {W : Type}.

Definition MuxerOptTablesRetransmitPeriod (newPeriod : Z) (m : Muxer W) : Muxer W :=
  set_options newPeriod (transportStreamID m) (pmtPID m) m.
Definition WithTransportStreamID (id : Z) (m : Muxer W) : Muxer W :=
  set_options (tablesRetransmitPeriod m) id (pmtPID m) m.
Definition WithPMTPID (pid : Z) (m : Muxer W) : Muxer W :=
  set_options (tablesRetransmitPeriod m) (transportStreamID m) pid m.

Definition NewMuxer (w : W) (opts : list (Muxer W -> Muxer W)) : Muxer W :=
  let m := foldl (fun m opt => opt m)
    {| tablesRetransmitPeriod := 40; transportStreamID := 0; pmtPID := pmtStartPID;
       pm := newProgramMap; pat_table := new_table false;
       pmt := {| ElementaryStreams := []; PCRPID := 0; ProgramDescriptors := [];
                 ProgramNumber := programNumberStart |};
       pmt_table := new_table false; nextPID := 0; esContexts := ∅;
       tablesRetransmitCounter := 0; out := w |} opts in
  let m := set_tables (setUnlocked (pm m) (pmtPID m) programNumberStart)
             (set_updated true (pat_table m)) (pmt m) (pmt_table m) m in
  set_counter (tablesRetransmitPeriod m) m.

(** ** Elementary streams *)
Definition set_pid (pid : Z) (x : PMTElementaryStream) : PMTElementaryStream :=
  {| ElementaryPID := pid; ElementaryStreamDescriptors := ElementaryStreamDescriptors x;
     StreamType := StreamType x |}.

Definition set_stream_list (l : list PMTElementaryStream) (d : PMTData) : PMTData :=
  {| ElementaryStreams := l; PCRPID := PCRPID d; ProgramDescriptors := ProgramDescriptors d;
     ProgramNumber := ProgramNumber d |}.

(** [m.pmtBytes.Reset(); m.pmtUpdated = true] *)
Definition invalidate (m : Muxer W) : Muxer W :=
  set_pmt_table (set_updated true (set_bytes [] (pmt_table m))) m.

Definition has_pid (pid : Z) (l : list PMTElementaryStream) : bool :=
  existsb (fun oes => ElementaryPID oes =? pid) l.

Definition AddElementaryStream (x : PMTElementaryStream) : M (Muxer W) unit :=
  m ← get;
  x ← (if negb (ElementaryPID x =? 0) then
         if has_pid (ElementaryPID x) (ElementaryStreams (pmt m)) then fail_with ErrPIDAlreadyExists
         else mret x
       else
         modify (fun m => set_streams (u16 (nextPID m + 1)) (esContexts m) m);;
         mret (set_pid (nextPID m) x));
  modify (fun m => set_pmt (set_stream_list (ElementaryStreams (pmt m) ++ [x]) (pmt m)) m);;
  modify (fun m => set_streams (nextPID m) (<[ElementaryPID x := newEsContext x]> (esContexts m)) m);;
  modify invalidate.

(** The streams without the first one on [pid], when there is one. *)
Fixpoint remove_first (pid : Z) (l : list PMTElementaryStream) : option (list PMTElementaryStream) :=
  match l with
  | [] => None
  | x :: l => if ElementaryPID x =? pid then Some l else cons x <$> remove_first pid l
  end.

Definition RemoveElementaryStream (pid : Z) : M (Muxer W) unit :=
  m ← get;
  match remove_first pid (ElementaryStreams (pmt m)) with
  | None => fail_with ErrPIDNotFound
  | Some l =>
      modify (fun m => set_pmt (set_stream_list l (pmt m)) m);;
      modify (fun m => set_streams (nextPID m) (delete pid (esContexts m)) m);;
      modify invalidate
  end.

Definition SetPCRPID (pid : Z) : M (Muxer W) unit :=
  modify (fun m => set_pmt {| ElementaryStreams := ElementaryStreams (pmt m); PCRPID := pid;
    ProgramDescriptors := ProgramDescriptors (pmt m); ProgramNumber := ProgramNumber (pmt m) |} m);;
  modify (fun m => set_pmt_table (set_updated true (pmt_table m)) m).
End Create.

(** ** Tables *)
Section Mux.
Context {B : Type} `{BufferWriter B} {W : Type} `{BitsWriter W} `{IOWriter W}.
Context (visit : programMap -> list (Z * Z)).

(** A call on a writer to an empty buffer, and the bytes that it leaves there. *)
Definition run_buffer {A} (m : M B A) : outcome A * list Z :=
  let '(r, b) := m NewBufferWriter in (r, BufferBytes b).

(** The section of a table, as the muxer makes it. *)
Definition table_section (t tableIDExtension versionNumber sectionLength : Z) (d : PSISectionSyntaxData) :
    PSISection :=
  {| CRC32 := 0;
     section_Header := {| PrivateBit := false; SectionLength := sectionLength;
                          SectionSyntaxIndicator := true; TableID := t; TableType := "" |};
     Syntax := Some {| Data := d;
       syntax_Header := Some {| CurrentNextIndicator := true; LastSectionNumber := 0;
                                SectionNumber := 0; TableIDExtension := tableIDExtension;
                                VersionNumber := u8 versionNumber |} |} |}.

(** The packet of a table. *)
Definition table_packet (pid counter : Z) (payload : list Z) : Packet :=
  {| AdaptationField := None;
     Header := {| ContinuityCounter := u8 counter; HasAdaptationField := false; HasPayload := true;
                  PayloadUnitStartIndicator := true; PID := pid; TransportErrorIndicator := false;
                  TransportPriority := false; TransportScramblingControl := 0 |};
     Payload := payload |}.

Definition only (pat : option PATData) (pmt : option PMTData) : PSISectionSyntaxData :=
  {| EIT := None; NIT := None; PAT := pat; PMT := pmt; SDT := None; TOT := None |}.

(** From the section to the packet: the counters are changed even when the packet
    is refused. *)
Definition generate (s : PSISection) (pid : Z) (t : table) : outcome unit * table :=
  match run_buffer (writePSIData {| PointerField := 0; Sections := [s] |}) with
  | (Fail f, _) => (Fail f, t)
  | (Ok _, payload) =>
      let t := set_cc (inc (table_cc t)) t in
      let '(r, l) := run_buffer (writePacket (table_packet pid (value (table_cc t)) payload)
                                   MpegTsPacketSize) in
      let t := set_bytes l t in
      match r with
      | Fail f => (Fail f, t)
      | Ok _ => (Ok tt, set_updated false t)
      end
  end.

Definition generatePAT : M (Muxer W) unit := fun m =>
  let d := {| Programs := Programs (toPATDataUnlocked visit (pm m));
              pat_TransportStreamID := transportStreamID m |} in
  let t := next_version (pat_table m) in
  let s := table_section PSITableIDPAT (pat_TransportStreamID d) (value (version t))
             (calcPATSectionLength d) (only (Some d) None) in
  let '(r, t) := generate s PIDPAT t in (r, set_pat_table t m).

Definition generatePMT : M (Muxer W) unit := fun m =>
  if negb (has_pid (PCRPID (pmt m)) (ElementaryStreams (pmt m))) then (Fail (Err ErrPCRPIDInvalid), m)
  else
    let t := next_version (pmt_table m) in
    let s := table_section PSITableIDPMT (ProgramNumber (pmt m)) (value (version t))
               (calcPMTSectionLength (pmt m)) (only None (Some (pmt m))) in
    let '(r, t) := generate s (pmtPID m) t in (r, set_pmt_table t m).

Definition WriteTables : M (Muxer W) Z :=
  generatePAT;;
  generatePMT;;
  m ← get;
  n1 ← on_out (io_Write (table_bytes (pat_table m)));
  n2 ← on_out (io_Write (table_bytes (pmt_table m)));
  mret (n1 + n2).

Definition retransmitTables (force : bool) : M (Muxer W) Z :=
  modify (fun m => set_counter (tablesRetransmitCounter m + 1) m);;
  m ← get;
  if negb force && (tablesRetransmitCounter m <? tablesRetransmitPeriod m) then mret 0
  else
    n ← WriteTables;
    modify (set_counter 0);;
    mret n.

Definition WritePacket (p : Packet) : M (Muxer W) Z := on_out (writePacket p MpegTsPacketSize).

(** ** WriteData *)
Definition set_af (a : option PacketAdaptationField) (d : MuxerData) : MuxerData :=
  {| mux_PID := mux_PID d; mux_AdaptationField := a; mux_PES := mux_PES d |}.
Definition set_stream_id (id : Z) (d : MuxerData) : MuxerData :=
  let h := pes_Header (mux_PES d) in
  {| mux_PID := mux_PID d; mux_AdaptationField := mux_AdaptationField d;
     mux_PES := {| pes_Data := pes_Data (mux_PES d);
                   pes_Header := {| OptionalHeader := OptionalHeader h;
                                    PacketLength := PacketLength h; StreamID := id |} |} |}.

(** The counter of a context: [ctx.cc.inc()]. *)
Definition inc_context (ctx : esContext) : esContext := {| es := es ctx; cc := inc (cc ctx) |}.

Definition mux_header (counter pid : Z) (af payload start : bool) : PacketHeader :=
  {| ContinuityCounter := u8 counter; HasAdaptationField := af; HasPayload := payload;
     PayloadUnitStartIndicator := start; PID := pid; TransportErrorIndicator := false;
     TransportPriority := false; TransportScramblingControl := 0 |}.

(** The local variables of the loop. *)
Record locals := MkLocals {
  payloadStart : bool;
  writeAf : bool;
  payloadBytesWritten : Z;
  bytesWritten : Z;
}.

(** The caller's data and the muxer. *)
Definition mux_state : Type := MuxerData * Muxer W.

(** The field of the packet, when a part of the packet stays free: the caller's
    field is stuffed in place. *)
Definition stuff (own : bool) (n : Z) : M mux_state (option PacketAdaptationField) :=
  if own then
    d ← gets fst;
    a ← must (mux_AdaptationField d);
    on_fst (modify (set_af (Some (with_stuffing n a))));;
    mret (Some (with_stuffing n a))
  else mret (Some (newStuffingAdaptationField n)).

(** The stream ID of the PES header, from the stream type when it is zero. *)
Definition default_stream_id : M mux_state unit :=
  d ← gets fst;
  m ← gets snd;
  when (StreamID (pes_Header (mux_PES d)) =? 0) (
    ctx ← must (esContexts m !! mux_PID d);
    on_fst (modify (set_stream_id (ToPESStreamID (StreamType (es ctx)))))).

(** A packet with payload. *)
Definition write_payload (counter bytesAvailable : Z) (l : locals) : M mux_state locals :=
  default_stream_id;;
  d ← gets fst;
  let h := pes_Header (mux_PES d) in
  let left := drop (Z.to_nat (payloadBytesWritten l)) (pes_Data (mux_PES d)) in
  let '(r, payload) := run_buffer (writePESData h left (payloadStart l) bytesAvailable) in
  n ← lift r;
  let bytesAvailable := bytesAvailable - n.1 in
  a ← (if 0 <? bytesAvailable then stuff (writeAf l) bytesAvailable
       else mret (if writeAf l then mux_AdaptationField d else None));
  let p := {| AdaptationField := a;
              Header := mux_header counter (mux_PID d) (writeAf l || (0 <? bytesAvailable)) true
                          (payloadStart l);
              Payload := payload |} in
  n' ← on_snd (on_out (writePacket p MpegTsPacketSize));
  mret {| payloadStart := false; writeAf := false;
          payloadBytesWritten := payloadBytesWritten l + n.2; bytesWritten := bytesWritten l + n' |}.

(** A round of the loop: one packet, which is only written when it has payload. *)
Definition write_round (l : locals) : M mux_state (locals + Z) :=
  d ← gets fst;
  if payloadBytesWritten l <? Z.of_nat (length (pes_Data (mux_PES d))) then
    m ← gets snd;
    ctx ← must (esContexts m !! mux_PID d);
    let ctx := inc_context ctx in
    on_snd (modify (fun m => set_streams (nextPID m) (<[mux_PID d := ctx]> (esContexts m)) m));;
    let pktLen := 1 + mpegTsPacketHeaderSize in
    pktLen ← (if writeAf l then
                a ← must (mux_AdaptationField d);
                n ← lift (calcPacketAdaptationFieldLength a);
                mret (pktLen + (1 + n))
              else mret pktLen);
    let bytesAvailable := MpegTsPacketSize - pktLen in
    let pesHeaderLengthCurrent :=
      pesHeaderLength + calcPESOptionalHeaderLength (OptionalHeader (pes_Header (mux_PES d))) in
    if payloadStart l && (bytesAvailable <? pesHeaderLengthCurrent) then
      stuff (writeAf l) bytesAvailable;;
      mret (inl {| payloadStart := payloadStart l; writeAf := false;
                   payloadBytesWritten := payloadBytesWritten l; bytesWritten := bytesWritten l |})
    else
      l ← write_payload (value (cc ctx)) bytesAvailable l;
      mret (inl l)
  else mret (inr (bytesWritten l)).

(** [WriteData]; the fuel bounds the packets. *)
Definition WriteData (fuel : nat) : M mux_state Z :=
  d ← gets fst;
  m ← gets snd;
  match esContexts m !! mux_PID d with
  | None => fail_with ErrPIDNotFound
  | Some _ =>
      let forceTables := match mux_AdaptationField d with
        | Some a => RandomAccessIndicator a && (mux_PID d =? PCRPID (pmt m))
        | None => false
        end in
      n ← on_snd (retransmitTables forceTables);
      total ← iter fuel write_round
        {| payloadStart := true; writeAf := bool_decide (is_Some (mux_AdaptationField d));
           payloadBytesWritten := 0; bytesWritten := n |};
      on_fst (modify (fun d => set_af (with_stuffing 0 <$> mux_AdaptationField d) d));;
      mret total
  end.
End Mux.
