(* ===== verification/MuxerSpec.v ===== *)
(** * What the muxer writes

    [WriteData] cuts a PES packet, header first, into transport packets of 188
    bytes; the caller's adaptation field goes into the first of them and a stuffing
    field makes up for what the last one lacks. *)

From S2P Require Import Prelude DescriptorWrite DescriptorSpec Packet Astikit PacketCodec Codec PacketSpec Descriptor Pmt Tables Psi PesData PesDataSpec SectionSpec PsiPacket Demuxer PacketPool Muxer.
Local Open Scope Z_scope.

(** ** Counters *)
Definition counter_ok (n : Z) (c : wrappingCounter) : Prop := wrapAt c = n /\ 0 <= value c <= n + 1.

Lemma inc_counter n c : 0 <= n -> counter_ok n c ->
  counter_ok n (inc c) /\ 0 <= value (inc c) <= n /\ value (inc c) = if value c <=? n - 1 then value c + 1 else 0.
Proof.
  intros Hn [Hw Hv]. unfold counter_ok, inc. cbn [value wrapAt]. rewrite Hw.
  destruct (Z.ltb_spec n (value c + 1)), (Z.leb_spec (value c) (n - 1)); lia.
Qed.

Fixpoint inc_by (k : nat) (c : wrappingCounter) : wrappingCounter :=
  match k with O => c | S k => inc_by k (inc c) end.

(** ** Adaptation fields for a packet *)

(** A field of the caller: everything but the lengths is as on the wire. *)
Definition mux_field (f : PacketAdaptationField) : Prop :=
  IsOneByteStuffing f = false /\ StuffingLength f = 0 /\ wire_af (laid_af f).

Definition own_ok (own : option PacketAdaptationField) : Prop :=
  match own with Some f => mux_field f | None => True end.
Definition own_size (own : option PacketAdaptationField) : Z :=
  match own with Some f => bare_size f | None => 0 end.

(** The field that takes [n] more bytes. *)
Definition filled (own : option PacketAdaptationField) (n : Z) : option PacketAdaptationField :=
  if 0 <? n then Some (match own with Some f => with_stuffing n f | None => newStuffingAdaptationField n end)
  else own.

Lemma length_ext_laid e : length (ext_bytes (laid_ext e)) = length (ext_bytes e).
Proof. by destruct e. Qed.

Lemma length_parts_laid f : length (af_parts (laid_af f)) = length (af_parts f).
Proof.
  unfold laid_af. destruct (IsOneByteStuffing f); [done|]. cbv zeta.
  unfold af_parts. cbn [with_layout AdaptationExtensionField HasAdaptationExtensionField]. rewrite !length_app.
  do 5 f_equal. destruct (HasAdaptationExtensionField _); [|done].
  destruct (AdaptationExtensionField f) as [e|]; [|done]. apply length_ext_laid.
Qed.

Lemma bare_laid f : bare_size (laid_af f) = bare_size f.
Proof. unfold bare_size. by rewrite length_parts_laid. Qed.

Lemma calc_laid f : calcPacketAdaptationFieldLength (laid_af f) = calcPacketAdaptationFieldLength f.
Proof. unfold laid_af. destruct (IsOneByteStuffing f); [done|]. by destruct f as [[e|]]. Qed.

Lemma one_byte_laid f : IsOneByteStuffing (laid_af f) = IsOneByteStuffing f.
Proof. unfold laid_af. by destruct (IsOneByteStuffing f) eqn:E. Qed.

Lemma stuffing_laid f : StuffingLength (laid_af f) = StuffingLength f.
Proof. unfold laid_af. by destruct (IsOneByteStuffing f). Qed.

Lemma calc_mux_field f : mux_field f -> calcPacketAdaptationFieldLength f = Ok (bare_size f - 1).
Proof.
  intros (E & Hs & Hw). rewrite <- calc_laid, (calc_af_length _ Hw) by by rewrite one_byte_laid.
  unfold wire_af in Hw. rewrite one_byte_laid, E in Hw. destruct Hw as (_ & Hl & _).
  rewrite length_parts_laid, stuffing_laid, Hs in Hl. unfold bare_size. f_equal. lia.
Qed.

Lemma laid_with_stuffing f n : IsOneByteStuffing f = false -> laid_af (with_stuffing n f) = stuffed n (laid_af f).
Proof.
  intros E. unfold laid_af. cbn [with_stuffing with_layout IsOneByteStuffing]. rewrite E. cbv zeta.
  unfold stuffed. cbn [with_layout AdaptationExtensionField TransportPrivateDataLength StuffingLength with_stuffing].
  done.
Qed.

Lemma wire_zero_af : wire_af (laid_af zero_af).
Proof. unfold wire_af. cbn. split_and!; done. Qed.

Lemma filled_ok own n : own_ok own -> 0 <= n -> own_size own + n <= 184 ->
  match filled own n with Some a => wire_af (laid_af a) | None => True end
  /\ len (packet_af {| AdaptationField := laid_af <$> filled own n; Header := mux_header 0 0 false false false; Payload := [] |})
     = own_size own + n.
Proof.
  intros Ho Hn Hs. unfold filled, packet_af. cbn [AdaptationField]. destruct (Z.ltb_spec 0 n).
  - cbn [fmap option_fmap option_map]. destruct own as [f|]; cbn [own_ok own_size] in *.
    + destruct Ho as (E & _ & Hw). rewrite laid_with_stuffing by done.
      split; [apply wire_stuffed; [done|lia|by rewrite bare_laid]|].
      unfold len. rewrite length_stuffed by (rewrite ?bare_laid; done || lia). by rewrite bare_laid.
    + unfold newStuffingAdaptationField. destruct (Z.eqb_spec n 1) as [->|]; [by split|].
      rewrite laid_with_stuffing by done. pose proof wire_zero_af.
      assert (bare_size (laid_af zero_af) = 2) by done.
      split; [apply wire_stuffed; [done|lia|lia]|].
      unfold len. rewrite length_stuffed by (done || lia). lia.
  - assert (n = 0) as -> by lia. destruct own as [f|]; [|done]. cbn [fmap option_fmap option_map own_ok own_size] in *.
    destruct Ho as (E & Hz & Hw). split; [done|].
    rewrite <- (bare_laid f). unfold len, af_bytes, af_core. rewrite one_byte_laid, E, length_app.
    unfold af_stuffing. rewrite length_replicate, stuffing_laid, Hz. unfold bare_size. cbn [length]. lia.
Qed.

(** ** The packet of a piece of a PES packet *)
Definition piece_packet (counter pid : Z) (start : bool) (own : option PacketAdaptationField)
    (payload : list Z) : Packet :=
  let n := 184 - own_size own - len payload in
  {| AdaptationField := filled own n;
     Header := mux_header counter pid (bool_decide (is_Some own) || (0 <? n)) true start;
     Payload := payload |}.

Lemma piece_wire counter pid start own payload : 0 <= pid < 2 ^ 13 -> 0 <= counter < 16 -> own_ok own ->
  bytes_ok payload -> own_size own + len payload <= 184 ->
  wire_packet (laid (piece_packet counter pid start own payload)).
Proof.
  intros Hp Hc Ho Hb Hl. unfold piece_packet. set (n := 184 - own_size own - len payload).
  destruct (filled_ok own n Ho ltac:(lia) ltac:(unfold len in *; lia)) as [Hw Hs].
  unfold wire_packet, wire_header, laid, with_adaptation. cbn [Header AdaptationField Payload mux_header
    PID ContinuityCounter TransportScramblingControl HasAdaptationField HasPayload].
  rewrite u8_small by lia. split_and!; try done; try lia.
  - unfold filled. destruct (Z.ltb_spec 0 n); [by rewrite orb_true_r|]. rewrite orb_false_r. by destruct own.
  - by destruct (filled own n).
  - unfold len in *. unfold packet_af in *. cbn [AdaptationField] in *. lia.
Qed.

(** ** Writing a piece *)
Section Data.
Context {B : Type} `{BufferWriterLaws B} {W : Type} `{ReliableWriter W} `{IOWriter W}.

Lemma run_buffer_bytes {A} (m : M B A) l a : bytes_ok l -> writes m (byte_bits l) a ->
  run_buffer m = (Ok a, l).
Proof.
  intros Hl Hm. destruct (Hm _ [] None buffer_new) as (w' & E & Hw'). unfold run_buffer. rewrite E. f_equal.
  rewrite (buffer_bytes _ _ _ Hw') by (cbn [app]; unfold byte_bits; rewrite length_bytes_bits, Nat.mul_comm; apply Nat.Div0.mod_mul).
  by apply bytes_of_bits_bytes.
Qed.

(** The bytes that a round takes from a PES packet. *)
Definition head_part (h : PESHeader) (left : list Z) (start : bool) : list Z :=
  if start then pes_header_bytes h (len left) else [].
Definition piece (h : PESHeader) (left : list Z) (start : bool) (room : Z) : list Z :=
  head_part h left start ++ take (Z.to_nat (data_taken h left start room)) left.

(** The data with its stream ID. *)
Definition with_id (m : Muxer W) (d : MuxerData) : MuxerData :=
  if StreamID (pes_Header (mux_PES d)) =? 0 then
    match esContexts m !! mux_PID d with
    | Some ctx => set_stream_id (ToPESStreamID (StreamType (es ctx))) d
    | None => d
    end
  else d.

Definition bump (pid : Z) (m : Muxer W) : Muxer W :=
  match esContexts m !! pid with
  | Some ctx => set_streams (nextPID m) (<[pid := inc_context ctx]> (esContexts m)) m
  | None => m
  end.

Lemma with_id_same m d : pes_Data (mux_PES (with_id m d)) = pes_Data (mux_PES d)
  /\ mux_PID (with_id m d) = mux_PID d /\ mux_AdaptationField (with_id m d) = mux_AdaptationField d.
Proof. unfold with_id. destruct (_ =? 0); [|done]. by destruct (esContexts m !! mux_PID d). Qed.

Lemma pes_ids t : 0xbd <= ToPESStreamID t <= 0xfd.
Proof. unfold ToPESStreamID. repeat case_match; lia. Qed.

Lemma set_out_out w w' (m : Muxer W) : set_out w (set_out w' m) = set_out w m.
Proof. done. Qed.

Lemma set_out_same (m : Muxer W) : set_out (out m) m = m.
Proof. by destruct m. Qed.

Lemma default_stream_id_run d (m : Muxer W) ctx : esContexts m !! mux_PID d = Some ctx ->
  default_stream_id (d, m) = (Ok tt, (with_id m d, m)).
Proof.
  intros E. unfold default_stream_id, with_id. rewrite !bind_unfold. cbn [gets fst snd].
  destruct (_ =? 0); [|done]. cbn [when]. rewrite !bind_unfold. cbn [gets snd]. by rewrite E.
Qed.

(** The field after a packet: stuffed when the packet was. *)
Definition own_field (wa : bool) (d : MuxerData) : option PacketAdaptationField :=
  if wa then mux_AdaptationField d else None.
Definition stuffed_data (wa : bool) (n : Z) (d : MuxerData) : MuxerData :=
  if wa && (0 <? n) then set_af (filled (mux_AdaptationField d) n) d else d.

Lemma stuff_run (wa : bool) n d (m : Muxer W) : (wa = true -> is_Some (mux_AdaptationField d)) ->
  (if 0 <? n then stuff wa n else mret (own_field wa d)) (d, m)
  = (Ok (filled (own_field wa d) n), (stuffed_data wa n d, m)).
Proof.
  intros Hf. unfold stuff, filled, stuffed_data, own_field.
  destruct (Z.ltb_spec 0 n); [|by rewrite andb_false_r]. rewrite andb_true_r. destruct wa; [|done].
  destruct (Hf eq_refl) as [a Ea]. rewrite !bind_unfold. cbn [gets fst]. rewrite Ea. cbn [must mret M_ret].
  unfold filled. by rewrite (proj2 (Z.ltb_lt _ _)).
Qed.

Lemma write_payload_piece counter l d m ctx pre c : esContexts m !! mux_PID d = Some ctx ->
  let d' := with_id m d in
  let h := pes_Header (mux_PES d') in
  let own := own_field (writeAf l) d in
  let room := 184 - own_size own in
  let left := drop (Z.to_nat (payloadBytesWritten l)) (pes_Data (mux_PES d)) in
  let p := piece h left (payloadStart l) room in
  wire_pes h -> own_ok own -> (writeAf l = true -> is_Some (mux_AdaptationField d)) ->
  0 <= data_taken h left (payloadStart l) room -> bytes_ok left ->
  0 <= counter < 16 -> 0 <= mux_PID d < 2 ^ 13 -> written (out m) pre c ->
  exists w',
    write_payload (B := B) counter room l (d, m)
    = (Ok {| payloadStart := false; writeAf := false;
             payloadBytesWritten := payloadBytesWritten l + data_taken h left (payloadStart l) room;
             bytesWritten := bytesWritten l + 188 |},
       (stuffed_data (writeAf l) (room - len p) d', set_out w' m))
    /\ written w' (pre ++ byte_bits (packet_bytes (laid (piece_packet counter (mux_PID d) (payloadStart l) own p)))) c.
Proof.
  intros Ectx d' h own room left p Hh Ho Hf Hn Hb Hc Hp Hw. unfold write_payload.
  rewrite (bind_ok _ _ _ _ _ (default_stream_id_run d m ctx Ectx)). fold d'.
  rewrite bind_unfold. cbn [gets fst]. cbv zeta.
  destruct (with_id_same m d) as (Ed & Ep & Ea). fold d' in Ed, Ep, Ea.
  rewrite Ed, Ep, Ea. fold h. fold left. fold (own_field (writeAf l) d). fold own.
  pose proof (writes_pes_data (W := B) h left (payloadStart l) room Hh Hn) as Hwr. cbv zeta in Hwr.
  fold (head_part h left (payloadStart l)) in Hwr. fold (piece h left (payloadStart l) room) in Hwr. fold p in Hwr.
  assert (Hpok : bytes_ok p).
  { subst p. unfold piece, head_part. apply Forall_app. split; [|by apply Forall_take].
    destruct (payloadStart l); [by apply pes_header_ok|constructor]. }
  rewrite (run_buffer_bytes _ _ _ Hpok Hwr). rewrite bind_unfold. cbn [lift fst snd].
  assert (Hlen : len p = len (head_part h left (payloadStart l)) + data_taken h left (payloadStart l) room).
  { subst p. unfold piece. rewrite len_app. f_equal. unfold len. rewrite length_take.
    unfold data_taken, len in *. lia. }
  rewrite <- Hlen. set (n := room - len p).
  assert (Hfit : own_size own + len p <= 184).
  { rewrite Hlen. subst room. unfold data_taken, head_part in *. destruct (payloadStart l); cbn [len length]; unfold len in *; cbn [length]; lia. }
  pose proof (stuff_run (writeAf l) n d' m) as Hst. unfold own_field in Hst. rewrite Ea in Hst.
  fold (own_field (writeAf l) d) in Hst. fold own in Hst. unfold own_field in *.
  rewrite (bind_ok _ _ _ _ _ (Hst Hf)). clear Hst.
  pose proof (piece_wire counter (mux_PID d) (payloadStart l) own p Hp Hc Ho Hpok Hfit) as Hpk.
  destruct (writes_packet (W := W) _ Hpk (out m) pre c Hw) as (w' & E & Hw'). rewrite write_laid in E.
  assert (Epk : bool_decide (is_Some own) = writeAf l).
  { subst own. destruct (writeAf l); [|done]. by apply bool_decide_eq_true, Hf. }
  unfold piece_packet in E. fold room n in E. rewrite Epk in E.
  exists w'. split; [|exact Hw']. rewrite bind_unfold. unfold on_snd, on_out. by rewrite E.
Qed.

(** ** The rounds *)

(** What a round needs: a header that can be written, room for it, a context. *)
Record round_ok (d : MuxerData) (m : Muxer W) (l : locals) (ctx : esContext) : Prop := {
  round_context : esContexts m !! mux_PID d = Some ctx;
  round_counter : counter_ok 15 (cc ctx);
  round_header : wire_pes (pes_Header (mux_PES (with_id m d)));
  round_own : own_ok (own_field (writeAf l) d);
  round_field : writeAf l = true -> is_Some (mux_AdaptationField d);
  round_fits : (if payloadStart l then 6 + calcPESOptionalHeaderLength (OptionalHeader (pes_Header (mux_PES d))) else 0)
               <= 184 - own_size (own_field (writeAf l) d);
  round_data : bytes_ok (pes_Data (mux_PES d));
  round_more : 0 <= payloadBytesWritten l < len (pes_Data (mux_PES d));
  round_pid : 0 <= mux_PID d < 2 ^ 13;
}.

Lemma with_id_optional m d :
  OptionalHeader (pes_Header (mux_PES (with_id m d))) = OptionalHeader (pes_Header (mux_PES d)).
Proof. unfold with_id. destruct (_ =? 0); [|done]. by destruct (esContexts m !! mux_PID d). Qed.

Lemma with_id_bump pid m d : with_id (bump pid m) d = with_id m d.
Proof.
  unfold with_id, bump. destruct (_ =? 0); [|done].
  destruct (esContexts m !! pid) as [x|] eqn:E; [|done]. cbn [set_streams esContexts].
  destruct (decide (pid = mux_PID d)) as [->|]; [|by rewrite lookup_insert_ne by done].
  by rewrite lookup_insert_eq, E.
Qed.

(** The bytes that the header of the packet and the caller's field take. *)
Lemma af_room (wa : bool) d (s : mux_state (W := W)) : own_ok (own_field wa d) ->
  (wa = true -> is_Some (mux_AdaptationField d)) ->
  (if wa then
     a ← must (mux_AdaptationField d);
     n ← lift (calcPacketAdaptationFieldLength a);
     mret (1 + mpegTsPacketHeaderSize + (1 + n))
   else mret (1 + mpegTsPacketHeaderSize)) s = (Ok (188 - (184 - own_size (own_field wa d))), s).
Proof.
  intros Ho Hf. unfold own_field in *. destruct wa; [|done]. destruct (Hf eq_refl) as [a Ea]. rewrite Ea in *.
  rewrite !bind_unfold. cbn [must mret M_ret own_size own_ok] in *. rewrite bind_unfold, (calc_mux_field a Ho).
  cbn [lift mret M_ret]. unfold mpegTsPacketHeaderSize. by replace (188 - (184 - bare_size a)) with (1 + 3 + (1 + (bare_size a - 1))) by lia.
Qed.

Lemma write_round_piece d m l ctx pre c : round_ok d m l ctx -> written (out m) pre c ->
  let d' := with_id m d in
  let h := pes_Header (mux_PES d') in
  let own := own_field (writeAf l) d in
  let room := 184 - own_size own in
  let left := drop (Z.to_nat (payloadBytesWritten l)) (pes_Data (mux_PES d)) in
  let p := piece h left (payloadStart l) room in
  exists w',
    write_round (B := B) l (d, m)
    = (Ok (inl {| payloadStart := false; writeAf := false;
                  payloadBytesWritten := payloadBytesWritten l + data_taken h left (payloadStart l) room;
                  bytesWritten := bytesWritten l + 188 |}),
       (stuffed_data (writeAf l) (room - len p) d', set_out w' (bump (mux_PID d) m)))
    /\ written w' (pre ++ byte_bits (packet_bytes (laid
         (piece_packet (value (inc (cc ctx))) (mux_PID d) (payloadStart l) own p)))) c
    /\ 0 <= data_taken h left (payloadStart l) room.
Proof.
  intros [Hctx Hcc Hh Ho Hf Hfit Hd Hm Hp] Hw d' h own room left p.
  assert (Hn : 0 <= data_taken h left (payloadStart l) room).
  { unfold data_taken. subst own room. destruct (payloadStart l).
    - rewrite (len_pes_header h _ Hh). subst h d'. rewrite with_id_optional. unfold len in *. lia.
    - unfold len. lia. }
  destruct (inc_counter 15 (cc ctx) ltac:(lia) Hcc) as (Hcc' & Hv & _).
  assert (Eb : esContexts (bump (mux_PID d) m) !! mux_PID d = Some (inc_context ctx)).
  { unfold bump. rewrite Hctx. cbn [set_streams esContexts]. by rewrite lookup_insert_eq. }
  destruct (write_payload_piece (value (inc (cc ctx))) l d (bump (mux_PID d) m) (inc_context ctx) pre c Eb)
    as (w' & E & Hw'); rewrite ?with_id_bump; try done.
  { by apply Forall_drop. } { lia. } { unfold bump. by rewrite Hctx. }
  exists w'. rewrite with_id_bump in E, Hw'. split; [|split; [exact Hw'|exact Hn]].
  unfold write_round. rewrite bind_unfold. cbn [gets fst].
  rewrite (proj2 (Z.ltb_lt _ _)) by (unfold len in Hm; lia).
  rewrite bind_unfold. cbn [gets snd]. rewrite bind_unfold, Hctx. cbn [must mret M_ret].
  rewrite (bind_ok _ _ _ tt (d, bump (mux_PID d) m)) by (unfold on_snd, bump; by rewrite Hctx).
  rewrite (bind_ok _ _ _ (188 - room) (d, bump (mux_PID d) m)) by (by apply af_room).
  replace (MpegTsPacketSize - (188 - room)) with room by (unfold MpegTsPacketSize; lia). cbv zeta.
  assert (Ef : payloadStart l && (room <? pesHeaderLength + calcPESOptionalHeaderLength
    (OptionalHeader (pes_Header (mux_PES d)))) = false).
  { destruct (payloadStart l); [|done]. cbn [andb]. apply Z.ltb_ge. exact Hfit. }
  rewrite Ef. by rewrite (bind_ok _ _ _ _ _ E).
Qed.

(** ** The packets of a PES packet *)
Fixpoint rest_packets (n : nat) (c : wrappingCounter) (pid : Z) (left : list Z) : list Packet :=
  match n, left with
  | S n, _ :: _ =>
      piece_packet (value (inc c)) pid false None (take 184 left)
        :: rest_packets n (inc c) pid (drop 184 left)
  | _, _ => []
  end.

(** The first packet has the header and the caller's field. *)
Definition data_packets (c : wrappingCounter) (pid : Z) (own : option PacketAdaptationField) (h : PESHeader)
    (data : list Z) : list Packet :=
  let room := 184 - own_size own in
  piece_packet (value (inc c)) pid true own (piece h data true room)
    :: rest_packets (length data) (inc c) pid (drop (Z.to_nat (data_taken h data true room)) data).

Definition wire_bytes (ps : list Packet) : list Z := ps ≫= (fun p => packet_bytes (laid p)).

Fixpoint bumps (k : nat) (pid : Z) (m : Muxer W) : Muxer W :=
  match k with O => m | S k => bumps k pid (bump pid m) end.

Lemma bump_out w pid m : bump pid (set_out w m) = set_out w (bump pid m).
Proof. unfold bump. cbn [set_out set_output esContexts]. by destruct (esContexts m !! pid). Qed.

Lemma bumps_out w k pid m : bumps k pid (set_out w m) = set_out w (bumps k pid m).
Proof. revert m. induction k as [|k IH]; intros m; [done|]. cbn [bumps]. by rewrite bump_out, IH. Qed.

Lemma rest_packets_fuel n n' c pid left : (length left <= n)%nat -> (length left <= n')%nat ->
  rest_packets n c pid left = rest_packets n' c pid left.
Proof.
  revert n' c left. induction n as [|n IH]; intros n' c left Hn Hn'.
  - destruct left; [by destruct n'|cbn in Hn; lia].
  - destruct left as [|x left]; [by destruct n'|]. destruct n' as [|n']; [cbn in Hn'; lia|].
    cbn [rest_packets]. f_equal. apply IH; llia.
Qed.

Lemma rest_packets_cons n c pid left : left <> [] -> (length left <= n)%nat ->
  rest_packets n c pid left = piece_packet (value (inc c)) pid false None (take 184 left)
    :: rest_packets (length (drop 184 left)) (inc c) pid (drop 184 left).
Proof.
  destruct left as [|x left]; [done|]. destruct n as [|n]; [cbn; lia|]. intros _ Hn. cbn [rest_packets].
  f_equal. apply rest_packets_fuel; llia.
Qed.

(** What is left of the data in a round that is not the first. *)
Lemma rest_piece h left : piece h left false 184 = take 184 left
  /\ data_taken h left false 184 = len (take 184 left).
Proof.
  unfold piece, head_part, data_taken, len. rewrite length_take, Z.sub_0_r. cbn [app]. split; [|lia].
  destruct (Nat.le_gt_cases (length left) 184); [rewrite !take_ge by lia|]; [done|]. f_equal. lia.
Qed.

Lemma with_id_done m d : StreamID (pes_Header (mux_PES d)) <> 0 -> with_id m d = d.
Proof. intros Hid. unfold with_id. by rewrite (proj2 (Z.eqb_neq _ _)). Qed.

(** A round that is not the first leaves the next one possible. *)
Lemma round_ok_next d m w done total ctx done' : StreamID (pes_Header (mux_PES d)) <> 0 ->
  round_ok d m {| payloadStart := false; writeAf := false; payloadBytesWritten := done;
                  bytesWritten := total |} ctx ->
  0 <= done' < len (pes_Data (mux_PES d)) ->
  round_ok d (set_out w (bump (mux_PID d) m))
    {| payloadStart := false; writeAf := false; payloadBytesWritten := done';
       bytesWritten := total + 188 |} (inc_context ctx).
Proof.
  intros Hid [Hctx Hcc Hh Ho Hf Hfit Hd Hm Hp] Hdone. rewrite with_id_done in Hh by done.
  split; try done.
  - unfold bump. rewrite Hctx. cbn [set_streams set_out set_output esContexts]. by rewrite lookup_insert_eq.
  - by apply inc_counter.
  - by rewrite with_id_done.
Qed.

Lemma rest_loop d pid data : pid = mux_PID d -> data = pes_Data (mux_PES d) ->
  StreamID (pes_Header (mux_PES d)) <> 0 ->
  forall n ctx m done total pre c,
  (length (drop (Z.to_nat done) data) < n)%nat ->
  (0 <= done < len data -> round_ok d m {| payloadStart := false; writeAf := false;
     payloadBytesWritten := done; bytesWritten := total |} ctx) ->
  0 <= done -> written (out m) pre c ->
  let ps := rest_packets (length (drop (Z.to_nat done) data)) (cc ctx) pid (drop (Z.to_nat done) data) in
  exists w',
    iter n (write_round (B := B)) {| payloadStart := false; writeAf := false;
       payloadBytesWritten := done; bytesWritten := total |} (d, m)
    = (Ok (total + 188 * Z.of_nat (length ps)), (d, set_out w' (bumps (length ps) pid m)))
    /\ written w' (pre ++ byte_bits (wire_bytes ps)) c.
Proof.
  intros -> -> Hid n. induction n as [|n IH]; intros ctx m done total pre c Hn Hr Hdone Hw ps; [lia|].
  rewrite iter_S. set (left := drop (Z.to_nat done) (pes_Data (mux_PES d))) in *.
  destruct (Z.ltb_spec done (len (pes_Data (mux_PES d)))) as [Hlt|Hge].
  - specialize (Hr (conj Hdone Hlt)). destruct (write_round_piece d m _ ctx pre c Hr Hw) as (w1 & E1 & Hw1 & _).
    cbn [payloadStart writeAf payloadBytesWritten bytesWritten own_field own_size] in E1, Hw1.
    rewrite with_id_done in E1, Hw1 by done. fold left in E1, Hw1. rewrite Z.sub_0_r in E1, Hw1.
    destruct (rest_piece (pes_Header (mux_PES d)) left) as [Ep Et]. rewrite Ep, Et in E1. rewrite Ep in Hw1.
    rewrite E1. cbn [stuffed_data andb]. set (k := length (take 184 left)).
    assert (Hl : length left = (length (pes_Data (mux_PES d)) - Z.to_nat done)%nat) by apply length_drop.
    unfold len in Hlt. assert (Hk : k = min 184 (length left)) by apply length_take.
    assert (Hdrop : drop (Z.to_nat (done + len (take 184 left))) (pes_Data (mux_PES d)) = drop 184 left).
    { unfold len. fold k. subst left. rewrite drop_drop. rewrite Z2Nat.inj_add, Nat2Z.id by lia.
      destruct (Nat.le_gt_cases 184 k); [f_equal; lia|]. rewrite !drop_ge by lia. done. }
    destruct (IH (inc_context ctx) (set_out w1 (bump (mux_PID d) m)) (done + len (take 184 left)) (total + 188)
      (pre ++ byte_bits (packet_bytes (laid (piece_packet (value (inc (cc ctx))) (mux_PID d) false None (take 184 left))))) c)
      as (w2 & E2 & Hw2).
    + rewrite Hdrop, length_drop. lia.
    + intros Hd'. eapply round_ok_next; done.
    + unfold len. lia.
    + exact Hw1.
    + rewrite Hdrop in E2, Hw2. rewrite E2. exists w2. subst ps.
      assert (Hne : left <> []) by (intros El; rewrite El in Hl; cbn in Hl; lia).
      rewrite (rest_packets_cons (length left) (cc ctx) (mux_PID d) left Hne) by lia.
      cbn [inc_context cc] in *. cbn [length bumps]. rewrite bumps_out, set_out_out. split.
      * do 2 f_equal. lia.
      * unfold wire_bytes in *. rewrite bind_cons, byte_bits_app, app_assoc. exact Hw2.
  - assert (left = []) as El by (subst left; apply drop_ge; unfold len in Hge; lia).
    subst ps. rewrite El. cbn [length rest_packets bumps]. exists (out m).
    unfold write_round. rewrite bind_unfold. cbn [gets fst payloadBytesWritten].
    rewrite (proj2 (Z.ltb_ge _ _)) by exact Hge. cbn [mret M_ret bytesWritten].
    rewrite Z.add_0_r, set_out_same. cbn. by rewrite app_nil_r.
Qed.

(** ** What the packets are *)

(** The [n] counters of four bits that follow the value of [c]: one more each
    time, modulo 16; a counter that has not been used yet begins at 0. *)
Definition counters_after (c : wrappingCounter) (n : nat) : list Z :=
  let first := if value c <=? 14 then value c + 1 else 0 in
  (fun k => (first + Z.of_nat k) mod 16) <$> seq 0 n.

Lemma counters_lookup c n k v : counters_after c n !! k = Some v ->
  v = ((if value c <=? 14 then value c + 1 else 0) + Z.of_nat k) mod 16.
Proof.
  unfold counters_after. rewrite list_lookup_fmap. intros (i & Hi & ->)%fmap_Some.
  by apply lookup_seq in Hi as [-> _].
Qed.

Lemma counters_after_S c n : counter_ok 15 c ->
  counters_after c (S n) = value (inc c) :: counters_after (inc c) n.
Proof.
  intros Hc. destruct (inc_counter 15 c ltac:(lia) Hc) as (_ & Hv & Ev). change (15 - 1) with 14 in Ev.
  unfold counters_after. rewrite <- Ev. cbn [seq]. rewrite fmap_cons. f_equal; [rewrite Z.add_0_r; by apply Z.mod_small; lia|].
  rewrite <- seq_shift, <- list_fmap_compose. apply list_fmap_ext. intros _ k _. unfold compose.
  destruct (Z.leb_spec (value (inc c)) 14); [f_equal; lia|].
  assert (value (inc c) = 15) as -> by lia. rewrite Nat2Z.inj_succ.
  replace (15 + Z.succ (Z.of_nat k)) with (0 + Z.of_nat k + 1 * 16) by lia. by rewrite Z.mod_add.
Qed.

(** The packets [ps] carry [bytes], with the data of the field [own] in the first one. *)
Record muxed (c : wrappingCounter) (pid : Z) (own : option PacketAdaptationField) (bytes : list Z)
    (ps : list Packet) : Prop := {
  muxed_wire : Forall (fun p => wire_packet (laid p)) ps;
  muxed_payload : ps ≫= Payload = bytes;
  muxed_pid : Forall (fun p => PID (Header p) = pid /\ HasPayload (Header p) = true
    /\ TransportErrorIndicator (Header p) = false) ps;
  muxed_counters : (fun p => ContinuityCounter (Header p)) <$> ps = counters_after c (length ps);
  muxed_start : (fun p => PayloadUnitStartIndicator (Header p)) <$> ps = true :: replicate (length ps - 1) false;
  muxed_head : match ps with p :: _ => 6 <= len (Payload p) | [] => False end;
  muxed_full : Forall (fun p => Payload p <> []) ps;
  muxed_fields : (fun p => af_data (AdaptationField p)) <$> ps = af_data own :: replicate (length ps - 1) None;
}.

Lemma filled_data own n : own_ok own -> af_data (filled own n) = af_data own.
Proof.
  intros Ho. unfold filled. destruct (0 <? n); [|done]. destruct own as [f|]; [done|].
  unfold newStuffingAdaptationField. by destruct (n =? 1).
Qed.

Lemma rest_muxed n pid left : 0 <= pid < 2 ^ 13 -> bytes_ok left -> (length left <= n)%nat ->
  forall c, counter_ok 15 c ->
  let ps := rest_packets n c pid left in
  Forall (fun p => wire_packet (laid p)) ps /\ ps ≫= Payload = left
  /\ Forall (fun p => PID (Header p) = pid /\ HasPayload (Header p) = true
       /\ TransportErrorIndicator (Header p) = false) ps
  /\ (fun p => ContinuityCounter (Header p)) <$> ps = counters_after c (length ps)
  /\ (fun p => PayloadUnitStartIndicator (Header p)) <$> ps = replicate (length ps) false
  /\ Forall (fun p => Payload p <> []) ps
  /\ (fun p => af_data (AdaptationField p)) <$> ps = replicate (length ps) None.
Proof.
  intros Hp. revert left. induction n as [|n IH]; intros left Hb Hn c Hc; cbv zeta.
  { destruct left; [|cbn in Hn; lia]. by repeat split. }
  destruct left as [|x left]; [by repeat split|]. cbn [rest_packets]. set (l := x :: left) in *.
  destruct (inc_counter 15 c ltac:(lia) Hc) as (Hc' & Hv & _).
  assert (Hl : (length (drop 184 l) <= n)%nat) by (rewrite length_drop; subst l; cbn [length] in *; lia).
  destruct (IH (drop 184 l) (Forall_drop _ _ _ Hb) Hl (inc c) Hc') as (H1' & H2' & H3' & H4' & H5' & H6' & H7').
  split_and!.
  - constructor; [|exact H1']. apply piece_wire; try done; [lia|by apply Forall_take|].
    cbn [own_size]. unfold len. rewrite length_take. lia.
  - rewrite bind_cons, H2'. cbn [piece_packet Payload]. apply take_drop.
  - by constructor.
  - cbn [fmap list_fmap length]. rewrite counters_after_S by done. f_equal; [|exact H4'].
    cbn [piece_packet Header mux_header ContinuityCounter]. apply u8_small. lia.
  - cbn [fmap list_fmap length replicate]. by f_equal.
  - by constructor.
  - cbn [fmap list_fmap length replicate]. f_equal; [|exact H7']. cbn [piece_packet AdaptationField].
    by rewrite filled_data.
Qed.

Lemma data_muxed c pid own h data : 0 <= pid < 2 ^ 13 -> bytes_ok data -> wire_pes h -> own_ok own ->
  len (pes_header_bytes h (len data)) <= 184 - own_size own -> counter_ok 15 c ->
  muxed c pid own (pes_header_bytes h (len data) ++ data) (data_packets c pid own h data).
Proof.
  intros Hp Hb Hh Ho Hf Hc. unfold data_packets. set (room := 184 - own_size own) in *.
  destruct (inc_counter 15 c ltac:(lia) Hc) as (Hc' & Hv & _).
  set (n := Z.to_nat (data_taken h data true room)).
  destruct (rest_muxed (length data) pid (drop n data) Hp (Forall_drop _ _ _ Hb)
    ltac:(rewrite length_drop; lia) (inc c) Hc') as (H1' & H2' & H3' & H4' & H5' & H6' & H7').
  split; cbn [length]; rewrite ?Nat.sub_succ, ?Nat.sub_0_r.
  - constructor; [|exact H1']. apply piece_wire; try done; [lia| |].
    + unfold piece, head_part. apply Forall_app. split; [by apply pes_header_ok|by apply Forall_take].
    + unfold piece, head_part. rewrite len_app. fold n. assert (len (take n data) <= room - len (pes_header_bytes h (len data))); [|lia].
      transitivity (Z.of_nat n); [unfold len; rewrite length_take; lia|]. subst n. unfold data_taken. lia.
  - rewrite bind_cons, H2'. cbn [piece_packet Payload]. unfold piece, head_part. fold n.
    by rewrite <- app_assoc, take_drop.
  - by constructor.
  - cbn [fmap list_fmap]. rewrite counters_after_S by done. f_equal; [|exact H4'].
    cbn [piece_packet Header mux_header ContinuityCounter]. apply u8_small. lia.
  - cbn [fmap list_fmap]. by f_equal.
  - cbn [piece_packet Payload]. unfold piece, head_part. rewrite len_app, (len_pes_header h _ Hh).
    destruct (len_optional_part h Hh) as [_ Hr]. unfold len. lia.
  - constructor; [|exact H6']. cbn [piece_packet Payload]. unfold piece, head_part, pes_header_bytes, pes_prefix. done.
  - cbn [fmap list_fmap]. f_equal; [|exact H7']. cbn [piece_packet AdaptationField]. by apply filled_data.
Qed.

(** ** WriteData *)
Section Write.
Context (visit : programMap -> list (Z * Z)).

Lemma tables_contexts m : esContexts (WriteTables (B := B) visit m).2 = esContexts m.
Proof.
  assert (HP : forall m : Muxer W, esContexts (generatePAT (B := B) visit m).2 = esContexts m).
  { intros m0. unfold generatePAT. by destruct (generate _ _ _). }
  assert (HM : forall m : Muxer W, esContexts (generatePMT (B := B) m).2 = esContexts m).
  { intros m0. unfold generatePMT. destruct (negb _); [done|]. by destruct (generate _ _ _). }
  unfold WriteTables. rewrite bind_unfold. specialize (HP m).
  destruct (generatePAT visit m) as [[u|f] m1]; [|done]. cbn [snd] in HP.
  rewrite bind_unfold. specialize (HM m1). destruct (generatePMT m1) as [[u'|f] m2]; [|cbn in *; congruence].
  cbn [snd] in HM. rewrite bind_unfold. cbn [get]. rewrite bind_unfold. unfold on_out.
  destruct (io_Write _ (out m2)) as [[n1|f] w1]; [|cbn; congruence].
  rewrite bind_unfold. destruct (io_Write _ _) as [[n2|f] w2]; cbn; congruence.
Qed.

Lemma retransmit_contexts force m : esContexts (retransmitTables (B := B) visit force m).2 = esContexts m.
Proof.
  unfold retransmitTables. rewrite bind_unfold. cbn [modify]. rewrite bind_unfold. cbn [get].
  destruct (_ && _); [done|]. rewrite bind_unfold.
  pose proof (tables_contexts (set_counter (tablesRetransmitCounter m + 1) m)) as HT.
  destruct (WriteTables _ _) as [[n|f] m1]; [rewrite bind_unfold|]; exact HT.
Qed.

(** Whether the tables are written before the data. *)
Definition forced (d : MuxerData) (m : Muxer W) : bool :=
  match mux_AdaptationField d with
  | Some a => RandomAccessIndicator a && (mux_PID d =? PCRPID (pmt m))
  | None => false
  end.

(** What [WriteData] is given: data, a header that can be written, a field that
    leaves room for it. *)
Record mux_data_ok (d : MuxerData) (m : Muxer W) (ctx : esContext) : Prop := {
  ok_context : esContexts m !! mux_PID d = Some ctx;
  ok_counter : counter_ok 15 (cc ctx);
  ok_header : wire_pes (pes_Header (mux_PES (with_id m d)));
  ok_field : own_ok (mux_AdaptationField d);
  ok_room : 6 + calcPESOptionalHeaderLength (OptionalHeader (pes_Header (mux_PES d)))
            <= 184 - own_size (mux_AdaptationField d);
  ok_data : bytes_ok (pes_Data (mux_PES d)) /\ pes_Data (mux_PES d) <> [];
  ok_pid : 0 <= mux_PID d < 2 ^ 13;
}.

Lemma own_field_all d : own_field (bool_decide (is_Some (mux_AdaptationField d))) d = mux_AdaptationField d.
Proof. unfold own_field. destruct (mux_AdaptationField d); done. Qed.

(** The stuffing of the caller's field is taken back. *)
Lemma stuffing_reset n d : own_ok (mux_AdaptationField d) ->
  set_af (with_stuffing 0 <$> mux_AdaptationField (stuffed_data (bool_decide (is_Some (mux_AdaptationField d))) n d))
    (stuffed_data (bool_decide (is_Some (mux_AdaptationField d))) n d) = d.
Proof.
  destruct d as [pid [f|] x]; intros Ho; [|by rewrite (bool_decide_eq_false_2 _)].
  destruct Ho as (E & Es & _). unfold stuffed_data. cbn [mux_AdaptationField]. rewrite bool_decide_eq_true_2 by done.
  assert (Ef : with_stuffing 0 f = f) by (destruct f; cbn in *; by subst).
  cbn [andb]. unfold filled. destruct (0 <? n); unfold set_af; cbn; by rewrite <- Ef at 2.
Qed.

Lemma with_id_id m d ctx : esContexts m !! mux_PID d = Some ctx ->
  StreamID (pes_Header (mux_PES (with_id m d))) <> 0.
Proof.
  intros E. unfold with_id. destruct (Z.eqb_spec (StreamID (pes_Header (mux_PES d))) 0); [|done].
  rewrite E. pose proof (pes_ids (StreamType (es ctx))). cbn. lia.
Qed.

Lemma stuffed_pes wa n d : mux_PES (stuffed_data wa n d) = mux_PES d /\ mux_PID (stuffed_data wa n d) = mux_PID d.
Proof. unfold stuffed_data. by destruct (wa && _). Qed.

(** The loop, from the first packet on. *)
Lemma data_loop d m ctx fuel n0 m0 pre c :
  mux_data_ok d m ctx -> (length (pes_Data (mux_PES d)) + 1 < fuel)%nat ->
  esContexts m0 = esContexts m -> written (out m0) pre c ->
  let h := pes_Header (mux_PES (with_id m d)) in
  let data := pes_Data (mux_PES d) in
  let wa := bool_decide (is_Some (mux_AdaptationField d)) in
  let ps := data_packets (cc ctx) (mux_PID d) (mux_AdaptationField d) h data in
  exists n w',
    iter fuel (write_round (B := B))
      {| payloadStart := true; writeAf := wa; payloadBytesWritten := 0; bytesWritten := n0 |} (d, m0)
    = (Ok (n0 + 188 * Z.of_nat (length ps)),
       (stuffed_data wa n (with_id m d), set_out w' (bumps (length ps) (mux_PID d) m0)))
    /\ written w' (pre ++ byte_bits (wire_bytes ps)) c.
Proof.
  intros [Hctx Hcc Hh Ho Hr [Hb Hne] Hp] Hfuel Hc0 Hw h data wa ps.
  assert (Hid0 : with_id m0 d = with_id m d) by (unfold with_id; by rewrite Hc0).
  assert (Hlen : 0 < len data) by (subst data; destruct (pes_Data (mux_PES d)); [done|unfold len; cbn [length]; lia]).
  set (l0 := {| payloadStart := true; writeAf := wa; payloadBytesWritten := 0; bytesWritten := n0 |}).
  assert (R0 : round_ok d m0 l0 ctx).
  { split; try done; try (cbn [writeAf payloadStart l0]; subst wa; by rewrite ?own_field_all).
    - by rewrite Hc0.
    - by rewrite Hid0.
    - cbn [writeAf l0]. subst wa. by intros ?%bool_decide_eq_true. }
  destruct (write_round_piece d m0 l0 ctx pre c R0 Hw) as (w1 & E1 & Hw1 & Hn1).
  cbn [payloadStart writeAf payloadBytesWritten bytesWritten l0] in E1, Hw1, Hn1.
  subst wa. rewrite own_field_all, Hid0, drop_0 in E1, Hw1, Hn1. fold h data in E1, Hw1, Hn1.
  set (room := 184 - own_size (mux_AdaptationField d)) in *.
  set (wa := bool_decide (is_Some (mux_AdaptationField d))) in *.
  set (n := room - len (piece h data true room)) in *.
  destruct (stuffed_pes wa n (with_id m d)) as [Epes Epid]. destruct (with_id_same m d) as (Ed & Ep & _).
  set (d1 := stuffed_data wa n (with_id m d)) in *.
  destruct fuel as [|fuel]; [lia|]. rewrite iter_S, E1, Z.add_0_l.
  set (taken := data_taken h data true room) in *.
  assert (Hid1 : StreamID (pes_Header (mux_PES d1)) <> 0) by (rewrite Epes; by apply with_id_id with ctx).
  destruct (rest_loop d1 (mux_PID d) data) with (n := fuel) (ctx := inc_context ctx)
    (m := set_out w1 (bump (mux_PID d) m0)) (done := taken) (total := n0 + 188)
    (pre := pre ++ byte_bits (packet_bytes (laid (piece_packet (value (inc (cc ctx))) (mux_PID d) true
      (mux_AdaptationField d) (piece h data true room))))) (c := c) as (w2 & E2 & Hw2).
  - by rewrite Epid, Ep.
  - by rewrite Epes, Ed.
  - exact Hid1.
  - rewrite length_drop. subst data. lia.
  - intros Ht. split; try done.
    + rewrite Epid, Ep. unfold bump. rewrite Hc0, Hctx. cbn [set_streams set_out set_output esContexts].
      by rewrite lookup_insert_eq.
    + by apply inc_counter.
    + rewrite with_id_done by done. by rewrite Epes.
    + by rewrite Epes, Ed.
    + by rewrite Epes, Ed.
    + by rewrite Epid, Ep.
  - exact Hn1.
  - exact Hw1.
  - rewrite E2. exists n, w2. subst ps. unfold data_packets. fold room taken.
    rewrite (rest_packets_fuel (length data) (length (drop (Z.to_nat taken) data)))
      by (rewrite ?length_drop; lia).
    cbn [length inc_context cc] in *. cbn [bumps]. rewrite bumps_out, set_out_out. split.
    + do 2 f_equal. lia.
    + unfold wire_bytes in *. rewrite bind_cons, byte_bits_app, app_assoc. exact Hw2.
Qed.

Lemma WriteData_run d m ctx fuel n0 m0 pre c :
  mux_data_ok d m ctx -> (length (pes_Data (mux_PES d)) + 1 < fuel)%nat ->
  retransmitTables (B := B) visit (forced d m) m = (Ok n0, m0) -> written (out m0) pre c ->
  let h := pes_Header (mux_PES (with_id m d)) in
  let data := pes_Data (mux_PES d) in
  exists ps w',
    WriteData (B := B) visit fuel (d, m)
      = (Ok (n0 + 188 * Z.of_nat (length ps)),
         (with_id m d, set_out w' (bumps (length ps) (mux_PID d) m0)))
    /\ written w' (pre ++ byte_bits (wire_bytes ps)) c
    /\ muxed (cc ctx) (mux_PID d) (mux_AdaptationField d) (pes_header_bytes h (len data) ++ data) ps.
Proof.
  intros Hok Hfuel Hret Hw h data. pose proof Hok as [Hctx Hcc Hh Ho Hr [Hb Hne] Hp].
  pose proof (retransmit_contexts (forced d m) m) as Hc0. rewrite Hret in Hc0. cbn [snd] in Hc0.
  destruct (data_loop d m ctx fuel n0 m0 pre c Hok Hfuel Hc0 Hw) as (n & w' & E & Hw').
  fold h data in E, Hw'. eexists _, w'. split; [|split; [exact Hw'|]].
  - unfold WriteData. rewrite bind_unfold. cbn [gets fst]. rewrite bind_unfold. cbn [gets snd]. rewrite Hctx.
    fold (forced d m). rewrite (bind_ok _ _ _ n0 (d, m0)) by (unfold on_snd; by rewrite Hret).
    rewrite (bind_ok _ _ _ _ _ E), bind_unfold. cbn [on_fst modify mret M_ret].
    destruct (with_id_same m d) as (_ & _ & Ea).
    pose proof (stuffing_reset n (with_id m d)) as Hs. rewrite Ea in Hs. by rewrite (Hs Ho).
  - apply data_muxed; try done. by rewrite (len_pes_header _ _ Hh), with_id_optional.
Qed.

(** C37: after the tables, when they are due, [WriteData] writes the PES packet, header
    first and with the lengths that its fields give, as transport packets of 188 bytes:
    with counters that follow the last one of the stream modulo 16 (from 0 when there
    was none), the start indicator on the first one only and the caller's adaptation
    field in it; each is read back as it was built.  The caller's
    data keeps everything but the stream ID that it left open. *)
Theorem WriteData_packets {I} `{BytesIteratorLaws I} d m ctx fuel n0 m0 pre c :
  mux_data_ok d m ctx -> (length (pes_Data (mux_PES d)) + 1 < fuel)%nat ->
  retransmitTables (B := B) visit (forced d m) m = (Ok n0, m0) -> written (out m0) pre c ->
  let h := pes_Header (mux_PES (with_id m d)) in
  let data := pes_Data (mux_PES d) in
  exists ps w',
    WriteData (B := B) visit fuel (d, m)
      = (Ok (n0 + 188 * Z.of_nat (length ps)),
         (with_id m d, set_out w' (bumps (length ps) (mux_PID d) m0)))
    /\ written w' (pre ++ byte_bits (wire_bytes ps)) c
    /\ muxed (cc ctx) (mux_PID d) (mux_AdaptationField d) (pes_header_bytes h (len data) ++ data) ps
    /\ Forall (fun p => parse_buffer I None (packet_bytes (laid p)) = Ok (laid p)) ps.
Proof.
  intros Hok Hfuel Hret Hw h data.
  destruct (WriteData_run d m ctx fuel n0 m0 pre c Hok Hfuel Hret Hw) as (ps & w' & E & Hw' & Hm).
  exists ps, w'. split_and!; [done..|]. eapply Forall_impl; [exact (muxed_wire _ _ _ _ _ Hm)|].
  intros p. apply parse_packet_bytes.
Qed.
End Write.
End Data.

(** ** An audio stream with a clock *)
Import Reference.

#[export] Instance bits_output : IOWriter bits := {
  io_Write bs := Write (WBytes bs);; mret (len bs);
}.

Module MuxerExample.
Definition stream : PMTElementaryStream :=
  {| ElementaryPID := 0x101; ElementaryStreamDescriptors := []; StreamType := StreamTypeAACAudio |}.

Definition muxer : Muxer bits :=
  ((AddElementaryStream stream;; SetPCRPID 0x101) (NewMuxer ([], None) [])).2.

Definition field : PacketAdaptationField :=
  {| AdaptationExtensionField := None; OPCR := None; PCR := Some (newClockReference 8589934591 17);
     TransportPrivateData := []; TransportPrivateDataLength := 0; af_Length := 0; StuffingLength := 0;
     SpliceCountdown := 0; IsOneByteStuffing := false; RandomAccessIndicator := true;
     DiscontinuityIndicator := false; ElementaryStreamPriorityIndicator := false;
     HasAdaptationExtensionField := false; HasOPCR := false; HasPCR := true;
     HasTransportPrivateData := false; HasSplicingCountdown := false |}.

Definition audio : MuxerData :=
  {| mux_PID := 0x101; mux_AdaptationField := Some field;
     mux_PES := {| pes_Data := replicate 300 0x5A;
                   pes_Header := {| OptionalHeader := Some sample_optional; PacketLength := 0; StreamID := 0 |} |} |}.

Definition context : esContext := newEsContext stream.

(** The muxer after the tables. *)
Definition ready_muxer : Muxer bits :=
  (retransmitTables (B := bits) map_to_list (forced audio muxer) muxer).2.

Lemma tables_written :
  retransmitTables (B := bits) map_to_list (forced audio muxer) muxer = (Ok 376, ready_muxer).
Proof. vm_compute. reflexivity. Qed.

Lemma written_bits w : written w w.1 w.2.
Proof. by destruct w. Qed.

Lemma audio_ok : mux_data_ok audio muxer context.
Proof.
  refine {| ok_context := _ |}; try (vm_compute; done).
  - split; [by vm_compute|]. split; [by vm_compute|]. exact (proj2 (proj2 sample_wire_pes)).
  - split; [apply Forall_replicate; by vm_compute|]. by intros E%(f_equal length).
Qed.

(** The first PID given automatically is that of the PAT. *)
Example automatic_pids :
  let automatic := {| ElementaryPID := 0; ElementaryStreamDescriptors := []; StreamType := StreamTypeAACAudio |} in
  ElementaryPID <$> ElementaryStreams (pmt ((AddElementaryStream automatic;; AddElementaryStream automatic)
    (NewMuxer (([], None) : bits) [])).2) = [PIDPAT; 1].
Proof. vm_compute. reflexivity. Qed.

(** An adaptation field that leaves no room for the PES header is not written, and
    its continuity counter is skipped: what follows the tables, two packets with
    the counters 1 and 2, and no private data. *)
Definition full_field : PacketAdaptationField :=
  {| AdaptationExtensionField := None; OPCR := None; PCR := None;
     TransportPrivateData := replicate 170 7; TransportPrivateDataLength := 170; af_Length := 0; StuffingLength := 0;
     SpliceCountdown := 0; IsOneByteStuffing := false; RandomAccessIndicator := false;
     DiscontinuityIndicator := false; ElementaryStreamPriorityIndicator := false;
     HasAdaptationExtensionField := false; HasOPCR := false; HasPCR := false;
     HasTransportPrivateData := true; HasSplicingCountdown := false |}.

Definition crowded : MuxerData :=
  {| mux_PID := 0x101; mux_AdaptationField := Some full_field; mux_PES := mux_PES audio |}.

Definition crowded_run : outcome Z * (MuxerData * Muxer bits) :=
  WriteData (B := bits) map_to_list 302 (crowded, muxer).

Definition crowded_packet (k : nat) : outcome Packet :=
  parse_buffer iterator None (slice (bytes_of_bits (out crowded_run.2.2).1) (188 * k) (188 * S k)).

Example full_field_lost : crowded_run.1 = Ok (188 * 4)
  /\ ((fun k => match crowded_packet k with
      | Ok p => Some (ContinuityCounter (Header p), (fun a => TransportPrivateData a) <$> AdaptationField p)
      | Fail _ => None end) <$> [2; 3]%nat) = [Some (1, None); Some (2, Some [])].
Proof. vm_compute. split; reflexivity. Qed.
End MuxerExample.

Lemma WriteData_packets_witness : mux_data_ok MuxerExample.audio MuxerExample.muxer MuxerExample.context
  /\ exists ps w', WriteData (B := bits) (W := bits) map_to_list 302 (MuxerExample.audio, MuxerExample.muxer)
       = (Ok (376 + 188 * Z.of_nat (length ps)), w')
     /\ Forall (fun p => parse_buffer iterator None (packet_bytes (laid p)) = Ok (laid p)) ps.
Proof.
  split; [exact MuxerExample.audio_ok|].
  destruct (WriteData_packets (B := bits) (W := bits) (I := iterator) map_to_list MuxerExample.audio
    MuxerExample.muxer MuxerExample.context 302 376 MuxerExample.ready_muxer _ _ MuxerExample.audio_ok
    ltac:(by_decide) MuxerExample.tables_written
    (MuxerExample.written_bits _)) as (ps & w' & E & _ & _ & Hp).
  exists ps. eexists. split; [exact E|exact Hp].
Defined.
