(* ===== verification/PoolSpec.v ===== *)
(** * What the packet pool keeps and gives

    The checks for complete payloads answer whatever the bytes are; every queue of
    the pool, and every unit that it gives, consists of packets of one PID with
    consecutive counters that belong to one payload; and nothing is invented,
    repeated or reordered. *)

From stdpp Require Import sorting.
From S2P Require Import Prelude Packet Astikit PacketCodec Descriptor Pmt Tables Psi PesData PacketPool Safety.
Local Open Scope Z_scope.

(** ** Reading PES headers from arbitrary bytes *)
Section Parsers.
Context {I : Type} `{BytesIteratorLaws I} (bs : list Z) (Hbs : bytes_ok bs).

#[local] Hint Resolve safe_pts : safe.

Lemma safe_stamps n o : 0 <= o -> from bs any o (parse_stamps (I := I) n) (fun _ o' => o <= o').
Proof. intros Ho. unfold parse_stamps. safe. Qed.

Lemma safe_escr o : 0 <= o -> from bs any o (parseESCR (I := I)) (fun _ o' => o <= o').
Proof. intros Ho. safe. Qed.
#[local] Hint Resolve safe_stamps safe_escr : safe.

Lemma safe_pes_extension o : 0 <= o -> from bs any o (parse_pes_extension (I := I)) (fun _ o' => o <= o').
Proof.
  intros Ho. unfold parse_pes_extension. repeat from_step; try solve [reading].
  apply Z.land_nonneg. reading.
Qed.
#[local] Hint Resolve safe_pes_extension : safe.

Lemma safe_optional o : 0 <= o ->
  from bs any o (parsePESOptionalHeader (I := I)) (fun r o' => o <= r.2 /\ o <= o').
Proof.
  intros Ho. unfold parsePESOptionalHeader. safe; cbn [snd]; reading.
Qed.
#[local] Hint Resolve safe_optional : safe.

(** The length announced is that of the bytes, and the end of the data follows it. *)
Definition announced : Z := be16 (slice bs 4 6) 0.

Lemma safe_pes_header :
  from bs any 3 (parsePESHeader (I := I)) (fun r _ => let '(h, (dataStart, dataEnd)) := r in
    6 <= Z.of_nat (length bs) /\ PacketLength h = announced /\ 0 <= dataStart
    /\ dataEnd = if 0 <? announced then 6 + announced else Z.of_nat (length bs)).
Proof.
  unfold parsePESHeader. do 4 from_step. rename l into w. cbv zeta. do 4 from_step.
  match goal with H : read_slice _ _ _ w |- _ => destruct H as (Ew & _ & _ & Hl) end.
  assert (be16 w 0 = announced) as -> by (unfold announced; by rewrite Ew).
  destruct (hasPESOptionalHeader b); safe; cbn [fst snd PacketLength]; split_and!; reading.
Qed.

Lemma safe_pes_data : from bs any 0 (parsePESData (I := I)) (fun _ _ => True).
Proof.
  unfold parsePESData. do 2 from_step. apply from_bind, from_wrap; [done|].
  eapply from_weaken; [apply safe_pes_header|]. intros [h [s e]] o' (_ & _ & Hs & _). cbv beta iota.
  apply from_bind. unfold fail_if. destruct (Z.ltb_spec e s); [by apply from_fail|]. safe.
Qed.

(** ** Complete payloads *)
Lemma safe_skip o : 0 <= o -> from bs any o (skip_sections I) (fun _ _ => True).
Proof.
  intros Ho i Hi. unfold skip_sections. destruct (at_observe i bs o Hi) as (-> & -> & _).
  revert i Hi. match goal with |- forall i, _ -> match iter ?n ?f ?a i with _ => _ end =>
    change (from bs any o (iter n f a) (fun _ _ => True)) end.
  apply from_iter with (Inv := fun _ o' => 0 <= o') (e := Z.of_nat (length bs)); [lia..|].
  intros [] o' Ho'. unfold skip_section. do 2 from_step. destruct (Z.ltb_spec o' (Z.of_nat (length bs))); [|by apply from_ret].
  do 2 from_step. destruct (shouldStopPSIParsing _); [by apply from_ret|].
  apply from_bind. intros i Hi. pose proof (at_next_bytes_no_copy i bs (o' + 1) 2 Hi ltac:(lia) ltac:(lia)) as Hb.
  case_decide; [|by destruct Hb as (e & i' & ->)]. destruct Hb as (i' & -> & Hi'). eexists. split; [exact Hi'|].
  set (w := slice _ _ _). assert (0 <= Z.land (be16 w 0) 0xfff).
  { apply Z.land_nonneg. lia. }
  do 2 from_step. apply from_ret. split_and!; lia.
Qed.
End Parsers.

Section Pool.
Context (I : Type) `{BytesIteratorLaws I}.

Definition is_answer {A} (o : outcome A) : Prop := match o with Ok _ => True | Fail _ => False end.

Lemma catch_from {A} bs (m : M I A) Q a : from bs any 0 m Q ->
  is_answer (catch (m (NewBytesIterator bs)).1 a).
Proof.
  intros Hm. specialize (Hm _ (at_new bs)). destruct (m _) as [[x|[]] i]; cbn in *; done.
Qed.

Lemma catch_value {A} bs (m : M I A) a : from bs any 0 m (fun x _ => x = a) ->
  catch (m (NewBytesIterator bs)).1 a = Ok a.
Proof.
  intros Hm. specialize (Hm _ (at_new bs)). destruct (m _) as [[x|[]] i]; cbn in *; try done.
  by destruct Hm as (o' & _ & ->).
Qed.

Lemma psi_complete_answers ps : bytes_ok (payload_of ps) -> is_answer (isPSIComplete I ps).
Proof.
  intros Hb. unfold isPSIComplete. eapply catch_from with (Q := fun _ _ => True).
  apply from_bind, from_NextByte; [done|lia|]. intros b Hb0 _. do 2 from_step. apply from_bind.
  eapply from_weaken; [apply safe_skip; [done|reading]|]. intros _ o' _. cbv beta. by repeat from_step.
Qed.

Lemma pes_complete_answers ps : bytes_ok (payload_of ps) -> is_answer (isPESComplete I ps).
Proof.
  intros Hb. unfold isPESComplete. eapply catch_from with (Q := fun _ _ => True).
  do 2 from_step. apply from_bind. eapply from_weaken; [by apply safe_pes_header|].
  intros [h [s e]] o' _. cbv beta. by repeat from_step.
Qed.

(** ** Units *)

(** A packet as the parser gives it: a field where the flag says so, and bytes. *)
Definition sound (p : Packet) : Prop :=
  (HasAdaptationField (Header p) = true -> is_Some (AdaptationField p)) /\ bytes_ok (Payload p).

Definition indicates_discontinuity (p : Packet) : bool :=
  HasAdaptationField (Header p)
  && match AdaptationField p with Some a => DiscontinuityIndicator a | None => false end.

(** [p] may follow [l]: the next counter, unless counters do not matter. *)
Definition follows (l p : Packet) : Prop :=
  PID (Header p) = PIDNull \/ indicates_discontinuity p = true
  \/ ContinuityCounter (Header p) = Z.land (u8 (ContinuityCounter (Header l) + 1)) 0x0f.

Fixpoint linked (l : Packet) (ps : list Packet) : Prop :=
  match ps with
  | [] => True
  | p :: ps => follows l p /\ PayloadUnitStartIndicator (Header p) = false /\ linked p ps
  end.

Definition of_pid (pid : Z) (p : Packet) : Prop :=
  PID (Header p) = pid /\ HasPayload (Header p) = true /\ TransportErrorIndicator (Header p) = false
  /\ sound p.

(** Packets of one payload. *)
Definition unit_ok (pid : Z) (ps : list Packet) : Prop :=
  Forall (of_pid pid) ps /\ match ps with [] => True | p :: rest => linked p rest end.

Definition pool_ok (b : packetPool) : Prop :=
  forall pid acc, b !! pid = Some acc -> acc_pid acc = pid /\ unit_ok pid (q acc).

Lemma linked_snoc l ps p : linked l ps -> follows (default l (list.last ps)) p ->
  PayloadUnitStartIndicator (Header p) = false -> linked l (ps ++ [p]).
Proof.
  revert l. induction ps as [|x ps IH]; intros l Hl Hf Hs; [by repeat split|].
  destruct Hl as (Hx & Hsx & Hl). cbn [app linked]. split_and!; [done..|]. apply IH; [done| |done].
  destruct ps as [|y ps]; [done|]. change (list.last (x :: y :: ps)) with (list.last (y :: ps)) in Hf.
  destruct (list.last (y :: ps)) eqn:E; [done|]. by apply last_None in E.
Qed.

Lemma unit_snoc pid ps p : unit_ok pid ps -> of_pid pid p ->
  match list.last ps with
  | Some l => follows l p /\ PayloadUnitStartIndicator (Header p) = false
  | None => True
  end -> unit_ok pid (ps ++ [p]).
Proof.
  intros [Hf Hl] Hp Hlast. split; [apply Forall_app; split; [done|]; by constructor|].
  destruct ps as [|x ps]; [done|]. cbn [app]. destruct (list.last (x :: ps)) as [l|] eqn:E; [|by apply last_None in E].
  destruct Hlast as [Hfo Hs]. apply linked_snoc; [done| |done].
  destruct ps as [|y ps]; [by injection E as ->|]. change (list.last (x :: y :: ps)) with (list.last (y :: ps)) in E.
  by rewrite E.
Qed.

Lemma discontinuity_answers ps p : sound p ->
  exists b, hasDiscontinuity ps p = Ok b /\
    (b = false -> HasPayload (Header p) = true -> forall l, list.last ps = Some l -> follows l p).
Proof.
  intros [Hf _]. unfold hasDiscontinuity, follows, indicates_discontinuity.
  destruct (Z.eqb_spec (PID (Header p)) PIDNull); [eexists; split; [done|]; by left|].
  destruct (HasAdaptationField (Header p)).
  - destruct (Hf eq_refl) as [a ->]. cbn [mbind outcome_bind andb].
    destruct (DiscontinuityIndicator a); [eexists; split; [done|]; by right; left|].
    destruct (list.last ps) as [l|]; [|by eexists]. eexists. split; [done|]. intros Hb Hp l' [= <-].
    rewrite Hp in Hb. apply negb_false_iff, Z.eqb_eq in Hb. right. by right.
  - cbn [mbind outcome_bind andb]. destruct (list.last ps) as [l|]; [|by eexists]. eexists. split; [done|].
    intros Hb Hp l' [= <-]. rewrite Hp in Hb. apply negb_false_iff, Z.eqb_eq in Hb. right. by right.
Qed.

Lemma payload_bytes pid ps : Forall (of_pid pid) ps -> bytes_ok (payload_of ps).
Proof.
  intros Hps. unfold payload_of. induction Hps as [|p ps (_ & _ & _ & _ & Hp) _ IH]; [constructor|].
  rewrite bind_cons. by apply Forall_app.
Qed.

(** What an accumulator makes of a packet. *)
Lemma add_spec pm pid p b : acc_pid b = pid -> unit_ok pid (q b) -> of_pid pid p ->
  exists ps b', add I pm p b = Ok (ps, b') /\ acc_pid b' = pid /\ unit_ok pid ps /\ unit_ok pid (q b')
    /\ sublist (ps ++ q b') (q b ++ [p]).
Proof.
  intros Hpid Hq Hp. pose proof Hp as (_ & Hpay & _ & Hs). unfold add.
  destruct (discontinuity_answers (q b) p Hs) as (d & -> & Hd). cbn [mbind outcome_bind].
  set (mps := if d then [] else q b).
  assert (Hm : unit_ok pid mps /\ sublist mps (q b)).
  { subst mps. destruct d; [|done]. split; [by split|apply sublist_nil_l]. }
  destruct Hm as [Hm Hsub].
  destruct (isSameAsPrevious mps p).
  { exists [], b. split_and!; [done..|by split|done|]. cbn [app]. by apply sublist_inserts_r. }
  set (ps := if PayloadUnitStartIndicator (Header p) then mps else []).
  set (base := if PayloadUnitStartIndicator (Header p) then [] else mps).
  assert (Hbase : unit_ok pid (base ++ [p])).
  { apply unit_snoc; [subst base; by destruct (PayloadUnitStartIndicator _)|done|]. subst base.
    destruct (PayloadUnitStartIndicator (Header p)) eqn:E; [done|]. destruct (list.last mps) as [l|] eqn:El; [|done].
    split; [|done]. subst mps. destruct d; [done|]. by apply (Hd eq_refl Hpay). }
  assert (Hps : unit_ok pid ps) by (subst ps; destruct (PayloadUnitStartIndicator _); [done|by split]).
  assert (E : (if PayloadUnitStartIndicator (Header p) then (mps, []) else ([], mps)) = (ps, base))
    by (subst ps base; by destruct (PayloadUnitStartIndicator _)).
  rewrite E. clear E. pose proof (payload_bytes pid _ (proj1 Hbase)) as Hby.
  assert (Hsb : ps ++ base = mps) by (subst ps base; destruct (PayloadUnitStartIndicator _); [apply app_nil_r|done]).
  assert (Hdone : exists ps' b', Ok (base ++ [p], set_q [] b) = Ok (ps', b') /\ acc_pid b' = pid
    /\ unit_ok pid ps' /\ unit_ok pid (q b') /\ sublist (ps' ++ q b') (q b ++ [p])).
  { do 2 eexists. split; [done|]. split_and!; [done|done|by split|]. cbn [set_q q]. rewrite app_nil_r.
    apply sublist_app; [|done]. etransitivity; [|exact Hsub]. rewrite <- Hsb. by apply sublist_inserts_l. }
  assert (Hkeep : exists ps' b', Ok (ps, set_q (base ++ [p]) b) = Ok (ps', b') /\ acc_pid b' = pid
    /\ unit_ok pid ps' /\ unit_ok pid (q b') /\ sublist (ps' ++ q b') (q b ++ [p])).
  { do 2 eexists. split; [done|]. split_and!; [done..|]. cbn [set_q q]. rewrite app_assoc, Hsb. by apply sublist_app. }
  assert (Hpes : exists ps' b', (pes ← match base ++ [p] with
      | [] => Fail Panic
      | first :: _ => if isPESPayload (Payload first) then isPESComplete I (base ++ [p]) else Ok false
      end;
      if pes : bool then Ok (base ++ [p], set_q [] b) else Ok (ps, set_q (base ++ [p]) b)) = Ok (ps', b')
    /\ acc_pid b' = pid /\ unit_ok pid ps' /\ unit_ok pid (q b') /\ sublist (ps' ++ q b') (q b ++ [p])).
  { destruct (base ++ [p]) as [|first rest] eqn:Eb; [by apply app_nil in Eb as [_ ?]|]. rewrite <- Eb in *.
    destruct (isPESPayload (Payload first)); [|exact Hkeep].
    pose proof (pes_complete_answers _ Hby). destruct (isPESComplete I (base ++ [p])) as [[]|]; [exact Hdone|exact Hkeep|done]. }
  destruct pm as [m|]; [|exact Hpes]. destruct (_ || _); [|exact Hpes].
  pose proof (psi_complete_answers _ Hby). destruct (isPSIComplete I (base ++ [p])) as [[]|]; [exact Hdone|exact Hpes|done].
Qed.

(** ** The pool *)
Definition queued (b : packetPool) (pid : Z) : list Packet :=
  match b !! pid with Some acc => q acc | None => [] end.

Lemma pool_insert_eq (b : packetPool) pid acc : <[pid := acc]> b !! pid = Some acc.
Proof. exact (lookup_insert_eq b pid acc). Qed.

Lemma pool_insert_ne (b : packetPool) pid pid' acc : pid <> pid' -> <[pid := acc]> b !! pid' = b !! pid'.
Proof. exact (lookup_insert_ne b pid pid' acc). Qed.

Lemma addUnlocked_spec pm p b : pool_ok b -> sound p ->
  exists ps b', addUnlocked I pm p b = Ok (ps, b') /\ pool_ok b'
    /\ unit_ok (PID (Header p)) ps
    /\ (forall pid, pid <> PID (Header p) -> queued b' pid = queued b pid)
    /\ sublist (ps ++ queued b' (PID (Header p))) (queued b (PID (Header p)) ++ [p]).
Proof.
  intros Hb Hp. unfold addUnlocked.
  assert (Hskip : exists ps b', Ok ([], b) = Ok (ps, b') /\ pool_ok b' /\ unit_ok (PID (Header p)) ps
    /\ (forall pid, pid <> PID (Header p) -> queued b' pid = queued b pid)
    /\ sublist (ps ++ queued b' (PID (Header p))) (queued b (PID (Header p)) ++ [p])).
  { do 2 eexists. split; [done|]. split_and!; [done|by split|done|]. cbn [app]. by apply sublist_inserts_r. }
  destruct (TransportErrorIndicator (Header p)) eqn:Et; [exact Hskip|].
  destruct (HasPayload (Header p)) eqn:Ep; [|exact Hskip]. cbn [negb]. clear Hskip.
  set (pid := PID (Header p)). set (acc := default (newPacketAccumulator pid) (b !! pid)).
  assert (Hacc : acc_pid acc = pid /\ unit_ok pid (q acc) /\ q acc = queued b pid).
  { subst acc. unfold queued. destruct (b !! pid) as [a|] eqn:E; cbn [default from_option id].
    - destruct (Hb pid a E). by split_and!.
    - by repeat split. }
  destruct Hacc as (Hpid & Hq & Eq).
  destruct (add_spec pm pid p acc Hpid Hq) as (ps & b' & E & Hpid' & Hu & Hq' & Hs); [by split_and!|].
  rewrite E. cbn [mbind outcome_bind fst snd]. eexists ps, (<[pid := b']> b). split; [done|].
  assert (Hin : queued (<[pid := b']> b) pid = q b') by (unfold queued; by rewrite pool_insert_eq).
  split_and!; [| done | |rewrite Hin, <- Eq; exact Hs].
  - intros k a. destruct (decide (pid = k)) as [<-|Hne].
    + rewrite pool_insert_eq. intros [= <-]. by split.
    + rewrite pool_insert_ne by done. apply Hb.
  - intros k Hne. unfold queued. by rewrite pool_insert_ne by done.
Qed.

(** ** Dumping the pool *)
Lemma queued_delete (b : packetPool) k pid :
  queued (delete k b) pid = if decide (pid = k) then [] else queued b pid.
Proof.
  unfold queued. case_decide as E.
  - subst. assert (Hd : delete k b !! k = None) by exact (lookup_delete_eq b k). by rewrite Hd.
  - assert (Hd : delete k b !! pid = b !! pid) by (apply (lookup_delete_ne b k pid); congruence). by rewrite Hd.
Qed.

Lemma pool_ok_delete b k : pool_ok b -> pool_ok (delete k b).
Proof.
  intros Hb pid acc E. destruct (decide (k = pid)) as [<-|Hne].
  - assert (Hd : delete k b !! k = None) by exact (lookup_delete_eq b k). congruence.
  - assert (Hd : delete k b !! pid = b !! pid) by exact (lookup_delete_ne b k pid Hne).
    apply Hb. congruence.
Qed.

Lemma size_delete b k : is_Some (b !! k) -> (size (delete k b : packetPool) < size b)%nat.
Proof.
  intros [acc E]. assert (Hs : size (delete k b : gmap Z packetAccumulator) = pred (size (b : gmap Z packetAccumulator)))
    by (apply map_size_delete_Some; by exists acc).
  assert (Hne : size (b : gmap Z packetAccumulator) <> 0%nat).
  { apply map_size_non_empty_iff. intros Hb. pose proof (lookup_empty (M := gmap Z) (A := packetAccumulator) k).
    unfold packetPool in *. congruence. }
  unfold packetPool in *. lia.
Qed.

(** What a dump takes: the queue of one PID, or nothing when all are empty. *)
Lemma dump_keys_spec keys b : pool_ok b -> NoDup keys -> (forall k, k ∈ keys -> is_Some (b !! k)) ->
  let '(ps, b') := dump_keys keys b in
  pool_ok b' /\ match ps with
  | [] => (forall k, k ∈ keys -> queued b k = []) /\ forall pid, queued b' pid = queued b pid
  | _ => exists k, ps = queued b k /\ unit_ok k ps /\ (size b' < size b)%nat
         /\ forall pid, queued b' pid = if decide (pid = k) then [] else queued b pid
  end.
Proof.
  revert b. induction keys as [|k keys IH]; intros b Hb Hnd Hin; cbn [dump_keys].
  { split; [done|]. split; [|done]. intros k Hk. by apply not_elem_of_nil in Hk. }
  apply NoDup_cons in Hnd as [Hk Hnd]. fold (queued b k).
  destruct (queued b k) as [|p ps] eqn:Eq.
  - assert (Hsame : forall pid, queued (delete k b) pid = queued b pid).
    { intros pid. rewrite queued_delete. case_decide; [by subst|done]. }
    specialize (IH (delete k b) (pool_ok_delete b k Hb) Hnd).
    destruct (dump_keys keys (delete k b)) as [ps b'].
    assert (Hsz : (size (delete k b : packetPool) < size b)%nat) by (apply size_delete, Hin, list_elem_of_here).
    destruct IH as [Hb' IH].
    { intros k' Hk'. assert (k <> k') by (by intros ->).
      assert (Hd : delete k b !! k' = b !! k') by (by apply (lookup_delete_ne b k k')).
      rewrite Hd. apply Hin. by apply list_elem_of_further. }
    split; [done|]. destruct ps as [|p ps].
    + destruct IH as [He Hs]. split; [|intros pid; by rewrite Hs, Hsame].
      intros k' [->|Hk']%elem_of_cons; [done|]. rewrite <- Hsame. by apply He.
    + destruct IH as (k' & -> & Hu & Hz & Hs). exists k'. split_and!; [apply Hsame|done|lia|].
      intros pid. rewrite Hs. case_decide; [done|apply Hsame].
  - split; [by apply pool_ok_delete|]. exists k. split_and!; [done| |apply size_delete, Hin, list_elem_of_here|].
    + unfold queued in Eq. destruct (b !! k) as [acc|] eqn:E; [|done]. rewrite <- Eq. by apply (Hb k acc).
    + intros pid. apply queued_delete.
Qed.

Lemma elem_of_sorted_keys (b : packetPool) k : k ∈ sorted_keys b <-> is_Some (b !! k).
Proof.
  unfold sorted_keys. rewrite merge_sort_Permutation, elem_of_elements. apply (elem_of_dom (M := gmap Z)).
Qed.

Lemma dumpUnlocked_spec b : pool_ok b ->
  let '(ps, b') := dumpUnlocked b in
  pool_ok b' /\ match ps with
  | [] => forall k, queued b k = [] /\ queued b' k = []
  | _ => exists k, ps = queued b k /\ unit_ok k ps /\ (size b' < size b)%nat
         /\ forall pid, queued b' pid = if decide (pid = k) then [] else queued b pid
  end.
Proof.
  intros Hb. unfold dumpUnlocked. pose proof (dump_keys_spec (sorted_keys b) b Hb) as Hd.
  destruct (dump_keys (sorted_keys b) b) as [ps b']. destruct Hd as [Hb' Hd].
  - unfold sorted_keys. rewrite merge_sort_Permutation. apply NoDup_elements.
  - intros k. apply elem_of_sorted_keys.
  - split; [done|]. destruct ps; [|done]. destruct Hd as [He Hs]. intros k. rewrite Hs.
    assert (queued b k = []) as ->; [|done]. destruct (b !! k) as [acc|] eqn:E.
    + apply He, elem_of_sorted_keys. by eexists.
    + unfold queued. by rewrite E.
Qed.

(** Dumping until the pool gives nothing. *)
Fixpoint dump_run (n : nat) (b : packetPool) : list (list Packet) * packetPool :=
  match n with
  | O => ([], b)
  | S n =>
      let '(ps, b) := dumpUnlocked b in
      match ps with
      | [] => ([], b)
      | _ => let '(us, b) := dump_run n b in (ps :: us, b)
      end
  end.

(** The packets of a PID. *)
Definition pid_packets (pid : Z) (ps : list Packet) : list Packet :=
  filter (fun p => PID (Header p) = pid) ps.

Lemma unit_pid pid ps : unit_ok pid ps -> pid_packets pid ps = ps.
Proof.
  intros [Hf _]. unfold pid_packets. induction Hf as [|p ps [Hp _] _ IH]; [done|].
  by rewrite filter_cons_True, IH.
Qed.

Lemma unit_other pid pid' ps : unit_ok pid ps -> pid <> pid' -> pid_packets pid' ps = [].
Proof.
  intros [Hf _] Hne. unfold pid_packets. induction Hf as [|p ps [Hp _] _ IH]; [done|].
  by rewrite filter_cons_False by congruence.
Qed.

Lemma dump_run_spec n b : pool_ok b -> (size b < n)%nat ->
  let '(us, b') := dump_run n b in
  Forall (fun ps => exists pid, unit_ok pid ps) us
  /\ (forall pid, pid_packets pid (concat us) = queued b pid) /\ (forall pid, queued b' pid = []).
Proof.
  revert b. induction n as [|n IH]; intros b Hb Hn; [lia|]. cbn [dump_run].
  pose proof (dumpUnlocked_spec b Hb) as Hd. destruct (dumpUnlocked b) as [ps b1]. destruct Hd as [Hb1 Hd].
  destruct ps as [|p ps].
  { split; [constructor|]. split; intros pid; [symmetry|]; apply Hd. }
  destruct Hd as (k & Ek & Hu & Hz & Hq). specialize (IH b1 Hb1 ltac:(lia)).
  destruct (dump_run n b1) as [us b2]. destruct IH as (Hus & Hps & He).
  split_and!; [constructor; [by exists k|done]| |done]. intros pid. cbn [concat]. unfold pid_packets in *.
  rewrite filter_app, Hps, Hq. fold (pid_packets pid (p :: ps)). case_decide as E.
  - subst. rewrite (unit_pid _ _ Hu), app_nil_r. exact Ek.
  - by rewrite (unit_other _ _ _ Hu).
Qed.

(** Packets added one after the other, each with the program map of the moment. *)
Fixpoint pool_run (calls : list (option programMap * Packet)) (b : packetPool) :
    outcome (list (list Packet) * packetPool) :=
  match calls with
  | [] => Ok ([], b)
  | (pm, p) :: calls =>
      r ← addUnlocked I pm p b;
      r' ← pool_run calls r.2;
      Ok (r.1 :: r'.1, r'.2)
  end.

Lemma pool_run_spec calls b : pool_ok b -> Forall (fun c => sound c.2) calls ->
  exists us b', pool_run calls b = Ok (us, b') /\ pool_ok b'
    /\ Forall (fun ps => exists pid, unit_ok pid ps) us
    /\ forall pid, sublist (pid_packets pid (concat us) ++ queued b' pid)
                           (queued b pid ++ pid_packets pid (snd <$> calls)).
Proof.
  intros Hb Hc. revert b Hb. induction Hc as [|[pm p] calls Hp _ IH]; intros b Hb.
  { exists [], b. split_and!; [done..|]. intros pid. cbn. by rewrite app_nil_r. }
  cbn [pool_run]. destruct (addUnlocked_spec pm p b Hb Hp) as (ps & b1 & -> & Hb1 & Hu & Hother & Hsub).
  cbn [mbind outcome_bind fst snd]. destruct (IH b1 Hb1) as (us & b2 & -> & Hb2 & Hus & Hs).
  cbn [mbind outcome_bind fst snd]. do 2 eexists. split; [done|].
  split_and!; [done|constructor; [by eexists|done]|]. intros pid. specialize (Hs pid).
  cbn [concat fmap list_fmap snd]. unfold pid_packets in *. rewrite filter_app, <- app_assoc, filter_cons.
  fold (pid_packets pid ps). case_decide as E.
  - rewrite <- E in *. rewrite (unit_pid _ _ Hu). etransitivity; [apply sublist_app; [done|exact Hs]|].
    rewrite app_assoc. change (?x :: ?l) with ([x] ++ l). rewrite app_assoc. by apply sublist_app.
  - rewrite (unit_other _ _ _ Hu) by done. cbn [app]. by rewrite Hother in Hs by congruence.
Qed.

(** C38: whatever packets are added to a new pool, it answers each time, its queues
    stay well formed, every unit that it gives, then or when it is dumped at the end,
    consists of packets of one PID in consecutive order, only the first of which may
    start a payload, and the units of a PID are a part of its packets, in order. *)
Theorem pool_units calls : Forall (fun c => sound c.2) calls ->
  exists us b, pool_run calls newPacketPool = Ok (us, b) /\ pool_ok b
    /\ let '(dumped, rest) := dump_run (size b + 1) b in
       Forall (fun ps => exists pid, unit_ok pid ps) (us ++ dumped)
       /\ (forall pid, queued rest pid = [])
       /\ forall pid, sublist (pid_packets pid (concat (us ++ dumped))) (pid_packets pid (snd <$> calls)).
Proof.
  intros Hc. assert (Hnew : pool_ok newPacketPool).
  { intros pid acc E. pose proof (lookup_empty (M := gmap Z) (A := packetAccumulator) pid).
    unfold newPacketPool, packetPool in *. congruence. }
  destruct (pool_run_spec calls newPacketPool Hnew Hc) as (us & b & E & Hb & Hus & Hs). exists us, b.
  split; [done|]. split; [done|]. pose proof (dump_run_spec (size b + 1) b Hb ltac:(lia)) as Hd.
  destruct (dump_run (size b + 1) b) as [dumped rest]. destruct Hd as (Hdu & Hq & He).
  split_and!; [by apply Forall_app|done|]. intros pid. specialize (Hs pid). specialize (Hq pid).
  unfold pid_packets in *. rewrite concat_app, filter_app, Hq. etransitivity; [exact Hs|].
  assert (queued newPacketPool pid = []) as ->; [|done]. unfold queued.
  assert (newPacketPool !! pid = None) as Hn by exact (lookup_empty (M := gmap Z) pid). by rewrite Hn.
Qed.
End Pool.

(** ** Examples *)
Import Reference.

Module PoolExample.
Definition packet_on (pid counter : Z) (start : bool) (payload : list Z) : Packet :=
  {| AdaptationField := None;
     Header := {| ContinuityCounter := counter; HasAdaptationField := false; HasPayload := true;
       PayloadUnitStartIndicator := start; PID := pid; TransportErrorIndicator := false;
       TransportPriority := false; TransportScramblingControl := 0 |};
     Payload := payload |}.

(** The start of a video PES packet, of which the length is not announced, its
    continuation, and a whole PES packet of 2 bytes of padding. *)
Definition head : Packet := packet_on 0x100 0 true [0; 0; 1; 0xe0; 0; 0; 0x80; 0; 0; 1].
Definition tail : Packet := packet_on 0x100 1 false [2; 3].
Definition whole : Packet := packet_on 0x100 2 true [0; 0; 1; 0xbe; 0; 2; 0xff; 0xff].

Definition calls : list (option programMap * Packet) :=
  [(None, head); (Some newProgramMap, tail); (None, packet_on 0x1fff 7 false []);
   (Some newProgramMap, packet_on 0x101 5 true [1; 2; 3])].

Lemma sound_on pid counter start payload : bytes_ok payload -> sound (packet_on pid counter start payload).
Proof. by split. Qed.
End PoolExample.
Import PoolExample.

Lemma pool_units_witness : Forall (fun c => sound c.2) calls
  /\ exists us b, pool_run iterator calls newPacketPool = Ok (us, b) /\ pool_ok b.
Proof.
  assert (Hs : Forall (fun c => sound c.2) calls).
  { repeat (apply List.Forall_cons; [apply sound_on; by_decide|]).
    apply List.Forall_nil. }
  split; [exact Hs|]. destruct (pool_units iterator calls Hs) as (us & b & E & Hb & _).
  exists us, b. exact (conj E Hb).
Defined.

(** Two packets of one payload and the payload of another PID come out at the end. *)
Example units_dumped : exists b, pool_run iterator calls newPacketPool = Ok ([[]; []; []; []], b)
  /\ (dump_run (size b + 1) b).1 = [[head; tail]; [packet_on 0x101 5 true [1; 2; 3]]; [packet_on 0x1fff 7 false []]].
Proof. eexists. split; vm_compute; reflexivity. Qed.

(** A packet that comes twice, which the format allows, is taken for a discontinuity:
    what precedes it is dropped, and the payload is never given. *)
Example repeated_packet : exists b,
  pool_run iterator [(None, head); (None, tail); (None, tail)] newPacketPool = Ok ([[]; []; []], b)
  /\ queued b 0x100 = [tail].
Proof. eexists. split; vm_compute; reflexivity. Qed.

(** A payload that ends where another one starts is lost when that one is complete
    in its first packet. *)
Example pending_payload : exists b,
  pool_run iterator [(None, head); (None, tail); (None, whole)] newPacketPool = Ok ([[]; []; [whole]], b)
  /\ queued b 0x100 = [].
Proof. eexists. split; vm_compute; reflexivity. Qed.
