(* ===== verification/DemuxSpec.v ===== *)
(** * Calls on the demuxer, one packet at a time

    A demuxer of packets of 188 bytes over bytes in memory: the packets that it
    reads, the round of [NextData] that a complete unit ends, and the first call. *)

From S2P Require Import Prelude Packet Astikit PacketCodec PacketSpec Tables Psi Demuxer PacketPool DataDemuxer PoolSpec.
Local Open Scope Z_scope.

Lemma match_cons {A B} (l l' : list A) x (a b : B) : l = x :: l' ->
  match l with [] => a | _ :: _ => b end = b.
Proof. by intros ->. Qed.

Lemma queued_insert (b : packetPool) k acc pid :
  queued (<[k := acc]> b) pid = if decide (pid = k) then q acc else queued b pid.
Proof.
  unfold queued. case_decide as E; [subst; by rewrite pool_insert_eq|]. by rewrite pool_insert_ne.
Qed.

Section Demux.
Context {I : Type} `{BytesIteratorLaws I} `{Reader bytes_reader}.

(** A demuxer without a parser, between two calls with no data left over; its packet
    buffer is there or still to be made. *)
Record standing (dmx : Demuxer bytes_reader) : Prop := {
  standing_data : dataBuffer dmx = [];
  standing_size : packet_buffer dmx = Some {| packetSize := 188; s := None |}
    \/ packet_buffer dmx = None /\ optPacketSize dmx = 188 /\ optPacketSkipper dmx = None;
  standing_parser : optPacketsParser dmx = None;
  standing_pool : pool_ok (packet_pool dmx);
}.

(** A demuxer in the middle of its work: the programs, the pool and the bytes left. *)
Definition stage (dmx : Demuxer bytes_reader) (pm : programMap) (pool : packetPool) (r : bytes_reader) :
    Demuxer bytes_reader :=
  set_demuxer [] (Some {| packetSize := 188; s := None |}) pool pm r dmx.

Lemma stage_standing dmx pm pool r : standing dmx -> pool_ok pool -> standing (stage dmx pm pool r).
Proof. intros [Hd Hs Hp _] Hok. split; try done. by left. Qed.

(** The next packet, and none at the end. *)
Lemma next_read fuel p r : wire_packet p -> (0 < fuel)%nat ->
  next I (R := bytes_reader) fuel {| packetSize := 188; s := None |} (packet_bytes p ++ r) = (Ok p, r).
Proof.
  intros Hp Hf. destruct fuel as [|fuel]; [lia|]. unfold next, next_packet. cbn [packetSize DataDemuxer.s].
  change (188 <? 0) with false. change (Z.to_nat 188) with 188%nat. cbv beta iota. rewrite iter_S. cbv beta.
  cbn [ReadFull bytes_input]. pose proof (length_packet_bytes p Hp) as Hl.
  rewrite decide_True by (rewrite length_app; lia). rewrite <- Hl, take_app_length, drop_app_length.
  by rewrite (parse_packet_bytes p Hp).
Qed.

Lemma stage_read fuel dmx pm pool p r : wire_packet p -> (0 < fuel)%nat ->
  NextPacket I fuel (stage dmx pm pool (packet_bytes p ++ r)) = (Ok p, stage dmx pm pool r).
Proof.
  intros Hp Hf. unfold NextPacket. rewrite (bind_ok _ _ _ None (stage dmx pm pool (packet_bytes p ++ r))) by done.
  cbv beta iota. erewrite bind_ok by done. rewrite (bind_ok _ _ _ (inl p) (stage dmx pm pool r)); [done|].
  unfold attempt, on_reader. cbn [reader stage set_demuxer]. by rewrite (next_read fuel p r Hp Hf).
Qed.

Lemma stage_end fuel dmx pm pool : (0 < fuel)%nat ->
  NextPacket I fuel (stage dmx pm pool []) = (Fail (Err ErrNoMorePackets), stage dmx pm pool []).
Proof. intros Hf. destruct fuel as [|fuel]; [lia|]. done. Qed.

(** The first call makes the packet buffer. *)
Lemma first_packet dmx fuel : standing dmx ->
  NextPacket I fuel dmx = NextPacket I fuel (stage dmx (program_map dmx) (packet_pool dmx) (reader dmx)).
Proof.
  intros [Hd Hs _ _]. destruct dmx as [db size prs skip pb pool pm r]. cbn in Hd, Hs. subst db.
  destruct Hs as [->|(-> & -> & ->)]; done.
Qed.

Lemma first_round dmx fuel : standing dmx ->
  NextData I (S fuel) dmx
  = iter (S fuel) (data_round I (S fuel)) tt (stage dmx (program_map dmx) (packet_pool dmx) (reader dmx)).
Proof.
  intros Hr. unfold NextData. rewrite bind_unfold. cbn [gets]. rewrite (standing_data _ Hr), !iter_S.
  assert (E : data_round I (S fuel) tt dmx
    = data_round I (S fuel) tt (stage dmx (program_map dmx) (packet_pool dmx) (reader dmx))); [|by rewrite E].
  unfold data_round. rewrite !(bind_unfold (attempt _)). unfold attempt. by rewrite (first_packet dmx).
Qed.

(** Parsing a unit that holds one piece of data. *)
Lemma stage_parse dmx pm pool r unit d : standing dmx -> parse_payload I unit pm [] = Ok [d] ->
  parse_units I unit (stage dmx pm pool r) = (Ok [d], stage dmx pm pool r).
Proof.
  intros Hs E. unfold parse_units, parseData. cbn [stage set_demuxer optPacketsParser program_map].
  by rewrite (standing_parser _ Hs), E.
Qed.

(** A round whose packet the pool keeps. *)
Lemma round_kept fuel dmx pm pool pool' p r : wire_packet p -> (0 < fuel)%nat ->
  addUnlocked I (Some pm) p pool = Ok ([], pool') ->
  data_round I fuel tt (stage dmx pm pool (packet_bytes p ++ r)) = (Ok (inl tt), stage dmx pm pool' r).
Proof.
  intros Hp Hf Ea. unfold data_round.
  rewrite (bind_ok _ _ _ (inl p) (stage dmx pm pool r)) by (unfold attempt; by rewrite stage_read).
  cbv beta iota. rewrite (bind_ok _ _ _ [] (stage dmx pm pool' r)); [done|].
  unfold add_packet. cbn [stage set_demuxer packet_pool program_map]. by rewrite Ea.
Qed.

(** A round whose packet completes a unit: its data is returned, and its programs
    are known from then on. *)
Lemma round_complete fuel dmx pm pool pool' p r unit d : wire_packet p -> (0 < fuel)%nat ->
  standing dmx -> unit <> [] -> addUnlocked I (Some pm) p pool = Ok (unit, pool') ->
  parse_payload I unit pm [] = Ok [d] ->
  data_round I fuel tt (stage dmx pm pool (packet_bytes p ++ r))
  = (Ok (inr d), stage dmx (update_programs pm d) pool' r).
Proof.
  intros Hp Hf Hs Hne Ea Ep. unfold data_round.
  rewrite (bind_ok _ _ _ (inl p) (stage dmx pm pool r)) by (unfold attempt; by rewrite stage_read).
  cbv beta iota. rewrite (bind_ok _ _ _ unit (stage dmx pm pool' r));
    [|unfold add_packet; cbn [stage set_demuxer packet_pool program_map]; by rewrite Ea].
  destruct unit as [|x unit]; [done|].
  rewrite (bind_ok _ _ _ [d] (stage dmx pm pool' r)); [done|]. apply wrap_err_ok. by apply stage_parse.
Qed.

(** A round at the end of the stream, when the pool dumps a unit. *)
Lemma round_dumped fuel dmx pm pool pool' unit d : (0 < fuel)%nat -> standing dmx -> unit <> [] ->
  dumpUnlocked pool = (unit, pool') -> parse_payload I unit pm [] = Ok [d] ->
  data_round I fuel tt (stage dmx pm pool []) = (Ok (inr d), stage dmx (update_programs pm d) pool' []).
Proof.
  intros Hf Hs Hne Ed Ep. unfold data_round.
  rewrite (bind_ok _ _ _ (inr ErrNoMorePackets) (stage dmx pm pool [])) by (unfold attempt; by rewrite stage_end).
  cbv beta iota. rewrite decide_True by done.
  assert (Er : dump_data I (stage dmx pm pool []) = (Ok d, stage dmx (update_programs pm d) pool' []));
    [|by rewrite (bind_ok _ _ _ _ _ Er)].
  unfold dump_data. change (packet_pool (stage dmx pm pool [])) with pool. rewrite Nat.add_1_r, iter_S.
  rewrite bind_unfold. cbn [get]. change (packet_pool (stage dmx pm pool [])) with pool. rewrite Ed.
  erewrite bind_ok by done. change (set_pool pool' (stage dmx pm pool [])) with (stage dmx pm pool' []).
  destruct unit as [|x unit]; [done|].
  rewrite (bind_ok _ _ _ (inl [d]) (stage dmx pm pool' [])); [done|].
  unfold attempt. by rewrite (stage_parse dmx pm pool' [] _ d Hs Ep).
Qed.
End Demux.

(** ** A reader for the examples *)

(** A reader that can neither peek nor seek. *)
#[export] Instance bytes_stream : Reader bytes_reader := {
  Read n := fun bs =>
    if decide (bs = []) then (Fail (Err EOF), []) else (Ok (take n bs), drop n bs);
  Peek := None;
  SeekStart := None;
}.

(** A new demuxer, to which only the packets of the stream are given. *)
Definition new_demuxer (bs : list Z) : Demuxer bytes_reader := NewDemuxer bs [DemuxerOptPacketSize 188].

Lemma new_standing bs : standing (new_demuxer bs).
Proof. split; try done. by right. Qed.
