(* ===== verification/MuxDemux.v ===== *)
(** * What the muxer writes, the demuxer reads

    [NextData] over the packets of a PES packet: the pool keeps them until the
    announced length is there, or the stream ends, and the PES packet that comes out
    is the one that went in. *)

From stdpp Require Import sorting.
From S2P Require Import Prelude DescriptorWrite DescriptorSpec Packet Astikit PacketCodec Codec PacketSpec Descriptor Pmt Tables Psi PesData PesDataSpec SectionSpec PsiPacket Demuxer PacketPool DataDemuxer Safety PoolSpec DemuxSpec Muxer MuxerSpec.
Local Open Scope Z_scope.

Section Demux.
Context {I : Type} `{BytesIteratorLaws I}.

(** ** Complete PES packets *)
Lemma slice_take (l : list Z) n i j : (j <= n)%nat -> slice (take n l) i j = slice l i j.
Proof.
  intros Hn. unfold slice. rewrite skipn_firstn_comm, take_take. f_equal. lia.
Qed.

(** The length announced by the bytes of a packet, as far as they go. *)
Lemma announced_header h size data n : wire_pes h -> 0 <= size -> (6 <= n)%nat ->
  announced (take n (pes_header_bytes h size ++ data)) = pes_packet_length h size.
Proof.
  intros Hw Hs Hn. unfold announced. rewrite slice_take by lia.
  change (slice (pes_header_bytes h size ++ data) 4 6) with (be_bytes 2 (pes_packet_length h size)).
  apply be16_word. by apply packet_length_range.
Qed.

Lemma prefix_payload l : isPESPayload (pes_prefix ++ l) = true.
Proof.
  unfold isPESPayload, pes_prefix. cbn [app length]. by rewrite (proj2 (Z.ltb_ge _ _)) by lia.
Qed.

(** A part of a PES packet is never taken for complete; the whole is, when its
    length is announced. *)
Lemma pes_complete h data ps n : wire_pes h -> bytes_ok data ->
  let bytes := pes_header_bytes h (len data) ++ data in
  payload_of ps = take n bytes -> (6 <= n <= length bytes)%nat ->
  isPESComplete I ps = Ok (negb (pes_packet_length h (len data) =? 0) && (n =? length bytes)%nat).
Proof.
  intros Hw Hd bytes Eps Hn. unfold isPESComplete. rewrite Eps.
  assert (Hs : 0 <= len data) by (unfold len; lia).
  assert (Hb : bytes_ok bytes) by (apply Forall_app; split; [by apply pes_header_ok|done]).
  pose proof (packet_length_range h (len data) Hs) as Hr.
  pose proof (data_end h (len data) Hw Hs) as He. pose proof (len_app (pes_header_bytes h (len data)) data) as Hl.
  fold bytes in Hl. rewrite <- Hl in He.
  set (L := pes_packet_length h (len data)) in *.
  destruct (decide (n = length bytes)) as [->|Hne].
  - rewrite firstn_all, Nat.eqb_refl, andb_true_r.
    assert (G : gives ((Seek 3;; r ← parsePESHeader; n ← gets Len; let '(h, (_, dataEnd)) := r in
        mret (if PacketLength h =? 0 then false else dataEnd <=? n)) (NewBytesIterator (I := I) bytes)) bytes
      (negb (L =? 0)) (len (pes_header_bytes h (len data)))).
    { eapply gives_seek; [apply at_new|]. intros i Hi.
      destruct (read_pes_header h data i Hw Hi) as (i' & E & Hi'). rewrite (bind_ok _ _ _ _ _ E).
      eapply gives_len; [exact Hi'|]. exists i'. split; [|exact Hi']. cbn [sealed_pes PacketLength]. fold L.
      rewrite <- Hl. destruct (L =? 0); [done|]. by rewrite Z.leb_refl. }
    destruct G as (i' & -> & _). done.
  - rewrite (proj2 (Nat.eqb_neq _ _)), andb_false_r by done. set (part := take n bytes).
    assert (Hp : bytes_ok part) by by apply Forall_take.
    assert (Hpl : length part = n) by (subst part; rewrite length_take; lia).
    apply (catch_value I).
    do 2 from_step. apply from_bind. eapply from_weaken; [by apply safe_pes_header|].
    intros [h' [s e]] o' (_ & EL & _ & Ee). cbv beta.
    assert (Ea : announced part = L) by (subst part bytes L; apply announced_header; done || lia).
    rewrite Ea in EL, Ee. do 2 from_step. cbv beta iota. apply from_ret. rewrite EL.
    destruct (Z.eqb_spec L 0); [done|]. rewrite (proj2 (Z.ltb_lt _ _)) in Ee, He by lia.
    apply Z.leb_gt. rewrite Ee, He, Hpl. unfold len. lia.
Qed.

(** ** One packet more *)
Definition next_counter (v : Z) : Z := if v <=? 14 then v + 1 else 0.

Lemma counter_step v : 0 <= v <= 15 -> Z.land (u8 (v + 1)) 0x0f = next_counter v /\ next_counter v <> v.
Proof.
  intros Hv. rewrite u8_small by lia. unfold next_counter. rewrite (land_low _ 4) by done. change (2 ^ 4) with 16.
  destruct (Z.leb_spec v 14); [rewrite Z.mod_small by lia; lia|]. assert (v = 15) as -> by lia. done.
Qed.

Lemma counters_range c n k v : counters_after c n !! k = Some v -> 0 <= v <= 15.
Proof. intros ->%counters_lookup. match goal with |- 0 <= ?x mod 16 <= _ => pose proof (Z.mod_pos_bound x 16 ltac:(lia)) end. lia. Qed.

Lemma counters_next c n k v v' : counters_after c n !! k = Some v ->
  counters_after c n !! S k = Some v' -> v' = next_counter v.
Proof.
  intros ->%counters_lookup ->%counters_lookup. generalize (if value c <=? 14 then value c + 1 else 0). intros a.
  rewrite Nat2Z.inj_succ, <- Z.add_1_r, Z.add_assoc, <- Z.add_mod_idemp_l by done.
  set (x := (a + Z.of_nat k) mod 16). assert (0 <= x < 16) by (by apply Z.mod_pos_bound).
  unfold next_counter. destruct (Z.leb_spec x 14); [apply Z.mod_small; lia|]. by assert (x = 15) as -> by lia.
Qed.

(** The packet that follows the queue of its PID. *)
Lemma add_piece pm pid qs p b complete : pool_ok b -> queued b pid = qs -> of_pid pid p ->
  isPSIPayload pid pm = false ->
  match list.last qs with
  | Some l => 0 <= ContinuityCounter (Header l) <= 15
      /\ ContinuityCounter (Header p) = next_counter (ContinuityCounter (Header l))
      /\ PayloadUnitStartIndicator (Header p) = false
  | None => True
  end ->
  match qs ++ [p] with first :: _ => isPESPayload (Payload first) = true | [] => False end ->
  isPESComplete I (qs ++ [p]) = Ok complete ->
  addUnlocked I (Some pm) p b =
    Ok (if complete then qs ++ [p] else [],
        <[pid := {| acc_pid := pid; q := if complete then [] else qs ++ [p] |}]> b).
Proof.
  intros Hb Hq (Hpid & Hpay & Herr & Hs & _) Hpsi Hl Hfirst Hc. unfold addUnlocked.
  rewrite Herr, Hpay, Hpid. cbn [negb].
  set (acc := default (newPacketAccumulator pid) (b !! pid)).
  assert (Hacc : acc_pid acc = pid /\ q acc = qs).
  { subst acc. unfold queued in Hq. destruct (b !! pid) as [a|] eqn:E; cbn [default from_option id]; [|by split].
    destruct (Hb pid a E). by split. }
  destruct Hacc as [Ep Eq]. unfold add. rewrite Eq.
  assert (Hdis : hasDiscontinuity qs p = Ok false /\ isSameAsPrevious qs p = false).
  { unfold hasDiscontinuity, isSameAsPrevious. rewrite Hpay. destruct (list.last qs) as [l|].
    - destruct Hl as (Hr & Hn & _). destruct (counter_step _ Hr) as [Es Hne]. rewrite Es, Hn, Z.eqb_refl.
      rewrite (proj2 (Z.eqb_neq (next_counter _) _)) by done. split; [|done].
      destruct (_ =? PIDNull); [done|].
      destruct (HasAdaptationField (Header p)); [|done]. destruct (Hs eq_refl) as [a ->]. cbn [mbind outcome_bind].
      by destruct (DiscontinuityIndicator a).
    - split; [|done]. destruct (_ =? PIDNull); [done|].
      destruct (HasAdaptationField (Header p)); [|done]. destruct (Hs eq_refl) as [a ->]. cbn [mbind outcome_bind].
      by destruct (DiscontinuityIndicator a). }
  destruct Hdis as [-> Hsame]. cbn [mbind outcome_bind]. rewrite Hsame.
  assert (E : (if PayloadUnitStartIndicator (Header p) then (qs, []) else ([], qs)) = ([], qs)).
  { destruct (list.last qs) as [l|] eqn:El; [by destruct Hl as (_ & _ & ->)|].
    apply last_None in El as ->. by destruct (PayloadUnitStartIndicator _). }
  rewrite E. unfold isPSIPayload in Hpsi. rewrite !orb_false_iff in Hpsi. destruct Hpsi as ((Hp0 & Hp1) & _).
  rewrite Ep, Hp0, Hp1. cbn [orb mbind outcome_bind].
  destruct (qs ++ [p]) as [|first l] eqn:Eqs; [done|]. rewrite Hfirst, Hc. cbn [mbind outcome_bind].
  by destruct complete; unfold set_q; rewrite Ep.
Qed.

(** ** A PES packet in pieces *)
Section Pieces.
Context (c : wrappingCounter) (pid : Z) (own : option PacketAdaptationField) (h : PESHeader) (data : list Z).
Context (ps : list Packet) (pm : programMap).
Let bytes : list Z := pes_header_bytes h (len data) ++ data.
Hypothesis (Hm : muxed c pid own bytes ps) (Hh : wire_pes h) (Hd : bytes_ok data).
Hypothesis (Hpsi : isPSIPayload pid pm = false) (Hcat : pid <> PIDCAT).

Definition received : list Packet := laid <$> ps.

Lemma received_payload : payload_of received = bytes.
Proof.
  rewrite <- (muxed_payload _ _ _ _ _ Hm). unfold received, payload_of. clear Hm.
  induction ps as [|p l IH]; [done|]. by rewrite fmap_cons, !bind_cons, IH.
Qed.

Lemma received_at k p : received !! k = Some p ->
  exists x, p = laid x /\ ps !! k = Some x /\ of_pid pid p /\ Payload p <> [].
Proof.
  unfold received. rewrite list_lookup_fmap. intros (x & Ex & ->)%fmap_Some. exists x. split_and!; try done.
  - destruct (proj1 (Forall_lookup _ _) (muxed_pid _ _ _ _ _ Hm) _ _ Ex) as (Hp & Hy & He).
    pose proof (proj1 (Forall_lookup _ _) (muxed_wire _ _ _ _ _ Hm) _ _ Ex) as (_ & Hf & _ & Hb & _).
    split_and!; [done..|]. split; [|exact Hb]. cbn in Hf |- *. rewrite Hf. by intros ?%bool_decide_eq_true.
  - exact (proj1 (Forall_lookup _ _) (muxed_full _ _ _ _ _ Hm) _ _ Ex).
Qed.

(** The first [k] packets hold the first bytes: six at least, and all of them only
    when all the packets are there. *)
Definition held (k : nat) : nat := length (payload_of (take k received)).

Lemma held_bytes k : payload_of (take k received) = take (held k) bytes.
Proof.
  unfold held. rewrite <- received_payload. rewrite <- (take_drop k received) at 3. unfold payload_of.
  by rewrite bind_app, take_app_length.
Qed.

Lemma length_received : length received = length ps.
Proof. apply length_fmap. Qed.

Lemma held_range k : (k < length ps)%nat ->
  (6 <= held (S k) <= length bytes)%nat /\ (held (S k) =? length bytes)%nat = (S k =? length ps)%nat.
Proof.
  intros Hk. pose proof length_received as Hl. unfold held. rewrite <- received_payload.
  assert (Hp : length (payload_of received)
    = (length (payload_of (take (S k) received)) + length (payload_of (drop (S k) received)))%nat).
  { rewrite <- (take_drop (S k) received) at 1. unfold payload_of. by rewrite bind_app, length_app. }
  split; [split; [|lia]|].
  - pose proof (muxed_head _ _ _ _ _ Hm) as Hh6. unfold received. destruct ps as [|p l]; [done|].
    rewrite fmap_cons. cbn [take]. unfold payload_of. rewrite bind_cons, length_app.
    change (Payload (laid p)) with (Payload p). unfold len in Hh6. lia.
  - destruct (Nat.eqb_spec (S k) (length ps)) as [E|Hne]; apply Nat.eqb_eq || apply Nat.eqb_neq.
    + rewrite Hp, drop_ge by lia. cbn. lia.
    + destruct (lookup_lt_is_Some_2 received (S k)) as [p Ep]; [lia|].
      destruct (received_at _ _ Ep) as (_ & _ & _ & _ & Hne').
      rewrite (drop_S _ _ _ Ep) in Hp. unfold payload_of at 3 in Hp. rewrite bind_cons, length_app in Hp.
      destruct (Payload p); [done|]. cbn [length] in Hp. lia.
Qed.

(** The unit is complete when its last packet comes, if its length is announced. *)
Lemma received_complete k : (k < length ps)%nat ->
  isPESComplete I (take (S k) received)
  = Ok (negb (pes_packet_length h (len data) =? 0) && (S k =? length ps)%nat).
Proof.
  intros Hk. destruct (held_range k Hk) as [Hr <-]. by apply pes_complete; [..|apply held_bytes|].
Qed.

Lemma received_first : match received with p :: _ => isPESPayload (Payload p) = true | [] => False end.
Proof.
  pose proof (muxed_head _ _ _ _ _ Hm) as Hh6. pose proof received_payload as Hp. unfold received in *.
  destruct ps as [|p l]; [done|]. rewrite fmap_cons in *. change (Payload (laid p)) with (Payload p) in *.
  unfold payload_of in Hp. rewrite bind_cons in Hp. change (Payload (laid p)) with (Payload p) in Hp.
  unfold bytes, pes_header_bytes in Hp. rewrite <- !app_assoc in Hp.
  unfold len in Hh6. destruct (Payload p) as [|x [|y [|z w]]]; cbn [length] in Hh6; try lia.
  injection Hp as -> -> -> _. apply prefix_payload.
Qed.

Lemma received_counters k l p : received !! k = Some l -> received !! S k = Some p ->
  0 <= ContinuityCounter (Header l) <= 15
  /\ ContinuityCounter (Header p) = next_counter (ContinuityCounter (Header l))
  /\ PayloadUnitStartIndicator (Header p) = false.
Proof.
  intros (x & -> & Ex & _)%received_at (y & -> & Ey & _)%received_at.
  change (ContinuityCounter (Header (laid x))) with (ContinuityCounter (Header x)).
  change (ContinuityCounter (Header (laid y))) with (ContinuityCounter (Header y)).
  change (PayloadUnitStartIndicator (Header (laid y))) with (PayloadUnitStartIndicator (Header y)).
  assert (Cx : counters_after c (length ps) !! k = Some (ContinuityCounter (Header x)))
    by (rewrite <- (muxed_counters _ _ _ _ _ Hm), list_lookup_fmap, Ex; done).
  assert (Cy : counters_after c (length ps) !! S k = Some (ContinuityCounter (Header y)))
    by (rewrite <- (muxed_counters _ _ _ _ _ Hm), list_lookup_fmap, Ey; done).
  split; [by eapply counters_range|]. split; [by eapply counters_next|].
  assert (Sy : (true :: replicate (length ps - 1) false) !! S k = Some (PayloadUnitStartIndicator (Header y)))
    by (rewrite <- (muxed_start _ _ _ _ _ Hm), list_lookup_fmap, Ey; done).
  apply lookup_replicate in Sy as [-> _]. done.
Qed.

(** What the pool makes of the packet at [k]. *)
Lemma add_received b k p : received !! k = Some p -> pool_ok b -> queued b pid = take k received ->
  let complete := negb (pes_packet_length h (len data) =? 0) && (S k =? length ps)%nat in
  let unit := take (S k) received in
  addUnlocked I (Some pm) p b =
    Ok (if complete then unit else [], <[pid := {| acc_pid := pid; q := if complete then [] else unit |}]> b).
Proof.
  intros Ep Hb Hq complete unit. destruct (received_at _ _ Ep) as (_ & _ & _ & Hof & _).
  assert (Eu : unit = take k received ++ [p]) by (subst unit; by apply take_S_r).
  assert (Hk : (k < length ps)%nat) by (rewrite <- length_received; by eapply lookup_lt_Some).
  rewrite Eu. apply add_piece; try done.
  - destruct k as [|k]; [done|]. destruct (lookup_lt_is_Some_2 received k) as [l El]; [rewrite length_received; lia|].
    rewrite (take_S_r _ _ _ El), last_snoc. by apply (received_counters k).
  - rewrite <- Eu. subst unit. pose proof received_first as Hf. by destruct received.
  - rewrite <- Eu. subst unit complete. by apply received_complete.
Qed.
End Pieces.

(** ** The demuxer *)
Context `{Reader bytes_reader}.

(** A demuxer that holds no packet of [pid], whose payload it takes for a PES packet. *)
Record ready (pid : Z) (dmx : Demuxer bytes_reader) : Prop := {
  ready_standing : standing dmx;
  ready_idle : queued (packet_pool dmx) pid = [];
  ready_pid : isPSIPayload pid (program_map dmx) = false /\ pid <> PIDCAT;
}.

(** What comes out. *)
Definition pes_result (pid : Z) (first : Packet) (x : PESData) : DemuxerData :=
  {| data_EIT := None; FirstPacket := with_payload [] first; data_NIT := None; data_PAT := None;
     data_PES := Some x; data_PID := pid; data_PMT := None; data_SDT := None; data_TOT := None |}.

Section Loop.
Context (c : wrappingCounter) (pid : Z) (own : option PacketAdaptationField) (h : PESHeader) (data : list Z).
Context (ps : list Packet) (dmx : Demuxer bytes_reader) (fuel : nat).
Hypothesis (Hm : muxed c pid own (pes_header_bytes h (len data) ++ data) ps).
Hypothesis (Hh : wire_pes h) (Hd : bytes_ok data) (Hdmx : ready pid dmx) (Hfuel : (0 < fuel)%nat).

Let units := received ps.
Let pes := {| pes_Data := data; pes_Header := sealed_pes h (len data) |}.

Lemma parse_received first rest : units = first :: rest ->
  parse_payload I units (program_map dmx) [] = Ok [pes_result pid first pes].
Proof.
  intros E. unfold parse_payload. rewrite E, <- E. destruct (ready_pid _ _ Hdmx) as [Hpsi Hcat].
  assert (Ep : PID (Header first) = pid).
  { destruct (received_at c pid own h data ps Hm 0 first) as (_ & _ & _ & (Hp & _) & _); [|done].
    fold units. by rewrite E. }
  rewrite Ep, (proj2 (Z.eqb_neq _ _) Hcat), Hpsi.
  replace (payload_of units) with (pes_header_bytes h (len data) ++ data)
    by (symmetry; by eapply received_payload).
  cbv zeta. rewrite (parse_pes_data h data Hh). unfold pes_header_bytes. by rewrite <- app_assoc, prefix_payload.
Qed.

(** The packets of the other PIDs stay where they are, and none of [pid] is left. *)
Definition as_before (b : packetPool) : Prop :=
  pool_ok b /\ forall pid', queued b pid' = queued (packet_pool dmx) pid'.

(** The unit is dumped at the end of the stream. *)
Lemma dumped_unit b first rest : units = first :: rest -> pool_ok b -> queued b pid = units ->
  (forall pid', pid' <> pid -> queued b pid' = []) ->
  (forall pid', queued (packet_pool dmx) pid' = []) ->
  exists b', data_round I fuel tt (stage dmx (program_map dmx) b [])
      = (Ok (inr (pes_result pid first pes)), stage dmx (program_map dmx) b' [])
    /\ as_before b'.
Proof.
  intros E Hb Hq Hother Hidle.
  pose proof (dumpUnlocked_spec b Hb) as Hdump. destruct (dumpUnlocked b) as [us b'] eqn:Ed.
  destruct Hdump as [Hb' Hdump]. exists b'.
  assert (Hus : us = units /\ forall pid', queued b' pid' = []).
  { destruct us as [|u us].
    - destruct (Hdump pid) as [He _]. rewrite Hq, E in He. done.
    - destruct Hdump as (k & Ek & _ & _ & Hs). destruct (decide (k = pid)) as [->|Hne].
      + rewrite Ek. split; [done|]. intros pid'. rewrite Hs. case_decide; [done|]. by apply Hother.
      + by rewrite Hother in Ek. }
  destruct Hus as [-> He]. split; [|split; [done|]; intros pid'; by rewrite He, Hidle].
  apply (round_dumped fuel dmx (program_map dmx) b b' units (pes_result pid first pes)); try done; [by apply ready_standing with pid|by rewrite E|].
  by apply (parse_received first rest).
Qed.

(** The packet at [k], when [k] packets are there. *)
Lemma round_at k p b r first rest : units !! k = Some p -> units = first :: rest -> pool_ok b ->
  queued b pid = take k units ->
  let complete := negb (pes_packet_length h (len data) =? 0) && (S k =? length ps)%nat in
  let b' := <[pid := {| acc_pid := pid; q := if complete then [] else take (S k) units |}]> b in
  pool_ok b' /\ data_round I fuel tt (stage dmx (program_map dmx) b (packet_bytes p ++ r))
    = (Ok (if complete then inr (pes_result pid first pes) else inl tt), stage dmx (program_map dmx) b' r).
Proof.
  intros Ep E Hb Hq complete b'. destruct (ready_pid _ _ Hdmx) as [Hpsi _].
  destruct (received_at c pid own h data ps Hm k p Ep) as (x & Ex & Ex' & Hof & _).
  assert (Hw : wire_packet p) by (rewrite Ex; exact (proj1 (Forall_lookup _ _) (muxed_wire _ _ _ _ _ Hm) _ _ Ex')).
  pose proof (add_received c pid own h data ps (program_map dmx) Hm Hh Hd Hpsi b k p Ep Hb Hq) as Ea.
  cbv zeta in Ea. fold units complete b' in Ea.
  destruct (addUnlocked_spec I (Some (program_map dmx)) p b Hb) as (ps' & b1 & Ea' & Hb1 & _).
  { by destruct Hof as (_ & _ & _ & ?). }
  rewrite Ea in Ea'. injection Ea' as _ <-. split; [done|].
  destruct complete eqn:Ec; [|by apply round_kept].
  apply andb_true_iff in Ec as [_ Ek%Nat.eqb_eq].
  assert (Et : take (S k) units = units) by (apply take_ge; subst units; rewrite length_received; lia).
  rewrite Et in Ea. apply (round_complete fuel dmx (program_map dmx) b b' p r units (pes_result pid first pes)); try done.
  - by apply ready_standing with pid.
  - by rewrite E.
  - by apply (parse_received first rest).
Qed.

Lemma rounds first rest r n : units = first :: rest ->
  (pes_packet_length h (len data) = 0 -> r = [] /\ forall pid', queued (packet_pool dmx) pid' = []) ->
  forall k m b, (k + n = length ps)%nat -> (n = 0%nat -> pes_packet_length h (len data) = 0) -> (n < m)%nat ->
  pool_ok b -> queued b pid = take k units ->
  (forall pid', pid' <> pid -> queued b pid' = queued (packet_pool dmx) pid') ->
  exists b', iter m (data_round I fuel) tt (stage dmx (program_map dmx) b (wire_bytes (drop k ps) ++ r))
      = (Ok (pes_result pid first pes), stage dmx (program_map dmx) b' r) /\ as_before b'.
Proof.
  intros E Hzero. pose proof (length_received ps) as Hl. fold units in Hl.
  induction n as [|n IH]; intros k m b Hk Hn Hm0 Hb Hq Hother; (destruct m as [|m]; [lia|]); rewrite iter_S.
  - destruct (Hzero (Hn eq_refl)) as [-> Hidle]. rewrite drop_ge by lia. rewrite take_ge in Hq by lia.
    destruct (dumped_unit b first rest E Hb Hq) as (b' & Er & Ho); [|done|].
    { intros pid' Hne. by rewrite Hother. }
    exists b'. split; [|done]. change (wire_bytes [] ++ []) with ([] : list Z). by rewrite Er.
  - destruct (lookup_lt_is_Some_2 units k) as [p Ep]; [lia|].
    destruct (received_at c pid own h data ps Hm k p Ep) as (x & Ex & Ex' & _ & _).
    rewrite (drop_S _ _ _ Ex'). unfold wire_bytes. rewrite bind_cons, <- Ex, <- app_assoc. fold (wire_bytes (drop (S k) ps)).
    destruct (round_at k p b (wire_bytes (drop (S k) ps) ++ r) first rest Ep E Hb Hq) as [Hb' Er].
    set (complete := negb _ && _) in *. set (acc := {| acc_pid := pid; q := _ |}) in *. rewrite Er.
    assert (Ho : forall pid', pid' <> pid -> queued (<[pid := acc]> b) pid' = queued (packet_pool dmx) pid').
    { intros pid' Hne. rewrite queued_insert, decide_False by done. by apply Hother. }
    pose proof (queued_insert b pid acc pid) as Hqi. rewrite decide_True in Hqi by done.
    destruct complete eqn:Ec; subst complete acc; cbn [q] in Hqi.
    + apply andb_true_iff in Ec as [_ Ek%Nat.eqb_eq]. rewrite Ek, drop_all. eexists. split; [done|].
      split; [exact Hb'|]. intros pid'. destruct (decide (pid' = pid)) as [->|Hne]; [|by apply Ho].
      by rewrite Hqi, (ready_idle _ _ Hdmx).
    + apply IH; try done; [lia| |lia]. intros ->. rewrite (proj2 (Nat.eqb_eq _ _)), andb_true_r in Ec by lia.
      by apply negb_false_iff, Z.eqb_eq in Ec.
Qed.
End Loop.

Lemma len_wire ps : Forall (fun p => wire_packet (laid p)) ps -> length (wire_bytes ps) = (188 * length ps)%nat.
Proof.
  intros Hp. unfold wire_bytes. induction Hp as [|p ps Hp _ IH]; [done|].
  rewrite bind_cons, length_app, IH, length_packet_bytes by done. cbn [length]. lia.
Qed.

(** C39: the bytes that [WriteData] writes for a PES packet, read by a demuxer, give
    the data and the header, sealed with its lengths, as one unit of its PID; the
    reader stands right after them, and the packets kept for other PIDs are as before.
    A packet of which the length is not announced ends with the stream only. *)
Theorem mux_demux {B} `{BufferWriterLaws B} {W} `{ReliableWriter W} `{IOWriter W} visit
    d (m : Muxer W) ctx fuel n0 m0 pre c :
  mux_data_ok d m ctx -> (length (pes_Data (mux_PES d)) + 1 < fuel)%nat ->
  retransmitTables (B := B) visit (forced d m) m = (Ok n0, m0) -> written (out m0) pre c ->
  let h := pes_Header (mux_PES (with_id m d)) in
  let data := pes_Data (mux_PES d) in
  exists l m', WriteData (B := B) visit fuel (d, m) = (Ok (n0 + len l), (with_id m d, m'))
    /\ written (out m') (pre ++ byte_bits l) c
    /\ forall dmx r, ready (mux_PID d) dmx -> reader dmx = l ++ r ->
         (pes_packet_length h (len data) = 0 ->
            r = [] /\ forall pid, queued (packet_pool dmx) pid = []) ->
         exists first dmx',
           NextData I (length l + 1) dmx
             = (Ok (pes_result (mux_PID d) first
                      {| pes_Data := data; pes_Header := sealed_pes h (len data) |}), dmx')
           /\ ready (mux_PID d) dmx' /\ reader dmx' = r
           /\ forall pid, queued (packet_pool dmx') pid = queued (packet_pool dmx) pid.
Proof.
  intros Hok Hfuel Hret Hw h data.
  destruct (WriteData_run visit d m ctx fuel n0 m0 pre c Hok Hfuel Hret Hw) as (ps & w' & E & Hw' & Hm).
  fold h data in Hm. destruct Hok as [_ _ Hh _ _ [Hb _] _]. fold h data in Hh, Hb.
  pose proof (len_wire ps (muxed_wire _ _ _ _ _ Hm)) as Hl.
  exists (wire_bytes ps). eexists. split; [rewrite E; unfold len; rewrite Hl; do 3 f_equal; lia|].
  split; [exact Hw'|]. intros dmx r Hr Er Hz.
  pose proof (received_first _ _ _ _ _ ps Hm) as Hf.
  destruct (received ps) as [|first rest] eqn:Eu; [done|]. clear Hf. rewrite Nat.add_1_r in *.
  destruct (rounds (cc ctx) (mux_PID d) (mux_AdaptationField d) h data ps dmx (S (length (wire_bytes ps)))
    Hm Hh Hb Hr ltac:(lia) first rest r (length ps) Eu Hz 0 (S (length (wire_bytes ps))) (packet_pool dmx))
    as (b' & En & Hb' & Hq); [done| |lia|exact (standing_pool _ (ready_standing _ _ Hr))|exact (ready_idle _ _ Hr)|done|].
  { intros E0. apply (f_equal length) in Eu. rewrite length_received, E0 in Eu. done. }
  exists first. eexists. split; [rewrite first_round, Er by apply Hr; exact En|].
  split; [|split; [done|exact Hq]].
  destruct Hr as [Hs Hi Hpid]. split; [by apply stage_standing|by rewrite <- Hi|done].
Qed.
End Demux.

(** ** Witness *)
Import Reference MuxerExample.

Lemma new_ready pid bs : 0x20 <= pid -> ready pid (new_demuxer bs).
Proof.
  intros Hp. split; [apply new_standing|done|].
  - split; [|unfold PIDCAT; lia]. unfold isPSIPayload, existsUnlocked, PIDPAT.
    rewrite (proj2 (Z.eqb_neq pid _)), (proj2 (Z.leb_gt pid 0x14)), (proj2 (Z.leb_gt pid 0x1f)), !andb_false_r by lia.
    done.
Qed.

Lemma mux_demux_witness : mux_data_ok audio muxer context
  /\ exists l w' first dmx',
       WriteData (B := bits) (W := bits) map_to_list 302 (audio, muxer) = (Ok (376 + len l), w')
       /\ NextData iterator (length l + 1) (new_demuxer l)
          = (Ok (pes_result 0x101 first
                   {| pes_Data := replicate 300 0x5A;
                      pes_Header := sealed_pes (pes_Header (mux_PES (with_id muxer audio))) 300 |}), dmx')
       /\ reader dmx' = [].
Proof.
  split; [exact audio_ok|].
  destruct (mux_demux (I := iterator) (B := bits) (W := bits) map_to_list audio muxer context 302 376 ready_muxer _ _
    audio_ok ltac:(by_decide) tables_written (written_bits _))
    as (l & m' & E & _ & Hl).
  destruct (Hl (new_demuxer l) []) as (first & dmx' & En & _ & Er & _).
  - by apply new_ready.
  - by rewrite app_nil_r.
  - intros E0. vm_compute in E0. discriminate E0.
  - exists l, (with_id muxer audio, m'), first, dmx'. split; [exact E|]. split; [exact En|exact Er].
Defined.
