(* ===== verification/MuxTables.v ===== *)
(** * The tables that the muxer writes, and the demuxer reads

    [WriteTables] writes a packet for the PAT and one for the PMT.  A demuxer that
    reads the two packets gives the programs and then the elementary streams of the
    muxer: it learns from the PAT where the PMT is. *)

From S2P Require Import Prelude DescriptorWrite DescriptorSpec DescriptorRoundTrip Packet Astikit PacketCodec Codec PacketSpec Descriptor Pmt Crc32 Tables Psi PesData PesDataSpec SectionSpec PsiPacket Demuxer PacketPool DataDemuxer Safety PoolSpec DemuxSpec Muxer MuxerSpec.
Local Open Scope Z_scope.

(** A write to the output itself, between two bytes and without a callback. *)
Class IOWriterLaws (W : Type) `{ReliableWriter W} `{!IOWriter W} := {
  io_written l w pre : bytes_ok l -> (length pre mod 8 = 0)%nat -> written w pre None ->
    exists w', io_Write l w = (Ok (len l), w') /\ written w' (pre ++ byte_bits l) None;
}.

(** The packet of a table on the wire: the pointer field, the section and filler. *)
Definition filler (s : PSISection) : nat := 184 - S (length (section_bytes s)).
Definition section_payload (s : PSISection) : list Z := [0] ++ section_bytes s ++ replicate (filler s) 0xff.
Definition sent (pid counter : Z) (s : PSISection) : Packet := table_packet pid counter (section_payload s).

Lemma sent_wire pid counter s : wire_section s -> len (section_bytes s) < 184 -> 0 <= pid < 2 ^ 13 ->
  0 <= counter < 16 -> wire_packet (sent pid counter s).
Proof.
  intros Hs Hl Hp Hc. split_and!.
  - split; cbn; rewrite ?u8_small by lia; lia.
  - done.
  - done.
  - by apply section_payload_ok.
  - change (length (section_payload s) = 184%nat). unfold section_payload, len, filler in *.
    rewrite !length_app, length_replicate. cbn [length]. lia.
Qed.

Section Writing.
Context {B : Type} `{BufferWriterLaws B} {W : Type} `{IOWriterLaws W}.
Context (visit : programMap -> list (Z * Z)).

(** ** A table *)
Lemma writes_pointer : writes (W := B) (with_batch (
    BWrite (WUint8 (u8 0));;
    for_each (fun _ => BWrite (WUint8 0x00)) (seq 0 (Z.to_nat 0));;
    batch_result tt)) (byte_bits [0]) tt.
Proof.
  eapply writes_eq; [apply writes_with_batch|..].
  - eapply bwrites_bind; [write_call|]. eapply bwrites_bind; [apply bwrites_ret|write_call].
  - by rewrite !app_nil_r.
  - done.
Qed.

Lemma run_psi s : wire_section s ->
  run_buffer (B := B) (writePSIData {| PointerField := 0; Sections := [s] |})
  = (Ok (1 + 0 + (len (section_bytes s) + 0)), 0 :: section_bytes s).
Proof.
  intros Hs. unfold run_buffer, writePSIData. cbn [PointerField Sections write_sections].
  destruct (writes_pointer _ [] None buffer_new) as (w1 & E1 & Hw1).
  rewrite (bind_ok _ _ _ _ _ E1). cbn [app] in Hw1.
  destruct (writes_section s w1 _ _ Hs (aligned [0]) Hw1) as (w2 & E2 & Hw2).
  rewrite bind_assoc, (bind_ok _ _ _ _ _ E2), !bind_unfold. cbn [mret M_ret]. f_equal.
  rewrite <- byte_bits_app in Hw2. rewrite (buffer_bytes _ _ _ Hw2) by apply aligned.
  apply byte_bits_bytes. constructor; [done|by apply section_bytes_ok].
Qed.

Lemma run_packet pid counter s : wire_section s -> len (section_bytes s) < 184 -> 0 <= pid < 2 ^ 13 ->
  0 <= counter < 16 ->
  run_buffer (B := B) (writePacket (table_packet pid counter (0 :: section_bytes s)) MpegTsPacketSize)
  = (Ok MpegTsPacketSize, packet_bytes (sent pid counter s)).
Proof.
  intros Hs Hl Hp Hc. pose proof (sent_wire pid counter s Hs Hl Hp Hc) as Hw.
  apply run_buffer_bytes; [by apply packet_bytes_ok|].
  assert (E : packet_bytes (sent pid counter s) = packet_bytes (table_packet pid counter (0 :: section_bytes s))).
  { unfold packet_bytes, sent, section_payload, filler, packet_af, len in *.
    cbn [table_packet AdaptationField Payload Header length app].
    rewrite length_app, length_replicate.
    replace (184 - 0 - S (_ + _))%nat with 0%nat by lia. cbn [replicate]. rewrite app_nil_r.
    by do 5 f_equal. }
  rewrite E. apply writes_fitting; try done. unfold len in Hl.
  change (0 + S (length (section_bytes s)) <= 184)%nat. lia.
Qed.

Lemma generate_run s pid t : wire_section s -> len (section_bytes s) < 184 -> 0 <= pid < 2 ^ 13 ->
  counter_ok 15 (table_cc t) ->
  let c := inc (table_cc t) in
  generate (B := B) s pid t
  = (Ok tt, set_updated false (set_bytes (packet_bytes (sent pid (value c) s)) (set_cc c t))).
Proof.
  intros Hs Hl Hp Hc c. destruct (inc_counter 15 (table_cc t) ltac:(lia) Hc) as (_ & Hv & _).
  unfold generate. rewrite run_psi by done. cbn [set_cc table_cc].
  by rewrite run_packet by (done || (subst c; lia)).
Qed.

(** ** Both tables *)
Definition table_ok (t : table) : Prop :=
  counter_ok 15 (table_cc t) /\ counter_ok 31 (version t)
  /\ (updated t = true \/ value (version t) <= 31).

Lemma next_version_ok t : table_ok t ->
  counter_ok 31 (version (next_version t)) /\ 0 <= value (version (next_version t)) <= 31.
Proof.
  intros (_ & Hv & Hu). unfold next_version. destruct (updated t).
  - destruct (inc_counter 31 (version t) ltac:(lia) Hv) as (Hi & Hr & _). by split.
  - destruct Hu as [?|Hu]; [done|]. pose proof Hv as [_ Hr]. split; [done|lia].
Qed.

(** The table after its packet [l] has been made. *)
Definition written_table (l : list Z) (t : table) : table :=
  set_updated false (set_bytes l (set_cc (inc (table_cc t)) (next_version t))).

Lemma written_table_ok l t : table_ok t -> table_ok (written_table l t).
Proof.
  intros Ht. destruct (next_version_ok t Ht) as [Hv Hr]. destruct Ht as (Hc & _ & _).
  split; [by apply inc_counter|]. split; [exact Hv|right; exact (proj2 Hr)].
Qed.

Section Muxing.
Context (m : Muxer W).

Definition announced_pat : PATData :=
  {| Programs := Programs (toPATDataUnlocked visit (pm m)); pat_TransportStreamID := transportStreamID m |}.

Definition pat_section : PSISection :=
  table_section PSITableIDPAT (transportStreamID m) (value (version (next_version (pat_table m))))
    (calcPATSectionLength announced_pat) (only (Some announced_pat) None).
Definition pmt_section : PSISection :=
  table_section PSITableIDPMT (ProgramNumber (pmt m)) (value (version (next_version (pmt_table m))))
    (calcPMTSectionLength (pmt m)) (only None (Some (pmt m))).

(** What [WriteTables] needs: tables that fit a packet each, and a stream for the
    clock. *)
Record tables_ok : Prop := {
  ok_pat_table : table_ok (pat_table m);
  ok_pmt_table : table_ok (pmt_table m);
  ok_ids : 0 <= transportStreamID m < 2 ^ 16 /\ 0 <= ProgramNumber (pmt m) < 2 ^ 16;
  ok_pat : wire_pat announced_pat /\ Programs announced_pat <> [] /\ len (pat_bytes announced_pat) <= 171;
  ok_pmt : wire_pmt (pmt m) /\ bytes_ok (pmt_bytes (pmt m)) /\ len (pmt_bytes (pmt m)) <= 171;
  ok_clock : has_pid (PCRPID (pmt m)) (ElementaryStreams (pmt m)) = true;
  ok_pmt_pid : PIDCAT < pmtPID m < 2 ^ 13;
}.

Lemma pat_bytes_ok d : bytes_ok (pat_bytes d).
Proof.
  unfold pat_bytes. induction (Programs d) as [|p l IH]; [constructor|]. rewrite bind_cons.
  apply Forall_app. split; [|done]. apply Forall_app. split; apply bytes_of_bits_ok.
Qed.

(** A section of the muxer has a wire format. *)
Lemma table_wire t ext v n d : is_byte t -> 0 <= ext < 2 ^ 16 -> 0 <= v <= 31 -> 0 < n ->
  bytes_ok (SectionSpec.table_bytes d) -> len (SectionSpec.table_bytes d) <= 171 ->
  (forall h, TableIDExtension h = ext -> wire_table h t d) ->
  let s := table_section t ext v n d in wire_section s /\ len (section_bytes s) < 184.
Proof.
  intros Ht He Hv Hn Hb Hl Hd s.
  set (h := {| CurrentNextIndicator := true; LastSectionNumber := 0; SectionNumber := 0;
               TableIDExtension := ext; VersionNumber := u8 v |}).
  assert (Eb : section_body s = syntax_bytes h ++ SectionSpec.table_bytes d) by done.
  assert (El : len (section_body s) = 5 + len (SectionSpec.table_bytes d)) by (by rewrite Eb, len_app, len_syntax).
  split; [split|].
  - done.
  - rewrite El. change (2 ^ 12) with 4096. lia.
  - rewrite head_start, Eb. repeat (apply Forall_app; split); try apply bytes_of_bits_ok; try done;
      try (constructor; [|constructor]); done || by apply octet_range.
  - exists h, d. split; [done|]. split; [|by apply Hd]. split; [exact He|]. cbn. rewrite u8_small by lia. lia.
  - rewrite len_section, El. lia.
Qed.

Lemma pat_section_wire : tables_ok -> wire_section pat_section /\ len (section_bytes pat_section) < 184.
Proof.
  intros [Ht _ [Hi _] (Hp & Hne & Hl) _ _ _]. destruct (next_version_ok _ Ht) as [_ Hv].
  apply table_wire; try done; [| |by intros h E; apply wire_table_pat].
  - unfold calcPATSectionLength. destruct (Programs announced_pat) as [|x l] eqn:E; [done|].
    rewrite len_programs, E in Hl. cbn [length] in *. unfold u16. rewrite ?Z.mod_small; lia.
  - apply pat_bytes_ok.
Qed.

Lemma pmt_section_wire : tables_ok -> wire_section pmt_section /\ len (section_bytes pmt_section) < 184.
Proof.
  intros [_ Ht [_ Hi] _ (Hp & Hb & Hl) _ _]. destruct (next_version_ok _ Ht) as [_ Hv].
  apply table_wire; try done; [|by intros h E; apply wire_table_pmt].
  rewrite (calc_pmt (pmt m)) by (done || lia). unfold pmt_bytes in *. rewrite !len_app, len_pid, len_descriptors in *.
  pose proof (len_range (ElementaryStreams (pmt m) ≫= stream_bytes)).
  pose proof (len_range (ProgramDescriptors (pmt m) ≫= descriptor_bytes)). lia.
Qed.

Definition pat_packet : Packet := sent PIDPAT (value (inc (table_cc (pat_table m)))) pat_section.
Definition pmt_packet : Packet := sent (pmtPID m) (value (inc (table_cc (pmt_table m)))) pmt_section.
Definition tables_bytes : list Z := packet_bytes pat_packet ++ packet_bytes pmt_packet.

(** The muxer after its tables. *)
Definition tabled (w : W) : Muxer W :=
  set_out w (set_pmt_table (written_table (packet_bytes pmt_packet) (pmt_table m))
    (set_pat_table (written_table (packet_bytes pat_packet) (pat_table m)) m)).

Lemma pat_packet_wire : tables_ok -> wire_packet pat_packet.
Proof.
  intros Hm. destruct (pat_section_wire Hm) as [Hs Hl].
  destruct (inc_counter 15 _ ltac:(lia) (proj1 (ok_pat_table Hm))) as (_ & Hv & _).
  by apply sent_wire; [..|lia].
Qed.

Lemma pmt_packet_wire : tables_ok -> wire_packet pmt_packet.
Proof.
  intros Hm. destruct (pmt_section_wire Hm) as [Hs Hl]. pose proof (ok_pmt_pid Hm) as Hp. unfold PIDCAT in Hp.
  destruct (inc_counter 15 _ ltac:(lia) (proj1 (ok_pmt_table Hm))) as (_ & Hv & _).
  apply sent_wire; [done..|lia|lia].
Qed.

Lemma WriteTables_run pre : tables_ok -> written (out m) pre None -> (length pre mod 8 = 0)%nat ->
  exists w', WriteTables (B := B) visit m = (Ok 376, tabled w')
    /\ written w' (pre ++ byte_bits tables_bytes) None.
Proof.
  intros Hm Hw Ha. destruct (pat_section_wire Hm) as [Hs1 Hl1]. destruct (pmt_section_wire Hm) as [Hs2 Hl2].
  pose proof (packet_bytes_ok _ (pat_packet_wire Hm)) as Hb1. pose proof (packet_bytes_ok _ (pmt_packet_wire Hm)) as Hb2.
  pose proof (length_packet_bytes _ (pat_packet_wire Hm)) as Hn1. pose proof (length_packet_bytes _ (pmt_packet_wire Hm)) as Hn2.
  pose proof (ok_pmt_pid Hm) as Hp. unfold PIDCAT in Hp.
  assert (Hcc : forall t, table_cc (next_version t) = table_cc t) by (intros t; unfold next_version; by destruct (updated t)).
  set (m1 := set_pat_table (written_table (packet_bytes pat_packet) (pat_table m)) m).
  set (m2 := set_pmt_table (written_table (packet_bytes pmt_packet) (pmt_table m)) m1).
  assert (E1 : generatePAT (B := B) visit m = (Ok tt, m1)).
  { unfold generatePAT. cbv zeta. fold announced_pat pat_section.
    rewrite (generate_run pat_section PIDPAT) by (done || (rewrite Hcc; apply Hm)). by rewrite Hcc. }
  assert (E2 : generatePMT (B := B) m1 = (Ok tt, m2)).
  { unfold generatePMT. change (pmt m1) with (pmt m). rewrite (ok_clock Hm). cbn [negb]. cbv zeta.
    change (pmt_table m1) with (pmt_table m). change (pmtPID m1) with (pmtPID m). fold pmt_section.
    rewrite (generate_run pmt_section (pmtPID m)) by (done || lia || (rewrite Hcc; apply Hm)). by rewrite Hcc. }
  destruct (io_written (packet_bytes pat_packet) (out m) pre Hb1 Ha Hw) as (w1 & Ew1 & Hw1).
  destruct (io_written (packet_bytes pmt_packet) w1 _ Hb2 ltac:(rewrite length_app, <- Nat.Div0.add_mod_idemp_l, Ha; apply aligned) Hw1)
    as (w2 & Ew2 & Hw2).
  exists w2. split; [|unfold tables_bytes; by rewrite byte_bits_app, app_assoc].
  unfold WriteTables. rewrite (bind_ok _ _ _ _ _ E1), (bind_ok _ _ _ _ _ E2), bind_unfold. cbn [get].
  rewrite (bind_ok _ _ _ (len (packet_bytes pat_packet)) (set_out w1 m2)) 
    by (unfold on_out; change (table_bytes (pat_table m2)) with (packet_bytes pat_packet);
        change (out m2) with (out m); by rewrite Ew1).
  rewrite (bind_ok _ _ _ (len (packet_bytes pmt_packet)) (set_out w2 m2))
    by (unfold on_out; change (table_bytes (pmt_table m2)) with (packet_bytes pmt_packet);
        change (out (set_out w1 m2)) with w1; by rewrite Ew2).
  unfold len. by rewrite Hn1, Hn2.
Qed.
End Muxing.

Lemma tabled_ok m w : tables_ok m -> tables_ok (tabled m w).
Proof. intros []. split; try done; by apply written_table_ok. Qed.
End Writing.

(** ** Reading the packet of a table *)
Section Reading.
Context {I : Type} `{BytesIteratorLaws I} `{Reader bytes_reader}.

Lemma gives_skip {B} (k : unit -> M I B) n i bs o b o' : at_offset i bs o ->
  (forall i', at_offset i' bs (o + n) -> gives (k tt i') bs b o') -> gives ((Skip n ≫= k) i) bs b o'.
Proof.
  intros Hi Hk. destruct (at_skip i bs o n Hi) as (i' & E & Hi'). rewrite (bind_ok _ _ _ _ _ E). by apply Hk.
Qed.

Lemma gives_left {B} (k : bool -> M I B) i bs o b o' : at_offset i bs o ->
  gives (k (o <? len bs) i) bs b o' -> gives ((gets HasBytesLeft ≫= k) i) bs b o'.
Proof. intros Hi. rewrite bind_unfold. unfold gets. by destruct (at_observe i bs o Hi) as (_ & _ & ->). Qed.

Context (s : PSISection) (Hs : wire_section s).
Let bs := section_payload s.
Let after : Z := 1 + len (section_bytes s).

(** What precedes and follows the section. *)
Lemma payload_parts : bs = [0] ++ section_bytes s ++ replicate (filler s) 0xff /\ len bs = after + Z.of_nat (filler s).
Proof.
  split; [done|]. subst bs after. unfold section_payload. rewrite !len_app.
  unfold len at 3. rewrite length_replicate. unfold len at 1. cbn [length]. lia.
Qed.

Lemma start_parts : exists w, section_start s = [TableID (section_Header s)] ++ w /\ length w = 2%nat
  /\ Z.land (be16 w 0) 0x0fff = len (section_body s) + 4.
Proof.
  eexists. split; [reflexivity|]. split; [by apply (length_group _ 2)|].
  pose proof (wire_size s Hs) as Hl. pose proof (len_range (section_body s)). change (2 ^ 12) with 4096 in Hl.
  rewrite (bytes_of_bits_word _ 2) by done. rewrite be16_word_bytes by apply byte_of_bits_range.
  rewrite (land_low _ 12) by done. remember (len (section_body s) + 4) as n eqn:En.
  assert (0 <= n < 4096) by lia. clear En.
  rewrite !byte_of_bits_app, !byte_of_bits_of, length_app, !length_bits_of.
  generalize (byte_of_bits [SectionSyntaxIndicator (section_Header s); PrivateBit (section_Header s)]). intros x.
  change (2 ^ Z.of_nat (2 + 12)) with 16384. change (2 ^ Z.of_nat 12) with 4096. change (2 ^ 12) with 4096.
  change (0xff mod 2 ^ Z.of_nat 2) with 3. Z.to_euclidean_division_equations. lia.
Qed.

Lemma not_stuffing : shouldStopPSIParsing (TableID (section_Header s)) = false.
Proof. destruct (wire_content s Hs) as (h & d & _ & _ & Ht). by apply table_tag in Ht as [? _]. Qed.

(** The byte after the section, if any, is filler. *)
Lemma filler_byte i : (0 < filler s)%nat -> at_offset i bs after ->
  exists i', NextByte i = (Ok 0xff, i') /\ at_offset i' bs (after + 1).
Proof.
  intros Hf Hi. destruct payload_parts as [Eb _]. destruct (filler s) as [|k] eqn:Ek; [lia|].
  change (replicate (S k) 0xff) with ([0xff] ++ replicate k 0xff) in Eb. rewrite app_assoc in Eb.
  rewrite Eb in Hi |- *. apply (reads_NextByte after 0xff); [|exact Hi].
  subst after. rewrite length_app. unfold len. cbn [length]. lia.
Qed.

(** The check for a complete section goes over it and stops at the filler. *)
Lemma section_skipped i : at_offset i bs 1 ->
  exists o, gives (skip_sections I i) bs tt o /\ o <= len bs.
Proof.
  intros Hi. destruct payload_parts as [Eb El]. destruct start_parts as (w & Es & Hw & Hn).
  unfold skip_sections. destruct (at_observe i bs 1 Hi) as (-> & -> & _). fold (len bs).
  pose proof (len_section s). pose proof (len_range (section_body s)).
  assert (En : exists k, (Z.to_nat (len bs - 1) + 1 = S (S k))%nat) by (exists (Z.to_nat (len bs - 1) - 1)%nat; subst after; lia).
  destruct En as [k ->]. rewrite iter_S.
  assert (G : gives (skip_section I tt i) bs (inl tt) after).
  { eapply gives_left; [exact Hi|]. rewrite (proj2 (Z.ltb_lt _ _)) by (subst after; lia).
    eapply (gives_bind _ _ _ _ _ _ _ _ _ [0]); [apply reads_NextByte|exact Hi|..].
    { rewrite Eb. unfold section_bytes. rewrite head_start, Es, <- !app_assoc. reflexivity. }
    { done. }
    clear i Hi. intros i Hi. rewrite not_stuffing.
    eapply (gives_bind _ _ _ _ _ _ _ _ _ ([0] ++ [TableID (section_Header s)])); [apply (reads_NextBytesNoCopy _ 2 w); by rewrite Hw|exact Hi|..].
    { rewrite Eb. unfold section_bytes. rewrite head_start, Es, <- !app_assoc. reflexivity. }
    { done. }
    clear i Hi. intros i Hi. eapply gives_skip; [exact Hi|]. clear i Hi. intros i Hi. rewrite Hn in Hi.
    exists i. split; [done|]. replace after with (1 + len [TableID (section_Header s)] + len w + (len (section_body s) + 4)); [exact Hi|].
    subst after. unfold len in *. rewrite Hw. cbn [length]. lia. }
  destruct G as (i1 & -> & Hi1). rewrite iter_S.
  destruct (decide (filler s = 0%nat)) as [E0|Hf].
  - exists after. split; [|lia].
    assert (G : gives (skip_section I tt i1) bs (inr tt) after).
    { eapply gives_left; [exact Hi1|]. rewrite (proj2 (Z.ltb_ge _ _)) by lia. by exists i1. }
    destruct G as (i2 & -> & Hi2). by exists i2.
  - exists (after + 1). split; [|lia]. destruct (filler_byte i1 ltac:(lia) Hi1) as (i2 & E2 & Hi2).
    assert (G : gives (skip_section I tt i1) bs (inr tt) (after + 1)).
    { eapply gives_left; [exact Hi1|]. rewrite (proj2 (Z.ltb_lt _ _)) by lia.
      rewrite (bind_ok _ _ _ _ _ E2). by exists i2. }
    destruct G as (i3 & -> & Hi3). by exists i3.
Qed.

Lemma section_unit p : Payload p = bs -> isPSIComplete I [p] = Ok true.
Proof.
  intros Ep. unfold isPSIComplete.
  assert (payload_of [p] = bs) as -> by (unfold payload_of; by rewrite bind_cons, app_nil_r).
  destruct payload_parts as [Eb El].
  assert (G : exists o, gives ((b ← NextByte; Skip b;; skip_sections I;; n ← gets Len; o ← gets Offset;
    mret (o <=? n)) (NewBytesIterator (I := I) bs)) bs true o); [|by destruct G as (o & i & -> & _)].
  destruct (reads_NextByte 0 0 (NewBytesIterator bs) [] (section_bytes s ++ replicate (filler s) 0xff)
    eq_refl (at_new bs)) as (i1 & E1 & Hi1).
  destruct (at_skip i1 bs 1 0 Hi1) as (i2 & E2 & Hi2).
  destruct (section_skipped i2 Hi2) as (o & (i3 & E3 & Hi3) & Ho). exists o.
  rewrite (bind_ok _ _ _ _ _ E1), (bind_ok _ _ _ _ _ E2), (bind_ok _ _ _ _ _ E3).
  eapply gives_len; [exact Hi3|]. eapply gives_offset; [exact Hi3|]. rewrite (proj2 (Z.leb_le _ _)) by done. by exists i3.
Qed.

(** What the parser makes of the filler. *)
Definition stuffing : PSISection :=
  {| CRC32 := 0;
     section_Header := {| PrivateBit := false; SectionLength := 0; SectionSyntaxIndicator := false;
                          TableID := 0xff; TableType := Type_ 0xff |};
     Syntax := None |}.

Definition parsed_sections : list PSISection := sealed s :: if (filler s =? 0)%nat then [] else [stuffing].

Lemma parse_filler i : (0 < filler s)%nat -> at_offset i bs after ->
  gives (parsePSISection i) bs (stuffing, true) (after + 1).
Proof.
  intros Hf Hi. destruct (filler_byte i Hf Hi) as (i' & E & Hi').
  assert (Eh : wrap_err "astits: parsing PSI section header failed" parsePSISectionHeader i
    = (Ok (section_Header stuffing, (after, 0, 0)), i')).
  { apply wrap_err_ok. unfold parsePSISectionHeader. rewrite bind_unfold. cbn [gets].
    destruct (at_observe i bs after Hi) as (-> & _).
    assert (En : next_byte i = (Ok 0xff, i')) by (by apply wrap_err_ok). by rewrite (bind_ok _ _ _ _ _ En). }
  unfold parsePSISection. rewrite (bind_ok _ _ _ _ _ Eh). by exists i'.
Qed.

Lemma parse_payload_sections i : at_offset i bs 1 -> exists o, gives (parse_sections i) bs parsed_sections o.
Proof.
  intros Hi. destruct payload_parts as [Eb El]. pose proof (len_section s). pose proof (len_range (section_body s)).
  unfold parse_sections, parsed_sections. destruct (at_observe i bs 1 Hi) as (-> & -> & _). fold (len bs).
  assert (En : exists k, (Z.to_nat (len bs - 1) + 1 = S (S (S k)))%nat)
    by (exists (Z.to_nat (len bs - 1) - 2)%nat; subst after; lia).
  destruct En as [k ->].
  match goal with |- context [iter _ ?f] => set (step := f) end. rewrite iter_S.
  assert (G : gives (step ([], false) i) bs (inl ([sealed s], false)) after).
  { subst step. cbv beta iota. eapply gives_left; [exact Hi|]. rewrite (proj2 (Z.ltb_lt _ _)) by (subst after; lia).
    cbn [negb andb]. eapply (gives_bind _ _ _ _ _ _ _ _ _ [0]); [by apply reads_wrap, reads_section|exact Hi|exact Eb|done|].
    clear i Hi. intros i Hi. by exists i. }
  destruct G as (i1 & -> & Hi1). rewrite iter_S. destruct (Nat.eqb_spec (filler s) 0) as [E0|Hf].
  - exists after. assert (G : gives (step ([sealed s], false) i1) bs (inr [sealed s]) after).
    { subst step. cbv beta iota. eapply gives_left; [exact Hi1|]. rewrite (proj2 (Z.ltb_ge _ _)) by lia. by exists i1. }
    destruct G as (i2 & -> & Hi2). by exists i2.
  - exists (after + 1). assert (G : gives (step ([sealed s], false) i1) bs (inl ([sealed s; stuffing], true)) (after + 1)).
    { subst step. cbv beta iota. eapply gives_left; [exact Hi1|]. rewrite (proj2 (Z.ltb_lt _ _)) by lia.
      cbn [negb andb]. eapply gives_wrap; [apply parse_filler; [lia|exact Hi1]|]. intros i' Hi'. by exists i'. }
    destruct G as (i2 & -> & Hi2). rewrite iter_S.
    assert (G : gives (step ([sealed s; stuffing], true) i2) bs (inr [sealed s; stuffing]) (after + 1)).
    { subst step. cbv beta iota. eapply gives_left; [exact Hi2|]. rewrite andb_false_r. by exists i2. }
    destruct G as (i3 & -> & Hi3). by exists i3.
Qed.

Lemma parse_section_payload : (parsePSIData (NewBytesIterator (I := I) bs)).1
  = Ok {| PointerField := 0; Sections := parsed_sections |}.
Proof.
  destruct (reads_NextByte 0 0 (NewBytesIterator bs) [] (section_bytes s ++ replicate (filler s) 0xff)
    eq_refl (at_new bs)) as (i1 & E1 & Hi1).
  destruct (at_skip i1 bs 1 0 Hi1) as (i2 & E2 & Hi2).
  destruct (parse_payload_sections i2 Hi2) as (o & i3 & E3 & _).
  assert (En : next_byte (NewBytesIterator (I := I) bs) = (Ok 0, i1)) by (by apply wrap_err_ok).
  unfold parsePSIData. rewrite (bind_ok _ _ _ _ _ En), (bind_ok _ _ _ _ _ E2), (bind_ok _ _ _ _ _ E3). done.
Qed.

(** The data of a table, and none of the filler. *)
Lemma section_to_data fp pid : toData {| PointerField := 0; Sections := parsed_sections |} fp pid
  = section_data fp pid (sealed s).
Proof.
  unfold toData, parsed_sections. cbn [Sections]. rewrite bind_cons. destruct (_ =? 0)%nat; [apply app_nil_r|].
  rewrite bind_cons. apply app_nil_r.
Qed.

Lemma parse_section_packet p pm : Payload p = bs -> isPSIPayload (PID (Header p)) pm = true ->
  PID (Header p) <> PIDCAT ->
  parse_payload I [p] pm [] = Ok (section_data (with_payload [] p) (PID (Header p)) (sealed s)).
Proof.
  intros Ep Hpsi Hcat. unfold parse_payload.
  assert (payload_of [p] = bs) as -> by (unfold payload_of; by rewrite bind_cons, app_nil_r).
  cbv zeta. rewrite (proj2 (Z.eqb_neq _ _) Hcat), Hpsi, parse_section_payload. cbn [wrap_outcome mbind outcome_bind].
  by rewrite section_to_data.
Qed.

(** The pool gives the packet of a table at once. *)
Lemma add_table pm pid counter pool : pool_ok pool -> queued pool pid = [] ->
  (pid =? PIDPAT) || existsUnlocked pm pid = true ->
  addUnlocked I (Some pm) (sent pid counter s) pool
  = Ok ([sent pid counter s], <[pid := newPacketAccumulator pid]> pool).
Proof.
  intros Hp Hq Hpid. unfold addUnlocked. cbn [sent table_packet Header TransportErrorIndicator HasPayload negb PID].
  fold (sent pid counter s). set (acc := default (newPacketAccumulator pid) (pool !! pid)).
  assert (Ha : acc = newPacketAccumulator pid).
  { subst acc. unfold queued in Hq. destruct (pool !! pid) as [[n l]|] eqn:E; [|done].
    destruct (Hp pid _ E) as [Hn _]. cbn in Hq, Hn |- *. by subst. }
  rewrite Ha. unfold add, newPacketAccumulator. cbn [q acc_pid]. unfold hasDiscontinuity.
  cbn [sent table_packet Header PID HasAdaptationField mbind outcome_bind list.last isSameAsPrevious].
  fold (sent pid counter s).
  assert (E : (if pid =? PIDNull then Ok false else Ok false) = Ok false) by by destruct (pid =? PIDNull).
  rewrite E. cbn [mbind outcome_bind isSameAsPrevious list.last PayloadUnitStartIndicator app]. rewrite Hpid.
  rewrite section_unit by done. done.
Qed.

Lemma table_data fuel dmx pid counter r d : standing dmx ->
  reader dmx = packet_bytes (sent pid counter s) ++ r -> wire_packet (sent pid counter s) ->
  queued (packet_pool dmx) pid = [] -> (pid =? PIDPAT) || existsUnlocked (program_map dmx) pid = true ->
  pid <> PIDCAT -> section_data (with_payload [] (sent pid counter s)) pid (sealed s) = [d] ->
  let dmx' := stage dmx (update_programs (program_map dmx) d)
                (<[pid := newPacketAccumulator pid]> (packet_pool dmx)) r in
  NextData I (S fuel) dmx = (Ok d, dmx') /\ standing dmx'
  /\ forall pid', queued (packet_pool dmx') pid' = queued (packet_pool dmx) pid'.
Proof.
  intros Hd Er Hw Hq Hpid Hcat Ed dmx'. pose proof (standing_pool _ Hd) as Hp.
  pose proof (add_table (program_map dmx) pid counter (packet_pool dmx) Hp Hq Hpid) as Ea.
  split; [|split].
  - rewrite first_round, Er by done. rewrite iter_S.
    rewrite (round_complete (S fuel) dmx _ _ _ _ _ [sent pid counter s] d Hw ltac:(lia) Hd ltac:(discriminate) Ea); [done|].
    rewrite parse_section_packet; [by rewrite <- Ed|done| |done]. unfold isPSIPayload.
    change (PID (Header (sent pid counter s))) with pid. by rewrite Hpid.
  - apply stage_standing; [done|]. intros k acc. destruct (decide (pid = k)) as [<-|Hne].
    + rewrite pool_insert_eq. by intros [= <-].
    + rewrite pool_insert_ne by done. apply Hp.
  - intros pid'. change (packet_pool dmx') with (<[pid := newPacketAccumulator pid]> (packet_pool dmx)).
    rewrite queued_insert. case_decide as E; [by subst|done].
Qed.
End Reading.

(** ** The programs that a demuxer knows *)
Lemma set_known (pm : programMap) k n pid :
  existsUnlocked (setUnlocked pm k n) pid = bool_decide (pid = k) || existsUnlocked pm pid.
Proof.
  unfold existsUnlocked, setUnlocked. destruct (decide (pid = k)) as [->|Hne].
  - rewrite (bool_decide_eq_true_2 (k = k)) by done. apply bool_decide_eq_true.
    assert (E : <[k := n]> pm !! k = Some n) by apply (lookup_insert_eq (M := gmap Z)). by rewrite E.
  - rewrite (bool_decide_eq_false_2 (pid = k)) by done. cbn [orb]. f_equal.
    assert (E : <[k := n]> pm !! pid = pm !! pid) by (by apply (lookup_insert_ne (M := gmap Z))). by rewrite E.
Qed.

Lemma known_kept l pm pid : existsUnlocked pm pid = true ->
  existsUnlocked (foldl (fun pm pgm => if 0 <? pat_ProgramNumber pgm
    then setUnlocked pm (ProgramMapID pgm) (pat_ProgramNumber pgm) else pm) pm l) pid = true.
Proof.
  revert pm. induction l as [|x l IH]; intros pm Hk; [done|]. cbn [foldl]. apply IH.
  destruct (0 <? _); [|done]. rewrite set_known, Hk. apply orb_true_r.
Qed.

Lemma known_programs l pm pid n : 0 < n -> (pid, n) ∈ (fun x => (ProgramMapID x, pat_ProgramNumber x)) <$> l ->
  existsUnlocked (foldl (fun pm pgm => if 0 <? pat_ProgramNumber pgm
    then setUnlocked pm (ProgramMapID pgm) (pat_ProgramNumber pgm) else pm) pm l) pid = true.
Proof.
  intros Hn. revert pm. induction l as [|x l IH]; intros pm Hin; [by apply elem_of_nil in Hin|].
  rewrite fmap_cons in Hin. apply elem_of_cons in Hin as [Ex|Hin]; [|by apply IH].
  injection Ex as -> ->. cbn [foldl]. apply known_kept. rewrite (proj2 (Z.ltb_lt _ _) Hn).
  rewrite set_known. by rewrite bool_decide_eq_true_2.
Qed.

Lemma pat_programs pm d pat pid n : data_PAT d = Some pat -> 0 < n ->
  (pid, n) ∈ (fun x => (ProgramMapID x, pat_ProgramNumber x)) <$> Programs pat ->
  existsUnlocked (update_programs pm d) pid = true.
Proof. intros E Hn Hin. unfold update_programs. rewrite E. by apply (known_programs _ _ _ n). Qed.

(** ** What comes out *)
Definition table_result (p : Packet) (pid : Z) (pat : option PATData) (pmt : option PMTData) : DemuxerData :=
  {| data_EIT := None; FirstPacket := with_payload [] p; data_NIT := None; data_PAT := pat;
     data_PES := None; data_PID := pid; data_PMT := pmt; data_SDT := None; data_TOT := None |}.

(** C40: [WriteTables] writes two packets, and leaves the muxer ready to write them
    again.  A demuxer that reads them gives the programs of the muxer with its PAT, and
    then its elementary streams with the PMT, whose PID it has learnt from the PAT; the
    reader stands right after them, and the pool is as before. *)
Theorem tables_demux {B} `{BufferWriterLaws B} {W} `{IOWriterLaws W} {I} `{BytesIteratorLaws I}
    `{Reader bytes_reader} visit (m : Muxer W) pre n :
  tables_ok visit m -> written (out m) pre None -> (length pre mod 8 = 0)%nat ->
  0 < n -> (pmtPID m, n) ∈ visit (pm m) ->
  exists l m', WriteTables (B := B) visit m = (Ok (len l), m')
    /\ written (out m') (pre ++ byte_bits l) None /\ tables_ok visit m'
    /\ forall dmx r fuel, standing dmx -> reader dmx = l ++ r ->
         queued (packet_pool dmx) PIDPAT = [] -> queued (packet_pool dmx) (pmtPID m) = [] ->
         exists dmx1 dmx2,
           NextData I (S fuel) dmx
             = (Ok (table_result (pat_packet visit m) PIDPAT (Some (announced_pat visit m)) None), dmx1)
           /\ NextData I (S fuel) dmx1
             = (Ok (table_result (pmt_packet m) (pmtPID m) None (Some (pmt m))), dmx2)
           /\ standing dmx2 /\ reader dmx2 = r
           /\ existsUnlocked (program_map dmx2) (pmtPID m) = true
           /\ forall pid, queued (packet_pool dmx2) pid = queued (packet_pool dmx) pid.
Proof.
  intros Hm Hw Ha Hn Hin. destruct (WriteTables_run visit m pre Hm Hw Ha) as (w' & E & Hw').
  pose proof (pat_packet_wire visit m Hm) as Hp1. pose proof (pmt_packet_wire visit m Hm) as Hp2.
  exists (tables_bytes visit m), (tabled visit m w'). split_and!.
  - rewrite E. unfold len, tables_bytes. by rewrite length_app, !length_packet_bytes.
  - exact Hw'.
  - by apply tabled_ok.
  - intros dmx r fuel Hd Er Hq1 Hq2. unfold tables_bytes in Er. rewrite <- app_assoc in Er.
    destruct (pat_section_wire visit m Hm) as [Hs1 _]. destruct (pmt_section_wire visit m Hm) as [Hs2 _].
    pose proof (ok_pmt_pid _ _ Hm) as Hpid.
    destruct (table_data (pat_section visit m) Hs1 fuel dmx PIDPAT _ _
      (table_result (pat_packet visit m) PIDPAT (Some (announced_pat visit m)) None) Hd Er Hp1 Hq1)
      as (E1 & Hd1 & Hk1); [done..|].
    match type of E1 with _ = (_, ?x) => set (dmx1 := x) in * end.
    assert (Hex : existsUnlocked (program_map dmx1) (pmtPID m) = true).
    { apply (pat_programs _ _ (announced_pat visit m) _ n); [done|done|]. unfold announced_pat, toPATDataUnlocked.
      cbn [Programs]. rewrite <- list_fmap_compose. apply list_elem_of_fmap. by exists (pmtPID m, n). }
    destruct (table_data (pmt_section m) Hs2 fuel dmx1 (pmtPID m) _ r
      (table_result (pmt_packet m) (pmtPID m) None (Some (pmt m))) Hd1 eq_refl Hp2)
      as (E2 & Hd2 & Hk2).
    + by rewrite Hk1.
    + rewrite Hex. apply orb_true_r.
    + lia.
    + done.
    + eexists dmx1, _. split; [exact E1|]. split; [exact E2|]. split; [exact Hd2|]. split; [done|].
      split; [exact Hex|]. intros pid. by rewrite Hk2, Hk1.
Qed.

(** ** Witness *)
Import Reference MuxerExample.

#[export] Instance bits_output_laws : IOWriterLaws bits.
Proof.
  split. intros l w pre _ _ Hw. cbn [io_Write bits_output].
  destruct (written_write (WBytes l) w pre None Hw) as (w' & E & Hw'). exists w'.
  by rewrite (bind_ok _ _ _ _ _ E).
Qed.

Lemma muxer_tables_ok : tables_ok map_to_list muxer.
Proof.
  split.
  - split; [|split; [|by left]]; (split; [done|by_decide]).
  - split; [|split; [|by left]]; (split; [done|by_decide]).
  - by_decide.
  - split; [|split; [by intros E%(f_equal length)|by_decide]].
    apply List.Forall_cons; [by_decide|constructor].
  - split; [|split; by_decide].
    split; [by_decide|]. split; [by split|].
    apply List.Forall_cons; [|constructor]. split; [by_decide|by split].
  - done.
  - by_decide.
Qed.

Lemma tables_demux_witness : tables_ok map_to_list muxer
  /\ exists l m' dmx1 dmx2,
       WriteTables (B := bits) map_to_list muxer = (Ok (len l), m')
       /\ NextData iterator 1 (new_demuxer l)
          = (Ok (table_result (pat_packet map_to_list muxer) PIDPAT (Some (announced_pat map_to_list muxer)) None), dmx1)
       /\ NextData iterator 1 dmx1
          = (Ok (table_result (pmt_packet muxer) (pmtPID muxer) None (Some (pmt muxer))), dmx2)
       /\ reader dmx2 = [].
Proof.
  split; [exact muxer_tables_ok|].
  assert (Hw : written (out muxer) [] None) by (vm_compute; reflexivity).
  assert (Hin : (pmtPID muxer, 1) ∈ map_to_list (pm muxer)) by by_decide.
  destruct (tables_demux (B := bits) (W := bits) (I := iterator) map_to_list muxer [] 1 muxer_tables_ok
    Hw eq_refl ltac:(lia) Hin) as (l & m' & E & _ & _ & Hl).
  destruct (Hl (new_demuxer l) [] 0%nat) as (dmx1 & dmx2 & E1 & E2 & _ & Er & _);
    [..|exact (ex_intro _ l (ex_intro _ m' (ex_intro _ dmx1 (ex_intro _ dmx2 (conj E (conj E1 (conj E2 Er)))))))].
  - apply new_standing.
  - by rewrite app_nil_r.
  - done.
  - done.
Defined.
